(* ===== verification/_CoqProject ===== *)
-Q . S2P
Prelude.v
Paths.v
Domain.v
Text.v
Jobs.v
Config.v
Safety.v
Policy.v
Auth.v
Planner.v
Resource.v
RateLimiter.v
Store.v
StoreOpen.v
Effects.v
Fs.v
Platform.v
Catalog.v
Verifier.v
Executor.v
MemFs.v
ExecutorProps.v
DaemonConfig.v
ConfigFile.v
ConfigToml.v
Recovery.v
Scanner.v
Scheduler.v
Cancellation.v
Pipeline.v
PipelineProps.v
Idle.v
Clock.v
Ipc.v
Psi.v
Hardware.v
Metrics.v
Freezer.v
Tuning.v
Cgroup.v
Storage.v
Pidfile.v
Logs.v
EventLoop.v
Threads.v
Daemon.v
Reactor.v
DaemonProps.v
DaemonRuns.v
Ledger.v
JobServer.v
Progress.v
ConfigRuns.v
IpcCall.v
Control.v
Startup.v
Host.v
Screens.v
Cli.v
