(* ===== verification/Prelude.v ===== *)
(** Verification of the cache cleaner.

    The program is an Android daemon, with a command line, that deletes cache
    files of applications and of the system.  Its core is a pipeline
    (src/src/pipeline/mod.rs) that a request runs through:

      discover targets -> admit and claim a job -> scan -> safety gate -> policy
        -> plan -> authorize -> execute -> verify -> record

    and a recovery pass at start-up for what a crash interrupted.  Around it is the
    daemon: an event loop that watches the screen, the charger, memory pressure,
    timers and signals, a control socket, and worker threads that run the pipeline
    on a shared context.  The command line (src/src/cli/) starts, stops and asks the
    daemon through its socket, or runs the pipeline itself when there is none.  This
    library models the pipeline, the daemon and the command line as executable
    functions and programs of atomic sections, names them as the source does, and
    proves what makes them safe and correct.

    * Files

    Pure stages, with their data:
    - Prelude: u64 arithmetic (wrapping, saturating, checked), the [result] type,
      strings as bytes, sorting, and the tactics and lemmas the files share.
    - Paths: [std::path] on Unix as the code uses it, and [RelativePath] of
      domain/types.rs.
    - Domain: the data of domain/*.rs and error.rs; [fault] adds panics to errors;
      [f32] is IEEE single precision from Stdlib's SpecFloat.
    - Jobs: the job state machine of domain/job.rs.
    - Config, DaemonConfig, ConfigFile: the configuration of a job
      (config_pipeline/mod.rs) and of the daemon (config.rs), and its file: loading
      with fallbacks, reloading, saving through a temporary file on a volume that
      crashes; the TOML text is the interface [TomlCodec].
    - ConfigToml: both configurations as TOML tables, field by field as the serde
      attributes say, next to what the documentation says of them; the library's
      treatment of texts and single values is the class [Toml].
    - Safety, Policy, Auth, Planner: safety/mod.rs, policy/mod.rs, auth/mod.rs,
      planner/mod.rs.
    - Resource, RateLimiter: descriptor permits and locks (resource/mod.rs), with
      the [Drop] implementations as explicit operations, and the token bucket
      (util/rate_limiter.rs) in IEEE double precision.
    - Store: the SQLite store (store/mod.rs, store/schema.rs), tables as maps and
      lists, each method as the transaction it runs, with constraint violations,
      integer ranges and refused statements.
    - StoreOpen: opening the store, its pragmas, schema and migrations, statement by
      statement on a database of an earlier schema.
    - Logs: the log file with its rotation (util/logger.rs), the audit trail
      (audit/mod.rs) and the shadow comparison (shadow/mod.rs), over names and
      open files.
    - Cancellation: the cancellation token (engine/cancellation.rs), a step
      relation over its atomic accesses.
    - Idle: idle detection (system/idle/), when maintenance may run.
    - Clock: the clocks (util/time.rs), the copies of a test clock sharing one
      counter, and the idle manager on such a clock.
    - Ipc: the control socket (ipc/protocol.rs, ipc/server.rs), frames, access
      control and the worker limit.
    - IpcCall: the socket from end to end: binding, the server's side of a connection
      and the client (ipc/server.rs, ipc/client.rs).

    The device, as files that a query reads:
    - Text: strings, numbers and floats of the Rust standard library as the parsers
      use them, and [Sys], the files of /proc and /sys during one query.
    - Psi, Hardware, Metrics, Freezer, Cgroup, Storage: pressure (system/psi.rs);
      uevents, charger, screen and temperatures (hardware/uevent.rs, thermal.rs,
      telemetry.rs); the daemon's own usage (system/proc_metrics.rs); frozen apps
      and properties (system/freezer.rs, platform/android_prop.rs); control groups
      and the memory optimizer (system/cgroup.rs, engine/memory.rs); trimming
      (engine/storage.rs).
    - Tuning: F2FS garbage collection with its guard, SELinux, the privilege platforms
      as a class with three instances, the system summary and the priorities
      (hardware/f2fs.rs, platform/selinux.rs, platform/privilege.rs,
      platform/android_prop.rs, system/governor.rs).
    - Pidfile: the lock that keeps a second daemon out (system/pidfile.rs), a step
      relation over system calls of several processes, which start, query, clean up
      and exit.

    The daemon:
    - EventLoop: the loop's state machine, deadlines and timer
      (system/event_loop.rs, system/signals.rs).
    - Threads: programs of atomic sections, run alone or interleaved with any number
      of others, with threads that arrive and spawns that fail.
    - Daemon: the shared context, its commands and workers (system/daemon_state.rs),
      over the interface [CleanEngine].
    - Reactor: the two loops that drive all this (system/event_loop.rs).
    - DaemonProps, DaemonRuns: the ownership discipline, the slot and the answers as an
      abstract server, the runs of the whole daemon, and the pipeline as the instance of
      [CleanEngine] (engine/mod.rs), which records the inputs and results of its calls.
    - Ledger: what clients are told about the cleanings, over every run: a discipline
      in which each thread carries what it owes the books.
    - JobServer: the whole contract of the threads with their clients, slot, jobs and
      results, and the forward simulation that shows that they implement it.
    - Progress: the daemon can always finish what is open: a discipline in which each
      thread carries the locks, the slot and the answers it is responsible for.
    - ConfigRuns: the configuration in use, over every run of the daemon.
    - Startup: the life of the process from the lock to its release, with the
      descriptors it opens (system/watcher.rs and the ends of system/event_loop.rs).
    - Host: the timer and the signals that wake the loop (system/event_loop.rs,
      system/signals.rs), the allocator (util/io_fast.rs) and the logger's records
      (util/logger.rs).

    The command line:
    - Control: starting, stopping, reloading and cleaning (cli/daemon_ctrl.rs,
      cli/clean.rs), a monad over a desk that numbers, times and records the calls;
      what processes, files and the daemon answer to each call is arbitrary.
    - Screens: what is printed, line by line, and sizes to the character
      (cli/output.rs, cli/diagnostics.rs, util/io_fast.rs).
    - Cli: the commands, their dispatch, and the explanation of a path (cli/args.rs,
      cli/mod.rs, cli/diagnostics.rs).

    Stages with effects:
    - Effects: the world.  [Kernel] is the class of the system calls and [Env] the
      clock, SQLite's refusals and cancellation; both are arbitrary, so theorems
      hold whatever other processes do between two calls.  [M] is the state monad
      over the world, [wp] its weakest precondition.  The world keeps a history of
      opens, stats and removals that only the theorems read.
    - Fs: descriptor-relative file access (fs/mod.rs).
    - Platform, Catalog: users and encryption (platform/users.rs,
      platform/encryption.rs), discovery of targets (catalog/mod.rs).
    - Verifier, Executor, ExecutorProps: verifier/mod.rs, executor/mod.rs.
    - MemFs: a concrete kernel, a file system in memory, for the examples.
    - Recovery, Scanner, Scheduler: recovery/mod.rs, scanner/mod.rs,
      scheduler/mod.rs with worker/mod.rs.
    - Pipeline, PipelineProps: pipeline/mod.rs with the reports of
      ipc/protocol.rs, and the properties of whole calls.

    * What is shown

    - Deletion (PipelineProps, ExecutorProps): every removal issued has its story in the
      stages of the very call: of an entry its own scan returned, allowed by policy and
      both gates at the time it read, in the plan it built, granted, under its lock,
      identity-checked immediately before, reached without links, and already in the
      store as an intent; success is reported only for what was verified gone; the
      result of a run is the account of its steps; locks and descriptors come back
      however a run ends; cancellation stops all effects; with no job queued, a dry run
      removes nothing.
    - Planning (Planner): exactly the permitted entries, children first,
      independent of the order of arrival, failing only over budget.
    - Gates (Safety, Policy, Auth, Paths, Config): each accepts exactly what its
      contract says.
    - Durability (Store, Scheduler, Recovery): no sequence of calls breaks the
      schema or loses an intent; intents and leases behave; recovery returns,
      resolves every interrupted attempt from the disk and is idempotent; opening
      loses no row, resumes after any failure and upgrades earlier schemas exactly when
      no two intents share attempt and number (StoreOpen); saving a configuration to a
      target that does not end in .tmp is atomic, also when the machine crashes, files
      mean what is documented, and what is written is read back (ConfigToml).
    - Discovery and scanning (Catalog, Scanner): what they yield is confined,
      bounded and of the right generation; streaming equals collecting.
    - Concurrency (Resource, Cancellation, Ipc): no interleaving gives two holders
      of a lock or more than four workers; the first cancellation reason wins
      unless a reset races.
    - The daemon (DaemonProps, DaemonRuns): in every state its threads can reach, each
      follows the ownership discipline of the cleaning slot, cleanings never overlap,
      every removal of every cleaning is justified as above, every step is at most one
      step of a job server whose answers are final and real (JobServer), an answer that a
      job is completed is the result of a recorded call with its parameters whose numbers
      are those of that call's own execution, the totals are the sum over all calls
      (Ledger), the configuration in use has passed validation (ConfigRuns), and as long
      as threads can be started the daemon can finish every open job (Progress);
      whichever calls fail at start, one loop runs under the lock and every descriptor is
      closed (Startup).
    - The loop and the device (EventLoop, Pidfile, Psi, Hardware, Metrics, Freezer,
      Cgroup, Storage): the loop's state stays consistent and its timer never spins;
      one instance among daemons that start together, with queries between them; the
      loop is not woken before its deadline, and soon after (Host); the parsers read back what the
      kernel writes; reclaims are bounded; the trim cooldown holds over restarts.
    - The daemon's edge (Idle, Ipc): the exact conditions of maintenance, the grace
      period over every history of events; frames round trip and are bounded, and
      a command reaches the handler only with the privilege it needs.
    - The command line (Control, IpcCall, Screens, Cli, Logs, Host, Tuning): a call returns
      exactly the handler's answer or the refusal for its case; stopping ends, escalates
      with patience and signals only the number in the pid file, which is one process if
      it is below 2^31; a clean happens once and in one place; the log holds lines that
      were logged in their order, and the most recent ones in bounded files when no call
      fails; the guard of the garbage collection restores every mode; sizes are accurate.
    - Shown defects: a job is never taken out of the queue, so a dry run can delete
      and a configuration change blocks all later runs (PipelineProps); accepted
      configurations that every job rejects and protected names without effect
      (DaemonConfig); a target that can never be cleaned (Catalog); an intent that
      makes recovery panic (Store); a failed spawn that blocks cleaning for good and a
      shutdown that a racing request survives (DaemonRuns); two daemons after an
      unlucky shutdown or clean-up, and a query that makes a start fail (Pidfile); a dry
      run counted as freed (Ledger); a retry that skips a cycle (EventLoop); a cold
      battery read as hot (Hardware); an impostor at the abstract socket (IpcCall); a
      client that waits forever, a stop that can signal every process (Control); an
      explanation that is blind to age (Cli); an audit trail that falls silent (Logs);
      a pause that does not pause (RateLimiter); a database that never opens again
      (StoreOpen).

    * Bounds

    Recursion is structural everywhere: the scanner's only fuel is its own depth
    limit of 16 levels, which is the code's, and the loops of the daemon recurse on
    the list of what their waits return, which is arbitrary.  The waits of the command
    line have rounds: 16 of 100 ms for the 1.5 s of stopping and 18 of 150 ms for the
    2.5 s of starting, and [stop_escalates] and [start_spec] prove that they always
    suffice, since time passes at least as fast as it is slept; the client's polling,
    which has no limit in the code, takes any number of rounds.  The trimming of white
    space counts characters, for which the length of the string is enough.  Machine
    integers are [N] or [Z] with the wrap, saturation or check of the source written
    out; SQLite integers are checked against the signed 64-bit range.  Theorems that
    need job numbers to be fresh exclude runs of 2^64 steps.  Lists and identifiers
    have the code's own limits (50000 candidates, 10000 operations, 5000 packages).

    * What is not modelled

    The text of serde's formats and its treatment of single values (JSON and TOML are
    parameters that read back what they wrote; for JSON only of finite numbers), the
    kernel's timers (any with the laws of [TimerKernel]), what env_logger makes of RUST_LOG,
    the layout of printed lines, what clap makes of the arguments, and the inside of
    descriptors and sockets beyond who is at the other end.  For a call of the
    pipeline, the frozen processes and the result of trimming are arbitrary; Freezer
    and Storage model how they are obtained. *)
From stdpp Require Export base gmap strings list sorting pretty.
From Stdlib Require Export NArith Lia.
From Stdlib Require Import Ascii String.

#[global] Set Default Goal Selector "!".
#[global] Arguments String.append : simpl nomatch.

Declare Scope cleaner_scope.
Delimit Scope cleaner_scope with cleaner.
Open Scope N_scope.
Open Scope cleaner_scope.

(** ** Results *)

(** [Result<T, E>] of the Rust core library. *)
Inductive result (E A : Type) : Type :=
| Ok (a : A)
| Err (e : E).
Arguments Ok {E A} a.
Arguments Err {E A} e.

Definition is_ok {E A} (r : result E A) : bool :=
  match r with Ok _ => true | Err _ => false end.

Definition result_ok {E A} (r : result E A) : option A :=
  match r with Ok a => Some a | Err _ => None end.

Definition result_bind {E A B} (r : result E A) (k : A -> result E B) : result E B :=
  match r with Ok a => k a | Err e => Err e end.

Definition result_map_err {E F A} (f : E -> F) (r : result E A) : result F A :=
  match r with Ok a => Ok a | Err e => Err (f e) end.

(** The [?] operator on a pure result. *)
Notation "'try!' x := r 'in' k" := (result_bind r (fun x => k))
  (at level 10, x pattern, r at level 100, k at level 200,
   format "'try!'  x  :=  r  'in' '//' k") : cleaner_scope.

Lemma result_bind_ok {E A B} (r : result E A) (k : A -> result E B) b :
  result_bind r k = Ok b <-> exists a, r = Ok a /\ k a = Ok b.
Proof. destruct r; simpl; split; [by eauto | by intros (? & [=-> ] & ?) | done | by intros (? & ? & ?)]. Qed.

(** ** Machine integers

    A [u64] is an [N] below 2^64.  The operations below are those of the Rust
    integer types; [wrap_add] is the plain [+] of the release profile, in which
    overflow checks are off. *)
Definition U64_MAX : N := 18446744073709551615.
Definition I64_MAX : N := 9223372036854775807.
Definition U64_MOD : N := 18446744073709551616.

Definition saturating_add (a b : N) : N := N.min (a + b) U64_MAX.
Definition saturating_sub (a b : N) : N := a - b.
Definition saturating_mul (a b : N) : N := N.min (a * b) U64_MAX.
Definition checked_add (a b : N) : option N :=
  if a + b <=? U64_MAX then Some (a + b) else None.
Definition wrap_add (a b : N) : N := (a + b) mod U64_MOD.
Definition wrap_sub (a b : N) : N := (a + (U64_MOD - b mod U64_MOD)) mod U64_MOD.
Definition wrap_shl (a k : N) : N := N.shiftl a k mod U64_MOD.
Definition u64 (a : N) : Prop := a <= U64_MAX.

Lemma saturating_add_u64 a b : u64 (saturating_add a b).
Proof. unfold u64, saturating_add. lia. Qed.
Lemma saturating_add_ge_l a b : u64 a -> a <= saturating_add a b.
Proof. unfold u64, saturating_add. lia. Qed.
Lemma saturating_add_le a b : saturating_add a b <= a + b.
Proof. unfold saturating_add. lia. Qed.
Lemma saturating_add_exact a b : a + b <= U64_MAX -> saturating_add a b = a + b.
Proof. unfold saturating_add. lia. Qed.
Lemma saturating_add_assoc a b c :
  saturating_add (saturating_add a b) c = saturating_add a (saturating_add b c).
Proof. unfold saturating_add. lia. Qed.
Lemma saturating_add_comm a b : saturating_add a b = saturating_add b a.
Proof. unfold saturating_add. lia. Qed.
Lemma wrap_add_u64 a b : u64 (wrap_add a b).
Proof.
  unfold u64, wrap_add. pose proof (N.mod_lt (a + b) U64_MOD).
  unfold U64_MOD, U64_MAX in *. lia.
Qed.
Lemma wrap_add_exact a b : a + b <= U64_MAX -> wrap_add a b = a + b.
Proof. intros H. unfold wrap_add. apply N.mod_small. unfold U64_MOD, U64_MAX in *. lia. Qed.

Create HintDb u64.
#[export] Hint Resolve saturating_add_u64 wrap_add_u64 saturating_add_le : u64.

(** Sum of a list of [u64]s with saturation, folded from the left as the code's
    accumulators do. *)
Definition saturating_sum (l : list N) : N := fold_left saturating_add l 0.

Lemma saturating_sum_fold l a : u64 a ->
  fold_left saturating_add l a = N.min (a + foldr N.add 0 l) U64_MAX.
Proof.
  revert a. induction l as [|x l IH]; simpl; intros a Ha.
  - unfold u64 in Ha. lia.
  - rewrite IH by auto with u64. unfold saturating_add. lia.
Qed.

(** ** Strings

    A Rust [str] is its UTF-8 byte sequence; a [string] is a sequence of bytes.
    [len] counts bytes and [Ord] compares bytes, as in Rust. *)
Definition byte_at (c : ascii) : N := N_of_ascii c.

Definition str_len (s : string) : N := N.of_nat (String.length s).
Definition str_is_empty (s : string) : bool :=
  match s with EmptyString => true | _ => false end.

Fixpoint str_contains_char (c : ascii) (s : string) : bool :=
  match s with
  | EmptyString => false
  | String d s' => Ascii.eqb c d || str_contains_char c s'
  end.

(** [str::starts_with], [str::ends_with] and [str::contains] with a string
    pattern. *)
Fixpoint str_starts_with (s p : string) : bool :=
  match p, s with
  | EmptyString, _ => true
  | String c p', String d s' => Ascii.eqb c d && str_starts_with s' p'
  | String _ _, EmptyString => false
  end.

Fixpoint str_ends_with (s p : string) : bool :=
  String.eqb s p ||
  match s with EmptyString => false | String _ s' => str_ends_with s' p end.

Fixpoint str_contains (s p : string) : bool :=
  str_starts_with s p ||
  match s with EmptyString => false | String _ s' => str_contains s' p end.

(** [str::split(c)]: the pieces between the separators, never empty. *)
Fixpoint str_split (c : ascii) (s : string) : list string :=
  match s with
  | EmptyString => [EmptyString]
  | String d s' =>
      if Ascii.eqb c d then EmptyString :: str_split c s'
      else match str_split c s' with
           | [] => [String d EmptyString]
           | p :: ps => String d p :: ps
           end
  end.

(** [str::replace(c, d)] on single bytes. *)
Fixpoint str_replace_char (c d : ascii) (s : string) : string :=
  match s with
  | EmptyString => EmptyString
  | String e s' => String (if Ascii.eqb e c then d else e) (str_replace_char c d s')
  end.

(** [str::split_once(c)]. *)
Fixpoint str_split_once (c : ascii) (s : string) : option (string * string) :=
  match s with
  | EmptyString => None
  | String d s' =>
      if Ascii.eqb c d then Some (EmptyString, s')
      else match str_split_once c s' with
           | Some (a, b) => Some (String d a, b)
           | None => None
           end
  end.

Definition ascii_lower (c : ascii) : ascii :=
  let n := byte_at c in
  if (65 <=? n) && (n <=? 90) then ascii_of_N (n + 32) else c.

Fixpoint eq_ignore_ascii_case (a b : string) : bool :=
  match a, b with
  | EmptyString, EmptyString => true
  | String c a', String d b' =>
      Ascii.eqb (ascii_lower c) (ascii_lower d) && eq_ignore_ascii_case a' b'
  | _, _ => false
  end.

(** [s.trim().is_empty()]: every character of [s] has the Unicode property
    White_Space.  The encodings are those of U+0009..U+000D, U+0020, U+0085,
    U+00A0, U+1680, U+2000..U+200A, U+2028, U+2029, U+202F, U+205F and U+3000. *)
Fixpoint trim_is_empty (s : string) : bool :=
  match s with
  | EmptyString => true
  | String a s1 =>
      let x := byte_at a in
      if ((9 <=? x) && (x <=? 13)) || (x =? 32) then trim_is_empty s1
      else match s1 with
           | String b s2 =>
               let y := byte_at b in
               if (x =? 194) && ((y =? 133) || (y =? 160)) then trim_is_empty s2
               else match s2 with
                    | String c s3 =>
                        let z := byte_at c in
                        if ((x =? 225) && (y =? 154) && (z =? 128))
                           || ((x =? 226) && (y =? 128)
                               && (((128 <=? z) && (z <=? 138))
                                   || (z =? 168) || (z =? 169) || (z =? 175)))
                           || ((x =? 226) && (y =? 129) && (z =? 159))
                           || ((x =? 227) && (y =? 128) && (z =? 128))
                        then trim_is_empty s3 else false
                    | EmptyString => false
                    end
           | EmptyString => false
           end
  end.

(** [s.chars().any(|c| c.is_control())]: U+0000..U+001F, U+007F and
    U+0080..U+009F, the last encoded C2 80..C2 9F. *)
Fixpoint has_control (s : string) : bool :=
  match s with
  | EmptyString => false
  | String a s1 =>
      let x := byte_at a in
      (x <? 32) || (x =? 127)
      || ((x =? 194) && match s1 with
                        | String b _ => (128 <=? byte_at b) && (byte_at b <=? 159)
                        | EmptyString => false
                        end)
      || has_control s1
  end.

(** [str::from_utf8(s).is_ok()]: the well-formed sequences of the Unicode
    standard (table 3-7), no overlong forms and no surrogates. *)
Definition utf8_tail (x : N) : bool := (128 <=? x) && (x <=? 191).
Fixpoint is_utf8 (s : string) : bool :=
  match s with
  | EmptyString => true
  | String a s1 =>
      let x := byte_at a in
      if x <? 128 then is_utf8 s1
      else match s1 with
      | EmptyString => false
      | String b s2 =>
          let y := byte_at b in
          if (194 <=? x) && (x <=? 223) then utf8_tail y && is_utf8 s2
          else match s2 with
          | EmptyString => false
          | String c s3 =>
              let z := byte_at c in
              if (224 <=? x) && (x <=? 239) then
                ((if x =? 224 then 160 else 128) <=? y)
                && (y <=? (if x =? 237 then 159 else 191)) && utf8_tail z && is_utf8 s3
              else match s3 with
              | EmptyString => false
              | String d s4 =>
                  (240 <=? x) && (x <=? 244)
                  && ((if x =? 240 then 144 else 128) <=? y)
                  && (y <=? (if x =? 244 then 143 else 191))
                  && utf8_tail z && utf8_tail (byte_at d) && is_utf8 s4
              end
          end
      end
  end.

Definition NUL : ascii := ascii_of_N 0.
Definition LF : ascii := ascii_of_N 10.
Definition SLASH : ascii := "/"%char.

Lemma str_starts_with_spec s p :
  str_starts_with s p = true <-> exists r, s = p +:+ r.
Proof.
  revert s. induction p as [|c p IH]; intros [|d s]; simpl.
  - split; [by exists EmptyString | done].
  - split; [by eexists | done].
  - split; [done | by intros [r ?]].
  - rewrite andb_true_iff, Ascii.eqb_eq, IH. split.
    + intros [-> [r ->]]. by exists r.
    + intros [r [= -> ->]]. eauto.
Qed.

Lemma str_split_nonempty c s : str_split c s <> [].
Proof. destruct s; simpl; [done|]. case_match; [done|]. by case_match. Qed.

(** Splitting a text with a separator in the middle splits both sides. *)
Lemma str_split_app c a b :
  str_split c (a +:+ String c b) = str_split c a ++ str_split c b.
Proof.
  induction a as [|d a IH]; simpl.
  - by rewrite Ascii.eqb_refl.
  - rewrite IH. destruct (Ascii.eqb c d); [done|].
    pose proof (str_split_nonempty c a). by destruct (str_split c a).
Qed.

Lemma string_app_nil_r s : s +:+ EmptyString = s.
Proof. induction s as [|c s IH]; simpl; [done|]. by f_equal. Qed.

Lemma string_app_inj_l a b c : a +:+ b = a +:+ c -> b = c.
Proof. induction a; simpl; [done|]. intros [=]. eauto. Qed.

Lemma string_length_app a b : String.length (a +:+ b) = (String.length a + String.length b)%nat.
Proof. induction a; simpl; congruence. Qed.

(** ** Comparisons and sorting

    [sort_by] is the stable sort of [slice::sort_by]; a stable sort of a total
    preorder is unique, so the algorithm does not matter. *)
Definition then_cmp (c d : comparison) : comparison :=
  match c with Eq => d | _ => c end.

(** What the order of a [cmp] function must satisfy ([Ord]'s contract). *)
Definition cmp_le {A} (cmp : A -> A -> comparison) (x y : A) : Prop := cmp x y <> Gt.

Class CmpOrder {A} (cmp : A -> A -> comparison) : Prop := {
  cmp_sym : forall x y, cmp x y = CompOpp (cmp y x);
  cmp_trans : Transitive (cmp_le cmp);
}.

Section sort_by.
Context {A : Type} (cmp : A -> A -> comparison).

Fixpoint insert_by (x : A) (l : list A) : list A :=
  match l with
  | [] => [x]
  | y :: l' => match cmp x y with Gt => y :: insert_by x l' | _ => x :: l end
  end.

Definition sort_by (l : list A) : list A := foldr insert_by [] l.

Lemma insert_by_perm x l : insert_by x l ≡ₚ x :: l.
Proof.
  induction l as [|y l IH]; simpl; [done|].
  destruct (cmp x y); [done|done|]. rewrite IH. constructor.
Qed.

Lemma sort_by_perm l : sort_by l ≡ₚ l.
Proof.
  unfold sort_by. induction l as [|x l IH]; simpl; [done|].
  by rewrite insert_by_perm, IH.
Qed.

Context `{!CmpOrder cmp}.

Lemma cmp_gt_le x y : cmp x y = Gt -> cmp_le cmp y x.
Proof. unfold cmp_le. rewrite cmp_sym. by destruct (cmp y x). Qed.

Lemma insert_by_sorted x l :
  StronglySorted (cmp_le cmp) l -> StronglySorted (cmp_le cmp) (insert_by x l).
Proof.
  induction 1 as [|y l Hs IH Hy]; simpl; [by repeat constructor|].
  destruct (cmp x y) eqn:E.
  1,2: assert (cmp_le cmp x y) as Hxy by (unfold cmp_le; congruence);
       constructor; [by constructor|]; constructor; [done|];
       eapply Forall_impl; [exact Hy|]; intros z Hz; by apply (cmp_trans (cmp := cmp) x y z).
  constructor; [done|]. rewrite insert_by_perm. constructor; [by apply cmp_gt_le|done].
Qed.

Lemma sort_by_sorted l : StronglySorted (cmp_le cmp) (sort_by l).
Proof.
  unfold sort_by. induction l; simpl; [constructor|]. by apply insert_by_sorted.
Qed.

(** Sorting is a function of the multiset when ties are equalities. *)
Lemma sort_by_canonical l1 l2 :
  (forall x y, x ∈ l1 -> y ∈ l1 -> cmp x y = Eq -> x = y) ->
  l1 ≡ₚ l2 -> sort_by l1 = sort_by l2.
Proof.
  intros Htie Hp. apply (StronglySorted_unique_strong (cmp_le cmp)).
  - intros x y Hx Hy Hxy Hyx.
    rewrite sort_by_perm in Hx. rewrite sort_by_perm, <- Hp in Hy.
    apply Htie; [done|done|]. unfold cmp_le in *. rewrite (cmp_sym y x) in Hyx.
    by destruct (cmp x y).
  - apply sort_by_sorted.
  - apply sort_by_sorted.
  - by rewrite !sort_by_perm.
Qed.
End sort_by.

(** [Vec::dedup]: consecutive equal elements are removed. *)
Fixpoint dedup `{EqDecision A} (l : list A) : list A :=
  match l with
  | [] => []
  | x :: l' => match dedup l' with
               | [] => [x]
               | y :: m => if decide (x = y) then y :: m else x :: y :: m
               end
  end.

Lemma dedup_elem_of `{EqDecision A} (l : list A) x : x ∈ dedup l <-> x ∈ l.
Proof.
  induction l as [|y l IH]; simpl; [done|].
  rewrite (elem_of_cons l), <- IH. destruct (dedup l) as [|z m].
  - rewrite list_elem_of_singleton, elem_of_nil; naive_solver.
  - case_decide as E; [subst|]; rewrite !elem_of_cons; naive_solver.
Qed.

(** Lexicographic composition of comparisons is again an order. *)
Lemma compopp_flip c d : c = CompOpp d -> d = CompOpp c.
Proof. by destruct c, d. Qed.

Lemma ascii_compare_N a b : Ascii.compare a b = (byte_at a ?= byte_at b).
Proof. reflexivity. Qed.

Lemma string_compare_refl s : String.compare s s = Eq.
Proof.
  induction s as [|c s IH]; simpl; [done|]. by rewrite ascii_compare_N, N.compare_refl.
Qed.

Lemma string_compare_eq s t : String.compare s t = Eq <-> s = t.
Proof.
  split; [apply String.compare_eq_iff|]. intros ->. apply string_compare_refl.
Qed.

Lemma string_compare_lt_trans s t u :
  String.compare s t = Lt -> String.compare t u = Lt -> String.compare s u = Lt.
Proof.
  revert t u. induction s as [|a s IH]; intros [|b t] [|c u]; simpl; try done.
  rewrite !ascii_compare_N.
  destruct (N.compare_spec (byte_at a) (byte_at b)) as [E|?|?];
  destruct (N.compare_spec (byte_at b) (byte_at c)) as [E'|?|?]; try done; intros.
  - rewrite E, E', N.compare_refl. eauto.
  - rewrite E. by rewrite (proj2 (N.compare_lt_iff _ _)).
  - rewrite <- E'. by rewrite (proj2 (N.compare_lt_iff _ _)).
  - rewrite (proj2 (N.compare_lt_iff _ _)); [done|lia].
Qed.

#[export] Instance string_compare_order : CmpOrder String.compare.
Proof.
  split; [apply String.compare_antisym|]. intros s t u. unfold cmp_le.
  destruct (String.compare s t) eqn:E1; [|destruct (String.compare t u) eqn:E2|]; try done.
  - apply string_compare_eq in E1 as ->. done.
  - apply string_compare_eq in E2 as ->. intros _ _. by rewrite E1.
  - intros _ _. by rewrite (string_compare_lt_trans _ _ _ E1 E2).
Qed.

Lemma dedup_head_eq `{EqDecision A} (x : A) l :
  exists m, dedup (x :: l) = x :: m.
Proof.
  simpl. destruct (dedup l) as [|y m]; [by eexists|]. case_decide; subst; by eexists.
Qed.

(** A sorted list without ties loses every duplicate in [dedup]. *)
Lemma dedup_sorted `{EqDecision A} (cmp : A -> A -> comparison) `{!CmpOrder cmp} l :
  (forall x y, cmp x y = Eq -> x = y) ->
  StronglySorted (cmp_le cmp) l ->
  StronglySorted (fun x y => cmp x y = Lt) (dedup l).
Proof.
  intros Htie. induction 1 as [|x l Hs IH Hx]; [constructor|]. simpl.
  assert (forall y, y ∈ dedup l -> x <> y -> cmp x y = Lt) as Hlt.
  { intros y Hy Hne. rewrite dedup_elem_of in Hy. rewrite Forall_forall in Hx.
    specialize (Hx y Hy). unfold cmp_le in Hx. destruct (cmp x y) eqn:E; [|done|done].
    by apply Htie in E. }
  destruct (dedup l) as [|y m] eqn:E; [by repeat constructor|].
  case_decide as Hxy; [done|].
  pose proof IH as IH2. apply StronglySorted_inv in IH2 as [_ Hm].
  constructor; [done|]. constructor; [apply Hlt; [by constructor|done]|].
  rewrite Forall_forall in Hm |- *. intros z Hz. apply Hlt; [by constructor|].
  intros ->. specialize (Hm z Hz).
  assert (cmp z y = Lt) by (apply Hlt; [by constructor|done]).
  rewrite cmp_sym in Hm. by rewrite H in Hm.
Qed.

Lemma sorted_lt_NoDup `{EqDecision A} (cmp : A -> A -> comparison) l :
  (forall x, cmp x x = Eq) ->
  StronglySorted (fun x y => cmp x y = Lt) l -> NoDup l.
Proof.
  intros Hr. induction 1 as [|x l Hs IH Hx]; constructor; [|done].
  rewrite Forall_forall in Hx. intros Hin. specialize (Hx x Hin). by rewrite Hr in Hx.
Qed.
