(* ===== verification/Paths.v ===== *)
(** Paths: [std::path] as the sources use it (components, push, parent,
    file_name, component-wise equality) and [RelativePath] of
    src/domain/types.rs, the only kind of path the pipeline joins below a
    target root.  The theorems show that a parsed relative path has only
    ordinary components within the length limits, and that joining never
    produces a component that leaves the root. *)
From Stdlib Require Import Ascii String.
From S2P Require Import Prelude.

(** [std::path::Component] on Unix (there is no [Prefix]). *)
Inductive Component :=
| RootDir
| CurDir
| ParentDir
| Normal (name : string).

#[export] Instance Component_eq_dec : EqDecision Component.
Proof. solve_decision. Defined.

(** [Path], [PathBuf] and [OsStr] are their byte strings. *)
Definition is_absolute (p : string) : bool :=
  match p with String c _ => Ascii.eqb c SLASH | EmptyString => false end.

Definition piece_components (piece : string) : list Component :=
  if str_is_empty piece || String.eqb piece "." then []
  else if String.eqb piece ".." then [ParentDir] else [Normal piece].

Definition body_components (p : string) : list Component :=
  str_split SLASH p ≫= piece_components.

Definition lead_component (p : string) : list Component :=
  if is_absolute p then [RootDir]
  else match str_split SLASH p with
       | piece :: _ => if String.eqb piece "." then [CurDir] else []
       | [] => []
       end.

(** [Path::components]: separators are collapsed, [.] is kept only in front. *)
Definition components (p : string) : list Component :=
  lead_component p ++ body_components p.

(** [PartialEq for Path] compares components. *)
Definition path_eqb (p q : string) : bool := bool_decide (components p = components q).

Definition ends_with_slash (p : string) : bool := str_ends_with p "/".

(** [PathBuf::push]. *)
Definition path_push (p q : string) : string :=
  if is_absolute q then q
  else if str_is_empty p || ends_with_slash p then p +:+ q
  else p +:+ "/" +:+ q.

(** [Path::join]. *)
Definition path_join (p q : string) : string := path_push p q.

(** The components of [Path::parent] ([""] when there is none). *)
Definition parent_components (p : string) : list Component :=
  removelast (components p).

Definition file_name (p : string) : option string :=
  match last (components p) with Some (Normal n) => Some n | _ => None end.

(** [Component::as_os_str]. *)
Definition component_str (c : Component) : string :=
  match c with RootDir => "/" | CurDir => "." | ParentDir => ".." | Normal n => n end.

(** [Path::starts_with] and the slice comparison [a[..b.len()] == b[..]]. *)
Fixpoint components_prefix (pre l : list Component) : bool :=
  match pre, l with
  | [], _ => true
  | a :: pre', b :: l' => bool_decide (a = b) && components_prefix pre' l'
  | _ :: _, [] => false
  end.

Module RelativePath.
Abbreviation t := string (only parsing).

(** The loop of [RelativePath::parse]: the number of components, or [None]
    at the first one that is not [Normal], too long, or one too many. *)
Fixpoint check_components (cs : list Component) (count : N) : option N :=
  match cs with
  | [] => Some count
  | Normal os :: cs' =>
      if 255 <? str_len os then None
      else if 255 <? count + 1 then None
      else check_components cs' (count + 1)
  | _ :: _ => None
  end.

Definition parse (path_str : string) : option t :=
  if str_is_empty path_str then Some EmptyString
  else if 4096 <? str_len path_str then None
  else if has_control path_str then None
  else if is_absolute path_str then None
  else match check_components (components path_str) 0 with
       | None => None
       | Some count => if count =? 0 then None else Some path_str
       end.

Definition empty : t := EmptyString.
Definition as_path (p : t) : string := p.
Definition as_str (p : t) : string := p.

Definition join (self : t) (sub : string) : option t :=
  match parse sub with
  | None => None
  | Some sub_rel => Some (path_push self (as_path sub_rel))
  end.
End RelativePath.

(** A path below a root: no component is [/], [.] or [..]. *)
Definition is_normal (c : Component) : Prop := exists n, c = Normal n.
Definition confined (p : string) : Prop := Forall is_normal (components p).

(** ** Lemmas *)

Lemma components_prefix_spec pre l :
  components_prefix pre l = true <-> exists r, l = pre ++ r.
Proof.
  revert l. induction pre as [|a pre IH]; intros l; simpl.
  - split; [by exists l | done].
  - destruct l as [|b l].
    + split; [done | by intros [r ?]].
    + rewrite andb_true_iff, bool_decide_eq_true, IH. split.
      * intros [-> [r ->]]. by exists r.
      * intros [r [= -> ->]]. eauto.
Qed.

Lemma str_split_head_app (a b : string) :
  head (str_split SLASH (a +:+ String SLASH b)) = head (str_split SLASH a).
Proof.
  rewrite str_split_app. pose proof (str_split_nonempty SLASH a).
  by destruct (str_split SLASH a).
Qed.

Lemma body_components_app a b :
  body_components (a +:+ String SLASH b) = body_components a ++ body_components b.
Proof. unfold body_components. by rewrite str_split_app, bind_app. Qed.

Lemma lead_component_head p q :
  is_absolute p = is_absolute q ->
  head (str_split SLASH p) = head (str_split SLASH q) ->
  lead_component p = lead_component q.
Proof.
  unfold lead_component. intros -> H.
  destruct (str_split SLASH p), (str_split SLASH q); simpl in *; by simplify_eq.
Qed.

Lemma lead_component_app a b :
  a <> EmptyString ->
  lead_component (a +:+ String SLASH b) = lead_component a.
Proof.
  intros Ha. apply lead_component_head.
  - by destruct a.
  - apply str_split_head_app.
Qed.

Lemma str_ends_with_iff s p : str_ends_with s p = true <-> exists r, s = r +:+ p.
Proof.
  split.
  - induction s as [|c s IH]; cbn [str_ends_with]; rewrite orb_true_iff, String.eqb_eq.
    + intros [<-|?]; [by exists EmptyString | done].
    + intros [<-|H]; [by exists EmptyString|]. destruct (IH H) as [r ->].
      by exists (String c r).
  - intros [r ->]. induction r as [|c r IH]; [destruct p; simpl; by rewrite ?Ascii.eqb_refl, ?String.eqb_refl|].
    cbn [String.append str_ends_with]. by rewrite IH, orb_true_r.
Qed.

Lemma str_ends_with_spec s p : str_ends_with s p = true -> exists r, s = r +:+ p.
Proof. apply str_ends_with_iff. Qed.

Lemma str_contains_iff s p : str_contains s p = true <-> exists a b, s = a +:+ p +:+ b.
Proof.
  split.
  - induction s as [|c s IH]; cbn [str_contains]; rewrite orb_true_iff, str_starts_with_spec.
    + intros [[r Hr]|?]; [by exists EmptyString, r|done].
    + intros [[r Hr]|H]; [by exists EmptyString, r|]. destruct (IH H) as (a & b & ->).
      by exists (String c a), b.
  - intros (a & b & ->). induction a as [|c a IH].
    + cbn [String.append]. destruct (p +:+ b) as [|c s] eqn:E; cbn [str_contains]; rewrite <- E;
        apply orb_true_iff; left; apply str_starts_with_spec; by exists b.
    + cbn [String.append str_contains]. by rewrite IH, orb_true_r.
Qed.

Lemma lead_no_components b :
  lead_component b = [] -> components b = body_components b.
Proof. unfold components. by intros ->. Qed.

(** Pushing a relative path that does not start with [.] appends its
    components. *)
Lemma components_push p q :
  is_absolute q = false -> lead_component q = [] ->
  components (path_push p q) = components p ++ components q.
Proof.
  intros Habs Hlead. unfold path_push. rewrite Habs.
  rewrite (lead_no_components q) by done.
  destruct p as [|c p]; simpl str_is_empty; simpl orb.
  { by rewrite lead_no_components. }
  destruct (ends_with_slash (String c p)) eqn:E.
  - apply str_ends_with_spec in E as [r Hr]. rewrite Hr.
    replace ((r +:+ "/") +:+ q) with (r +:+ String SLASH q)
      by (clear; induction r; simpl; [done | by f_equal]).
    change "/" with (String SLASH EmptyString). unfold components at 1 2.
    rewrite !body_components_app. change (body_components EmptyString) with (@nil Component).
    rewrite app_nil_r, <- app_assoc.
    destruct r as [|d r].
    { simpl. unfold lead_component. simpl. done. }
    f_equal. by rewrite !lead_component_app.
  - change ("/" +:+ q) with (String SLASH q). unfold components at 1 2.
    rewrite body_components_app, <- app_assoc. f_equal. by apply lead_component_app.
Qed.

Lemma confined_not_absolute p :
  confined p -> is_absolute p = false /\ lead_component p = [].
Proof.
  unfold confined, components. intros H. apply Forall_app in H as [H _].
  unfold lead_component in *. destruct (is_absolute p).
  - apply Forall_cons in H as [[n ?] _]. done.
  - split; [done|]. destruct (str_split SLASH p) as [|x ?]; [done|].
    destruct (String.eqb x "."); [|done]. apply Forall_cons in H as [[n ?] _]. done.
Qed.

Lemma confined_push p q : confined p -> confined q -> confined (path_push p q).
Proof.
  intros Hp Hq. destruct (confined_not_absolute q Hq) as [Ha Hl].
  unfold confined. rewrite components_push by done. by apply Forall_app.
Qed.

Lemma check_components_spec cs n m :
  RelativePath.check_components cs n = Some m ->
  Forall (fun c => exists name, c = Normal name /\ str_len name <= 255) cs /\
  m = n + N.of_nat (length cs) /\ (n <= 255 -> m <= 255).
Proof.
  revert n. induction cs as [|c cs IH]; intros n; simpl.
  - intros [= ->]. repeat split; [constructor | lia | lia].
  - destruct c as [| | |name]; try done.
    destruct (255 <? str_len name) eqn:E1; [done|].
    destruct (255 <? n + 1) eqn:E2; [done|]. intros H.
    apply IH in H as (HF & -> & Hb). apply N.ltb_ge in E1, E2. repeat split.
    + constructor; eauto.
    + simpl. lia.
    + intros _. apply Hb. lia.
Qed.

Lemma empty_confined : confined EmptyString.
Proof. constructor. Qed.

(** What the guards of [parse] leave. *)
Lemma parse_spec s p :
  RelativePath.parse s = Some p ->
  p = s /\
  (s = EmptyString \/
   (str_len s <= 4096 /\ has_control s = false /\ is_absolute s = false /\
    1 <= N.of_nat (length (components s)) <= 255 /\
    Forall (fun c => exists n, c = Normal n /\ str_len n <= 255) (components s))).
Proof.
  unfold RelativePath.parse.
  destruct (str_is_empty s) eqn:E.
  { destruct s; [|done]. intros [= <-]. split; [done|by left]. }
  destruct (4096 <? str_len s) eqn:E1; [done|].
  destruct (has_control s) eqn:E2; [done|].
  destruct (is_absolute s) eqn:E3; [done|].
  destruct (RelativePath.check_components _ 0) as [count|] eqn:E4; [|done].
  destruct (count =? 0) eqn:E5; [done|].
  apply check_components_spec in E4 as (HF & -> & Hb).
  apply N.ltb_ge in E1. apply N.eqb_neq in E5. intros [= <-].
  split; [done|right]. repeat split; try done; lia.
Qed.

Lemma parse_inv s p : RelativePath.parse s = Some p -> p = s.
Proof. by intros [? _]%parse_spec. Qed.

Lemma parse_confined s p : RelativePath.parse s = Some p -> confined p.
Proof.
  intros (-> & [->|(_ & _ & _ & _ & HF)])%parse_spec; [apply empty_confined|].
  unfold confined. eapply Forall_impl; [exact HF|]. intros c (n & -> & _). by exists n.
Qed.

(** ** Properties *)

(** [RelativePath::parse] accepts only the empty path or a path of 1 to 255
    ordinary components of at most 255 bytes each, at most 4096 bytes in all,
    without control characters; in particular no component is [/], [.] or
    [..], and the accepted path is the argument unchanged. *)
Theorem RelativePath_parse_sound s p :
  RelativePath.parse s = Some p ->
  p = s /\ confined p /\
  (s = EmptyString \/
   (str_len s <= 4096 /\ has_control s = false /\ is_absolute s = false /\
    1 <= N.of_nat (length (components s)) <= 255 /\
    Forall (fun c => exists n, c = Normal n /\ str_len n <= 255) (components s))).
Proof.
  intros H. pose proof (parse_spec _ _ H) as [-> ?].
  split; [done|]. split; [by eapply parse_confined|done].
Qed.

Lemma RelativePath_parse_sound_witness :
  RelativePath.parse "cache/img" = Some "cache/img" /\ confined "cache/img".
Proof.
  split; [reflexivity|].
  apply (RelativePath_parse_sound "cache/img" "cache/img"). reflexivity.
Defined.

(** Joining a name below a confined relative path stays confined: the result
    has exactly the components of the prefix followed by those of the name, so
    no join of scanned names can leave the target root. *)
Theorem RelativePath_join_confined p sub q :
  confined p -> RelativePath.join p sub = Some q ->
  confined q /\ components q = components p ++ components sub.
Proof.
  intros Hp. unfold RelativePath.join, RelativePath.as_path.
  destruct (RelativePath.parse sub) as [s|] eqn:E; [|done]. intros [= <-].
  pose proof (parse_confined _ _ E) as Hs. pose proof (parse_inv _ _ E) as ->.
  split; [by apply confined_push|].
  destruct (confined_not_absolute _ Hs). by apply components_push.
Qed.

Lemma RelativePath_join_confined_witness :
  RelativePath.join "cache" "a.tmp" = Some "cache/a.tmp" /\ confined "cache/a.tmp".
Proof.
  split; [reflexivity|].
  apply (RelativePath_join_confined "cache" "a.tmp" "cache/a.tmp"); [|reflexivity].
  apply (parse_confined "cache"). reflexivity.
Defined.
