(* ===== verification/Domain.v ===== *)
(** The domain model of src/domain and src/error.rs: identifiers, generations,
    byte counts, targets, candidates, policy decisions, plans, grants, intents
    and results, with the constructors and methods of the sources.

    Numeric newtypes ([JobId(u64)] and the like) are their number; the two
    generation counters keep their own types, which the sources require never to
    be interchanged.  A Rust panic is a value: [None] for a constructor that can
    only panic, [Panic] of [fault] where a function can also return an error. *)
From Stdlib Require Import Ascii String SpecFloat.
From S2P Require Import Prelude Paths.

(** ** Errors (src/error.rs) *)

(** The errno values the sources name; [EOther] is any other, and [UnexpectedEof]
    the error kind of a read past the end of a stream. *)
Inductive Errno :=
| NOENT | ACCESS | PERM | IO | STALE | BUSY | ROFS | NOTDIR | XDEV | LOOP | INVAL
| NOSYS | NOTEMPTY | UnexpectedEof | EOther (code : N).

#[export] Instance Errno_eq_dec : EqDecision Errno.
Proof. solve_decision. Defined.

Inductive CleanerError :=
| Io (e : Errno)
| Json (msg : string)
| Toml (msg : string)
| TomlSer (msg : string)
| Ipc (msg : string)
| Config (msg : string)
| ConfigError (msg : string)
| SafetyViolation (msg : string)
| Storage (msg : string)
| ResourceExhausted (msg : string)
| PlanBudgetExceeded (count limit : N)
| PlanValidationFailed (msg : string)
| Internal (msg : string)
| DaemonAlreadyRunning (pid : N)
| DaemonNotRunning
| Platform (msg : string)
| Cancelled
| Other (msg : string).

(** An error return or a panic. *)
Inductive fault :=
| Error (e : CleanerError)
| Panic (msg : string).

(** [Display for CleanerError]; the text of an [io::Error] is the system's. *)
Definition CleanerError_display (strerror : Errno -> string) (e : CleanerError) : string :=
  match e with
  | Io e => "I/O error: " +:+ strerror e
  | Json m => "JSON parse error: " +:+ m
  | Toml m => "TOML decode error: " +:+ m
  | TomlSer m => "TOML encode error: " +:+ m
  | Ipc m => "IPC error: " +:+ m
  | Config m => "Configuration error: " +:+ m
  | ConfigError m => "Configuration error: " +:+ m
  | SafetyViolation m => "Safety violation: " +:+ m
  | Storage m => "Storage error: " +:+ m
  | ResourceExhausted m => "Resource exhausted: " +:+ m
  | PlanBudgetExceeded c l =>
      "Plan budget exceeded: candidate count " +:+ pretty c +:+ " exceeds limit " +:+ pretty l
  | PlanValidationFailed m => "Plan validation failed: " +:+ m
  | Internal m => "Internal error: " +:+ m
  | DaemonAlreadyRunning pid => "Daemon is already running with PID " +:+ pretty pid
  | DaemonNotRunning => "Daemon is not running"
  | Platform m => "Platform error: " +:+ m
  | Cancelled => "Operation was cancelled / preempted"
  | Other m => "Error: " +:+ m
  end.

(** [Error::source]: the error of a library below, by its own text. *)
Definition CleanerError_source (strerror : Errno -> string) (e : CleanerError) : option string :=
  match e with
  | Io e => Some (strerror e)
  | Json m | Toml m | TomlSer m => Some m
  | _ => None
  end.

(** What the [?] operator turns the errors of the libraries into. *)
Definition CleanerError_from_io (e : Errno) : CleanerError := Io e.
Definition CleanerError_from_json (m : string) : CleanerError := Json m.
Definition CleanerError_from_toml (m : string) : CleanerError := Toml m.
Definition CleanerError_from_toml_ser (m : string) : CleanerError := TomlSer m.

(** ** Identifiers and counters (src/domain/types.rs) *)

Abbreviation JobId := N (only parsing).
Abbreviation AttemptId := N (only parsing).
Abbreviation OperationId := N (only parsing).
Abbreviation PlanId := N (only parsing).
Abbreviation WorkerId := N (only parsing).
Abbreviation CandidateId := N (only parsing).
Abbreviation GrantId := N (only parsing).
Abbreviation TargetId := string (only parsing).
Abbreviation UnixTimestamp := N (only parsing).
Abbreviation InodeNumber := N (only parsing).
Abbreviation DeviceNumber := N (only parsing).

Definition JobId_display (i : JobId) : string := "job-" +:+ pretty i.
Definition AttemptId_display (i : AttemptId) : string := "attempt-" +:+ pretty i.
Definition OperationId_display (i : OperationId) : string := "op-" +:+ pretty i.
Definition PlanId_display (i : PlanId) : string := "plan-" +:+ pretty i.
Definition WorkerId_display (i : WorkerId) : string := "worker-" +:+ pretty i.
Definition CandidateId_display (i : CandidateId) : string := "cand-" +:+ pretty i.
Definition GrantId_display (i : GrantId) : string := "grant-" +:+ pretty i.
Definition TargetId_display (i : TargetId) : string := "target:" +:+ i.
Definition DeviceNumber_display (d : DeviceNumber) : string := "dev:" +:+ pretty d.
Definition InodeNumber_display (i : InodeNumber) : string := "ino:" +:+ pretty i.

(** [TargetId::new] panics ([None]) on an invalid identifier. *)
Definition TargetId_new (s : string) : option TargetId :=
  if trim_is_empty s || (512 <? str_len s) || str_contains_char NUL s
     || str_contains_char LF s
  then None else Some s.

Definition TargetId_try_new (s : string) : result string TargetId :=
  if trim_is_empty s || (512 <? str_len s) || str_contains_char NUL s
  then Err "invalid TargetId" else Ok s.

Definition ResourceId_for_job (job_id : JobId) : string := "job:" +:+ pretty job_id.
Definition ResourceId_for_target (target_id : TargetId) : string := "target:" +:+ target_id.
Definition ResourceId_display (r : string) : string := r.

(** The generation counters: one Rocq type each, as the [impl_generation!] macro
    gives each its own impl. *)
Record ConfigGeneration := mkConfigGeneration { config_gen : N }.
Record CatalogGeneration := mkCatalogGeneration { catalog_gen : N }.
Record PlatformGeneration := mkPlatformGeneration { platform_gen : N }.

#[export] Instance ConfigGeneration_eq_dec : EqDecision ConfigGeneration.
Proof. solve_decision. Defined.
#[export] Instance CatalogGeneration_eq_dec : EqDecision CatalogGeneration.
Proof. solve_decision. Defined.

Definition ConfigGeneration_INITIAL : ConfigGeneration := mkConfigGeneration 1.
Definition CatalogGeneration_INITIAL : CatalogGeneration := mkCatalogGeneration 1.
Definition PlatformGeneration_INITIAL : PlatformGeneration := mkPlatformGeneration 1.

Definition generation_overflow : string :=
  "generation overflow — must fail closed, not saturate".

Definition CatalogGeneration_next (g : CatalogGeneration) : result string CatalogGeneration :=
  match checked_add (catalog_gen g) 1 with
  | Some n => Ok (mkCatalogGeneration n)
  | None => Err generation_overflow
  end.
Definition ConfigGeneration_next (g : ConfigGeneration) : result string ConfigGeneration :=
  match checked_add (config_gen g) 1 with
  | Some n => Ok (mkConfigGeneration n)
  | None => Err generation_overflow
  end.
Definition ConfigGeneration_next_saturating (g : ConfigGeneration) : ConfigGeneration :=
  mkConfigGeneration (saturating_add (config_gen g) 1).

Definition PlatformGeneration_next (g : PlatformGeneration) : result string PlatformGeneration :=
  match checked_add (platform_gen g) 1 with
  | Some n => Ok (mkPlatformGeneration n)
  | None => Err generation_overflow
  end.

Definition CatalogGeneration_display (g : CatalogGeneration) : string :=
  "CatalogGeneration-" +:+ pretty (catalog_gen g).
Definition ConfigGeneration_display (g : ConfigGeneration) : string :=
  "ConfigGeneration-" +:+ pretty (config_gen g).

Module ByteCount.
Abbreviation t := N (only parsing).
Definition ZERO : t := 0.
Definition MAX_SAFE : t := 10 * 1024 * 1024 * 1024.
(** [new] asserts the bound: [None] is the panic. *)
Definition new (bytes : N) : option t := if bytes <=? MAX_SAFE then Some bytes else None.
Definition new_unchecked (bytes : N) : t := bytes.
Definition try_new (bytes : N) : result string t :=
  if MAX_SAFE <? bytes then Err "ByteCount exceeds 10GiB hard bound" else Ok bytes.
Definition checked_add (a b : t) : option t := checked_add a b.
Definition saturating_add (a b : t) : t := saturating_add a b.
Definition saturating_sub (a b : t) : t := saturating_sub a b.
End ByteCount.

(** [now]: of a clock before the epoch, the epoch; the system time is in nanoseconds. *)
Definition UnixTimestamp_now (system_time : Z) : UnixTimestamp := Z.to_N (system_time / 1000000000).
Definition UnixTimestamp_display (t : UnixTimestamp) : string := pretty t +:+ "s".
Definition age_secs (self now : UnixTimestamp) : N := saturating_sub now self.

Record FileIdentity := mkFileIdentity { dev : DeviceNumber; ino : InodeNumber }.
#[export] Instance FileIdentity_eq_dec : EqDecision FileIdentity.
Proof. solve_decision. Defined.

Definition FileIdentity_new (dev ino : N) : FileIdentity := mkFileIdentity dev ino.
Definition FileIdentity_display (f : FileIdentity) : string :=
  "[" +:+ DeviceNumber_display (dev f) +:+ ":" +:+ InodeNumber_display (ino f) +:+ "]".

(** ** Targets (src/domain/target.rs) *)

Inductive TargetClass :=
| AppCache | CodeCache | Tombstones | MediaCache | ShaderCache | LogArchive | TempDir
| ExternalCache.

Inductive TargetSafetyTier :=
| StandardCache | RequiresColdApp | ReadOnlyInspection | ProtectedSystem.

#[export] Instance TargetClass_eq_dec : EqDecision TargetClass.
Proof. solve_decision. Defined.
#[export] Instance TargetSafetyTier_eq_dec : EqDecision TargetSafetyTier.
Proof. solve_decision. Defined.

Definition TargetSafetyTier_debug (t : TargetSafetyTier) : string :=
  match t with
  | StandardCache => "StandardCache" | RequiresColdApp => "RequiresColdApp"
  | ReadOnlyInspection => "ReadOnlyInspection" | ProtectedSystem => "ProtectedSystem"
  end.

(** The discriminant [as u8]. *)
Definition TargetSafetyTier_u8 (t : TargetSafetyTier) : N :=
  match t with
  | StandardCache => 0 | RequiresColdApp => 1 | ReadOnlyInspection => 2
  | ProtectedSystem => 3
  end.

Record TargetDescriptor := mkTarget {
  td_target_id : TargetId;
  td_target_class : TargetClass;
  td_base_path : string;
  td_dev : DeviceNumber;
  td_ino : InodeNumber;
  td_owner_uid : N;
  td_owner_gid : N;
  td_package_name : option string;
  td_safety_tier : TargetSafetyTier;
  td_catalog_generation : CatalogGeneration;
}.

Definition is_mutation_allowed (t : TargetDescriptor) : bool :=
  match td_safety_tier t with
  | StandardCache | RequiresColdApp => true
  | ReadOnlyInspection | ProtectedSystem => false
  end.

(** ** Candidates (src/domain/candidate.rs) *)

Record Candidate := mkCandidate {
  c_candidate_id : CandidateId;
  c_target_id : TargetId;
  c_rel_path : RelativePath.t;
  c_identity : FileIdentity;
  c_size_bytes : ByteCount.t;
  c_mtime : UnixTimestamp;
  c_atime : option UnixTimestamp;
  c_is_dir : bool;
  c_is_symlink : bool;
}.

Definition is_regular_file (c : Candidate) : bool := negb (c_is_dir c) && negb (c_is_symlink c).

Record SafetyValidatedCandidate := mkValidated {
  sv_candidate : Candidate;
  sv_trusted_root_dev : DeviceNumber;
  sv_trusted_root_ino : InodeNumber;
  sv_validated_at : UnixTimestamp;
}.

(** ** Policy decisions (src/domain/decision.rs) *)

Inductive DecisionReason :=
| ExceedsRetentionAge | StoragePressureThreshold | WithinRetentionGracePeriod
| PackageWhitelisted | ProtectedBytecode | TargetIsReadOnly | BudgetExceeded
| CategoryDisabled | RuleMatch (rule : string).

Definition DecisionReason_display (r : DecisionReason) : string :=
  match r with
  | ExceedsRetentionAge => "Exceeds retention age"
  | StoragePressureThreshold => "Storage pressure threshold triggered"
  | WithinRetentionGracePeriod => "Within retention grace period"
  | PackageWhitelisted => "Package is whitelisted"
  | ProtectedBytecode => "Protected bytecode/JIT artifact"
  | TargetIsReadOnly => "Target is read-only"
  | BudgetExceeded => "Execution budget exceeded"
  | CategoryDisabled => "Target category is disabled by configuration"
  | RuleMatch rule => "Rule match: " +:+ rule
  end.

Record PolicyPermit := mkPermit {
  pp_candidate : SafetyValidatedCandidate;
  pp_priority : N;
  pp_reason : DecisionReason;
  pp_decided_at : UnixTimestamp;
}.
Record PolicyDeny := mkDeny {
  pd_candidate : SafetyValidatedCandidate;
  pd_reason : DecisionReason;
  pd_decided_at : UnixTimestamp;
}.
Record PolicySkip := mkSkip {
  ps_candidate : SafetyValidatedCandidate;
  ps_reason : DecisionReason;
  ps_decided_at : UnixTimestamp;
}.
Inductive PolicyDecision :=
| Allow (p : PolicyPermit) | Deny (d : PolicyDeny) | Skip (s : PolicySkip).

Definition is_allowed (d : PolicyDecision) : bool :=
  match d with Allow _ => true | _ => false end.
Definition is_denied (d : PolicyDecision) : bool :=
  match d with Deny _ => true | _ => false end.

(** ** Plans (src/domain/plan.rs) *)

Inductive OperationType :=
| DeleteFile (target_id : TargetId) (rel_path : RelativePath.t)
    (expected_identity : FileIdentity) (estimated_size : ByteCount.t)
| DeleteDirEmpty (target_id : TargetId) (rel_path : RelativePath.t)
    (expected_identity : FileIdentity)
| PruneDirRecursive (target_id : TargetId) (rel_path : RelativePath.t)
    (expected_identity : FileIdentity)
| TrimFilesystem (mount_path : string)
| VacuumDatabase (db_path : string).

Definition op_target_id (o : OperationType) : option TargetId :=
  match o with
  | DeleteFile t _ _ _ | DeleteDirEmpty t _ _ | PruneDirRecursive t _ _ => Some t
  | _ => None
  end.
Definition op_is_dir (o : OperationType) : bool :=
  match o with DeleteDirEmpty _ _ _ | PruneDirRecursive _ _ _ => true | _ => false end.

Record PlannedOperation := mkOp {
  op_id : OperationId;
  op_type : OperationType;
  dependencies : list OperationId;
  estimated_reclaim : ByteCount.t;
}.

Record PlannedPlan := mkPlan {
  plan_id : PlanId;
  plan_job_id : JobId;
  plan_catalog_generation : CatalogGeneration;
  plan_config_generation : ConfigGeneration;
  operations : list PlannedOperation;
  total_estimated_reclaim : ByteCount.t;
  created_at : UnixTimestamp;
}.

Definition PlannedPlan_empty (job_id : JobId) (cat : CatalogGeneration)
    (cfg : ConfigGeneration) (now : UnixTimestamp) : PlannedPlan :=
  mkPlan 1 job_id cat cfg [] ByteCount.ZERO now.

(** ** Grants (src/domain/grant.rs) *)

Inductive Capability :=
| CapReadTarget (t : TargetId)
| CapEnumerateTarget (t : TargetId)
| CapDeleteFile (t : TargetId) (p : RelativePath.t)
| CapDeleteDirectory (t : TargetId) (p : RelativePath.t)
| CapTrimMount (mount : string)
| CapVacuumDatabase (db : string).

(** The derived [PartialEq]: paths are compared by components. *)
Definition Capability_eqb (a b : Capability) : bool :=
  match a, b with
  | CapReadTarget t, CapReadTarget u => bool_decide (t = u)
  | CapEnumerateTarget t, CapEnumerateTarget u => bool_decide (t = u)
  | CapDeleteFile t p, CapDeleteFile u q => bool_decide (t = u) && path_eqb p q
  | CapDeleteDirectory t p, CapDeleteDirectory u q => bool_decide (t = u) && path_eqb p q
  | CapTrimMount p, CapTrimMount q => path_eqb p q
  | CapVacuumDatabase p, CapVacuumDatabase q => path_eqb p q
  | _, _ => false
  end.

Record CapabilityGrant := mkGrant {
  grant_id : GrantId;
  capabilities : list Capability;
  grant_catalog_generation : CatalogGeneration;
  grant_config_generation : ConfigGeneration;
  granted_at : UnixTimestamp;
  expires_at : UnixTimestamp;
}.

Definition capabilities_contains (g : CapabilityGrant) (c : Capability) : bool :=
  existsb (fun d => Capability_eqb d c) (capabilities g).

Definition is_valid_at (g : CapabilityGrant) (now : UnixTimestamp)
    (cat : CatalogGeneration) (cfg : ConfigGeneration) : bool :=
  bool_decide (grant_catalog_generation g = cat)
  && bool_decide (grant_config_generation g = cfg)
  && (now <=? expires_at g).

Record AuthorizedPlan := mkAuthorized { plan : PlannedPlan; grant : CapabilityGrant }.

Definition is_authorized_for_execution (a : AuthorizedPlan) (now : UnixTimestamp)
    (cat : CatalogGeneration) (cfg : ConfigGeneration) : bool :=
  if negb (bool_decide (plan_config_generation (plan a) = cfg)) then false
  else is_valid_at (grant a) now cat cfg
       && bool_decide (plan_catalog_generation (plan a) = cat).

(** ** Intents (src/domain/intent.rs) *)

Inductive MutationType := MutDeleteFile | MutDeleteDirEmpty | MutPruneDirRecursive.

Definition MutationType_display (m : MutationType) : string :=
  match m with
  | MutDeleteFile => "DELETE_FILE"
  | MutDeleteDirEmpty => "DELETE_DIR_EMPTY"
  | MutPruneDirRecursive => "PRUNE_DIR_RECURSIVE"
  end.

Inductive IntentState :=
| Committed | Mutating | VerifiedSuccess | VerifiedFailed | ResolvedUnknown.

#[export] Instance IntentState_eq_dec : EqDecision IntentState.
Proof. solve_decision. Defined.

Definition IntentState_display (s : IntentState) : string :=
  match s with
  | Committed => "COMMITTED"
  | Mutating => "MUTATING"
  | VerifiedSuccess => "VERIFIED_SUCCESS"
  | VerifiedFailed => "VERIFIED_FAILED"
  | ResolvedUnknown => "RESOLVED_UNKNOWN"
  end.

Record OperationIntent := mkIntent {
  intent_id : option N;
  i_job_id : JobId;
  i_attempt_id : AttemptId;
  i_op_id : OperationId;
  i_target_id : TargetId;
  i_rel_path : RelativePath.t;
  i_expected_identity : FileIdentity;
  i_estimated_bytes : ByteCount.t;
  i_mutation_type : MutationType;
  i_state : IntentState;
  i_catalog_generation : CatalogGeneration;
  i_config_generation : ConfigGeneration;
  i_committed_at : UnixTimestamp;
  i_resolved_at : option UnixTimestamp;
}.

Definition OperationIntent_new (job_id : JobId) (attempt_id : AttemptId)
    (op_id : OperationId) (target_id : TargetId) (rel_path : RelativePath.t)
    (expected_identity : FileIdentity) (estimated_bytes : ByteCount.t)
    (mutation_type : MutationType) (cat : CatalogGeneration) (cfg : ConfigGeneration)
    (now : UnixTimestamp) : OperationIntent :=
  mkIntent None job_id attempt_id op_id target_id rel_path expected_identity
    estimated_bytes mutation_type Committed cat cfg now None.

(** ** Results (src/domain/result.rs) *)

Inductive OperationStatus :=
| Success
| Failed (error : string)
| VerificationFailed (reason : string)
| Skipped (reason : string)
| Preempted.

Definition is_success (s : OperationStatus) : bool :=
  match s with Success => true | _ => false end.

Record OperationFinalResult := mkFinal {
  r_op_id : OperationId;
  r_status : OperationStatus;
  r_reclaimed_bytes : ByteCount.t;
  r_executed_at : UnixTimestamp;
}.

Record JobResult := mkJobResult {
  jr_job_id : JobId;
  jr_attempt_id : AttemptId;
  jr_total_reclaimed : ByteCount.t;
  jr_total_operations : nat;
  jr_successful_operations : nat;
  jr_failed_operations : nat;
  jr_skipped_operations : nat;
  jr_duration_ms : N;
}.

(** ** Single-precision floats

    An [f32] is a binary32 value of the Standard Library's IEEE 754 model, NaN
    and infinities included; a comparison with a NaN is false. *)
Definition f32 := spec_float.
Definition f32_of_Z (n : Z) : f32 := binary_normalize 24 128 n 0 false.
Definition f32_ge (a b : f32) : bool := SFleb b a.
Definition f32_gt (a b : f32) : bool := SFltb b a.
Definition f32_lt (a b : f32) : bool := SFltb a b.
Definition f32_le (a b : f32) : bool := SFleb a b.

(** ** Properties *)

(** A generation counter never wraps and never stands still: [next] either
    returns the successor, still a [u64], or fails at the maximum. *)
Theorem CatalogGeneration_next_spec g :
  u64 (catalog_gen g) ->
  match CatalogGeneration_next g with
  | Ok g' => catalog_gen g' = catalog_gen g + 1 /\ u64 (catalog_gen g') /\ g' <> g
  | Err _ => catalog_gen g = U64_MAX
  end.
Proof.
  destruct g as [n]. unfold CatalogGeneration_next, checked_add, u64; simpl. intros Hn.
  destruct (n + 1 <=? U64_MAX) eqn:E.
  - apply N.leb_le in E. simpl. repeat split; [lia|]. intros [=]. lia.
  - apply N.leb_gt in E. lia.
Qed.

Lemma CatalogGeneration_next_spec_witness :
  CatalogGeneration_next (mkCatalogGeneration 1) = Ok (mkCatalogGeneration 2) /\
  catalog_gen (mkCatalogGeneration 2) = 1 + 1.
Proof.
  split; [reflexivity|].
  assert (u64 (catalog_gen (mkCatalogGeneration 1))) as H by (unfold u64, U64_MAX; simpl; lia).
  pose proof (CatalogGeneration_next_spec (mkCatalogGeneration 1) H) as H'.
  vm_compute in H'. destruct H' as (H1 & _). exact H1.
Defined.

Lemma Capability_eqb_refl c : Capability_eqb c c = true.
Proof.
  destruct c; simpl; unfold path_eqb; rewrite ?andb_true_iff, ?bool_decide_eq_true; auto.
Qed.

Lemma is_authorized_spec a now cat cfg :
  is_authorized_for_execution a now cat cfg = true <->
  plan_catalog_generation (plan a) = cat /\ plan_config_generation (plan a) = cfg /\
  grant_catalog_generation (grant a) = cat /\ grant_config_generation (grant a) = cfg /\
  now <= expires_at (grant a).
Proof.
  unfold is_authorized_for_execution, is_valid_at.
  destruct (bool_decide (plan_config_generation (plan a) = cfg)) eqn:E; simpl.
  - apply bool_decide_eq_true in E.
    rewrite !andb_true_iff, !bool_decide_eq_true, N.leb_le. naive_solver.
  - apply bool_decide_eq_false in E. naive_solver.
Qed.
