(* ===== verification/Text.v ===== *)
(** Text of the Rust standard library as the sensors use it: [str::lines], [trim],
    [split_whitespace], the parsers of integers and of [f32], and the files of
    /proc and /sys.  A string is its bytes, as everywhere in this library.

    A [Sys] is what the kernel's files hold while one query reads them, and what
    the commands that a query may run print. *)
From Stdlib Require Import Ascii String SpecFloat.
From S2P Require Import Prelude Domain.

(** ** White space *)

(** The rest after one leading character with the Unicode property White_Space
    (the same table as [trim_is_empty]). *)
Definition strip_space (s : string) : option string :=
  match s with
  | EmptyString => None
  | String a s1 =>
      let x := byte_at a in
      if ((9 <=? x) && (x <=? 13)) || (x =? 32) then Some s1
      else match s1 with
           | EmptyString => None
           | String b s2 =>
               let y := byte_at b in
               if (x =? 194) && ((y =? 133) || (y =? 160)) then Some s2
               else match s2 with
                    | EmptyString => None
                    | String c s3 =>
                        let z := byte_at c in
                        if ((x =? 225) && (y =? 154) && (z =? 128))
                           || ((x =? 226) && (y =? 128)
                               && (((128 <=? z) && (z <=? 138))
                                   || (z =? 168) || (z =? 169) || (z =? 175)))
                           || ((x =? 226) && (y =? 129) && (z =? 159))
                           || ((x =? 227) && (y =? 128) && (z =? 128))
                        then Some s3 else None
                    end
           end
  end.

(** [n] bounds the number of characters; the length of the string is enough. *)
Fixpoint trim_start_n (n : nat) (s : string) : string :=
  match n, strip_space s with
  | S n', Some s' => trim_start_n n' s'
  | _, _ => s
  end.
Definition trim_start (s : string) : string := trim_start_n (String.length s) s.

(** A byte that continues a character never starts a space, so the first suffix
    that is all space begins at a character. *)
Fixpoint trim_end (s : string) : string :=
  match s with
  | EmptyString => EmptyString
  | String c s' => if trim_is_empty s then EmptyString else String c (trim_end s')
  end.

Definition trim (s : string) : string := trim_end (trim_start s).

(** [str::split_whitespace]: [word] is the word read so far, reversed. *)
Fixpoint string_rev_app (s acc : string) : string :=
  match s with EmptyString => acc | String c s' => string_rev_app s' (String c acc) end.

Definition push_word (word : string) (words : list string) : list string :=
  match word with EmptyString => words | _ => string_rev_app word EmptyString :: words end.

Fixpoint split_whitespace_n (n : nat) (word s : string) : list string :=
  match n, s with
  | S n', String c s' =>
      match strip_space s with
      | Some rest => push_word word (split_whitespace_n n' EmptyString rest)
      | None => split_whitespace_n n' (String c word) s'
      end
  | _, _ => push_word word []
  end.
Definition split_whitespace (s : string) : list string :=
  split_whitespace_n (String.length s) EmptyString s.

(** [str::split_ascii_whitespace]: tab, line feed, form feed, carriage return and
    space, not the vertical tab. *)
Definition is_ascii_space (c : ascii) : bool :=
  let x := byte_at c in (x =? 9) || (x =? 10) || (x =? 12) || (x =? 13) || (x =? 32).

Fixpoint split_ascii_ws (word s : string) : list string :=
  match s with
  | EmptyString => push_word word []
  | String c s' =>
      if is_ascii_space c then push_word word (split_ascii_ws EmptyString s')
      else split_ascii_ws (String c word) s'
  end.
Definition split_ascii_whitespace (s : string) : list string := split_ascii_ws EmptyString s.

(** ** Lines and prefixes *)

Definition CR : ascii := ascii_of_N 13.

(** One carriage return at the end of a line is part of its terminator. *)
Fixpoint strip_cr (s : string) : string :=
  match s with
  | EmptyString => EmptyString
  | String c EmptyString => if Ascii.eqb c CR then EmptyString else s
  | String c s' => String c (strip_cr s')
  end.

(** The pieces but an empty last one. *)
Fixpoint drop_last_empty (l : list string) : list string :=
  match l with
  | [] => []
  | [EmptyString] => []
  | x :: l' => x :: drop_last_empty l'
  end.

(** [str::lines]; the last line keeps a carriage return that no line feed
    follows. *)
Fixpoint strip_crs (l : list string) : list string :=
  match l with
  | [] => []
  | [last] => [last]
  | x :: l' => strip_cr x :: strip_crs l'
  end.
Definition lines (s : string) : list string := drop_last_empty (strip_crs (str_split LF s)).

Fixpoint strip_prefix (s p : string) : option string :=
  match p, s with
  | EmptyString, _ => Some s
  | String c p', String d s' => if Ascii.eqb c d then strip_prefix s' p' else None
  | String _ _, EmptyString => None
  end.

(** [str::rfind(c)], as what follows the last [c]. *)
Fixpoint after_last (c : ascii) (s : string) : option string :=
  match s with
  | EmptyString => None
  | String d s' =>
      match after_last c s' with
      | Some r => Some r
      | None => if Ascii.eqb c d then Some s' else None
      end
  end.

(** ** Numbers *)

Definition digit_value (c : ascii) : option N :=
  let n := byte_at c in if (48 <=? n) && (n <=? 57) then Some (n - 48) else None.

(** Digits only, [None] above [max]. *)
Fixpoint parse_digits (max : N) (s : string) (acc : N) : option N :=
  match s with
  | EmptyString => Some acc
  | String c s' =>
      match digit_value c with
      | Some d => if max <? acc * 10 + d then None else parse_digits max s' (acc * 10 + d)
      | None => None
      end
  end.

(** [str::parse] of an unsigned integer: an optional [+], then at least one digit,
    no overflow. *)
Definition parse_uint (max : N) (s : string) : option N :=
  match s with
  | EmptyString => None
  | String c s' =>
      if Ascii.eqb c "+"%char then
        match s' with EmptyString => None | _ => parse_digits max s' 0 end
      else parse_digits max s 0
  end.

Definition parse_u8 : string -> option N := parse_uint 255.
Definition parse_u32 : string -> option N := parse_uint 4294967295.
Definition parse_u64 : string -> option N := parse_uint U64_MAX.

(** [str::parse::<f32>]: the longest run of digits, its value and its length. *)
Fixpoint take_digits (s : string) (acc : N) (n : nat) : N * nat * string :=
  match s with
  | String c s' =>
      match digit_value c with
      | Some d => take_digits s' (acc * 10 + d) (S n)
      | None => (acc, n, s)
      end
  | EmptyString => (acc, n, s)
  end.

(** The decimal [m * 10^e], rounded to the nearest [f32], ties to even. *)
Definition f32_of_decimal (neg : bool) (m : N) (e : Z) : f32 :=
  match m with
  | N0 => S754_zero neg
  | Npos p =>
      if (0 <=? e)%Z then
        binary_normalize 24 128 ((if neg then Z.neg p else Z.pos p) * 10 ^ e) 0 neg
      else SFdiv 24 128 (S754_finite neg p 0) (S754_finite false (Z.to_pos (10 ^ (- e))) 0)
  end.

Definition parse_sign (s : string) : bool * string :=
  match s with
  | String c s' =>
      if Ascii.eqb c "-"%char then (true, s')
      else if Ascii.eqb c "+"%char then (false, s') else (false, s)
  | EmptyString => (false, s)
  end.

(** What follows the digits: nothing, or [e] and a signed number. *)
Definition parse_exponent (s : string) : option Z :=
  match s with
  | EmptyString => Some 0%Z
  | String c s' =>
      if Ascii.eqb (ascii_lower c) "e"%char then
        let '(neg, t) := parse_sign s' in
        let '(v, n, rest) := take_digits t 0 0 in
        match n, rest with
        | S _, EmptyString => Some (if neg then - Z.of_N v else Z.of_N v)%Z
        | _, _ => None
        end
      else None
  end.

Definition parse_f32 (s : string) : option f32 :=
  let '(neg, t) := parse_sign s in
  if eq_ignore_ascii_case t "inf" || eq_ignore_ascii_case t "infinity" then
    Some (S754_infinity neg)
  else if eq_ignore_ascii_case t "nan" then Some S754_nan
  else
    let '(int, n_int, rest) := take_digits t 0 0 in
    let '(m, n_frac, rest) :=
      match rest with
      | String c r => if Ascii.eqb c "."%char then take_digits r int 0 else (int, 0%nat, rest)
      | EmptyString => (int, 0%nat, rest)
      end in
    match (n_int + n_frac)%nat with
    | O => None
    | S _ =>
        match parse_exponent rest with
        | Some e => Some (f32_of_decimal neg m (e - Z.of_nat n_frac))
        | None => None
        end
    end.

Definition F32_ZERO : f32 := S754_zero false.

Definition f32_div (a b : f32) : f32 := SFdiv 24 128 a b.
Definition f32_mul (a b : f32) : f32 := SFmul 24 128 a b.
Definition f32_add (a b : f32) : f32 := SFadd 24 128 a b.

(** ** The files of /proc and /sys *)

Record Sys := mkSys {
  sy_exists : string -> bool;                      (** [Path::exists] *)
  sy_is_dir : string -> bool;
  sy_bytes : string -> option string;              (** what reading the file gives *)
  sy_entries : string -> option (list string);     (** the names of a directory *)
  sy_write : string -> string -> bool;             (** whether [fs::write] succeeds *)
  sy_command : string -> list string -> option string;  (** output, on success *)
}.

(** [fs::read_to_string(..).ok()] *)
Definition read_to_string (sys : Sys) (path : string) : option string :=
  match sy_bytes sys path with
  | Some c => if is_utf8 c then Some c else None
  | None => None
  end.

Definition read_entries (sys : Sys) (dir : string) : list string :=
  default [] (sy_entries sys dir).

Definition path_join (dir name : string) : string := dir +:+ "/" +:+ name.

(** [read_file_to_buf] of util/io_fast.rs: one read into a buffer of [n] bytes. *)
Definition read_file_to_buf (sys : Sys) (path : string) (n : nat) : option string :=
  match sy_bytes sys path with
  | Some c => let c' := String.substring 0 n c in if is_utf8 c' then Some c' else None
  | None => None
  end.

(** [iter().find_map(f)], the loops that return at the first hit. *)
Fixpoint find_map {A B} (f : A -> option B) (l : list A) : option B :=
  match l with
  | [] => None
  | x :: l' => match f x with Some b => Some b | None => find_map f l' end
  end.

(** Case mapping beyond ASCII is the Unicode tables' of the standard library; on
    ASCII it is this. *)
Fixpoint map_bytes (f : ascii -> ascii) (s : string) : string :=
  match s with EmptyString => EmptyString | String c s' => String (f c) (map_bytes f s') end.

Definition ascii_upper (c : ascii) : ascii :=
  let n := byte_at c in
  if (97 <=? n) && (n <=? 122) then ascii_of_N (n - 32) else c.

Fixpoint is_ascii (s : string) : bool :=
  match s with EmptyString => true | String c s' => (byte_at c <? 128) && is_ascii s' end.

Class UnicodeCase := {
  to_uppercase : string -> string;
  to_lowercase : string -> string;
  to_uppercase_ascii : forall s, is_ascii s = true -> to_uppercase s = map_bytes ascii_upper s;
  to_lowercase_ascii : forall s, is_ascii s = true -> to_lowercase s = map_bytes ascii_lower s;
}.

(** The mapping that leaves everything else alone. *)
#[export] Program Instance ascii_case : UnicodeCase :=
  {| to_uppercase := map_bytes ascii_upper; to_lowercase := map_bytes ascii_lower |}.
Next Obligation. done. Qed.
Next Obligation. done. Qed.

(** ** Lemmas *)

(** Every byte of a string. *)
Fixpoint str_all (f : ascii -> bool) (s : string) : bool :=
  match s with EmptyString => true | String c s' => f c && str_all f s' end.

Definition is_digit (c : ascii) : bool := match digit_value c with Some _ => true | None => false end.
(** Visible ASCII, and visible ASCII or a space. *)
Definition is_plain (c : ascii) : bool := (33 <=? byte_at c) && (byte_at c <=? 126).
Definition is_printable (c : ascii) : bool := (32 <=? byte_at c) && (byte_at c <=? 126).

Abbreviation digits := (str_all is_digit).
Abbreviation plain := (str_all is_plain).
Abbreviation printable := (str_all is_printable).

Lemma string_app_assoc a b c : a +:+ b +:+ c = (a +:+ b) +:+ c.
Proof. induction a as [|d a IH]; simpl; [done|]. by f_equal. Qed.

Lemma str_all_app f a b : str_all f (a +:+ b) = str_all f a && str_all f b.
Proof. induction a as [|c a IH]; simpl; [done|]. by rewrite IH, andb_assoc. Qed.

Lemma str_all_impl (f g : ascii -> bool) s :
  (forall c, f c = true -> g c = true) -> str_all f s = true -> str_all g s = true.
Proof.
  intros Hi. induction s as [|c s IH]; simpl; [done|]. rewrite !andb_true_iff.
  intros [? ?]. auto.
Qed.

Lemma digit_plain c : is_digit c = true -> is_plain c = true.
Proof.
  unfold is_digit, digit_value, is_plain.
  destruct ((48 <=? byte_at c) && (byte_at c <=? 57)) eqn:E; [|done]. intros _.
  rewrite andb_true_iff, !N.leb_le in *. lia.
Qed.
Lemma plain_printable c : is_plain c = true -> is_printable c = true.
Proof. unfold is_plain, is_printable. rewrite !andb_true_iff, !N.leb_le. lia. Qed.

(** The number a string of digits denotes, after [acc]. *)
Fixpoint dec (acc : N) (s : string) : N :=
  match s with
  | EmptyString => acc
  | String c s' => dec (acc * 10 + default 0 (digit_value c)) s'
  end.

Lemma dec_app acc a b : dec acc (a +:+ b) = dec (dec acc a) b.
Proof. revert acc. induction a as [|c a IH]; intros acc; simpl; [done|apply IH]. Qed.

Lemma dec_shift acc s : dec acc s = acc * 10 ^ N.of_nat (String.length s) + dec 0 s.
Proof.
  revert acc. induction s as [|c s IH]; intros acc; cbn [dec String.length]; [cbn; lia|].
  rewrite IH, (IH (0 * 10 + _)), Nat2N.inj_succ, N.pow_succ_r'. lia.
Qed.

Lemma dec_ge acc s : acc <= dec acc s.
Proof. revert acc. induction s as [|c s IH]; intros acc; simpl; [lia|]. etrans; [|apply IH]. lia. Qed.

Lemma take_digits_app a rest acc n :
  digits a = true ->
  take_digits (a +:+ rest) acc n = take_digits rest (dec acc a) (n + String.length a)%nat.
Proof.
  revert acc n. induction a as [|c a IH]; intros acc n; simpl; [by rewrite Nat.add_0_r|].
  rewrite andb_true_iff. unfold is_digit. destruct (digit_value c) as [d|]; [|by intros []].
  intros [_ Ha]. rewrite IH by done. f_equal. lia.
Qed.

Lemma parse_digits_spec max s acc :
  digits s = true -> dec acc s <= max -> parse_digits max s acc = Some (dec acc s).
Proof.
  revert acc. induction s as [|c s IH]; intros acc; simpl; [done|].
  rewrite andb_true_iff. unfold is_digit. destruct (digit_value c) as [d|]; [|by intros []].
  simpl. intros [_ Hs] Hm. pose proof (dec_ge (acc * 10 + d) s).
  rewrite (proj2 (N.ltb_ge max _)) by lia. by apply IH.
Qed.

(** The ten digits, one by one. *)
Lemma below_ten (P : N -> Prop) :
  Forall P [0; 1; 2; 3; 4; 5; 6; 7; 8; 9] -> forall x, x < 10 -> P x.
Proof.
  rewrite Forall_forall. intros HP x Hx. apply HP. rewrite !elem_of_cons, elem_of_nil. lia.
Qed.

Lemma pretty_char_value x : x < 10 -> digit_value (pretty_N_char x) = Some x.
Proof. revert x. apply below_ten. by repeat constructor. Qed.
Lemma pretty_digit_length x : x < 10 -> String.length (pretty x) = 1%nat.
Proof. revert x. apply below_ten. by repeat constructor. Qed.

Lemma pretty_go_split x s :
  exists a, pretty_N_go x s = a +:+ s /\ digits a = true /\ dec 0 a = x /\ (x <> 0 -> a <> EmptyString).
Proof.
  revert s. induction (N.lt_wf_0 x) as [x _ IH]; intros s.
  destruct (decide (x = 0)) as [->|Hx].
  { exists EmptyString. by rewrite pretty_N_go_0. }
  rewrite pretty_N_go_step by lia.
  destruct (IH (x / 10) ltac:(apply N.div_lt; lia) (String (pretty_N_char (x mod 10)) s))
    as (a & -> & Ha & Hd & _).
  pose proof (N.mod_lt x 10 ltac:(lia)) as Hm. pose proof (pretty_char_value _ Hm) as Hv.
  exists (a +:+ String (pretty_N_char (x mod 10)) EmptyString).
  split; [by rewrite <- string_app_assoc|]. rewrite str_all_app, Ha, dec_app, Hd.
  simpl. unfold is_digit. rewrite Hv. simpl. pose proof (N.div_mod x 10 ltac:(lia)).
  split; [done|]. split; [lia|]. intros _. by destruct a.
Qed.

Lemma pretty_spec n :
  digits (pretty n) = true /\ dec 0 (pretty n) = n /\ pretty n <> EmptyString.
Proof.
  unfold pretty, pretty_N. case_decide as Hn; [subst; done|].
  destruct (pretty_go_split n EmptyString) as (a & -> & Ha & Hd & He).
  rewrite string_app_nil_r. auto.
Qed.

Lemma pretty_plain (n : N) : plain (pretty n) = true.
Proof. eapply str_all_impl; [apply digit_plain|apply pretty_spec]. Qed.

(** A parsed number is within its bound. *)
Lemma parse_digits_max max s acc n : acc <= max -> parse_digits max s acc = Some n -> n <= max.
Proof.
  revert acc. induction s as [|c s IH]; simpl; intros acc Ha; [by intros [= <-]|].
  destruct (digit_value c) as [d|]; [|done]. destruct (N.ltb_spec max (acc * 10 + d)); [done|]. by apply IH.
Qed.

Lemma parse_uint_max max s n : parse_uint max s = Some n -> n <= max.
Proof.
  unfold parse_uint. destruct s as [|c s]; [done|].
  destruct (Ascii.eqb c _); [destruct s; [done|]|]; apply parse_digits_max; lia.
Qed.

(** Printing and parsing a number. *)
Lemma parse_uint_pretty max n : n <= max -> parse_uint max (pretty n) = Some n.
Proof.
  intros Hn. destruct (pretty_spec n) as (Hd & Hv & Hne). unfold parse_uint.
  destruct (pretty n) as [|c s] eqn:E; [done|].
  destruct (Ascii.eqb c "+"%char) eqn:Ep.
  - apply Ascii.eqb_eq in Ep. subst c. done.
  - rewrite parse_digits_spec by (done || (rewrite Hv; done)). by rewrite Hv.
Qed.

Lemma strip_space_plain c s : is_plain c = true -> strip_space (String c s) = None.
Proof.
  unfold is_plain, strip_space. rewrite andb_true_iff, !N.leb_le.
  generalize (byte_at c). intros x Hx.
  rewrite (proj2 (andb_false_iff (9 <=? x) (x <=? 13))) by (rewrite !N.leb_gt; lia).
  rewrite (proj2 (N.eqb_neq x 32)) by lia. simpl.
  destruct s as [|b s2]; [done|]. rewrite (proj2 (N.eqb_neq x 194)) by lia. simpl.
  destruct s2 as [|d s3]; [done|].
  rewrite (proj2 (N.eqb_neq x 225)), (proj2 (N.eqb_neq x 226)), (proj2 (N.eqb_neq x 227)) by lia.
  done.
Qed.

Lemma split_ws_plain a w s m :
  plain a = true ->
  split_whitespace_n (String.length a + m) w (a +:+ s)
  = split_whitespace_n m (string_rev_app a w) s.
Proof.
  revert w. induction a as [|c a IH]; intros w; [done|].
  cbn [str_all]. rewrite andb_true_iff. intros [Hc Ha].
  cbn [String.length Nat.add String.append split_whitespace_n].
  rewrite strip_space_plain by done. by rewrite IH.
Qed.

Lemma string_rev_app_spec a b :
  string_rev_app (string_rev_app a b) EmptyString = string_rev_app b a.
Proof. revert b. induction a as [|c a IH]; intros b; simpl; [done|]. by rewrite IH. Qed.

Lemma push_word_rev a words :
  a <> EmptyString -> push_word (string_rev_app a EmptyString) words = a :: words.
Proof.
  intros Ha. unfold push_word. rewrite string_rev_app_spec.
  destruct (string_rev_app a EmptyString) eqn:E; [|done].
  pose proof (string_rev_app_spec a EmptyString) as Hr. rewrite E in Hr. by destruct a.
Qed.

(** A word and a space in front. *)
Lemma split_whitespace_cons a s :
  plain a = true -> a <> EmptyString ->
  split_whitespace (a +:+ " " +:+ s) = a :: split_whitespace s.
Proof.
  intros Ha Hne. unfold split_whitespace. rewrite string_length_app.
  rewrite split_ws_plain by done. cbn [String.length Nat.add String.append split_whitespace_n].
  change (strip_space (String " "%char s)) with (Some s). cbv iota. by rewrite push_word_rev.
Qed.

Lemma split_whitespace_one a :
  plain a = true -> a <> EmptyString -> split_whitespace a = [a].
Proof.
  intros Ha Hne. unfold split_whitespace.
  pose proof (split_ws_plain a EmptyString EmptyString 0 Ha) as E.
  rewrite Nat.add_0_r, string_app_nil_r in E. rewrite E. cbn [split_whitespace_n].
  by rewrite push_word_rev.
Qed.

Lemma trim_is_empty_last s c :
  printable s = true -> is_plain c = true -> trim_is_empty (s +:+ String c EmptyString) = false.
Proof.
  assert (forall d t, is_plain d = true -> trim_is_empty (String d t) = false) as Hp.
  { intros d t. unfold is_plain. rewrite andb_true_iff, !N.leb_le. simpl.
    generalize (byte_at d). intros x Hx.
    rewrite (proj2 (andb_false_iff (9 <=? x) (x <=? 13))) by (rewrite !N.leb_gt; lia).
    rewrite (proj2 (N.eqb_neq x 32)) by lia. simpl.
    destruct t as [|b s2]; [done|]. rewrite (proj2 (N.eqb_neq x 194)) by lia. simpl.
    destruct s2 as [|e s3]; [done|].
    rewrite (proj2 (N.eqb_neq x 225)), (proj2 (N.eqb_neq x 226)), (proj2 (N.eqb_neq x 227)) by lia.
    done. }
  induction s as [|d s IH]; intros Hs Hc; [by apply Hp|].
  cbn [str_all] in Hs. apply andb_true_iff in Hs as [Hd Hs].
  destruct (is_plain d) eqn:Ed; [by apply Hp|].
  assert (byte_at d = 32) as E32.
  { unfold is_plain, is_printable in *. rewrite andb_true_iff, andb_false_iff, !N.leb_le, !N.leb_gt in *.
    lia. }
  cbn [String.append trim_is_empty]. rewrite E32. simpl. auto.
Qed.

(** A printable line that begins and ends with a visible character. *)
Lemma trim_line s c :
  printable s = true -> is_plain c = true ->
  match s with EmptyString => True | String d _ => is_plain d = true end ->
  trim (s +:+ String c EmptyString) = s +:+ String c EmptyString.
Proof.
  intros Hs Hc Hh. unfold trim, trim_start.
  assert (trim_start_n (String.length (s +:+ String c EmptyString)) (s +:+ String c EmptyString)
          = s +:+ String c EmptyString) as ->.
  { destruct s as [|d s]; cbn [String.append String.length trim_start_n];
      by rewrite strip_space_plain. }
  clear Hh. induction s as [|d s IH].
  - pose proof (trim_is_empty_last EmptyString c eq_refl Hc) as E. cbn [String.append] in *.
    cbn [trim_end]. by rewrite E.
  - cbn [str_all] in Hs. pose proof Hs as Hs'. apply andb_true_iff in Hs' as [Hd Hs'].
    cbn [String.append trim_end].
    change (String d (s +:+ String c EmptyString)) with (String d s +:+ String c EmptyString).
    rewrite trim_is_empty_last by done. cbn [String.append]. by rewrite IH.
Qed.

Lemma str_split_line c a rest :
  str_contains_char c a = false -> str_split c (a +:+ String c rest) = a :: str_split c rest.
Proof.
  induction a as [|d a IH]; cbn [str_contains_char String.append str_split].
  - by rewrite Ascii.eqb_refl.
  - rewrite orb_false_iff. intros [-> Ha]. by rewrite IH.
Qed.

Lemma printable_not_contains c a :
  printable a = true -> is_printable c = false -> str_contains_char c a = false.
Proof.
  intros Ha Hc. induction a as [|d a IH]; [done|]. cbn [str_all str_contains_char] in *.
  apply andb_true_iff in Ha as [Hd Ha]. rewrite IH by done. rewrite orb_false_r.
  destruct (Ascii.eqb c d) eqn:E; [|done]. apply Ascii.eqb_eq in E. subst. congruence.
Qed.

Lemma strip_cr_printable a : printable a = true -> strip_cr a = a.
Proof.
  induction a as [|d a IH]; [done|]. cbn [str_all]. rewrite andb_true_iff. intros [Hd Ha].
  cbn [strip_cr]. destruct a as [|e a]; [|by rewrite IH].
  destruct (Ascii.eqb d CR) eqn:E; [|done]. apply Ascii.eqb_eq in E. by subst d.
Qed.

(** A text of printable lines, each ended by a line feed. *)
Definition unlines (l : list string) : string :=
  foldr (fun a s => a +:+ String LF s) EmptyString l.

Lemma drop_last_empty_cons x y l : drop_last_empty (x :: y :: l) = x :: drop_last_empty (y :: l).
Proof. by destruct x. Qed.

Lemma lines_unlines l : Forall (fun a => printable a = true) l -> lines (unlines l) = l.
Proof.
  intros Hl.
  assert (str_split LF (unlines l) = l ++ [EmptyString]) as E.
  { induction Hl as [|a l Ha Hl IH]; [done|]. cbn [unlines foldr].
    rewrite str_split_line by (by apply printable_not_contains). unfold unlines in IH. by rewrite IH. }
  unfold lines. rewrite E. clear E. induction Hl as [|a l Ha Hl IH]; [done|]. cbn [app].
  destruct (l ++ [EmptyString]) as [|b l'] eqn:El; [by destruct l|].
  cbn [strip_crs] in *. rewrite strip_cr_printable by done.
  change (match l' with [] => [b] | _ :: _ => strip_cr b :: strip_crs l' end)
    with (strip_crs (b :: l')) in *.
  destruct (strip_crs (b :: l')) as [|x y] eqn:Es; [by destruct l'|].
  rewrite drop_last_empty_cons. by rewrite IH.
Qed.

Lemma filter_all {A} (P : A -> Prop) `{!forall x, Decision (P x)} l :
  Forall P l -> filter P l = l.
Proof. induction 1 as [|x l Hx _ IH]; [done|]. by rewrite filter_cons_True, IH. Qed.
