(* ===== verification/Jobs.v ===== *)
(** The job lifecycle of src/domain/job.rs: [JobState] with its transition table
    and [JobAttempt] with compare-and-swap transitions.

    The table is specified by the phases a job goes through ([rank]): the
    theorems show that a transition never goes back, that a terminal state is
    final, that a job executes only after it was authorized, and that an attempt
    records the end time exactly when it ends. *)
From S2P Require Import Prelude Domain.

Module JobState.
(** [Admitted_] is the source's [Admitted]. *)
Inductive t :=
| Pending | Queued | Admitted_ | Preparing | Scanning | Planning
| AwaitingAuthorization | Authorized | WaitingResources | Executing | Verifying
| Reconciling | Completed
| Failed (reason : string) | Aborted (reason : string) | Cancelled (reason : string)
| TimedOut (reason : string) | RecoveryRequired (reason : string)
| Stale (reason : string).

Definition is_terminal (s : t) : bool :=
  match s with
  | Completed | Failed _ | Aborted _ | Cancelled _ | TimedOut _ | RecoveryRequired _
  | Stale _ => true
  | _ => false
  end.

Definition can_transition_to (self next : t) : bool :=
  match self, next with
  | Pending, Queued => true
  | Pending, Admitted_ => true
  | Pending, Failed _ => true
  | Pending, Aborted _ => true
  | Pending, Cancelled _ => true
  | Queued, Admitted_ => true
  | Queued, Failed _ => true
  | Queued, Aborted _ => true
  | Admitted_, Preparing => true
  | Admitted_, Scanning => true
  | Admitted_, Failed _ => true
  | Admitted_, Aborted _ => true
  | Preparing, Scanning => true
  | Preparing, Failed _ => true
  | Scanning, Planning => true
  | Scanning, Failed _ => true
  | Scanning, Aborted _ => true
  | Planning, AwaitingAuthorization => true
  | Planning, Authorized => true
  | Planning, Completed => true
  | Planning, Failed _ => true
  | Planning, Aborted _ => true
  | AwaitingAuthorization, Authorized => true
  | AwaitingAuthorization, Failed _ => true
  | Authorized, WaitingResources => true
  | Authorized, Executing => true
  | Authorized, Failed _ => true
  | Authorized, Aborted _ => true
  | WaitingResources, Executing => true
  | WaitingResources, Failed _ => true
  | Executing, Verifying => true
  | Executing, Reconciling => true
  | Executing, Failed _ => true
  | Executing, Aborted _ => true
  | Verifying, Completed => true
  | Verifying, Reconciling => true
  | Verifying, Failed _ => true
  | Verifying, Aborted _ => true
  | Verifying, RecoveryRequired _ => true
  | Reconciling, Completed => true
  | Reconciling, Failed _ => true
  | Reconciling, RecoveryRequired _ => true
  | _, Cancelled _ => negb (is_terminal self)
  | _, TimedOut _ => negb (is_terminal self)
  | _, Stale _ => negb (is_terminal self)
  | _, RecoveryRequired _ => negb (is_terminal self)
  | _, _ => false
  end.

Definition display (s : t) : string :=
  match s with
  | Pending => "Pending" | Queued => "Queued" | Admitted_ => "Admitted"
  | Preparing => "Preparing" | Scanning => "Scanning" | Planning => "Planning"
  | AwaitingAuthorization => "AwaitingAuthorization" | Authorized => "Authorized"
  | WaitingResources => "WaitingResources" | Executing => "Executing"
  | Verifying => "Verifying" | Reconciling => "Reconciling" | Completed => "Completed"
  | Failed r => "Failed(" +:+ r +:+ ")"
  | Aborted r => "Aborted(" +:+ r +:+ ")"
  | Cancelled r => "Cancelled(" +:+ r +:+ ")"
  | TimedOut r => "TimedOut(" +:+ r +:+ ")"
  | RecoveryRequired r => "RecoveryRequired(" +:+ r +:+ ")"
  | Stale r => "Stale(" +:+ r +:+ ")"
  end.

(** The phase of a state, for the proofs. *)
Definition rank (s : t) : nat :=
  match s with
  | Pending => 0 | Queued => 1 | Admitted_ => 2 | Preparing => 3 | Scanning => 4
  | Planning => 5 | AwaitingAuthorization => 6 | Authorized => 7
  | WaitingResources => 8 | Executing => 9 | Verifying => 10 | Reconciling => 11
  | _ => 12
  end.

Lemma transition_rank s n : can_transition_to s n = true -> (rank s < rank n)%nat.
Proof. destruct s, n; simpl; intros; try discriminate; lia. Qed.

Lemma terminal_rank s : is_terminal s = true <-> rank s = 12%nat.
Proof. by destruct s. Qed.

(** From a state before [Authorized] the table does not reach past it except
    into a terminal state. *)
Lemma transition_authorized s n :
  can_transition_to s n = true -> (rank s < rank Authorized)%nat ->
  (rank n <= rank Authorized)%nat \/ is_terminal n = true.
Proof. destruct s, n; simpl; intros; try discriminate; solve [by right | left; lia]. Qed.
End JobState.

Module JobAttempt.
Record t := mk {
  attempt_id : AttemptId;
  job_id : JobId;
  attempt_number : N;
  started_at : UnixTimestamp;
  finished_at : option UnixTimestamp;
  state : JobState.t;
  state_version : N;
  catalog_generation : CatalogGeneration;
  config_generation : ConfigGeneration;
  plan_id : option PlanId;
}.

Definition new_with_generations (attempt_id : AttemptId) (job_id : JobId)
    (attempt_number : N) (cat : CatalogGeneration) (cfg : ConfigGeneration)
    (now : UnixTimestamp) : t :=
  mk attempt_id job_id attempt_number now None JobState.Pending 1 cat cfg None.

Definition new (attempt_id : AttemptId) (job_id : JobId) (attempt_number : N)
    (now : UnixTimestamp) : t :=
  mk attempt_id job_id attempt_number now None JobState.Pending 1
    CatalogGeneration_INITIAL ConfigGeneration_INITIAL None.

Definition transition_with_cas (self : t) (next : JobState.t) (expected_version : N)
    (now : UnixTimestamp) : result string t :=
  if negb (state_version self =? expected_version) then
    Err ("CAS failed for attempt " +:+ AttemptId_display (attempt_id self)
         +:+ ": expected version " +:+ pretty expected_version
         +:+ ", actual " +:+ pretty (state_version self))
  else if JobState.can_transition_to (state self) next then
    Ok (mk (attempt_id self) (job_id self) (attempt_number self) (started_at self)
          (if JobState.is_terminal next then Some now else finished_at self)
          next (wrap_add (state_version self) 1)
          (catalog_generation self) (config_generation self) (plan_id self))
  else
    Err ("Illegal state transition from '" +:+ JobState.display (state self)
         +:+ "' to '" +:+ JobState.display next
         +:+ "' for attempt " +:+ AttemptId_display (attempt_id self)).

Definition transition_to (self : t) (next : JobState.t) (now : UnixTimestamp)
    : result string t :=
  transition_with_cas self next (state_version self) now.

(** An attempt's life: it is created, then any number of transitions are
    tried; a refused one leaves it as it is.  [trace] lists the states it has
    had, the newest first. *)
Inductive reachable : list JobState.t -> t -> Prop :=
| reach_new aid jid n cat cfg now :
    reachable [JobState.Pending] (new_with_generations aid jid n cat cfg now)
| reach_step trace a next version now a' :
    reachable trace a ->
    transition_with_cas a next version now = Ok a' ->
    reachable (next :: trace) a'.

Lemma transition_ok a next v now a' :
  transition_with_cas a next v now = Ok a' ->
  v = state_version a /\ JobState.can_transition_to (state a) next = true /\
  state a' = next /\ state_version a' = wrap_add (state_version a) 1 /\
  finished_at a' = (if JobState.is_terminal next then Some now else finished_at a) /\
  attempt_id a' = attempt_id a /\ job_id a' = job_id a.
Proof.
  unfold transition_with_cas.
  destruct (state_version a =? v) eqn:E; simpl; [|done]. apply N.eqb_eq in E.
  destruct (JobState.can_transition_to _ _) eqn:E2; [|done]. intros [= <-].
  by repeat split.
Qed.

Lemma reachable_head trace a : reachable trace a -> exists l, trace = state a :: l.
Proof. destruct 1 as [|trace a next v now a' _ H]; [by eexists|].
  apply transition_ok in H as (_ & _ & <- & _). eauto. Qed.

Lemma reachable_length trace a :
  reachable trace a -> (length trace <= S (JobState.rank (state a)))%nat.
Proof.
  induction 1 as [|trace a next v now a' Hr IH H]; simpl; [lia|].
  apply transition_ok in H as (_ & Ht & -> & _). apply JobState.transition_rank in Ht. lia.
Qed.

Lemma reachable_authorized trace a :
  reachable trace a ->
  JobState.Authorized ∈ trace \/ (JobState.rank (state a) < 7)%nat
  \/ JobState.is_terminal (state a) = true.
Proof.
  induction 1 as [|trace a next v now a' Hr IH H]; [right; left; simpl; lia|].
  apply transition_ok in H as (_ & Ht & -> & _).
  destruct IH as [IH|[IH|IH]].
  - left. by constructor.
  - destruct (JobState.transition_authorized _ _ Ht IH) as [Hle|?]; [|auto].
    destruct (decide (JobState.rank next = 7)%nat) as [E|].
    + left. destruct next; simpl in E; try done. constructor.
    + right; left. simpl in Hle. lia.
  - apply JobState.terminal_rank in IH. apply JobState.transition_rank in Ht.
    destruct next; simpl in Ht; lia.
Qed.
End JobAttempt.

(** A terminal job state is final and the table has no cycles: no transition
    leaves a terminal state, every allowed transition strictly increases the
    phase, and so a job goes through at most 13 states whatever is asked of it. *)
Theorem JobState_progress trace a :
  JobAttempt.reachable trace a ->
  (length trace <= 13)%nat /\
  (forall next, JobState.is_terminal (JobAttempt.state a) = true ->
     JobState.can_transition_to (JobAttempt.state a) next = false) /\
  (forall next, JobState.can_transition_to (JobAttempt.state a) next = true ->
     (JobState.rank (JobAttempt.state a) < JobState.rank next)%nat).
Proof.
  intros Hr. split; [|split].
  - pose proof (JobAttempt.reachable_length _ _ Hr).
    destruct (JobAttempt.state a); simpl in *; lia.
  - intros next Ht. destruct (JobState.can_transition_to _ next) eqn:E; [|done].
    apply JobState.terminal_rank in Ht. apply JobState.transition_rank in E.
    destruct next; simpl in E; lia.
  - intros next. apply JobState.transition_rank.
Qed.

Lemma JobState_progress_witness :
  (length [JobState.Queued; JobState.Pending] <= 13)%nat.
Proof.
  eapply (JobState_progress [JobState.Queued; JobState.Pending]).
  eapply (JobAttempt.reach_step _ (JobAttempt.new_with_generations 1 1 1
            CatalogGeneration_INITIAL ConfigGeneration_INITIAL 100) _ 1 100);
    [constructor | reflexivity].
Defined.

(** No job executes without authorization: an attempt that is waiting for
    resources, executing, verifying or reconciling has been in [Authorized]. *)
Theorem execution_requires_authorization trace a :
  JobAttempt.reachable trace a ->
  JobAttempt.state a = JobState.WaitingResources \/ JobAttempt.state a = JobState.Executing \/
  JobAttempt.state a = JobState.Verifying \/ JobAttempt.state a = JobState.Reconciling ->
  JobState.Authorized ∈ trace.
Proof.
  intros Hr Hs. destruct (JobAttempt.reachable_authorized _ _ Hr) as [?|[H|H]]; [done| |];
    exfalso; destruct Hs as [E|[E|[E|E]]]; rewrite E in H; simpl in H; done || lia.
Qed.

(** A run of the lifecycle, for the witnesses. *)
Definition drive (states : list JobState.t) : JobAttempt.t :=
  fold_left (fun a s => match JobAttempt.transition_to a s 100 with Ok a' => a' | Err _ => a end)
    states (JobAttempt.new 1 1 1 100).
Definition executing_attempt : JobAttempt.t :=
  drive [JobState.Admitted_; JobState.Scanning; JobState.Planning;
         JobState.Authorized; JobState.Executing].
Definition executing_trace : list JobState.t :=
  [JobState.Executing; JobState.Authorized; JobState.Planning; JobState.Scanning;
   JobState.Admitted_; JobState.Pending].

Lemma executing_reachable : JobAttempt.reachable executing_trace executing_attempt.
Proof.
  apply (JobAttempt.reach_step _ (drive [JobState.Admitted_; JobState.Scanning;
    JobState.Planning; JobState.Authorized]) _ 5 100); [|reflexivity].
  apply (JobAttempt.reach_step _ (drive [JobState.Admitted_; JobState.Scanning;
    JobState.Planning]) _ 4 100); [|reflexivity].
  apply (JobAttempt.reach_step _ (drive [JobState.Admitted_; JobState.Scanning]) _ 3 100);
    [|reflexivity].
  apply (JobAttempt.reach_step _ (drive [JobState.Admitted_]) _ 2 100); [|reflexivity].
  apply (JobAttempt.reach_step _ (drive []) _ 1 100); [|reflexivity].
  apply (JobAttempt.reach_new 1 1 1 CatalogGeneration_INITIAL ConfigGeneration_INITIAL 100).
Qed.

Lemma execution_requires_authorization_witness : JobState.Authorized ∈ executing_trace.
Proof.
  apply (execution_requires_authorization executing_trace executing_attempt).
  - exact executing_reachable.
  - right; left; reflexivity.
Defined.

(** A transition succeeds exactly when the expected version is the current one
    and the table allows it; it then advances the version by one, keeps the
    identity of the attempt and stamps the end time exactly on a terminal state,
    so a second transition with the old version is refused. *)
Theorem transition_with_cas_spec a next v now :
  JobAttempt.state_version a < U64_MAX ->
  (is_ok (JobAttempt.transition_with_cas a next v now) = true <->
     v = JobAttempt.state_version a /\
     JobState.can_transition_to (JobAttempt.state a) next = true) /\
  (forall a', JobAttempt.transition_with_cas a next v now = Ok a' ->
     JobAttempt.state a' = next /\
     JobAttempt.state_version a' = JobAttempt.state_version a + 1 /\
     JobAttempt.attempt_id a' = JobAttempt.attempt_id a /\
     (JobState.is_terminal next = true -> JobAttempt.finished_at a' = Some now) /\
     (JobState.is_terminal next = false ->
        JobAttempt.finished_at a' = JobAttempt.finished_at a) /\
     forall next' now', is_ok (JobAttempt.transition_with_cas a' next' v now') = false).
Proof.
  intros Hv. split.
  - split.
    + destruct (JobAttempt.transition_with_cas a next v now) as [a'|] eqn:E; [|done].
      apply JobAttempt.transition_ok in E. tauto.
    + intros [-> Ht]. unfold JobAttempt.transition_with_cas. by rewrite N.eqb_refl, Ht.
  - intros a' H. apply JobAttempt.transition_ok in H as (-> & _ & -> & Hver & -> & -> & _).
    rewrite wrap_add_exact in Hver by lia. rewrite Hver.
    split; [done|]. split; [done|]. split; [done|].
    split; [by intros ->|]. split; [by intros ->|]. intros next' now'.
    unfold JobAttempt.transition_with_cas. rewrite Hver.
    replace (_ =? _) with false; [done|]. symmetry. apply N.eqb_neq. lia.
Qed.

Lemma transition_with_cas_spec_witness :
  is_ok (JobAttempt.transition_with_cas executing_attempt JobState.Verifying 6 200) = true.
Proof.
  apply (transition_with_cas_spec executing_attempt JobState.Verifying 6 200).
  - vm_compute. reflexivity.
  - split; reflexivity.
Defined.
