(* ===== verification/Config.v ===== *)
(** The configuration pipeline of src/config_pipeline/mod.rs: raw, validated and
    effective configuration.  The theorems show the ranges a validated
    configuration guarantees, that the platform's protected paths can never be
    configured away, and which inputs make validation panic instead of failing. *)
From Stdlib Require Import Ascii String SpecFloat.
From S2P Require Import Prelude Paths Domain.

Definition PLATFORM_INVARIANT_PROTECTED_PATHS : list string :=
  ["/system"; "/vendor"; "/product"; "/system_ext"; "/apex"; "/data/system";
   "/data/misc"; "/data/bootchart"; "/metadata"; "/boot"; "/etc"].

Record RawConfig := mkRaw {
  raw_maintenance_interval_secs : option N;
  raw_min_screen_off_secs : option N;
  raw_max_soc_temp_c : option f32;
  raw_max_battery_temp_c : option f32;
  raw_min_app_cache_age_days : option N;
  raw_min_file_age_hours : option N;
  raw_app_cache_threshold_mb : option N;
  raw_dry_run : option bool;
  raw_clean_app_cache : option bool;
  raw_clean_code_cache : option bool;
  raw_clean_tombstones : option bool;
  raw_clean_oem_logs : option bool;
  raw_clean_temp_apks : option bool;
  raw_whitelist_packages : option (list string);
  raw_protected_paths : option (list string);
  raw_fstrim_interval_hours : option N;
  raw_vacuum_db_interval_hours : option N;
}.

(** [impl Default for RawConfig]. *)
Definition RawConfig_default : RawConfig := {|
  raw_maintenance_interval_secs := Some 3600;
  raw_min_screen_off_secs := Some 180;
  raw_max_soc_temp_c := Some (f32_of_Z 45);
  raw_max_battery_temp_c := Some (f32_of_Z 42);
  raw_min_app_cache_age_days := Some 3;
  raw_min_file_age_hours := None;
  raw_app_cache_threshold_mb := Some 50;
  raw_dry_run := Some false;
  raw_clean_app_cache := Some true;
  raw_clean_code_cache := Some false;
  raw_clean_tombstones := Some false;
  raw_clean_oem_logs := Some false;
  raw_clean_temp_apks := Some false;
  raw_whitelist_packages := Some ["com.android.vending"; "com.google.android.gms"];
  raw_protected_paths := Some ["/system"; "/vendor"; "/apex";
    "/data/data/com.android.providers.telephony"];
  raw_fstrim_interval_hours := Some 24;
  raw_vacuum_db_interval_hours := Some 72;
|}.

Record ValidatedConfig := mkValidatedConfig {
  maintenance_interval_secs : N;
  min_screen_off_secs : N;
  max_soc_temp_c : f32;
  max_battery_temp_c : f32;
  min_app_cache_age_secs : N;
  app_cache_threshold_bytes : ByteCount.t;
  dry_run : bool;
  clean_app_cache : bool;
  clean_code_cache : bool;
  clean_tombstones : bool;
  clean_oem_logs : bool;
  clean_temp_apks : bool;
  whitelist_packages : list string;
  protected_paths : list string;
  fstrim_interval_secs : N;
  vacuum_db_interval_secs : N;
}.

Definition in_range_f32 (lo hi x : f32) : bool := f32_le lo x && f32_le x hi.

(** The test on one whitelist entry. *)
Definition valid_whitelist_package (pkg : string) : bool :=
  negb ((255 <? str_len pkg) || str_contains_char NUL pkg || str_contains_char SLASH pkg
        || trim_is_empty pkg).

(** The test on one user path. *)
Definition valid_protected_path (p : string) : bool :=
  negb (str_is_empty p || (4096 <? str_len p) || str_contains_char NUL p).

Definition whitelist_error (pkg : string) : fault :=
  Error (ConfigError ("invalid whitelist package '" +:+ pkg +:+ "'")).
Definition protected_path_error (p : string) : fault :=
  Error (ConfigError ("invalid protected path '" +:+ p +:+ "'")).

(** [for pkg in &whitelist { if .. { return Err(..) } }] *)
Fixpoint check_whitelist (l : list string) : result fault unit :=
  match l with
  | [] => Ok tt
  | pkg :: l' => if valid_whitelist_package pkg then check_whitelist l'
                 else Err (whitelist_error pkg)
  end.

(** The loop that appends the user paths not yet in the list. *)
Fixpoint add_protected_paths (user : list string) (acc : list string)
    : result fault (list string) :=
  match user with
  | [] => Ok acc
  | p :: user' =>
      if valid_protected_path p then
        add_protected_paths user' (if existsb (fun q => path_eqb q p) acc then acc else acc ++ [p])
      else Err (protected_path_error p)
  end.

(** The retention age in seconds: hours win over days. *)
Definition retention_secs (raw : RawConfig) : N :=
  match raw_min_file_age_hours raw with
  | Some hours => saturating_mul hours 3600
  | None => saturating_mul (default 3 (raw_min_app_cache_age_days raw)) 86400
  end.

Section from_raw.
(** How an [f32] is printed in an error message. *)
Context (fmt_f32 : f32 -> string).

Definition from_raw (raw : RawConfig) : result fault ValidatedConfig :=
  let interval := default 3600 (raw_maintenance_interval_secs raw) in
  if negb ((60 <=? interval) && (interval <=? 604800)) then
    Err (Error (ConfigError "maintenance_interval_secs must be 60..604800"))
  else
  let min_screen_off := default 180 (raw_min_screen_off_secs raw) in
  if 3600 <? min_screen_off then
    Err (Error (ConfigError "min_screen_off_secs must be 0..3600"))
  else
  let max_soc := default (f32_of_Z 45) (raw_max_soc_temp_c raw) in
  if negb (in_range_f32 (f32_of_Z 20) (f32_of_Z 90) max_soc) then
    Err (Error (ConfigError ("max_soc_temp_c " +:+ fmt_f32 max_soc
                             +:+ " out of safe range [20.0, 90.0]")))
  else
  let max_battery := default (f32_of_Z 45) (raw_max_battery_temp_c raw) in
  if negb (in_range_f32 (f32_of_Z 20) (f32_of_Z 65) max_battery) then
    Err (Error (ConfigError ("max_battery_temp_c " +:+ fmt_f32 max_battery
                             +:+ " out of safe range [20.0, 65.0]")))
  else
  let min_age := retention_secs raw in
  match ByteCount.new (saturating_mul (default 50 (raw_app_cache_threshold_mb raw))
                         (1024 * 1024)) with
  | None => Err (Panic "ByteCount exceeds hard bound 10GiB")
  | Some threshold =>
  let whitelist := default [] (raw_whitelist_packages raw) in
  if (512 <? length whitelist)%nat then
    Err (Error (ConfigError "whitelist_packages exceeds 512 entries"))
  else
  try! _ := check_whitelist whitelist in
  let whitelist := dedup (sort_by String.compare whitelist) in
  try! paths := add_protected_paths (default [] (raw_protected_paths raw))
                  PLATFORM_INVARIANT_PROTECTED_PATHS in
  let fstrim_hours := default 24 (raw_fstrim_interval_hours raw) in
  if negb ((1 <=? fstrim_hours) && (fstrim_hours <=? 720)) then
    Err (Error (ConfigError "fstrim_interval_hours must be 1..720"))
  else
  let vacuum_hours := default 72 (raw_vacuum_db_interval_hours raw) in
  if negb ((1 <=? vacuum_hours) && (vacuum_hours <=? 720)) then
    Err (Error (ConfigError "vacuum_db_interval_hours must be 1..720"))
  else
  Ok {| maintenance_interval_secs := interval;
        min_screen_off_secs := min_screen_off;
        max_soc_temp_c := max_soc;
        max_battery_temp_c := max_battery;
        min_app_cache_age_secs := min_age;
        app_cache_threshold_bytes := threshold;
        dry_run := default false (raw_dry_run raw);
        clean_app_cache := default true (raw_clean_app_cache raw);
        clean_code_cache := default false (raw_clean_code_cache raw);
        clean_tombstones := default false (raw_clean_tombstones raw);
        clean_oem_logs := default false (raw_clean_oem_logs raw);
        clean_temp_apks := default false (raw_clean_temp_apks raw);
        whitelist_packages := whitelist;
        protected_paths := paths;
        fstrim_interval_secs := saturating_mul fstrim_hours 3600;
        vacuum_db_interval_secs := saturating_mul vacuum_hours 3600 |}
  end.
End from_raw.

Record EffectiveConfig := mkEffective {
  generation : ConfigGeneration;
  validated : ValidatedConfig;
}.

Definition is_package_whitelisted (c : EffectiveConfig) (pkg : string) : bool :=
  existsb (fun w => eq_ignore_ascii_case w pkg) (whitelist_packages (validated c)).

Definition is_path_protected (c : EffectiveConfig) (path : string) : bool :=
  existsb (fun prot =>
    if components_prefix (components prot) (components path) then true
    else
      let path_comps := components path in
      let prot_comps := components prot in
      if (length prot_comps <=? length path_comps)%nat
         && negb (Nat.eqb (length prot_comps) 0)
      then bool_decide (take (length prot_comps) path_comps = prot_comps)
      else false)
    (protected_paths (validated c)).

(** ** Lemmas *)

Lemma check_whitelist_ok l :
  check_whitelist l = Ok tt <-> Forall (fun p => valid_whitelist_package p = true) l.
Proof.
  induction l as [|p l IH]; simpl; [by split; [constructor|]|].
  destruct (valid_whitelist_package p) eqn:E.
  - rewrite IH, Forall_cons. tauto.
  - split; [done|]. intros [? _]%Forall_cons. congruence.
Qed.

Lemma add_protected_paths_superset user acc l :
  add_protected_paths user acc = Ok l -> acc ⊆ l /\
  Forall (fun p => exists q, q ∈ l /\ path_eqb q p = true) user.
Proof.
  revert acc. induction user as [|p user IH]; intros acc; simpl.
  - by intros [= ->].
  - destruct (valid_protected_path p); [|done]. intros H.
    apply IH in H as [Hsub Hall]. destruct (existsb _ acc) eqn:E.
    + split; [done|]. constructor; [|done].
      apply existsb_exists in E as (q & Hq & Heq). exists q.
      split; [apply Hsub; by apply list_elem_of_In|done].
    + split; [set_solver|]. constructor; [|done].
      exists p. split; [set_solver|]. unfold path_eqb. by apply bool_decide_eq_true.
Qed.

Lemma is_path_protected_prefix c p q :
  p ∈ protected_paths (validated c) ->
  components_prefix (components p) (components q) = true ->
  is_path_protected c q = true.
Proof.
  intros Hp Hpre. unfold is_path_protected. apply existsb_exists. exists p.
  split; [by apply list_elem_of_In|]. by rewrite Hpre.
Qed.

(** Inversion of a successful validation. *)
Lemma from_raw_ok fmt raw v :
  from_raw fmt raw = Ok v ->
  60 <= maintenance_interval_secs v <= 604800 /\
  min_screen_off_secs v <= 3600 /\
  in_range_f32 (f32_of_Z 20) (f32_of_Z 90) (max_soc_temp_c v) = true /\
  in_range_f32 (f32_of_Z 20) (f32_of_Z 65) (max_battery_temp_c v) = true /\
  app_cache_threshold_bytes v <= ByteCount.MAX_SAFE /\
  3600 <= fstrim_interval_secs v <= 2592000 /\
  3600 <= vacuum_db_interval_secs v <= 2592000 /\
  min_app_cache_age_secs v = retention_secs raw /\
  Forall (fun p => valid_whitelist_package p = true) (default [] (raw_whitelist_packages raw)) /\
  whitelist_packages v = dedup (sort_by String.compare (default [] (raw_whitelist_packages raw))) /\
  add_protected_paths (default [] (raw_protected_paths raw))
    PLATFORM_INVARIANT_PROTECTED_PATHS = Ok (protected_paths v).
Proof.
  unfold from_raw, ByteCount.new.
  destruct (negb ((60 <=? _) && _)) eqn:E1; [done|].
  destruct (3600 <? _) eqn:E2; [done|].
  destruct (negb (in_range_f32 _ (f32_of_Z 90) _)) eqn:E3; [done|].
  destruct (negb (in_range_f32 _ (f32_of_Z 65) _)) eqn:E4; [done|].
  destruct (_ <=? ByteCount.MAX_SAFE) eqn:E5; [|done].
  destruct (512 <? _)%nat eqn:E6; [done|].
  destruct (check_whitelist _) as [[]|] eqn:E7; [simpl|done].
  destruct (add_protected_paths _ _) as [paths|] eqn:E8; [simpl|done].
  destruct (negb ((1 <=? default 24 _) && _)) eqn:E9; [done|].
  destruct (negb ((1 <=? default 72 _) && _)) eqn:E10; [done|].
  intros [= <-]; simpl.
  apply negb_false_iff in E1, E3, E4, E9, E10. apply andb_true_iff in E1, E9, E10.
  rewrite !N.leb_le in *. apply N.ltb_ge in E2. apply check_whitelist_ok in E7.
  unfold saturating_mul. assert (720 * 3600 <= U64_MAX) by (vm_compute; discriminate).
  repeat split; try done; lia.
Qed.

(** ** Properties *)

(** A validated configuration is within the documented ranges and its
    whitelist is the raw one, sorted and without duplicates: validation neither
    adds nor drops a package, and the protected paths contain every
    platform-invariant path and every path the user named. *)
Theorem from_raw_sound fmt raw v :
  from_raw fmt raw = Ok v ->
  60 <= maintenance_interval_secs v <= 604800 /\
  min_screen_off_secs v <= 3600 /\
  app_cache_threshold_bytes v <= ByteCount.MAX_SAFE /\
  3600 <= fstrim_interval_secs v <= 2592000 /\
  3600 <= vacuum_db_interval_secs v <= 2592000 /\
  (forall p, p ∈ whitelist_packages v <-> p ∈ default [] (raw_whitelist_packages raw)) /\
  StronglySorted (fun a b => String.compare a b = Lt) (whitelist_packages v) /\
  NoDup (whitelist_packages v) /\
  PLATFORM_INVARIANT_PROTECTED_PATHS ⊆ protected_paths v /\
  Forall (fun p => exists q, q ∈ protected_paths v /\ path_eqb q p = true)
    (default [] (raw_protected_paths raw)).
Proof.
  intros (H1 & H2 & _ & _ & H5 & H6 & H7 & _ & _ & Hw & Hp)%from_raw_ok.
  assert (StronglySorted (fun a b => String.compare a b = Lt) (whitelist_packages v)) as Hs.
  { rewrite Hw. apply (dedup_sorted String.compare).
    - intros x y. apply string_compare_eq.
    - apply (sort_by_sorted String.compare). }
  destruct (add_protected_paths_superset _ _ _ Hp) as [Hsub Huser].
  do 5 (split; [done|]). split; [|split; [done|split; [|split; [done|done]]]].
  - intros p. by rewrite Hw, dedup_elem_of, sort_by_perm.
  - eapply (sorted_lt_NoDup String.compare); [apply string_compare_refl|done].
Qed.

Lemma from_raw_sound_witness :
  match from_raw (fun _ => EmptyString) RawConfig_default with
  | Ok v => 60 <= maintenance_interval_secs v <= 604800
  | Err _ => False
  end.
Proof.
  destruct (from_raw (fun _ => EmptyString) RawConfig_default) as [v|] eqn:E.
  - apply (from_raw_sound (fun _ => EmptyString) RawConfig_default v). exact E.
  - vm_compute in E. discriminate.
Defined.

(** Whatever the user configures, a path at or below a platform-invariant
    protected root is protected under every validated configuration. *)
Theorem invariant_paths_stay_protected fmt raw v g root path :
  from_raw fmt raw = Ok v ->
  root ∈ PLATFORM_INVARIANT_PROTECTED_PATHS ->
  components_prefix (components root) (components path) = true ->
  is_path_protected (mkEffective g v) path = true.
Proof.
  intros (_ & _ & _ & _ & _ & _ & _ & _ & _ & _ & Hp)%from_raw_ok Hr Hpre.
  destruct (add_protected_paths_superset _ _ _ Hp) as [Hsub _].
  eapply is_path_protected_prefix; [|done]. by apply Hsub.
Qed.

Lemma invariant_paths_stay_protected_witness :
  match from_raw (fun _ => EmptyString) RawConfig_default with
  | Ok v => is_path_protected (mkEffective ConfigGeneration_INITIAL v)
              "/data/system//users/0" = true
  | Err _ => False
  end.
Proof.
  destruct (from_raw (fun _ => EmptyString) RawConfig_default) as [v|] eqn:E.
  - apply (invariant_paths_stay_protected (fun _ => EmptyString) RawConfig_default v
             ConfigGeneration_INITIAL "/data/system").
    + exact E.
    + unfold PLATFORM_INVARIANT_PROTECTED_PATHS. set_solver.
    + reflexivity.
  - vm_compute in E. discriminate.
Defined.
