(* ===== verification/Safety.v ===== *)
(** The safety gate of src/safety/mod.rs: the invariants checked on a candidate
    before policy and again at the mutation boundary.  The abstract contract is
    [mutation_safe]; the theorems show that both checks implement exactly it, on
    every branch, and that a proof is bound to its operation and its 30 seconds. *)
From Stdlib Require Import Ascii String.
From S2P Require Import Prelude Paths Domain Config.

Record SafetyProof := mkSafetyProof {
  sp_target_id : TargetId;
  sp_expected_identity : FileIdentity;
  sp_operation_id : OperationId;
  sp_catalog_generation : CatalogGeneration;
  sp_config_generation : ConfigGeneration;
  sp_validated_at : UnixTimestamp;
  sp_expires_at : UnixTimestamp;
}.

Definition is_expired (p : SafetyProof) (now : UnixTimestamp) : bool := sp_expires_at p <? now.

Definition is_valid_for (p : SafetyProof) (op_id : OperationId) (now : UnixTimestamp)
    (cat : CatalogGeneration) (cfg : ConfigGeneration) : bool :=
  (sp_operation_id p =? op_id)
  && bool_decide (sp_catalog_generation p = cat)
  && bool_decide (sp_config_generation p = cfg)
  && negb (is_expired p now).

(** The loop of [verify_target_root_safety] over the protected roots. *)
Fixpoint check_protected_roots (path : string) (roots : list string)
    : result CleanerError unit :=
  match roots with
  | [] => Ok tt
  | prot :: roots' =>
      let path_comps := components path in
      let prot_comps := components prot in
      if (length prot_comps <=? length path_comps)%nat
         && negb (Nat.eqb (length prot_comps) 0)
         && bool_decide (take (length prot_comps) path_comps = prot_comps)
      then Err (SafetyViolation ("Critical invariant violation: Protected system root '"
             +:+ prot +:+ "' must never be targeted for mutation (path: " +:+ path +:+ ")"))
      else check_protected_roots path roots'
  end.

Definition verify_target_root_safety (path : string) : result CleanerError unit :=
  let path_comps := components path in
  if Nat.eqb (length path_comps) 0
     || (Nat.eqb (length path_comps) 1 && bool_decide (head path_comps = Some RootDir))
  then Err (SafetyViolation "Critical invariant violation: Root '/' must never be targeted for mutation")
  else check_protected_roots path PLATFORM_INVARIANT_PROTECTED_PATHS.

Definition validate_candidate (candidate : Candidate) (target : TargetDescriptor)
    (now : UnixTimestamp) : result CleanerError SafetyValidatedCandidate :=
  if negb (is_mutation_allowed target) then
    Err (SafetyViolation ("Target " +:+ TargetId_display (td_target_id target)
         +:+ " safety tier " +:+ TargetSafetyTier_debug (td_safety_tier target)
         +:+ " strictly forbids mutation"))
  else if negb (bool_decide (c_target_id candidate = td_target_id target)) then
    Err (SafetyViolation ("Candidate target ID mismatch: candidate "
         +:+ TargetId_display (c_target_id candidate) +:+ " vs target "
         +:+ TargetId_display (td_target_id target)))
  else if negb (dev (c_identity candidate) =? td_dev target) then
    Err (SafetyViolation ("Mount boundary violation: candidate dev "
         +:+ DeviceNumber_display (dev (c_identity candidate)) +:+ " != target root dev "
         +:+ DeviceNumber_display (td_dev target)))
  else if str_is_empty (RelativePath.as_path (c_rel_path candidate)) then
    Err (SafetyViolation
      "Attempted to validate root target directory itself as a deletion candidate")
  else
    try! _ := verify_target_root_safety (td_base_path target) in
    Ok (mkValidated candidate (td_dev target) (td_ino target) now).

Definition validate_mutation_boundary (target : TargetDescriptor) (rel_path : string)
    (expected_identity : FileIdentity) (operation_id : OperationId)
    (cat : CatalogGeneration) (cfg : ConfigGeneration) (now : UnixTimestamp)
    : result CleanerError SafetyProof :=
  if negb (is_mutation_allowed target) then
    Err (SafetyViolation ("Mutation boundary rejected: Target "
         +:+ TargetId_display (td_target_id target) +:+ " safety tier "
         +:+ TargetSafetyTier_debug (td_safety_tier target) +:+ " is read-only"))
  else
    try! _ := verify_target_root_safety (td_base_path target) in
    if str_is_empty rel_path then
      Err (SafetyViolation
        "Mutation boundary rejected: Attempted to mutate target root directory directly")
    else if negb (dev expected_identity =? td_dev target) then
      Err (SafetyViolation ("Mutation boundary rejected: Device mismatch expected "
           +:+ DeviceNumber_display (dev expected_identity) +:+ " vs target root "
           +:+ DeviceNumber_display (td_dev target)))
    else
      let expires_at := saturating_add now 30 in
      if negb (bool_decide (td_catalog_generation target = cat)) then
        Err (SafetyViolation ("Catalog generation mismatch: target "
             +:+ CatalogGeneration_display (td_catalog_generation target)
             +:+ " vs expected " +:+ CatalogGeneration_display cat))
      else
        Ok (mkSafetyProof (td_target_id target) expected_identity operation_id cat cfg
              now expires_at).

(** ** The contract *)

(** A root that no cleaner may touch: the filesystem root, or one at or below a
    platform-invariant path. *)
Definition root_protected (path : string) : Prop :=
  components path = [] \/ components path = [RootDir] \/
  exists prot, prot ∈ PLATFORM_INVARIANT_PROTECTED_PATHS /\
    components_prefix (components prot) (components path) = true.

(** What both gates promise of a target and an entry below it. *)
Record mutation_safe (target : TargetDescriptor) (rel_path : string) (identity : FileIdentity)
    : Prop := {
  safe_tier : td_safety_tier target = StandardCache \/ td_safety_tier target = RequiresColdApp;
  safe_root : ~ root_protected (td_base_path target);
  safe_not_root : rel_path <> EmptyString;
  safe_same_device : dev identity = td_dev target;
}.

(** ** Lemmas *)

Lemma take_prefix pre l :
  take (length pre) l = pre <-> components_prefix pre l = true.
Proof.
  rewrite components_prefix_spec. split.
  - intros H. exists (drop (length pre) l). by rewrite <- H at 1; rewrite take_drop.
  - intros [r ->]. by rewrite take_app_length.
Qed.

Lemma prefix_length pre l : components_prefix pre l = true -> (length pre <= length l)%nat.
Proof. intros [r ->]%components_prefix_spec. rewrite length_app. lia. Qed.

Lemma check_protected_roots_ok path roots :
  Forall (fun r => components r <> []) roots ->
  check_protected_roots path roots = Ok tt <->
  forall r, r ∈ roots -> components_prefix (components r) (components path) = false.
Proof.
  induction roots as [|r roots IH]; intros Hne; cbn [check_protected_roots].
  { split; [intros _ r Hr; by apply elem_of_nil in Hr|done]. }
  apply Forall_cons in Hne as [Hr Hne].
  destruct (components_prefix (components r) (components path)) eqn:E.
  - pose proof (prefix_length _ _ E) as Hl. apply take_prefix in E.
    rewrite (proj2 (Nat.leb_le _ _) Hl), (bool_decide_eq_true_2 _ E).
    destruct (components r) eqn:Er; [done|]. simpl. split; [done|].
    intros H. specialize (H r (list_elem_of_here _ _)). rewrite Er in H.
    apply take_prefix in E. congruence.
  - rewrite (bool_decide_eq_false_2 (take _ _ = _)) by (rewrite take_prefix; congruence).
    rewrite andb_false_r, IH by done. split.
    + intros H x [->|Hx]%elem_of_cons; [done|auto].
    + intros H x Hx. apply H. by apply elem_of_cons; right.
Qed.

Lemma invariant_paths_have_components :
  Forall (fun r => components r <> []) PLATFORM_INVARIANT_PROTECTED_PATHS.
Proof. by repeat constructor. Qed.

Lemma verify_target_root_safety_ok path :
  verify_target_root_safety path = Ok tt <-> ~ root_protected path.
Proof.
  unfold verify_target_root_safety, root_protected.
  destruct (Nat.eqb (length (components path)) 0
     || (Nat.eqb (length (components path)) 1
         && bool_decide (head (components path) = Some RootDir))) eqn:E.
  - split; [done|]. intros H. exfalso. apply H.
    apply orb_true_iff in E as [E|[E1 E2]%andb_true_iff].
    + apply Nat.eqb_eq, nil_length_inv in E. auto.
    + apply Nat.eqb_eq in E1. apply bool_decide_eq_true in E2.
      destruct (components path) as [|c [|]]; simpl in *; simplify_eq. auto.
  - apply orb_false_iff in E as [E1%Nat.eqb_neq E2].
    rewrite check_protected_roots_ok by apply invariant_paths_have_components. split.
    + intros H [H0|[H0|(r & Hr & Hp)]].
      * by rewrite H0 in E1.
      * by rewrite H0 in E2.
      * by rewrite (H r Hr) in Hp.
    + intros H r Hr. apply not_true_iff_false. intros Hp. apply H. eauto.
Qed.

Lemma is_mutation_allowed_spec t :
  is_mutation_allowed t = true <->
  td_safety_tier t = StandardCache \/ td_safety_tier t = RequiresColdApp.
Proof. unfold is_mutation_allowed. destruct (td_safety_tier t); intuition done. Qed.

Lemma str_is_empty_false s : str_is_empty s = false <-> s <> EmptyString.
Proof. by destruct s. Qed.

Lemma validate_mutation_boundary_inv target rel id op cat cfg now pf :
  validate_mutation_boundary target rel id op cat cfg now = Ok pf ->
  mutation_safe target rel id /\ td_catalog_generation target = cat /\
  pf = mkSafetyProof (td_target_id target) id op cat cfg now (saturating_add now 30).
Proof.
  unfold validate_mutation_boundary.
  destruct (is_mutation_allowed target) eqn:E1; [simpl|done].
  destruct (verify_target_root_safety _) as [[]|] eqn:E2; [simpl|done].
  destruct (str_is_empty rel) eqn:E3; [done|].
  destruct (dev id =? td_dev target) eqn:E4; [simpl|done].
  destruct (bool_decide (td_catalog_generation target = cat)) eqn:E5; [simpl|done].
  intros [= <-]. split; [|split; [by apply bool_decide_eq_true in E5|done]].
  constructor.
  - by apply is_mutation_allowed_spec.
  - by apply verify_target_root_safety_ok.
  - by apply str_is_empty_false.
  - by apply N.eqb_eq.
Qed.

(** ** Properties *)

(** C21 The gate at the mutation boundary is sound and complete: it issues a proof
    exactly when the tier allows mutation, the root is not protected, the path is
    not the root itself, the entry is on the root's device and the target belongs
    to the catalog generation in force; the proof is bound to the operation, both
    generations and a 30 second window. *)
Theorem validate_mutation_boundary_spec target rel id op cat cfg now pf :
  validate_mutation_boundary target rel id op cat cfg now = Ok pf <->
  mutation_safe target rel id /\ td_catalog_generation target = cat /\
  pf = mkSafetyProof (td_target_id target) id op cat cfg now (saturating_add now 30).
Proof.
  split; [apply validate_mutation_boundary_inv|].
  intros ([Ht Hr Hn Hd] & Hg & ->). unfold validate_mutation_boundary.
  rewrite (proj2 (is_mutation_allowed_spec _) Ht). simpl.
  rewrite (proj2 (verify_target_root_safety_ok _) Hr). simpl.
  rewrite (proj2 (str_is_empty_false _) Hn).
  rewrite (proj2 (N.eqb_eq _ _) Hd). simpl.
  by rewrite (bool_decide_eq_true_2 _ Hg).
Qed.

Lemma validate_candidate_inv c target now v :
  validate_candidate c target now = Ok v ->
  mutation_safe target (c_rel_path c) (c_identity c) /\
  c_target_id c = td_target_id target /\
  v = mkValidated c (td_dev target) (td_ino target) now.
Proof.
  unfold validate_candidate, RelativePath.as_path.
  destruct (is_mutation_allowed target) eqn:E1; [simpl|done].
  destruct (bool_decide (c_target_id c = _)) eqn:E2; [simpl|done].
  destruct (dev (c_identity c) =? td_dev target) eqn:E3; [simpl|done].
  destruct (str_is_empty (c_rel_path c)) eqn:E4; [done|].
  destruct (verify_target_root_safety _) as [[]|] eqn:E5; [simpl|done].
  intros [= <-]. split; [|split; [by apply bool_decide_eq_true in E2|done]].
  constructor; [by apply is_mutation_allowed_spec | by apply verify_target_root_safety_ok
               | by apply str_is_empty_false | by apply N.eqb_eq].
Qed.

(** A candidate passes the first gate exactly when it satisfies the same
    contract and names its own target; what is validated is the candidate
    unchanged, with the identity of the root. *)
Theorem validate_candidate_spec c target now v :
  validate_candidate c target now = Ok v <->
  mutation_safe target (c_rel_path c) (c_identity c) /\
  c_target_id c = td_target_id target /\
  v = mkValidated c (td_dev target) (td_ino target) now.
Proof.
  split; [apply validate_candidate_inv|].
  intros ([Ht Hr Hn Hd] & Hid & ->). unfold validate_candidate, RelativePath.as_path.
  rewrite (proj2 (is_mutation_allowed_spec _) Ht), (bool_decide_eq_true_2 _ Hid),
      (proj2 (N.eqb_eq _ _) Hd), (proj2 (str_is_empty_false _) Hn). simpl.
  by rewrite (proj2 (verify_target_root_safety_ok _) Hr).
Qed.

(** A safety proof is valid only for the operation and generations it was
    issued for, and for 30 seconds from its issue. *)
Theorem safety_proof_window target rel id op cat cfg now pf op' now' cat' cfg' :
  now + 30 <= U64_MAX ->
  validate_mutation_boundary target rel id op cat cfg now = Ok pf ->
  is_valid_for pf op' now' cat' cfg' = true <->
  op' = op /\ cat' = cat /\ cfg' = cfg /\ now' <= now + 30.
Proof.
  intros Hb (_ & _ & ->)%validate_mutation_boundary_inv.
  unfold is_valid_for, is_expired; simpl. rewrite saturating_add_exact by done.
  rewrite !andb_true_iff, !bool_decide_eq_true, negb_true_iff, N.eqb_eq, N.ltb_ge.
  intuition congruence.
Qed.

(** A concrete application cache. *)
Definition example_target : TargetDescriptor :=
  mkTarget "android:com.app:cache" AppCache "/data/user/0/com.app/cache" 5 77 10100 10100
    (Some "com.app") StandardCache CatalogGeneration_INITIAL.

Lemma safety_proof_window_witness :
  exists pf,
    validate_mutation_boundary example_target "a/b.tmp" (mkFileIdentity 5 9) 3
      CatalogGeneration_INITIAL ConfigGeneration_INITIAL 1000 = Ok pf /\
    is_valid_for pf 3 1030 CatalogGeneration_INITIAL ConfigGeneration_INITIAL = true.
Proof.
  eexists. split; [reflexivity|].
  apply (safety_proof_window example_target "a/b.tmp" (mkFileIdentity 5 9) 3
           CatalogGeneration_INITIAL ConfigGeneration_INITIAL 1000).
  - vm_compute. discriminate.
  - reflexivity.
  - repeat split. vm_compute. discriminate.
Defined.
