(* ===== verification/Policy.v ===== *)
(** The policy engine of src/policy/mod.rs.  The rules are specified by
    [deny_reason], the ordered list of reasons to keep an entry; the theorem
    gives the decision on every branch, its priority included. *)
From Stdlib Require Import Ascii String.
From S2P Require Import Prelude Paths Domain Config Safety.

Definition deny (v : SafetyValidatedCandidate) (r : DecisionReason) (at_ : UnixTimestamp)
    : PolicyDecision := Deny (mkDeny v r at_).

(** Rule 0: the category switches. *)
Definition category_disabled (class : TargetClass) (config : EffectiveConfig) : bool :=
  match class with
  | Tombstones => negb (clean_tombstones (validated config))
  | LogArchive => negb (clean_oem_logs (validated config))
  | TempDir => negb (clean_temp_apks (validated config))
  | CodeCache => negb (clean_code_cache (validated config))
  | _ => false
  end.

(** Rule 2: bytecode and JIT artifacts. *)
Definition is_protected_bytecode (rel_str : string) : bool :=
  str_ends_with rel_str ".dex" || str_ends_with rel_str ".oat"
  || str_ends_with rel_str ".art" || str_ends_with rel_str ".vdex"
  || str_contains rel_str "code_cache".

Definition evaluate_candidate_with_freezer (v : SafetyValidatedCandidate)
    (target : TargetDescriptor) (config : EffectiveConfig) (now : UnixTimestamp)
    (is_frozen : bool) (decided_at : UnixTimestamp) : PolicyDecision :=
  if category_disabled (td_target_class target) config then deny v CategoryDisabled decided_at
  else if match td_package_name target with
          | Some pkg => is_package_whitelisted config pkg
          | None => false
          end then deny v PackageWhitelisted decided_at
  else if is_protected_bytecode (RelativePath.as_str (c_rel_path (sv_candidate v))) then
    deny v ProtectedBytecode decided_at
  else if negb (c_is_dir (sv_candidate v))
          && (age_secs (c_mtime (sv_candidate v)) now
              <? min_app_cache_age_secs (validated config)) then
    deny v WithinRetentionGracePeriod decided_at
  else Allow (mkPermit v (if is_frozen then 200 else 100) ExceedsRetentionAge decided_at).

Definition evaluate_candidate (v : SafetyValidatedCandidate) (target : TargetDescriptor)
    (config : EffectiveConfig) (now : UnixTimestamp) (decided_at : UnixTimestamp)
    : PolicyDecision :=
  evaluate_candidate_with_freezer v target config now false decided_at.

(** ** Specification: an entry is kept for a reason.

    The reasons are spelled out here anew, from the documentation of the switches in
    config/cleaner.toml and not from the functions above. *)

(** The category of a target is switched off. *)
Inductive switched_off (v : ValidatedConfig) : TargetClass -> Prop :=
| off_crash_dumps : clean_tombstones v = false -> switched_off v Tombstones
| off_oem_logs : clean_oem_logs v = false -> switched_off v LogArchive
| off_temp_apks : clean_temp_apks v = false -> switched_off v TempDir
| off_code_cache : clean_code_cache v = false -> switched_off v CodeCache.

(** Compiled code, by the ending of its name, and anything with [code_cache] in its
    path. *)
Inductive compiled_code : string -> Prop :=
| code_dex stem : compiled_code (stem +:+ ".dex")
| code_oat stem : compiled_code (stem +:+ ".oat")
| code_art stem : compiled_code (stem +:+ ".art")
| code_vdex stem : compiled_code (stem +:+ ".vdex")
| code_cached above under : compiled_code (above +:+ "code_cache" +:+ under).

Inductive keeps (v : SafetyValidatedCandidate) (target : TargetDescriptor)
    (config : EffectiveConfig) (now : UnixTimestamp) : DecisionReason -> Prop :=
| keep_category :
    switched_off (validated config) (td_target_class target) ->
    keeps v target config now CategoryDisabled
| keep_whitelisted pkg w :
    td_package_name target = Some pkg ->
    w ∈ whitelist_packages (validated config) ->
    eq_ignore_ascii_case w pkg = true ->
    keeps v target config now PackageWhitelisted
| keep_bytecode :
    compiled_code (c_rel_path (sv_candidate v)) ->
    keeps v target config now ProtectedBytecode
| keep_young :
    c_is_dir (sv_candidate v) = false ->
    now - c_mtime (sv_candidate v) < min_app_cache_age_secs (validated config) ->
    keeps v target config now WithinRetentionGracePeriod.

(** ** Lemmas *)

Lemma category_disabled_spec class config :
  category_disabled class config = true <-> switched_off (validated config) class.
Proof.
  split.
  - destruct class; simpl; try done; intros ?%negb_true_iff; by constructor.
  - by intros []; simpl; apply negb_true_iff.
Qed.

Lemma is_protected_bytecode_spec path : is_protected_bytecode path = true <-> compiled_code path.
Proof.
  unfold is_protected_bytecode. rewrite !orb_true_iff, !str_ends_with_iff, str_contains_iff. split.
  - intros [[[[[r ->]|[r ->]]|[r ->]]|[r ->]]|(a & b & ->)]; constructor.
  - intros []; eauto 10.
Qed.

Lemma is_package_whitelisted_spec c pkg :
  is_package_whitelisted c pkg = true <->
  exists w, w ∈ whitelist_packages (validated c) /\ eq_ignore_ascii_case w pkg = true.
Proof.
  unfold is_package_whitelisted. rewrite existsb_exists. split.
  - intros (w & Hw & He). exists w. split; [by apply list_elem_of_In|done].
  - intros (w & Hw & He). exists w. split; [by apply list_elem_of_In|done].
Qed.

Lemma evaluate_allowed v target config now frozen at_ p :
  evaluate_candidate_with_freezer v target config now frozen at_ = Allow p ->
  p = mkPermit v (if frozen then 200 else 100) ExceedsRetentionAge at_ /\
  forall r, ~ keeps v target config now r.
Proof.
  unfold evaluate_candidate_with_freezer, deny, age_secs, saturating_sub, RelativePath.as_str.
  destruct (category_disabled _ _) eqn:E0; [done|].
  destruct (match td_package_name target with Some pkg => _ | None => _ end) eqn:E1; [done|].
  destruct (is_protected_bytecode _) eqn:E2; [done|].
  destruct (negb (c_is_dir _) && _) eqn:E3; [done|]. intros [= <-].
  split; [done|]. intros r Hk. destruct Hk as [H|pkg w Hp Hw He|H|H1 H2].
  - apply category_disabled_spec in H. congruence.
  - rewrite Hp in E1. apply not_true_iff_false in E1. apply E1.
    apply is_package_whitelisted_spec. eauto.
  - apply is_protected_bytecode_spec in H. congruence.
  - rewrite H1 in E3. simpl in E3. apply N.ltb_ge in E3. lia.
Qed.

(** C22 The policy removes an entry only when no rule keeps it, and denies with a
    reason that applies: an entry is allowed if and only if the switch of its category
    (crash dumps, vendor logs, temporary packages, code caches) is on, its package is
    not whitelisted (case-insensitively), its path is not that of compiled code (.dex,
    .oat, .art, .vdex, code_cache) and, unless it is a directory, it is at least as old
    as the retention age; frozen owners get priority 200, others 100. *)
Theorem evaluate_candidate_spec v target config now frozen at_ :
  match evaluate_candidate_with_freezer v target config now frozen at_ with
  | Allow p =>
      p = mkPermit v (if frozen then 200 else 100) ExceedsRetentionAge at_ /\
      forall r, ~ keeps v target config now r
  | Deny d => pd_candidate d = v /\ pd_decided_at d = at_ /\
              keeps v target config now (pd_reason d)
  | Skip _ => False
  end.
Proof.
  destruct (evaluate_candidate_with_freezer v target config now frozen at_) as [p|d|k] eqn:E;
    [by eapply evaluate_allowed| |]; revert E;
    unfold evaluate_candidate_with_freezer, deny, age_secs, saturating_sub, RelativePath.as_str;
    destruct (category_disabled _ _) eqn:E0;
    try (intros [= <-]; by repeat split; constructor; apply category_disabled_spec);
    try done;
    destruct (match td_package_name target with Some pkg => _ | None => _ end) eqn:E1;
    try done.
  - intros [= <-]. destruct (td_package_name target) as [pkg|] eqn:Ep; [|done].
    apply is_package_whitelisted_spec in E1 as (w & Hw & He).
    repeat split. by econstructor.
  - destruct (is_protected_bytecode _) eqn:E2.
    { intros [= <-]. repeat split. by constructor; apply is_protected_bytecode_spec. }
    destruct (negb (c_is_dir _) && _) eqn:E3; [|done]. intros [= <-].
    apply andb_true_iff in E3 as [E3 E4]. apply negb_true_iff in E3. apply N.ltb_lt in E4.
    repeat split. by constructor.
  - destruct (is_protected_bytecode _); [done|]. by destruct (negb (c_is_dir _) && _).
Qed.

(** The switch [clean_app_cache] of the configuration has no effect on any decision. *)
Definition with_app_cache (b : bool) (c : ValidatedConfig) : ValidatedConfig :=
  mkValidatedConfig (maintenance_interval_secs c) (min_screen_off_secs c) (max_soc_temp_c c)
    (max_battery_temp_c c) (min_app_cache_age_secs c) (app_cache_threshold_bytes c) (dry_run c) b
    (clean_code_cache c) (clean_tombstones c) (clean_oem_logs c) (clean_temp_apks c)
    (whitelist_packages c) (protected_paths c) (fstrim_interval_secs c) (vacuum_db_interval_secs c).

Lemma clean_app_cache_has_no_effect v target g c b now frozen at_ :
  evaluate_candidate_with_freezer v target (mkEffective g (with_app_cache b c)) now frozen at_ =
  evaluate_candidate_with_freezer v target (mkEffective g c) now frozen at_.
Proof. reflexivity. Qed.
