(* ===== verification/Auth.v ===== *)
(** The authorization engine of src/auth/mod.rs, which turns a plan into an
    authorized plan with one capability per operation. *)
From Stdlib Require Import Ascii String.
From S2P Require Import Prelude Paths Domain.

(** The capability an operation needs; [execute_plan] looks up the same one. *)
Definition required_capability (o : OperationType) : Capability :=
  match o with
  | DeleteFile t p _ _ => CapDeleteFile t p
  | DeleteDirEmpty t p _ | PruneDirRecursive t p _ => CapDeleteDirectory t p
  | TrimFilesystem m => CapTrimMount m
  | VacuumDatabase d => CapVacuumDatabase d
  end.

(** The engine's state is its grant counter (an [AtomicU64] starting at 1). *)
Definition authorize_plan (grant_id_counter : N) (p : PlannedPlan) (cat : CatalogGeneration)
    (ttl_secs : N) (cfg : ConfigGeneration) (now : UnixTimestamp)
    : result CleanerError AuthorizedPlan * N :=
  if negb (bool_decide (plan_catalog_generation p = cat)) then
    (Err (SafetyViolation ("Authorization rejected: plan catalog generation "
       +:+ CatalogGeneration_display (plan_catalog_generation p)
       +:+ " is stale against catalog generation " +:+ CatalogGeneration_display cat)),
     grant_id_counter)
  else if negb (bool_decide (plan_config_generation p = cfg)) then
    (Err (SafetyViolation ("Authorization rejected: plan config generation "
       +:+ ConfigGeneration_display (plan_config_generation p)
       +:+ " is stale against config generation " +:+ ConfigGeneration_display cfg)),
     grant_id_counter)
  else
    let capabilities := map (fun op => required_capability (op_type op)) (operations p) in
    let expires_at := saturating_add now ttl_secs in
    (Ok (mkAuthorized p
           (mkGrant grant_id_counter capabilities cat cfg now expires_at)),
     wrap_add grant_id_counter 1).

Lemma authorize_plan_ok n p cat ttl cfg now a n' :
  authorize_plan n p cat ttl cfg now = (Ok a, n') ->
  plan_catalog_generation p = cat /\ plan_config_generation p = cfg /\
  a = mkAuthorized p
        (mkGrant n (map (fun op => required_capability (op_type op)) (operations p)) cat cfg now
           (saturating_add now ttl)).
Proof.
  unfold authorize_plan.
  destruct (bool_decide (plan_catalog_generation p = cat)) eqn:E1; [simpl|done].
  destruct (bool_decide (plan_config_generation p = cfg)) eqn:E2; [simpl|done].
  intros [= <- <-]. apply bool_decide_eq_true in E1, E2. done.
Qed.

Lemma granted_op a op :
  capabilities (grant a) = map (fun op => required_capability (op_type op)) (operations (plan a)) ->
  op ∈ operations (plan a) ->
  capabilities_contains (grant a) (required_capability (op_type op)) = true.
Proof.
  intros Hc Hop. unfold capabilities_contains. rewrite Hc. apply existsb_exists.
  exists (required_capability (op_type op)). split; [|apply Capability_eqb_refl].
  apply in_map_iff. exists op. split; [done|]. by apply list_elem_of_In.
Qed.

(** A plan is authorized exactly when both its generations are current; the
    grant then covers every operation of the plan and nothing that is not an
    operation of the plan, and it is accepted for execution until its time to
    live is over and no longer once a generation has moved on. *)
Theorem authorize_plan_spec n p cat ttl cfg now :
  now + ttl <= U64_MAX ->
  match fst (authorize_plan n p cat ttl cfg now) with
  | Ok a =>
      plan a = p /\
      (forall op, op ∈ operations p ->
         capabilities_contains (grant a) (required_capability (op_type op)) = true) /\
      (forall c, capabilities_contains (grant a) c = true ->
         exists op, op ∈ operations p /\ Capability_eqb (required_capability (op_type op)) c = true) /\
      (forall now' cat' cfg',
         is_authorized_for_execution a now' cat' cfg' = true <->
         cat' = cat /\ cfg' = cfg /\ now' <= now + ttl)
  | Err e => (plan_catalog_generation p <> cat \/ plan_config_generation p <> cfg) /\
             exists m, e = SafetyViolation m
  end.
Proof.
  intros Hb. destruct (authorize_plan n p cat ttl cfg now) as [[a|e] n'] eqn:E; simpl.
  - apply authorize_plan_ok in E as (<- & <- & ->). simpl. split; [done|]. repeat split.
    + intros op Hop. by apply (granted_op (mkAuthorized p _)).
    + unfold capabilities_contains; simpl. intros c (d & Hd & Heq)%existsb_exists.
      apply in_map_iff in Hd as (op & <- & Hop). exists op.
      split; [by apply list_elem_of_In|done].
    + apply is_authorized_spec in H as (?&?&?&?&?). simpl in *. congruence.
    + apply is_authorized_spec in H as (?&?&?&?&?). simpl in *. congruence.
    + apply is_authorized_spec in H as (?&?&?&?&H). simpl in *.
      by rewrite saturating_add_exact in H.
    + intros (-> & -> & Hle). apply is_authorized_spec. simpl.
      rewrite saturating_add_exact by done. done.
  - revert E. unfold authorize_plan.
    destruct (bool_decide (plan_catalog_generation p = cat)) eqn:E1; simpl.
    2: { intros [= <- <-]. apply bool_decide_eq_false in E1. eauto. }
    destruct (bool_decide (plan_config_generation p = cfg)) eqn:E2; simpl; [done|].
    intros [= <- <-]. apply bool_decide_eq_false in E2. eauto.
Qed.

Definition example_plan : PlannedPlan :=
  mkPlan 65793 1 CatalogGeneration_INITIAL ConfigGeneration_INITIAL
    [mkOp 1 (DeleteFile "android:com.app:cache" "a/b.tmp" (mkFileIdentity 5 9) 4096) [] 4096;
     mkOp 2 (DeleteDirEmpty "android:com.app:cache" "a" (mkFileIdentity 5 8)) [1] 0]
    4096 1000.

Lemma authorize_plan_spec_witness :
  exists a n, authorize_plan 1 example_plan CatalogGeneration_INITIAL 300
                ConfigGeneration_INITIAL 1000 = (Ok a, n) /\
    (forall op, op ∈ operations example_plan ->
       capabilities_contains (grant a) (required_capability (op_type op)) = true).
Proof.
  do 2 eexists. split; [reflexivity|].
  assert (1000 + 300 <= U64_MAX) as Hb by (vm_compute; discriminate).
  pose proof (authorize_plan_spec 1 example_plan CatalogGeneration_INITIAL 300
                ConfigGeneration_INITIAL 1000 Hb) as H.
  cbn -[capabilities_contains] in H. destruct H as (_ & H & _). exact H.
Defined.
