(* ===== verification/Planner.v ===== *)
(** The planner of src/planner/mod.rs: from the permits of the policy to a
    plan, a list of operations in an order in which every directory comes after
    everything to be deleted below it.

    The theorems show that planning succeeds on every list within the budget,
    that the plan does not depend on the order in which permits arrive (they come
    out of hash maps), that it deletes exactly the permitted entries, and that
    the dependencies of a directory are exactly the entries below it. *)
From Stdlib Require Import Ascii String.
From S2P Require Import Prelude Paths Domain.

Definition DEFAULT_MAX_OPERATIONS_PER_PLAN : N := 10000.

(** [rel_path.as_str().split('/').count()] *)
Definition depth (p : RelativePath.t) : nat := length (str_split SLASH (RelativePath.as_str p)).

Definition cand (p : PolicyPermit) : Candidate := sv_candidate (pp_candidate p).

(** The canonical order: target, deepest first, path bytes. *)
Definition permit_cmp (a b : PolicyPermit) : comparison :=
  then_cmp (String.compare (c_target_id (cand a)) (c_target_id (cand b)))
    (then_cmp (Nat.compare (depth (c_rel_path (cand b))) (depth (c_rel_path (cand a))))
       (String.compare (RelativePath.as_str (c_rel_path (cand a)))
          (RelativePath.as_str (c_rel_path (cand b))))).

(** The local variables of [build_plan]'s loops. *)
Record PlanState := mkPlanState {
  ps_operations : list PlannedOperation;
  ps_total_reclaim : ByteCount.t;
  ps_op_id_counter : N;
  ps_path_to_op_id : gmap (TargetId * string) OperationId;
  ps_defined_ops : gset N;
}.

Definition plan_init : PlanState := mkPlanState [] ByteCount.ZERO 1 ∅ ∅.

Definition permit_key (p : PolicyPermit) : TargetId * string :=
  (c_target_id (cand p), RelativePath.as_str (c_rel_path (cand p))).

(** The body of the loop over the files. *)
Definition plan_file (st : PlanState) (permit : PolicyPermit) : PlanState :=
  let c := cand permit in
  let id := ps_op_id_counter st in
  mkPlanState
    (ps_operations st ++
       [mkOp id (DeleteFile (c_target_id c) (c_rel_path c) (c_identity c) (c_size_bytes c))
          [] (c_size_bytes c)])
    (ByteCount.saturating_add (ps_total_reclaim st) (c_size_bytes c))
    (wrap_add id 1)
    (<[permit_key permit := id]> (ps_path_to_op_id st))
    ({[id]} ∪ ps_defined_ops st).

(** The operations already planned below the directory, in the order of their
    identifiers; the order of the hash map's iteration is sorted away. *)
Definition child_dependencies (st : PlanState) (target_id : TargetId) (dir_prefix : string)
    : list OperationId :=
  let found := omap (fun '((t, path), child) =>
                 if bool_decide (t = target_id) && str_starts_with path dir_prefix
                 then Some child else None)
                 (map_to_list (ps_path_to_op_id st)) in
  filter (fun dep => dep ∈ ps_defined_ops st) (dedup (sort_by N.compare found)).

(** The body of the loop over the directories. *)
Definition plan_dir (st : PlanState) (permit : PolicyPermit) : PlanState :=
  let c := cand permit in
  let id := ps_op_id_counter st in
  let dir_prefix := RelativePath.as_str (c_rel_path c) +:+ "/" in
  let deps := child_dependencies st (c_target_id c) dir_prefix in
  mkPlanState
    (ps_operations st ++
       [mkOp id (DeleteDirEmpty (c_target_id c) (c_rel_path c) (c_identity c))
          deps ByteCount.ZERO])
    (ps_total_reclaim st)
    (wrap_add id 1)
    (<[permit_key permit := id]> (ps_path_to_op_id st))
    ({[id]} ∪ ps_defined_ops st).

(** [validate_plan] and its loops. *)
Fixpoint check_dependencies (op : OperationId) (deps : list OperationId) (seen : gset N)
    : result CleanerError unit :=
  match deps with
  | [] => Ok tt
  | dep :: deps' =>
      if bool_decide (dep ∈ seen) then check_dependencies op deps' seen
      else Err (PlanValidationFailed ("Invalid DAG dependency: Operation "
             +:+ OperationId_display op +:+ " depends on unfulfilled or succeeding operation "
             +:+ OperationId_display dep))
  end.

Fixpoint check_operations (ops : list PlannedOperation) (seen : gset N)
    : result CleanerError unit :=
  match ops with
  | [] => Ok tt
  | op :: ops' =>
      if bool_decide (op_id op ∈ seen) then
        Err (PlanValidationFailed ("Duplicate OperationId " +:+ OperationId_display (op_id op)
             +:+ " detected in plan"))
      else
        let seen := {[op_id op]} ∪ seen in
        try! _ := check_dependencies (op_id op) (dependencies op) seen in
        check_operations ops' seen
  end.

Definition validate_plan (p : PlannedPlan) : result CleanerError unit :=
  if DEFAULT_MAX_OPERATIONS_PER_PLAN <? N.of_nat (length (operations p)) then
    Err (PlanBudgetExceeded (N.of_nat (length (operations p))) DEFAULT_MAX_OPERATIONS_PER_PLAN)
  else check_operations (operations p) ∅.

(** The files and the directories, each in canonical order. *)
Definition sorted_files (permits : list PolicyPermit) : list PolicyPermit :=
  sort_by permit_cmp (filter (fun p => c_is_dir (cand p) = false) permits).
Definition sorted_dirs (permits : list PolicyPermit) : list PolicyPermit :=
  sort_by permit_cmp (filter (fun p => c_is_dir (cand p) = true) permits).

Definition plan_permits (permits : list PolicyPermit) : PlanState :=
  fold_left plan_dir (sorted_dirs permits)
    (fold_left plan_file (sorted_files permits) plan_init).

Definition build_plan (job_id : JobId) (cat : CatalogGeneration) (cfg : ConfigGeneration)
    (permits : list PolicyPermit) (now : UnixTimestamp) : result CleanerError PlannedPlan :=
  if DEFAULT_MAX_OPERATIONS_PER_PLAN <? N.of_nat (length permits) then
    Err (PlanBudgetExceeded (N.of_nat (length permits)) DEFAULT_MAX_OPERATIONS_PER_PLAN)
  else
    let plan_id := N.lxor (N.lxor (wrap_shl job_id 16) (wrap_shl (catalog_gen cat) 8)) 1 in
    let st := plan_permits permits in
    let plan := mkPlan plan_id job_id cat cfg (ps_operations st) (ps_total_reclaim st) now in
    try! _ := validate_plan plan in
    Ok plan.

(** ** Specification *)

(** The operation a permit asks for. *)
Definition permit_op (p : PolicyPermit) : OperationType :=
  let c := cand p in
  if c_is_dir c then DeleteDirEmpty (c_target_id c) (c_rel_path c) (c_identity c)
  else DeleteFile (c_target_id c) (c_rel_path c) (c_identity c) (c_size_bytes c).

(** [q] is an entry strictly below the directory [p] of the same target. *)
Definition below (q p : PolicyPermit) : Prop :=
  c_target_id (cand q) = c_target_id (cand p) /\
  str_starts_with (c_rel_path (cand q)) (c_rel_path (cand p) +:+ "/") = true.

Definition processed (permits : list PolicyPermit) : list PolicyPermit :=
  sorted_files permits ++ sorted_dirs permits.

(** A plan is a valid schedule: identifiers count from 1 and dependencies refer
    to earlier operations only. *)
Definition valid_schedule (ops : list PlannedOperation) : Prop :=
  forall i op, ops !! i = Some op ->
    op_id op = N.of_nat i + 1 /\ Forall (fun d => 1 <= d <= N.of_nat i) (dependencies op).

(** ** The order *)

Lemma permit_cmp_sym a b : permit_cmp a b = CompOpp (permit_cmp b a).
Proof.
  unfold permit_cmp. rewrite String.compare_antisym.
  destruct (String.compare (c_target_id (cand b)) _); simpl; try done.
  rewrite Nat.compare_antisym. destruct (Nat.compare (depth (c_rel_path (cand a))) _);
    simpl; try done.
  apply String.compare_antisym.
Qed.

Lemma then_cmp_le c d : then_cmp c d <> Gt <-> c = Lt \/ (c = Eq /\ d <> Gt).
Proof. destruct c; simpl; intuition congruence. Qed.

Lemma permit_cmp_le a b :
  cmp_le permit_cmp a b <->
  String.compare (c_target_id (cand a)) (c_target_id (cand b)) = Lt \/
  (c_target_id (cand a) = c_target_id (cand b) /\
   ((depth (c_rel_path (cand b)) < depth (c_rel_path (cand a)))%nat \/
    (depth (c_rel_path (cand b)) = depth (c_rel_path (cand a)) /\
     cmp_le String.compare (c_rel_path (cand a)) (c_rel_path (cand b))))).
Proof.
  unfold cmp_le, permit_cmp.
  by rewrite !then_cmp_le, string_compare_eq, Nat.compare_lt_iff, Nat.compare_eq_iff.
Qed.

#[export] Instance permit_cmp_order : CmpOrder permit_cmp.
Proof.
  split; [apply permit_cmp_sym|]. intros a b c.
  rewrite !permit_cmp_le. intros [H1|[H1 H1']] [H2|[H2 H2']].
  - left. eapply string_compare_lt_trans; eauto.
  - left. by rewrite <- H2.
  - left. by rewrite H1.
  - right. split; [congruence|].
    destruct H1' as [?|[? ?]], H2' as [?|[? ?]]; [left; lia|left; lia|left; lia|right].
    split; [lia|].
    eapply (cmp_trans (cmp := String.compare)); eauto.
Qed.

Lemma permit_cmp_eq a b : permit_cmp a b = Eq -> permit_key a = permit_key b.
Proof.
  unfold permit_cmp, permit_key, RelativePath.as_str.
  destruct (String.compare (c_target_id (cand a)) _) eqn:E1; simpl; try done.
  destruct (Nat.compare _ _) eqn:E2; simpl; try done.
  intros E3. apply string_compare_eq in E1, E3. congruence.
Qed.

#[export] Instance N_compare_order : CmpOrder N.compare.
Proof.
  split; [intros x y; by rewrite N.compare_antisym|].
  intros x y z. unfold cmp_le. rewrite !N.compare_le_iff. lia.
Qed.

(** A path below another is deeper. *)
Lemma below_deeper q p : below q p ->
  (depth (c_rel_path (cand p)) < depth (c_rel_path (cand q)))%nat.
Proof.
  intros [_ [r Hr]%str_starts_with_spec]. unfold depth, RelativePath.as_str.
  rewrite Hr. replace ((c_rel_path (cand p) +:+ "/") +:+ r)
    with (c_rel_path (cand p) +:+ String SLASH r)
    by (clear; induction (c_rel_path (cand p)); simpl; [done|by f_equal]).
  rewrite str_split_app, length_app.
  pose proof (str_split_nonempty SLASH r). destruct (str_split SLASH r); simpl; [done|lia].
Qed.

(** ** The invariant of the loops *)

Record plan_inv (done : list PolicyPermit) (st : PlanState) : Prop := {
  inv_len : length (ps_operations st) = length done;
  inv_counter : ps_op_id_counter st = N.of_nat (length done) + 1;
  inv_defined : forall x, x ∈ ps_defined_ops st <-> 1 <= x <= N.of_nat (length done);
  inv_schedule : valid_schedule (ps_operations st);
  inv_types : map op_type (ps_operations st) = map permit_op done;
}.

Lemma snoc_lookup {A} (l : list A) x i y :
  (l ++ [x]) !! i = Some y -> l !! i = Some y \/ (i = length l /\ y = x).
Proof.
  intros H. apply lookup_app_Some in H as [?|[Hl H]]; [by left|right].
  destruct (i - length l)%nat eqn:E; simpl in H; simplify_eq. split; [lia|done].
Qed.

(** Adding an operation with the next identifier keeps the invariant. *)
Lemma plan_inv_snoc done st p op total paths :
  plan_inv done st -> N.of_nat (length done) + 2 <= U64_MAX ->
  op_id op = ps_op_id_counter st -> op_type op = permit_op p ->
  Forall (fun d => d ∈ ps_defined_ops st) (dependencies op) ->
  plan_inv (done ++ [p])
    (mkPlanState (ps_operations st ++ [op]) total (wrap_add (ps_op_id_counter st) 1)
       paths ({[ps_op_id_counter st]} ∪ ps_defined_ops st)).
Proof.
  intros [H1 H2 H3 H4 H5] Hb Hid Hty Hdeps. constructor; simpl.
  - by rewrite !length_app, H1.
  - rewrite H2, wrap_add_exact, length_app; simpl; lia.
  - intros x. rewrite elem_of_union, elem_of_singleton, H3, H2, length_app. simpl. lia.
  - intros i op' [Hi|[-> ->]]%snoc_lookup; [by apply H4|].
    rewrite H1, Hid, H2. split; [done|]. eapply Forall_impl; [exact Hdeps|].
    intros d. by rewrite H3.
  - rewrite !map_app, H5. simpl. by rewrite Hty.
Qed.

Lemma plan_file_inv done st p :
  plan_inv done st -> c_is_dir (cand p) = false -> N.of_nat (length done) + 2 <= U64_MAX ->
  plan_inv (done ++ [p]) (plan_file st p).
Proof.
  intros Hi Hd Hb. apply plan_inv_snoc; simpl; [done|done|done| |constructor].
  unfold permit_op. by rewrite Hd.
Qed.

Lemma plan_dir_inv done st p :
  plan_inv done st -> c_is_dir (cand p) = true -> N.of_nat (length done) + 2 <= U64_MAX ->
  plan_inv (done ++ [p]) (plan_dir st p).
Proof.
  intros Hi Hd Hb. apply plan_inv_snoc; simpl; [done|done|done| |].
  - unfold permit_op. by rewrite Hd.
  - apply Forall_forall. intros x Hx.
    by apply list_elem_of_filter in Hx as [? _].
Qed.

Lemma fold_inv (step : PlanState -> PolicyPermit -> PlanState) b (P : _ -> _ -> Prop) :
  (forall done st p, P done st -> c_is_dir (cand p) = b ->
     N.of_nat (length done) + 2 <= U64_MAX -> P (done ++ [p]) (step st p)) ->
  forall l done st, P done st -> Forall (fun p => c_is_dir (cand p) = b) l ->
  N.of_nat (length done + length l) + 2 <= U64_MAX ->
  P (done ++ l) (fold_left step l st).
Proof.
  intros Hstep. induction l as [|p l IH]; intros done st HP HF Hb; simpl.
  - by rewrite app_nil_r.
  - apply Forall_cons in HF as [Hp HF]. simpl in Hb.
    replace (done ++ p :: l) with ((done ++ [p]) ++ l) by (by rewrite <- app_assoc).
    apply IH; [apply Hstep; [done|done|lia]|done|rewrite length_app; simpl; lia].
Qed.

Lemma sorted_files_spec permits :
  Forall (fun p => c_is_dir (cand p) = false) (sorted_files permits).
Proof.
  unfold sorted_files. rewrite sort_by_perm. apply Forall_forall.
  intros p Hp. by apply list_elem_of_filter in Hp as [? _].
Qed.
Lemma sorted_dirs_spec permits :
  Forall (fun p => c_is_dir (cand p) = true) (sorted_dirs permits).
Proof.
  unfold sorted_dirs. rewrite sort_by_perm. apply Forall_forall.
  intros p Hp. by apply list_elem_of_filter in Hp as [? _].
Qed.

Lemma filter_bool_perm {A} (f : A -> bool) (l : list A) :
  filter (fun p => f p = false) l ++ filter (fun p => f p = true) l ≡ₚ l.
Proof.
  induction l as [|x l IH]; [done|]. rewrite !filter_cons.
  destruct (f x) eqn:E; simpl.
  - rewrite <- Permutation_middle. by rewrite IH.
  - by rewrite IH.
Qed.

Lemma processed_perm permits : processed permits ≡ₚ permits.
Proof.
  unfold processed, sorted_files, sorted_dirs. rewrite !sort_by_perm.
  apply (filter_bool_perm (fun p => c_is_dir (cand p))).
Qed.

Definition within_budget (permits : list PolicyPermit) : Prop :=
  N.of_nat (length permits) <= DEFAULT_MAX_OPERATIONS_PER_PLAN.

Lemma within_budget_bound permits :
  within_budget permits ->
  N.of_nat (length (sorted_files permits) + length (sorted_dirs permits)) + 2 <= U64_MAX.
Proof.
  unfold within_budget, DEFAULT_MAX_OPERATIONS_PER_PLAN. intros Hb.
  assert (length (processed permits) = length permits) as Hl by (by rewrite processed_perm).
  unfold processed in Hl. rewrite length_app in Hl. unfold U64_MAX. lia.
Qed.

(** Any invariant of the two loop bodies holds of the final state. *)
Lemma plan_permits_ind (P : list PolicyPermit -> PlanState -> Prop) permits :
  within_budget permits ->
  P [] plan_init ->
  (forall done st p, P done st -> c_is_dir (cand p) = false ->
     N.of_nat (length done) + 2 <= U64_MAX -> P (done ++ [p]) (plan_file st p)) ->
  (forall done st p, P done st -> c_is_dir (cand p) = true ->
     N.of_nat (length done) + 2 <= U64_MAX -> P (done ++ [p]) (plan_dir st p)) ->
  P (processed permits) (plan_permits permits).
Proof.
  intros Hb%within_budget_bound H0 Hf Hd. unfold plan_permits, processed.
  apply (fold_inv plan_dir true P Hd); [|apply sorted_dirs_spec|done].
  apply (fold_inv plan_file false P Hf (sorted_files permits) [] plan_init);
    [done|apply sorted_files_spec|simpl; lia].
Qed.

Lemma plan_init_inv : plan_inv [] plan_init.
Proof.
  constructor; simpl; [done|done| |intros i op Hi; done|done].
  intros x. split; [by intros ?%not_elem_of_empty|lia].
Qed.

Lemma plan_permits_inv permits :
  within_budget permits -> plan_inv (processed permits) (plan_permits permits).
Proof.
  intros Hb. apply plan_permits_ind; [done|apply plan_init_inv| |].
  - intros. by apply plan_file_inv.
  - intros. by apply plan_dir_inv.
Qed.

(** ** Validation of a schedule *)

Lemma check_dependencies_ok id deps seen :
  Forall (fun d => d ∈ seen) deps -> check_dependencies id deps seen = Ok tt.
Proof.
  induction 1 as [|d deps Hd _ IH]; [done|]. simpl. by rewrite (bool_decide_eq_true_2 _ Hd).
Qed.

Lemma check_operations_ok ops k seen :
  (forall i op, ops !! i = Some op ->
     op_id op = N.of_nat (k + i) + 1 /\
     Forall (fun d => 1 <= d <= N.of_nat (k + i)) (dependencies op)) ->
  (forall x, x ∈ seen <-> 1 <= x <= N.of_nat k) ->
  check_operations ops seen = Ok tt.
Proof.
  revert k seen. induction ops as [|op ops IH]; intros k seen Hops Hseen; [done|].
  destruct (Hops 0%nat op eq_refl) as [Hid Hdeps]. rewrite Nat.add_0_r in Hid, Hdeps.
  cbn [check_operations].
  rewrite bool_decide_eq_false_2 by (rewrite Hseen; lia).
  rewrite check_dependencies_ok.
  2: { eapply Forall_impl; [exact Hdeps|]. intros d Hd.
       apply elem_of_union; right. by apply Hseen. }
  apply (IH (S k)).
  - intros i op' Hi. rewrite Nat.add_succ_l, <- Nat.add_succ_r. by apply Hops.
  - intros x. rewrite elem_of_union, elem_of_singleton, Hseen. lia.
Qed.

Lemma valid_schedule_checks ops :
  valid_schedule ops -> check_operations ops ∅ = Ok tt.
Proof.
  intros H. apply (check_operations_ok _ 0); [apply H|].
  intros x. split; [by intros ?%not_elem_of_empty|lia].
Qed.

Lemma build_plan_eq job cat cfg permits now :
  within_budget permits ->
  build_plan job cat cfg permits now =
  Ok (mkPlan (N.lxor (N.lxor (wrap_shl job 16) (wrap_shl (catalog_gen cat) 8)) 1) job cat cfg
        (ps_operations (plan_permits permits)) (ps_total_reclaim (plan_permits permits)) now).
Proof.
  intros Hb. destruct (plan_permits_inv _ Hb) as [Hl _ _ Hs _].
  unfold build_plan, validate_plan. cbn [operations].
  rewrite Hl, processed_perm, (proj2 (N.ltb_ge _ _) Hb).
  by rewrite valid_schedule_checks.
Qed.

Lemma build_plan_ok job cat cfg permits now p :
  build_plan job cat cfg permits now = Ok p ->
  within_budget permits /\
  operations p = ps_operations (plan_permits permits) /\
  total_estimated_reclaim p = ps_total_reclaim (plan_permits permits) /\
  plan_job_id p = job /\ plan_catalog_generation p = cat /\ plan_config_generation p = cfg.
Proof.
  intros H. destruct (decide (within_budget permits)) as [Hb|Hb].
  - rewrite build_plan_eq in H by done. by simplify_eq.
  - unfold build_plan in H. unfold within_budget in Hb.
    rewrite (proj2 (N.ltb_lt _ _)) in H by lia. done.
Qed.

(** ** Paths and identifiers *)

(** With distinct keys the map records the position of every permit planned so
    far. *)
Definition paths_inv (done : list PolicyPermit) (st : PlanState) : Prop :=
  NoDup (map permit_key done) ->
  forall k id, ps_path_to_op_id st !! k = Some id <->
    exists i p, done !! i = Some p /\ permit_key p = k /\ id = N.of_nat i + 1.

Lemma paths_inv_snoc done p id paths ops total counter defined :
  paths_inv done (mkPlanState ops total counter paths defined) ->
  id = N.of_nat (length done) + 1 ->
  forall ops' total' counter' defined',
  paths_inv (done ++ [p])
    (mkPlanState ops' total' counter' (<[permit_key p := id]> paths) defined').
Proof.
  intros HP Hid ops' total' counter' defined' Hnd k x; simpl.
  rewrite map_app, NoDup_app in Hnd. destruct Hnd as (Hnd & Hfresh & _).
  specialize (HP Hnd); simpl in HP. rewrite lookup_insert. case_decide as Hk.
  - subst k. split.
    + intros [= <-]. exists (length done), p. by rewrite lookup_app_r, Nat.sub_diag by lia.
    + intros (i & q & [Hi|[-> ->]]%snoc_lookup & Hkey & ->); [|by rewrite Hid].
      exfalso. apply (Hfresh (permit_key q)).
      * apply list_elem_of_fmap_2. by eapply list_elem_of_lookup_2.
      * rewrite Hkey. by apply list_elem_of_singleton.
  - rewrite HP. split.
    + intros (i & q & Hi & Hkey & ->). exists i, q. by rewrite (lookup_app_l_Some _ _ _ _ Hi).
    + intros (i & q & [Hi|[-> ->]]%snoc_lookup & Hkey & ->); [eauto|done].
Qed.

(** The dependencies of a planned directory are the positions of the entries
    below it. *)
Definition deps_inv (done : list PolicyPermit) (st : PlanState) : Prop :=
  NoDup (map permit_key done) ->
  forall i p op, done !! i = Some p -> ps_operations st !! i = Some op ->
    if c_is_dir (cand p) then
      forall d, d ∈ dependencies op <->
        exists j q, done !! j = Some q /\ (j < i)%nat /\ below q p /\ d = N.of_nat j + 1
    else dependencies op = [].

Lemma child_dependencies_spec done st p d :
  plan_inv done st -> paths_inv done st -> NoDup (map permit_key done) ->
  d ∈ child_dependencies st (c_target_id (cand p)) (c_rel_path (cand p) +:+ "/") <->
  exists j q, done !! j = Some q /\ below q p /\ d = N.of_nat j + 1.
Proof.
  intros [_ _ Hdef _ _] HP Hnd. specialize (HP Hnd). unfold child_dependencies.
  rewrite list_elem_of_filter, dedup_elem_of, sort_by_perm, list_elem_of_omap, Hdef. split.
  - intros (Hd & [[t path] child] & Hin & Hc). apply elem_of_map_to_list in Hin.
    apply HP in Hin as (j & q & Hj & Hkey & ->).
    destruct (bool_decide _ && _) eqn:E; [|done]. simplify_eq.
    apply andb_true_iff in E as [E1%bool_decide_eq_true E2].
    unfold permit_key in Hkey. simplify_eq. exists j, q. repeat split; done.
  - intros (j & q & Hj & [Ht Hs] & ->). apply lookup_lt_Some in Hj as Hlt.
    split; [lia|]. exists (permit_key q, N.of_nat j + 1). split.
    + apply elem_of_map_to_list. apply HP. eauto.
    + unfold permit_key, RelativePath.as_str.
      by rewrite bool_decide_eq_true_2, Hs by done.
Qed.

Record full_inv (done : list PolicyPermit) (st : PlanState) : Prop := {
  full_plan : plan_inv done st;
  full_paths : paths_inv done st;
  full_deps : deps_inv done st;
}.

(** One more operation keeps what is known of the earlier ones. *)
Lemma deps_inv_snoc done st p op total paths defined :
  plan_inv done st -> deps_inv done st ->
  (NoDup (map permit_key done) ->
   if c_is_dir (cand p) then
     forall d, d ∈ dependencies op <->
       exists j q, done !! j = Some q /\ below q p /\ d = N.of_nat j + 1
   else dependencies op = []) ->
  forall counter,
  deps_inv (done ++ [p]) (mkPlanState (ps_operations st ++ [op]) total counter paths defined).
Proof.
  intros [Hl _ _ _ _] HD Hop counter Hnd i q o Hq Ho. simpl in Ho.
  rewrite map_app, NoDup_app in Hnd. destruct Hnd as (Hnd & _ & _).
  specialize (HD Hnd). specialize (Hop Hnd).
  assert (forall j r, (done ++ [p]) !! j = Some r /\ (j < i)%nat /\ below r q <->
            done !! j = Some r /\ (j < i)%nat /\ below r q) as Hpre.
  { intros j r. apply lookup_lt_Some in Hq. rewrite length_app in Hq. simpl in Hq. split.
    - intros (Hj & Hlt & Hb). rewrite lookup_app_l in Hj by lia. done.
    - intros (Hj & Hlt & Hb). by rewrite (lookup_app_l_Some _ _ _ _ Hj). }
  apply snoc_lookup in Hq as [Hq|[-> ->]].
  - apply lookup_lt_Some in Hq as Hlt. rewrite lookup_app_l in Ho by lia.
    specialize (HD i q o Hq Ho). destruct (c_is_dir (cand q)); [|done].
    intros d. rewrite HD. split; intros (j & r & Hj & Hlt' & Hb & ->); exists j, r;
      destruct (Hpre j r); tauto.
  - rewrite lookup_app_r, Hl, Nat.sub_diag in Ho by lia. simpl in Ho. simplify_eq.
    destruct (c_is_dir (cand p)); [|done]. intros d. rewrite Hop. split.
    + intros (j & r & Hj & Hb & ->). apply lookup_lt_Some in Hj as Hlt. exists j, r.
      destruct (Hpre j r); tauto.
    + intros (j & r & Hj & Hlt & Hb & ->). exists j, r. destruct (Hpre j r); tauto.
Qed.

Lemma plan_permits_full permits :
  within_budget permits -> full_inv (processed permits) (plan_permits permits).
Proof.
  intros Hb. apply plan_permits_ind; [done| | |].
  - constructor; [apply plan_init_inv| |]; intros _; [|intros i p op Hi; done].
    intros k id. simpl. split; [by rewrite lookup_empty|by intros (i & p & Hi & _)].
  - intros done st p [H1 H2 H3] Hd Hlen. constructor; [by apply plan_file_inv| |].
    + destruct st. eapply paths_inv_snoc; [exact H2|apply (inv_counter _ _ H1)].
    + apply deps_inv_snoc; [done|done|]. by rewrite Hd.
  - intros done st p [H1 H2 H3] Hd Hlen. constructor; [by apply plan_dir_inv| |].
    + destruct st. eapply paths_inv_snoc; [exact H2|apply (inv_counter _ _ H1)].
    + apply deps_inv_snoc; [done|done|]. rewrite Hd. intros Hnd d.
      by apply child_dependencies_spec.
Qed.

(** The operation at the position of a permit is the one it asks for. *)
Lemma plan_op_at permits i p :
  within_budget permits -> processed permits !! i = Some p ->
  exists op, ps_operations (plan_permits permits) !! i = Some op /\
    op_type op = permit_op p /\ op_id op = N.of_nat i + 1.
Proof.
  intros Hb Hp. destruct (plan_permits_inv _ Hb) as [_ _ _ Hs Ht].
  apply (f_equal (fun l => l !! i)) in Ht.
  change (map op_type (ps_operations (plan_permits permits)))
    with (op_type <$> ps_operations (plan_permits permits)) in Ht.
  change (map permit_op (processed permits)) with (permit_op <$> processed permits) in Ht.
  rewrite !list_lookup_fmap, Hp in Ht. simpl in Ht.
  destruct (ps_operations (plan_permits permits) !! i) as [op|] eqn:E; simplify_eq/=.
  exists op. split; [done|]. split; [done|]. by apply Hs.
Qed.

Lemma processed_keys permits :
  NoDup (map permit_key permits) -> NoDup (map permit_key (processed permits)).
Proof. intros H. by rewrite processed_perm. Qed.

Lemma processed_before permits i j p q :
  processed permits !! i = Some p -> processed permits !! j = Some q ->
  c_is_dir (cand p) = true -> below q p -> (j < i)%nat.
Proof.
  intros Hp Hq Hd Hb. unfold processed in *.
  pose proof (sorted_files_spec permits) as HF. pose proof (sorted_dirs_spec permits) as HD.
  assert (StronglySorted (cmp_le permit_cmp) (sorted_dirs permits)) as Hs
    by apply (sort_by_sorted permit_cmp).
  apply lookup_app_Some in Hp as [Hp|[Hil Hp]].
  { eapply Forall_lookup_1 in HF; [|exact Hp]. simpl in HF. congruence. }
  apply lookup_app_Some in Hq as [Hq|[Hjl Hq]].
  { apply lookup_lt_Some in Hq. lia. }
  destruct (decide (j < i)%nat) as [|Hn]; [done|exfalso].
  pose proof (below_deeper _ _ Hb) as Hdeep. destruct Hb as [Ht _].
  set (a := (i - length (sorted_files permits))%nat) in *.
  set (b := (j - length (sorted_files permits))%nat) in *.
  destruct (decide (a = b)) as [Hab|Hab]; [rewrite Hab in Hp; simplify_eq; lia|].
  assert (cmp_le permit_cmp p q) as Hle.
  { rewrite <- (take_drop_middle _ _ _ Hp) in Hs, Hq.
    apply StronglySorted_app_1_r, StronglySorted_inv in Hs as [_ Hs].
    rewrite lookup_app_r in Hq by (rewrite length_take; lia).
    rewrite length_take in Hq. apply lookup_lt_Some in Hp.
    destruct (b - a `min` length (sorted_dirs permits))%nat as [|m] eqn:E; [lia|].
    simpl in Hq. eapply Forall_lookup_1 in Hs; [|exact Hq]. done. }
  apply permit_cmp_le in Hle as [Hlt|[_ [?|[? _]]]]; [|lia|lia].
  rewrite Ht, string_compare_refl in Hlt. done.
Qed.

(** ** Properties *)

(** Planning is total within the budget: a plan comes back exactly when there
    are at most 10000 permits, and the error otherwise is the exceeded budget;
    the validation at the end never rejects what the planner built. *)
Theorem build_plan_total job cat cfg permits now :
  match build_plan job cat cfg permits now with
  | Ok p => N.of_nat (length permits) <= DEFAULT_MAX_OPERATIONS_PER_PLAN /\
            plan_job_id p = job /\ plan_catalog_generation p = cat /\
            plan_config_generation p = cfg /\ valid_schedule (operations p)
  | Err e => e = PlanBudgetExceeded (N.of_nat (length permits)) DEFAULT_MAX_OPERATIONS_PER_PLAN /\
             DEFAULT_MAX_OPERATIONS_PER_PLAN < N.of_nat (length permits)
  end.
Proof.
  destruct (decide (within_budget permits)) as [Hb|Hb].
  - rewrite build_plan_eq by done. simpl. repeat split; try done.
    all: eapply (inv_schedule _ _ (plan_permits_inv _ Hb)); eauto.
  - unfold within_budget in Hb. unfold build_plan.
    rewrite (proj2 (N.ltb_lt _ _)) by lia. split; [done|lia].
Qed.

(** C20 The plan is deterministic: it does not depend on the order in which the
    permits arrive, as long as they are distinct entries. *)
Theorem build_plan_deterministic job cat cfg permits permits' now :
  NoDup (map permit_key permits) -> permits ≡ₚ permits' ->
  build_plan job cat cfg permits now = build_plan job cat cfg permits' now.
Proof.
  intros Hnd Hp.
  assert (forall x y, x ∈ permits -> y ∈ permits -> permit_cmp x y = Eq -> x = y) as Htie.
  { intros x y Hx Hy He%permit_cmp_eq.
    apply list_elem_of_lookup in Hx as [i Hi], Hy as [j Hj].
    assert (i = j) as ->; [|congruence].
    eapply (NoDup_lookup _ _ _ (permit_key x)); [exact Hnd| |].
    - change (map permit_key permits) with (permit_key <$> permits).
      by rewrite list_lookup_fmap, Hi.
    - change (map permit_key permits) with (permit_key <$> permits).
      by rewrite list_lookup_fmap, Hj, He. }
  assert (plan_permits permits = plan_permits permits') as Heq.
  { unfold plan_permits, sorted_dirs, sorted_files. f_equal; [|f_equal].
    all: apply (sort_by_canonical permit_cmp); [|by rewrite Hp].
    all: intros x y [_ Hx]%list_elem_of_filter [_ Hy]%list_elem_of_filter; auto. }
  unfold build_plan. by rewrite Heq, (Permutation_length Hp).
Qed.

(** The plan deletes exactly what was permitted: one operation per permit,
    with the permit's target, path, expected identity and size, and no other. *)
Theorem build_plan_exact job cat cfg permits now p :
  build_plan job cat cfg permits now = Ok p ->
  map op_type (operations p) ≡ₚ map permit_op permits.
Proof.
  intros (Hb & -> & _)%build_plan_ok.
  rewrite (inv_types _ _ (plan_permits_inv _ Hb)). by rewrite processed_perm.
Qed.

(** The target and path that an operation of a plan is about. *)
Definition op_entry (o : PlannedOperation) : option (TargetId * RelativePath.t) :=
  match op_type o with
  | DeleteFile t path _ _ | DeleteDirEmpty t path _ => Some (t, path)
  | _ => None
  end.

(** [q] deletes an entry strictly below the directory that [p] deletes. *)
Definition op_below (q p : PlannedOperation) : Prop :=
  exists t path path', op_is_dir (op_type p) = true /\
    op_entry p = Some (t, path) /\ op_entry q = Some (t, path') /\
    str_starts_with path' (path +:+ "/") = true.

Lemma op_below_permits opq opp q p :
  op_type opq = permit_op q -> op_type opp = permit_op p ->
  op_below opq opp <-> c_is_dir (cand p) = true /\ below q p.
Proof.
  unfold op_below, op_entry, below, permit_op. intros -> ->.
  destruct (c_is_dir (cand p)), (c_is_dir (cand q)); cbn; split.
  all: try (intros (t & path & path' & ? & ? & ? & Hs); by simplify_eq).
  all: intros [? [Ht Hs]]; simplify_eq; eexists _, _, _; by rewrite Ht.
Qed.

(** Where in the plan an operation is, there is the permit it was made of. *)
Lemma plan_op_permit permits i op :
  within_budget permits -> ps_operations (plan_permits permits) !! i = Some op ->
  exists p, processed permits !! i = Some p /\ op_type op = permit_op p /\ op_id op = N.of_nat i + 1.
Proof.
  intros Hb Hop. destruct (plan_permits_inv _ Hb) as [Hl _ _ _ _].
  apply lookup_lt_Some in Hop as Hlt. rewrite Hl in Hlt.
  destruct (lookup_lt_is_Some_2 _ _ Hlt) as [p Hp].
  destruct (plan_op_at _ _ _ Hb Hp) as (op' & Hop' & Ht & Hid). exists p. by simplify_eq.
Qed.

(** C18 Children first.  A plan for distinct entries is a list in which everything to be
    deleted strictly below a directory stands before that directory, wherever the
    permits stood; the directory depends on exactly those operations, a file on none;
    and the operations are numbered from 1 in the order of the list. *)
Theorem build_plan_children_first job cat cfg permits now pl :
  NoDup (map permit_key permits) ->
  build_plan job cat cfg permits now = Ok pl ->
  map op_type (operations pl) ≡ₚ map permit_op permits /\
  (forall i op, operations pl !! i = Some op -> op_id op = N.of_nat i + 1) /\
  (forall i j opp opq, operations pl !! i = Some opp -> operations pl !! j = Some opq ->
     op_below opq opp -> (j < i)%nat) /\
  (forall i opp, operations pl !! i = Some opp ->
     forall d, d ∈ dependencies opp <->
       exists j opq, operations pl !! j = Some opq /\ op_below opq opp /\ d = op_id opq).
Proof.
  intros Hnd (Hb & -> & _)%build_plan_ok.
  destruct (plan_permits_full _ Hb) as [[_ _ _ _ Hty] _ HD]. specialize (HD (processed_keys _ Hnd)).
  split; [by rewrite Hty, processed_perm|]. split.
  { intros i op Hop. by destruct (plan_op_permit _ _ _ Hb Hop) as (? & _ & _ & ?). }
  split.
  - intros i j opp opq Hi Hj. destruct (plan_op_permit _ _ _ Hb Hi) as (p & Hp & Htp & _).
    destruct (plan_op_permit _ _ _ Hb Hj) as (q & Hq & Htq & _).
    rewrite (op_below_permits _ _ _ _ Htq Htp). intros [Hd Hbel]. by eapply processed_before.
  - intros i opp Hi d. destruct (plan_op_permit _ _ _ Hb Hi) as (p & Hp & Htp & _).
    specialize (HD i p opp Hp Hi). destruct (c_is_dir (cand p)) eqn:Hd.
    + rewrite HD. split.
      * intros (j & q & Hq & _ & Hbel & ->). destruct (plan_op_at _ _ _ Hb Hq) as (opq & Hj & Htq & Hid).
        exists j, opq. by rewrite (op_below_permits _ _ _ _ Htq Htp).
      * intros (j & opq & Hj & Hbel & ->). destruct (plan_op_permit _ _ _ Hb Hj) as (q & Hq & Htq & ->).
        destruct (proj1 (op_below_permits _ _ _ _ Htq Htp) Hbel) as [_ Hqp]. exists j, q.
        split; [done|]. split; [by eapply processed_before|]. done.
    + rewrite HD, elem_of_nil. split; [done|]. intros (j & opq & Hj & Hbel & _).
      destruct (plan_op_permit _ _ _ Hb Hj) as (q & _ & Htq & _).
      destruct (proj1 (op_below_permits _ _ _ _ Htq Htp) Hbel) as [? _]. congruence.
Qed.


(** ** Witnesses: a directory with a file and a subdirectory below it. *)

Definition example_permit (path : string) (ino : N) (is_dir : bool) : PolicyPermit :=
  mkPermit (mkValidated (mkCandidate ino "t" path (mkFileIdentity 5 ino)
              (if is_dir then 0 else 100) 10 None is_dir false) 5 1 1000)
    100 ExceedsRetentionAge 1000.

Definition example_permits : list PolicyPermit :=
  [example_permit "d" 2 true; example_permit "d/e" 3 true; example_permit "d/e/f" 4 false].

Lemma example_keys : NoDup (map permit_key example_permits).
Proof. apply (bool_decide_unpack _). vm_compute. exact I. Qed.

Lemma build_plan_deterministic_witness :
  build_plan 1 CatalogGeneration_INITIAL ConfigGeneration_INITIAL example_permits 1000 =
  build_plan 1 CatalogGeneration_INITIAL ConfigGeneration_INITIAL (rev example_permits) 1000.
Proof.
  apply build_plan_deterministic; [exact example_keys|apply Permutation_rev].
Defined.

Definition example_built : PlannedPlan :=
  match build_plan 1 CatalogGeneration_INITIAL ConfigGeneration_INITIAL example_permits 1000 with
  | Ok p => p
  | Err _ => PlannedPlan_empty 1 CatalogGeneration_INITIAL ConfigGeneration_INITIAL 0
  end.

Lemma build_plan_exact_witness :
  map op_type (operations example_built) ≡ₚ map permit_op example_permits.
Proof.
  apply (build_plan_exact 1 CatalogGeneration_INITIAL ConfigGeneration_INITIAL
           example_permits 1000).
  vm_compute. reflexivity.
Defined.

Lemma build_plan_children_first_witness :
  map op_id (operations example_built) = [1; 2; 3] /\
  map op_entry (operations example_built) = [Some ("t", "d/e/f"); Some ("t", "d/e"); Some ("t", "d")]%string /\
  (forall i j opp opq, operations example_built !! i = Some opp ->
     operations example_built !! j = Some opq -> op_below opq opp -> (j < i)%nat).
Proof.
  split; [vm_compute; reflexivity|]. split; [vm_compute; reflexivity|].
  apply (build_plan_children_first 1 CatalogGeneration_INITIAL ConfigGeneration_INITIAL
           example_permits 1000 example_built).
  - exact example_keys.
  - vm_compute. reflexivity.
Defined.

