(* ===== verification/Resource.v ===== *)
(** The resource manager of src/resource/mod.rs: the descriptor pool and the
    exclusive target, storage and mount locks, each released by the [Drop] of its
    permit.

    Every method takes the mutex of the map it touches for its whole body, so a
    method is one atomic step.  [acquire_fd_permit] waits on a condition variable
    while the pool is full; its effect is decided by the last look at the pool
    under the mutex, which is the step modelled here.  Threads are the
    interleavings of these steps: [rm_step] acquires or drops one permit. *)
From Stdlib Require Import String.
From S2P Require Import Prelude Domain.

Definition DEFAULT_MAX_CONCURRENT_FDS : N := 64.

Abbreviation StorageId := string (only parsing).
Abbreviation MountId := string (only parsing).
Abbreviation ReservationId := N (only parsing).

Record ResourceManager := mkRM {
  active_fds : N;
  max_fds : N;
  locked_targets : gmap TargetId (AttemptId * ReservationId);
  locked_storages : gmap StorageId ReservationId;
  locked_mounts : gmap MountId ReservationId;
  reservation_counter : N;
}.

(** The order in which the levels of locks are taken; the enum derives [Ord]. *)
Inductive ResourceLevel := LGlobal | LStorage | LMount | LTarget | LOperation.
Definition ResourceLevel_index (l : ResourceLevel) : N :=
  match l with LGlobal => 0 | LStorage => 1 | LMount => 2 | LTarget => 3 | LOperation => 4 end.

Definition ResourceManager_new (max_fds : N) : ResourceManager := mkRM 0 max_fds ∅ ∅ ∅ 1.
Definition ResourceManager_default : ResourceManager :=
  ResourceManager_new DEFAULT_MAX_CONCURRENT_FDS.

(** ** Descriptors *)

Inductive FdPermit := mkFdPermit.

Definition acquire_fd_permit (rm : ResourceManager)
    : result CleanerError FdPermit * ResourceManager :=
  if max_fds rm <=? active_fds rm then
    (Err (ResourceExhausted ("Resource pool exhausted: maximum concurrent FD limit ("
       +:+ pretty (max_fds rm) +:+ ") reached")), rm)
  else (Ok mkFdPermit, mkRM (active_fds rm + 1) (max_fds rm) (locked_targets rm)
                         (locked_storages rm) (locked_mounts rm) (reservation_counter rm)).

(** [Drop for FdPermit]. *)
Definition drop_fd_permit (rm : ResourceManager) : ResourceManager :=
  mkRM (saturating_sub (active_fds rm) 1) (max_fds rm) (locked_targets rm)
    (locked_storages rm) (locked_mounts rm) (reservation_counter rm).

(** Dropping an optional permit. *)
Definition drop_permit (p : option FdPermit) (rm : ResourceManager) : ResourceManager :=
  match p with Some _ => drop_fd_permit rm | None => rm end.

(** ** Target locks *)

Record TargetLockPermit := mkTargetLock {
  tl_target_id : TargetId;
  tl_attempt_id : AttemptId;
  tl_reservation_id : ReservationId;
}.

Definition set_locked_targets (rm : ResourceManager) m n : ResourceManager :=
  mkRM (active_fds rm) (max_fds rm) m (locked_storages rm) (locked_mounts rm) n.

Definition acquire_target_lock_for_attempt (rm : ResourceManager) (target_id : TargetId)
    (attempt_id : AttemptId) : result CleanerError TargetLockPermit * ResourceManager :=
  match locked_targets rm !! target_id with
  | Some (existing_attempt, _) =>
      (Err (SafetyViolation ("Concurrent mutation collision: Target "
         +:+ TargetId_display target_id +:+ " is already locked by attempt "
         +:+ pretty existing_attempt)), rm)
  | None =>
      let res_id := reservation_counter rm in
      (Ok (mkTargetLock target_id attempt_id res_id),
       set_locked_targets rm (<[target_id := (attempt_id, res_id)]> (locked_targets rm))
         (wrap_add res_id 1))
  end.

Definition acquire_target_lock (rm : ResourceManager) (target_id : TargetId) :=
  acquire_target_lock_for_attempt rm target_id 0.

(** [Drop for TargetLockPermit]: only the holder's own reservation is removed. *)
Definition drop_target_lock (p : TargetLockPermit) (rm : ResourceManager) : ResourceManager :=
  match locked_targets rm !! tl_target_id p with
  | Some (_, res_id) =>
      if res_id =? tl_reservation_id p
      then set_locked_targets rm (delete (tl_target_id p) (locked_targets rm))
             (reservation_counter rm)
      else rm
  | None => rm
  end.

Definition is_target_locked (rm : ResourceManager) (t : TargetId) : bool :=
  bool_decide (is_Some (locked_targets rm !! t)).

Definition is_storage_locked (rm : ResourceManager) (s : StorageId) : bool :=
  bool_decide (is_Some (locked_storages rm !! s)).
Definition is_mount_locked (rm : ResourceManager) (m : MountId) : bool :=
  bool_decide (is_Some (locked_mounts rm !! m)).
Definition active_fd_count (rm : ResourceManager) : N := active_fds rm.

(** The two numbers of its [Debug] output. *)
Definition ResourceManager_debug (rm : ResourceManager) : string :=
  "ResourceManager { active_fds: " +:+ pretty (active_fd_count rm) +:+ ", locked_targets: "
  +:+ pretty (N.of_nat (size (locked_targets rm))) +:+ " }".

(** ** Storage and mount locks *)

Record StorageLockPermit := mkStorageLock {
  sl_storage_id : StorageId; sl_reservation_id : ReservationId }.
Record MountLockPermit := mkMountLock {
  ml_mount_id : MountId; ml_reservation_id : ReservationId }.

Definition set_locked_storages (rm : ResourceManager) m n : ResourceManager :=
  mkRM (active_fds rm) (max_fds rm) (locked_targets rm) m (locked_mounts rm) n.
Definition set_locked_mounts (rm : ResourceManager) m n : ResourceManager :=
  mkRM (active_fds rm) (max_fds rm) (locked_targets rm) (locked_storages rm) m n.

Definition acquire_storage_lock (rm : ResourceManager) (storage_id : StorageId)
    : result CleanerError StorageLockPermit * ResourceManager :=
  match locked_storages rm !! storage_id with
  | Some _ => (Err (SafetyViolation ("Storage " +:+ storage_id +:+ " is already locked")), rm)
  | None =>
      let res_id := reservation_counter rm in
      (Ok (mkStorageLock storage_id res_id),
       set_locked_storages rm (<[storage_id := res_id]> (locked_storages rm)) (wrap_add res_id 1))
  end.

Definition drop_storage_lock (p : StorageLockPermit) (rm : ResourceManager) : ResourceManager :=
  match locked_storages rm !! sl_storage_id p with
  | Some rid => if rid =? sl_reservation_id p
                then set_locked_storages rm (delete (sl_storage_id p) (locked_storages rm))
                       (reservation_counter rm)
                else rm
  | None => rm
  end.

Definition acquire_mount_lock (rm : ResourceManager) (mount_id : MountId)
    : result CleanerError MountLockPermit * ResourceManager :=
  match locked_mounts rm !! mount_id with
  | Some _ => (Err (SafetyViolation ("Mount " +:+ mount_id +:+ " is already locked")), rm)
  | None =>
      let res_id := reservation_counter rm in
      (Ok (mkMountLock mount_id res_id),
       set_locked_mounts rm (<[mount_id := res_id]> (locked_mounts rm)) (wrap_add res_id 1))
  end.

Definition drop_mount_lock (p : MountLockPermit) (rm : ResourceManager) : ResourceManager :=
  match locked_mounts rm !! ml_mount_id p with
  | Some rid => if rid =? ml_reservation_id p
                then set_locked_mounts rm (delete (ml_mount_id p) (locked_mounts rm))
                       (reservation_counter rm)
                else rm
  | None => rm
  end.

(** ** Interleavings *)

(** The permits alive in all threads together with the manager. *)
Record System := mkSystem {
  sys_rm : ResourceManager;
  live_fds : nat;
  live_targets : list TargetLockPermit;
  live_storages : list StorageLockPermit;
  live_mounts : list MountLockPermit;
}.

Inductive rm_step : System -> System -> Prop :=
| step_fd_acquire rm rm' n ts ss ms p :
    acquire_fd_permit rm = (Ok p, rm') ->
    rm_step (mkSystem rm n ts ss ms) (mkSystem rm' (S n) ts ss ms)
| step_fd_drop rm n ts ss ms :
    rm_step (mkSystem rm (S n) ts ss ms) (mkSystem (drop_fd_permit rm) n ts ss ms)
| step_target_acquire rm rm' n ts ss ms t a p :
    acquire_target_lock_for_attempt rm t a = (Ok p, rm') ->
    rm_step (mkSystem rm n ts ss ms) (mkSystem rm' n (p :: ts) ss ms)
| step_target_drop rm n ts1 p ts2 ss ms :
    rm_step (mkSystem rm n (ts1 ++ p :: ts2) ss ms)
      (mkSystem (drop_target_lock p rm) n (ts1 ++ ts2) ss ms)
| step_storage_acquire rm rm' n ts ss ms s p :
    acquire_storage_lock rm s = (Ok p, rm') ->
    rm_step (mkSystem rm n ts ss ms) (mkSystem rm' n ts (p :: ss) ms)
| step_storage_drop rm n ts ss1 p ss2 ms :
    rm_step (mkSystem rm n ts (ss1 ++ p :: ss2) ms)
      (mkSystem (drop_storage_lock p rm) n ts (ss1 ++ ss2) ms)
| step_mount_acquire rm rm' n ts ss ms s p :
    acquire_mount_lock rm s = (Ok p, rm') ->
    rm_step (mkSystem rm n ts ss ms) (mkSystem rm' n ts ss (p :: ms))
| step_mount_drop rm n ts ss ms1 p ms2 :
    rm_step (mkSystem rm n ts ss (ms1 ++ p :: ms2))
      (mkSystem (drop_mount_lock p rm) n ts ss (ms1 ++ ms2)).

Inductive rm_reachable (max : N) : System -> Prop :=
| rm_init : rm_reachable max (mkSystem (ResourceManager_new max) 0 [] [] [])
| rm_next s s' : rm_reachable max s -> rm_step s s' -> rm_reachable max s'.

(** A lock table agrees with the list of live permits: one entry per live
    permit, no two permits on one key. *)
Definition table_agrees {K V P} `{Countable K} (key : P -> K) (val : P -> V)
    (m : gmap K V) (live : list P) : Prop :=
  NoDup (map key live) /\
  forall k v, m !! k = Some v <-> exists p, p ∈ live /\ key p = k /\ val p = v.

Section table.
Context {K V P : Type} `{Countable K} (key : P -> K) (val : P -> V).

Lemma table_agrees_empty : table_agrees key val ∅ [].
Proof.
  split; [constructor|]. intros k v. rewrite lookup_empty.
  split; [done|]. by intros (p & Hp%elem_of_nil & _).
Qed.

Lemma table_agrees_lookup m live p :
  table_agrees key val m live -> p ∈ live -> m !! key p = Some (val p).
Proof. intros [_ Ht] Hp. apply Ht. eauto. Qed.

(** What a query of the table says of the permits. *)
Lemma table_agrees_locked m live k :
  table_agrees key val m live -> bool_decide (is_Some (m !! k)) = true <-> k ∈ map key live.
Proof.
  intros [_ Ht]. rewrite bool_decide_eq_true, list_elem_of_fmap. split.
  - intros [v (p & Hp & <- & _)%Ht]. by exists p.
  - intros (p & -> & Hp). exists (val p). apply Ht. by exists p.
Qed.

Lemma table_agrees_insert m live p :
  table_agrees key val m live -> m !! key p = None ->
  table_agrees key val (<[key p := val p]> m) (p :: live).
Proof.
  intros [Hnd Ht] Hn. split.
  - simpl. constructor; [|done]. intros (q & Hk & Hq)%list_elem_of_fmap.
    assert (m !! key p = Some (val q)) by (apply Ht; eauto). congruence.
  - intros k v. rewrite lookup_insert. case_decide as Hk.
    + subst k. split.
      * intros [= <-]. exists p. split; [constructor|done].
      * intros (q & [->|Hq]%elem_of_cons & Hkq & Hv); [by rewrite Hv|].
        assert (m !! key p = Some v) by (apply Ht; eauto). congruence.
    + rewrite Ht. split.
      * intros (q & Hq & ?). exists q. split; [by constructor|done].
      * intros (q & [->|Hq]%elem_of_cons & Hkq & Hv); [done|]. eauto.
Qed.

(** The list of live permits matters up to order. *)
#[global] Instance table_agrees_proper m :
  Proper ((≡ₚ) ==> iff) (table_agrees key val m).
Proof.
  intros l1 l2 Hl. unfold table_agrees. rewrite Hl.
  split; intros [Hnd Ht]; (split; [done|]); intros k v; rewrite Ht;
    split; intros (p & Hp & ?); exists p; split; try done.
  all: by rewrite Hl in Hp || rewrite <- Hl in Hp.
Qed.

Lemma table_agrees_delete m live1 p live2 :
  table_agrees key val m (live1 ++ p :: live2) ->
  table_agrees key val (delete (key p) m) (live1 ++ live2).
Proof.
  rewrite <- Permutation_middle. intros [Hnd Ht]. simpl in Hnd.
  apply NoDup_cons in Hnd as [Hfresh Hnd]. split; [done|].
  intros k v. rewrite lookup_delete. case_decide as Hk.
  - split; [done|]. intros (q & Hq & Hkq & _). exfalso. apply Hfresh.
    rewrite Hk, <- Hkq. by apply list_elem_of_fmap_2.
  - rewrite Ht. split.
    + intros (q & [->|Hq]%elem_of_cons & Hkq & Hv); [done|eauto].
    + intros (q & Hq & Hkq & Hv). exists q. rewrite elem_of_cons. auto.
Qed.
End table.

Definition lock_val (p : TargetLockPermit) : AttemptId * ReservationId :=
  (tl_attempt_id p, tl_reservation_id p).

Record system_inv (max : N) (s : System) : Prop := {
  inv_max : max_fds (sys_rm s) = max;
  inv_fds : active_fds (sys_rm s) = N.of_nat (live_fds s);
  inv_bound : active_fds (sys_rm s) <= max;
  inv_targets : table_agrees tl_target_id lock_val (locked_targets (sys_rm s)) (live_targets s);
  inv_storages : table_agrees sl_storage_id sl_reservation_id
                   (locked_storages (sys_rm s)) (live_storages s);
  inv_mounts : table_agrees ml_mount_id ml_reservation_id
                 (locked_mounts (sys_rm s)) (live_mounts s);
}.

(** Dropping a live permit deletes its entry. *)
Lemma drop_target_live rm live p :
  table_agrees tl_target_id lock_val (locked_targets rm) live -> p ∈ live ->
  drop_target_lock p rm =
  set_locked_targets rm (delete (tl_target_id p) (locked_targets rm)) (reservation_counter rm).
Proof.
  intros Ht Hp. unfold drop_target_lock.
  assert (locked_targets rm !! tl_target_id p = Some (lock_val p)) as ->
    by exact (table_agrees_lookup _ _ _ _ _ Ht Hp). simpl. by rewrite N.eqb_refl.
Qed.
Lemma drop_storage_live rm live p :
  table_agrees sl_storage_id sl_reservation_id (locked_storages rm) live -> p ∈ live ->
  drop_storage_lock p rm =
  set_locked_storages rm (delete (sl_storage_id p) (locked_storages rm)) (reservation_counter rm).
Proof.
  intros Ht Hp. unfold drop_storage_lock.
  assert (locked_storages rm !! sl_storage_id p = Some (sl_reservation_id p)) as ->
    by exact (table_agrees_lookup _ _ _ _ _ Ht Hp). by rewrite N.eqb_refl.
Qed.
Lemma drop_mount_live rm live p :
  table_agrees ml_mount_id ml_reservation_id (locked_mounts rm) live -> p ∈ live ->
  drop_mount_lock p rm =
  set_locked_mounts rm (delete (ml_mount_id p) (locked_mounts rm)) (reservation_counter rm).
Proof.
  intros Ht Hp. unfold drop_mount_lock.
  assert (locked_mounts rm !! ml_mount_id p = Some (ml_reservation_id p)) as ->
    by exact (table_agrees_lookup _ _ _ _ _ Ht Hp). by rewrite N.eqb_refl.
Qed.

Lemma elem_of_mid {A} (l1 l2 : list A) x : x ∈ l1 ++ x :: l2.
Proof. apply elem_of_app; right; constructor. Qed.

Lemma system_inv_step max s s' : system_inv max s -> rm_step s s' -> system_inv max s'.
Proof.
  intros [Hm Hf Hb Ht Hs Hmo] Hstep.
  destruct Hstep as [rm rm' n ts ss ms p E|rm n ts ss ms|rm rm' n ts ss ms t a p E
    |rm n ts1 p ts2 ss ms|rm rm' n ts ss ms x p E|rm n ts ss1 p ss2 ms
    |rm rm' n ts ss ms x p E|rm n ts ss ms1 p ms2]; simpl in *.
  - unfold acquire_fd_permit in E. destruct (max_fds rm <=? active_fds rm) eqn:El; [done|].
    simplify_eq. apply N.leb_gt in El. constructor; simpl; try done; lia.
  - constructor; simpl; try done; unfold saturating_sub; lia.
  - unfold acquire_target_lock_for_attempt in E.
    destruct (locked_targets rm !! t) as [[? ?]|] eqn:El; [done|]. simplify_eq.
    constructor; simpl; try done.
    by apply (table_agrees_insert tl_target_id lock_val _ _
                (mkTargetLock t a (reservation_counter rm))).
  - rewrite (drop_target_live _ _ _ Ht) by apply elem_of_mid.
    constructor; simpl; try done. by apply table_agrees_delete.
  - unfold acquire_storage_lock in E.
    destruct (locked_storages rm !! x) eqn:El; [done|]. simplify_eq.
    constructor; simpl; try done.
    by apply (table_agrees_insert sl_storage_id sl_reservation_id _ _
                (mkStorageLock x (reservation_counter rm))).
  - rewrite (drop_storage_live _ _ _ Hs) by apply elem_of_mid.
    constructor; simpl; try done. by apply table_agrees_delete.
  - unfold acquire_mount_lock in E.
    destruct (locked_mounts rm !! x) eqn:El; [done|]. simplify_eq.
    constructor; simpl; try done.
    by apply (table_agrees_insert ml_mount_id ml_reservation_id _ _
                (mkMountLock x (reservation_counter rm))).
  - rewrite (drop_mount_live _ _ _ Hmo) by apply elem_of_mid.
    constructor; simpl; try done. by apply table_agrees_delete.
Qed.

Lemma system_inv_reachable max s : rm_reachable max s -> system_inv max s.
Proof.
  induction 1; [|by eapply system_inv_step].
  constructor; simpl; try apply table_agrees_empty; lia.
Qed.

(** ** Properties *)

(** C26 In every interleaving of threads that acquire and drop permits the
    manager never hands out more descriptors than its limit, counts exactly the
    permits alive, and never lets two live permits hold the same target, storage
    or mount. *)
Theorem locks_are_exclusive max s :
  rm_reachable max s ->
  active_fds (sys_rm s) = N.of_nat (live_fds s) /\ N.of_nat (live_fds s) <= max /\
  NoDup (map tl_target_id (live_targets s)) /\
  NoDup (map sl_storage_id (live_storages s)) /\
  NoDup (map ml_mount_id (live_mounts s)).
Proof.
  intros [_ H1 H2 [Ht _] [Hs _] [Hm _]]%system_inv_reachable.
  rewrite <- H1. done.
Qed.

Lemma locks_are_exclusive_witness :
  NoDup (map tl_target_id [mkTargetLock "t" 7 1]).
Proof.
  apply (locks_are_exclusive 64
    (mkSystem (snd (acquire_target_lock_for_attempt (ResourceManager_new 64) "t" 7))
       0 [mkTargetLock "t" 7 1] [] [])).
  eapply rm_next; [apply rm_init|]. apply step_target_acquire with (t := "t") (a := 7).
  reflexivity.
Defined.

(** What the manager answers about itself is exact at every moment: the number of
    descriptors, and whether a target, a storage or a mount is locked. *)
Theorem queries_exact max s :
  rm_reachable max s ->
  active_fd_count (sys_rm s) = N.of_nat (live_fds s) /\
  (forall t, is_target_locked (sys_rm s) t = true <-> t ∈ map tl_target_id (live_targets s)) /\
  (forall t, is_storage_locked (sys_rm s) t = true <-> t ∈ map sl_storage_id (live_storages s)) /\
  (forall t, is_mount_locked (sys_rm s) t = true <-> t ∈ map ml_mount_id (live_mounts s)).
Proof.
  intros [_ H1 _ Ht Hs Hm]%system_inv_reachable.
  repeat split; [done|..]; by eapply table_agrees_locked.
Qed.

(** A lock is held from its acquisition to the drop of its permit and no
    longer: in every reachable system a target can be acquired exactly when no
    live permit names it, and after the drop of a live permit its target can be
    acquired again at once. *)
Theorem target_lock_lifecycle max s t a :
  rm_reachable max s ->
  (is_ok (fst (acquire_target_lock_for_attempt (sys_rm s) t a)) = true <->
     t ∉ map tl_target_id (live_targets s)) /\
  (forall p, p ∈ live_targets s ->
     is_target_locked (drop_target_lock p (sys_rm s)) (tl_target_id p) = false).
Proof.
  intros [_ _ _ Ht _ _]%system_inv_reachable. split.
  - unfold acquire_target_lock_for_attempt.
    destruct (locked_targets (sys_rm s) !! t) as [[a' r]|] eqn:E; simpl.
    + split; [done|]. intros Hn. exfalso. apply Hn.
      destruct Ht as [_ Ht]. apply Ht in E as (p & Hp & <- & _).
      by apply list_elem_of_fmap_2.
    + split; [|done]. intros _ (p & -> & Hp)%list_elem_of_fmap.
      assert (locked_targets (sys_rm s) !! tl_target_id p = Some (lock_val p)) as E'
        by exact (table_agrees_lookup _ _ _ _ _ Ht Hp).
      congruence.
  - intros p Hp. rewrite (drop_target_live _ _ _ Ht Hp).
    unfold is_target_locked. simpl. rewrite lookup_delete_eq.
    apply bool_decide_eq_false. by intros [? ?].
Qed.

Lemma target_lock_lifecycle_witness :
  is_ok (fst (acquire_target_lock_for_attempt (ResourceManager_new 64) "t" 7)) = true.
Proof.
  apply (target_lock_lifecycle 64 (mkSystem (ResourceManager_new 64) 0 [] [] []) "t" 7).
  - apply rm_init.
  - simpl. apply not_elem_of_nil.
Defined.
