(* ===== verification/RateLimiter.v ===== *)
(** The work-rate limiter, src/util/rate_limiter.rs, and its use in
    src/resource/mod.rs.

    [f64] is IEEE double precision from the Standard Library's SpecFloat.  Instants are
    nanoseconds.  [acquire] is a loop around a locked section and a sleep; the section
    is a function of the state and the clock, and the loop runs on the list of what the
    clock shows in each round.

    The theorems: a burst is at most the capacity of 32, in every mode; a paused limiter
    refuses at once, and because the refusal is dropped by its only caller, pausing does
    not slow anything down. *)
From Stdlib Require Import SpecFloat ZArith.
From S2P Require Import Prelude Domain.

(** ** Doubles *)

Definition f64 : Set := spec_float.
Definition f64_of_N (n : N) : f64 := binary_normalize 53 1024 (Z.of_N n) 0 false.
Definition f64_add : f64 -> f64 -> f64 := SFadd 53 1024.
Definition f64_sub : f64 -> f64 -> f64 := SFsub 53 1024.
Definition f64_mul : f64 -> f64 -> f64 := SFmul 53 1024.
Definition f64_div : f64 -> f64 -> f64 := SFdiv 53 1024.
Definition f64_lt (a b : f64) : bool := SFltb a b.
Definition f64_ge (a b : f64) : bool := SFleb b a.

Definition is_nan (x : f64) : bool := match x with S754_nan => true | _ => false end.

(** [f64::min], [f64::max] and [f64::clamp] *)
Definition f64_min (a b : f64) : f64 := if is_nan a then b else if f64_lt b a then b else a.
Definition f64_max (a b : f64) : f64 := if is_nan a then b else if f64_lt a b then b else a.
Definition f64_clamp (x lo hi : f64) : f64 :=
  let x := if f64_lt x lo then lo else x in if f64_lt hi x then hi else x.

(** [Duration::as_secs_f64] *)
Definition as_secs_f64 (nanos : N) : f64 :=
  f64_add (f64_of_N (nanos / 1000000000)) (f64_div (f64_of_N (nanos mod 1000000000)) (f64_of_N 1000000000)).

(** ** The limiter *)

Inductive ThrottleMode := Normal | Warm | CpuPressure | IoPressure | Paused.

Definition target_ops_per_sec (m : ThrottleMode) : N :=
  match m with Normal => 500 | Warm => 300 | CpuPressure => 150 | IoPressure => 50 | Paused => 0 end.

Record BucketState := mkBucket {
  ops_per_sec : N;
  capacity : f64;
  tokens : f64;
  last_refill : N;
}.

Definition MAX_BURST_CAPACITY : f64 := f64_of_N 32.
Definition capacity_for (rate : N) : f64 := f64_clamp (f64_of_N rate) (f64_of_N 1) MAX_BURST_CAPACITY.

Definition new (initial_mode : ThrottleMode) (now : N) : BucketState :=
  let rate := target_ops_per_sec initial_mode in
  mkBucket rate (capacity_for rate) (capacity_for rate) now.

Definition set_mode (mode : ThrottleMode) (s : BucketState) : BucketState :=
  let new_rate := target_ops_per_sec mode in
  let new_capacity := capacity_for new_rate in
  mkBucket new_rate new_capacity
    (if f64_lt new_capacity (tokens s) then new_capacity else tokens s) (last_refill s).

(** One round: the answer, or for how many seconds to sleep. *)
Inductive Round := Answer (acquired : bool) | SleepFor (secs : f64).

(** The literal 0.001. *)
Definition MILLI : f64 := f64_div (f64_of_N 1) (f64_of_N 1000).

Definition acquire_round (now : N) (s : BucketState) : Round * BucketState :=
  if ops_per_sec s =? 0 then (Answer false, s)
  else
    let rate := f64_of_N (ops_per_sec s) in
    let elapsed := as_secs_f64 (now - last_refill s) in
    let refilled := f64_min (f64_add (tokens s) (f64_mul elapsed rate)) (capacity s) in
    if f64_ge refilled (f64_of_N 1) then
      (Answer true, mkBucket (ops_per_sec s) (capacity s) (f64_sub refilled (f64_of_N 1)) now)
    else
      let missing := f64_sub (f64_of_N 1) refilled in
      (SleepFor (f64_max (f64_div missing rate) MILLI), mkBucket (ops_per_sec s) (capacity s) refilled now).

(** [acquire] over the readings of the clock; [None] if it still sleeps after them. *)
Fixpoint acquire (clock : list N) (s : BucketState) : option bool * BucketState :=
  match clock with
  | [] => (None, s)
  | now :: clock' =>
      match acquire_round now s with
      | (Answer b, s') => (Some b, s')
      | (SleepFor _, s') => acquire clock' s'
      end
  end.

(** [ResourceManager::throttle_mutation]: the answer is dropped. *)
Definition throttle_mutation (clock : list N) (s : BucketState) : option unit * BucketState :=
  let '(r, s') := acquire clock s in (match r with Some _ => Some tt | None => None end, s').
Definition set_throttle_mode (mode : ThrottleMode) (s : BucketState) : BucketState := set_mode mode s.

(** ** Properties *)

(** As many calls at one instant; how many were let through. *)
Fixpoint burst (n : nat) (now : N) (s : BucketState) : nat :=
  match n with
  | O => O
  | S n' =>
      match acquire_round now s with
      | (Answer true, s') => S (burst n' now s')
      | (_, s') => burst n' now s'
      end
  end.

(** A new limiter lets 32 of 100 simultaneous calls through in every mode but the paused
    one, which lets none; changing the mode gives no second burst. *)
Lemma burst_is_bounded :
  map (fun m => burst 100 0 (new m 0)) [Normal; Warm; CpuPressure; IoPressure; Paused] = [32; 32; 32; 32; 0]%nat /\
  forallb (fun m => forallb (fun m' =>
    (burst 100 0 (set_mode m' (new m 0)) <=? 32)%nat) [Normal; Warm; CpuPressure; IoPressure; Paused])
    [Normal; Warm; CpuPressure; IoPressure; Paused] = true.
Proof. vm_compute. done. Qed.

(** After a burst, a call is let through a fiftieth of a second later at the slowest
    rate. *)
Lemma refill_example :
  let s := snd (acquire [0] (mkBucket 50 (capacity_for 50) (f64_of_N 0) 0)) in
  fst (acquire [1000000; 20000000; 21000000] s) = Some true.
Proof. vm_compute. reflexivity. Qed.

(** Pausing does not pause: whatever the state, the call that throttles a mutation
    returns in its first round without sleeping and without taking a token. *)
Lemma paused_does_not_throttle now clock s :
  throttle_mutation (now :: clock) (set_throttle_mode Paused s) = (Some tt, set_throttle_mode Paused s).
Proof. done. Qed.

(** In every other mode an answer is a permission. *)
Lemma acquire_permits clock s b s' :
  ops_per_sec s <> 0 -> acquire clock s = (Some b, s') -> b = true.
Proof.
  revert s. induction clock as [|now clock IH]; intros s Hr; cbn [acquire]; [done|].
  unfold acquire_round. rewrite (proj2 (N.eqb_neq _ _)) by done.
  destruct (f64_ge _ _); [by intros [= <- _]|]. by apply IH.
Qed.

(** A round ends in a sleep only below one token. *)
Lemma sleeping_means_empty now s secs s' :
  acquire_round now s = (SleepFor secs, s') -> f64_ge (tokens s') (f64_of_N 1) = false.
Proof.
  unfold acquire_round. destruct (_ =? 0); [done|]. destruct (f64_ge _ _) eqn:E; [done|].
  by intros [= _ <-].
Qed.
