(* ===== verification/Store.v ===== *)
(** The durable store of src/store/mod.rs over the schema of src/store/schema.rs.

    A table is a finite map on its primary key, except [operation_intents],
    whose key is an autoincremented rowid: it is the list of its rows in rowid
    order.  Each method is its SQL text on these tables: conflict clauses, the
    unique index on (attempt_id, op_id) and the foreign keys to [jobs] (the
    connection sets [foreign_keys = ON]) are checked as SQLite does, and a [u64]
    that does not fit SQLite's 64-bit signed integer is refused when it is bound.
    SQLite itself can refuse any statement: each method takes the fault it
    reports, if any, and a refused statement leaves the tables as they were.
    The texts of SQLite's errors are a parameter. *)
From Stdlib Require Import Ascii String.
From S2P Require Import Prelude Paths Domain.

(** Where in a method that runs several statements SQLite refuses. *)
Inductive Stage := Begin | Prepare | Query | Write | Commit.

Inductive SqlFault :=
| UniqueViolation | ForeignKeyViolation | ToSqlOutOfRange | SqliteFailure (code : N).

Record JobRow := mkJobRow {
  jobs_job_type : string;
  jobs_state : string;
  jobs_catalog_generation : N;
  jobs_config_generation : N;
  jobs_total_estimated_bytes : N;
  jobs_total_reclaimed_bytes : N;
  jobs_created_at : N;
  jobs_updated_at : N;
}.

Record AttemptRow := mkAttemptRow {
  att_job_id : N;
  att_worker_id : N;
  att_state : string;
  att_lease_expires_at : N;
  att_started_at : N;
  att_finished_at : option N;
}.

Record IntentRow := mkIntentRow {
  ir_intent_id : N;
  ir_job_id : N;
  ir_attempt_id : N;
  ir_op_id : N;
  ir_target_id : string;
  ir_rel_path : string;
  ir_expected_dev : N;
  ir_expected_ino : N;
  ir_estimated_bytes : N;
  ir_mutation_type : string;
  ir_state : string;
  ir_catalog_generation : N;
  ir_config_generation : N;
  ir_committed_at : N;
  ir_resolved_at : option N;
}.

Record OperationRow := mkOperationRow {
  or_plan_id : N;
  or_target_id : string;
  or_op_type : string;
  or_rel_path : string;
  or_expected_dev : N;
  or_expected_ino : N;
  or_estimated_bytes : N;
  or_status : string;
  or_reclaimed_bytes : N;
  or_error_message : option string;
  or_executed_at : N;
}.

Record LeaseRow := mkLeaseRow {
  lease_worker_id : N;
  lease_token : string;
  lease_acquired_at : N;
  lease_expires_at : N;
}.

Record IdempotencyRow := mkIdempotencyRow {
  idem_job_id : N;
  idem_response_payload : option string;
  idem_created_at : N;
  idem_expires_at : N;
}.

Record OutboxRow := mkOutboxRow {
  outbox_event_id : N;
  outbox_event_type : string;
  outbox_payload : string;
  outbox_status : string;
  outbox_created_at : N;
}.

Record Store := mkStore {
  jobs : gmap N JobRow;
  attempts : gmap N AttemptRow;
  operation_intents : list IntentRow;
  intent_seq : N;
  operations_table : gmap (N * N) OperationRow;
  leases : gmap string LeaseRow;
  idempotency_keys : gmap string IdempotencyRow;
  outbox : list OutboxRow;
}.

Definition empty_store : Store := mkStore ∅ ∅ [] 0 ∅ ∅ ∅ [].

Definition set_jobs (s : Store) x : Store :=
  mkStore x (attempts s) (operation_intents s) (intent_seq s) (operations_table s) (leases s)
    (idempotency_keys s) (outbox s).
Definition set_attempts (s : Store) x : Store :=
  mkStore (jobs s) x (operation_intents s) (intent_seq s) (operations_table s) (leases s)
    (idempotency_keys s) (outbox s).
Definition set_intents (s : Store) x n : Store :=
  mkStore (jobs s) (attempts s) x n (operations_table s) (leases s)
    (idempotency_keys s) (outbox s).
Definition set_operations (s : Store) x : Store :=
  mkStore (jobs s) (attempts s) (operation_intents s) (intent_seq s) x (leases s)
    (idempotency_keys s) (outbox s).
Definition set_leases (s : Store) x : Store :=
  mkStore (jobs s) (attempts s) (operation_intents s) (intent_seq s) (operations_table s) x
    (idempotency_keys s) (outbox s).
Definition set_idempotency (s : Store) x : Store :=
  mkStore (jobs s) (attempts s) (operation_intents s) (intent_seq s) (operations_table s)
    (leases s) x (outbox s).
Definition set_outbox (s : Store) x : Store :=
  mkStore (jobs s) (attempts s) (operation_intents s) (intent_seq s) (operations_table s)
    (leases s) (idempotency_keys s) x.

(** Binding a [u64] parameter: it must fit an [i64]. *)
Definition fits (params : list N) : bool := forallb (fun x => x <=? I64_MAX) params.

Definition job_exists (s : Store) (job_id : N) : bool := bool_decide (is_Some (jobs s !! job_id)).

Definition bound {A} (params : list N) (k : result SqlFault A) : result SqlFault A :=
  if fits params then k else Err ToSqlOutOfRange.

(** ** Statements *)

(** INSERT INTO jobs .. ON CONFLICT(job_id) DO UPDATE SET updated_at *)
Definition insert_job (job_id : N) (job_type : string) (cat cfg now : N) (s : Store)
    : result SqlFault (unit * Store) :=
  bound [job_id; cat; cfg; now]
    (Ok (tt, set_jobs s (<[job_id :=
       match jobs s !! job_id with
       | Some r => mkJobRow (jobs_job_type r) (jobs_state r) (jobs_catalog_generation r)
                     (jobs_config_generation r) (jobs_total_estimated_bytes r)
                     (jobs_total_reclaimed_bytes r) (jobs_created_at r) now
       | None => mkJobRow job_type "ADMITTED" cat cfg 0 0 now now
       end]> (jobs s)))).

(** UPDATE jobs SET state, total_reclaimed_bytes, updated_at WHERE job_id *)
Definition update_job (job_id : N) (state : string) (reclaimed now : N) (s : Store)
    : result SqlFault (unit * Store) :=
  bound [reclaimed; now; job_id]
    (Ok (tt, set_jobs s (alter (fun r =>
       mkJobRow (jobs_job_type r) state (jobs_catalog_generation r) (jobs_config_generation r)
         (jobs_total_estimated_bytes r) reclaimed (jobs_created_at r) now) job_id (jobs s)))).

(** INSERT INTO attempts .. ON CONFLICT(attempt_id) DO UPDATE SET state, lease *)
Definition insert_attempt (attempt_id job_id worker_id lease_expires now : N) (s : Store)
    : result SqlFault (unit * Store) :=
  bound [attempt_id; job_id; worker_id; lease_expires; now]
    match attempts s !! attempt_id with
    | Some r => Ok (tt, set_attempts s (<[attempt_id :=
                  mkAttemptRow (att_job_id r) (att_worker_id r) "RUNNING" lease_expires
                    (att_started_at r) (att_finished_at r)]> (attempts s)))
    | None =>
        if job_exists s job_id then
          Ok (tt, set_attempts s (<[attempt_id :=
                mkAttemptRow job_id worker_id "RUNNING" lease_expires now None]> (attempts s)))
        else Err ForeignKeyViolation
    end.

Definition update_attempt (attempt_id : N) (state : string) (now : N) (s : Store)
    : result SqlFault (unit * Store) :=
  bound [now; attempt_id]
    (Ok (tt, set_attempts s (alter (fun r =>
       mkAttemptRow (att_job_id r) (att_worker_id r) state (att_lease_expires_at r)
         (att_started_at r) (Some now)) attempt_id (attempts s)))).

Definition intent_key (r : IntentRow) : N * N := (ir_attempt_id r, ir_op_id r).

Definition intent_row (id : N) (i : OperationIntent) : IntentRow :=
  mkIntentRow id (i_job_id i) (i_attempt_id i) (i_op_id i) (i_target_id i)
    (RelativePath.as_str (i_rel_path i)) (dev (i_expected_identity i))
    (ino (i_expected_identity i)) (i_estimated_bytes i)
    (MutationType_display (i_mutation_type i)) (IntentState_display (i_state i))
    (catalog_gen (i_catalog_generation i)) (config_gen (i_config_generation i))
    (i_committed_at i) None.

(** INSERT INTO operation_intents; the new rowid is returned. *)
Definition insert_intent (i : OperationIntent) (s : Store) : result SqlFault (N * Store) :=
  bound [i_job_id i; i_attempt_id i; i_op_id i; dev (i_expected_identity i);
         ino (i_expected_identity i); i_estimated_bytes i; catalog_gen (i_catalog_generation i);
         config_gen (i_config_generation i); i_committed_at i]
    (if existsb (fun r => bool_decide (intent_key r = (i_attempt_id i, i_op_id i)))
          (operation_intents s) then Err UniqueViolation
     else if negb (job_exists s (i_job_id i)) then Err ForeignKeyViolation
     else let id := intent_seq s + 1 in
          Ok (id, set_intents s (operation_intents s ++ [intent_row id i]) id)).

(** The loop of the batch insert. *)
Fixpoint insert_intents (l : list OperationIntent) (s : Store) : result SqlFault (unit * Store) :=
  match l with
  | [] => Ok (tt, s)
  | i :: l' => try! r := insert_intent i s in insert_intents l' (snd r)
  end.

(** UPDATE operation_intents SET state, resolved_at WHERE attempt_id AND op_id *)
Definition mark_intent (attempt_id op_id : N) (state : string) (now : N) (r : IntentRow)
    : IntentRow :=
  if bool_decide (intent_key r = (attempt_id, op_id)) then
    mkIntentRow (ir_intent_id r) (ir_job_id r) (ir_attempt_id r) (ir_op_id r) (ir_target_id r)
      (ir_rel_path r) (ir_expected_dev r) (ir_expected_ino r) (ir_estimated_bytes r)
      (ir_mutation_type r) state (ir_catalog_generation r) (ir_config_generation r)
      (ir_committed_at r) (Some now)
  else r.

Definition update_intent (attempt_id op_id : N) (state : string) (now : N) (s : Store)
    : result SqlFault (unit * Store) :=
  bound [now; attempt_id; op_id]
    (Ok (tt, set_intents s (map (mark_intent attempt_id op_id state now) (operation_intents s))
               (intent_seq s))).

(** INSERT OR REPLACE INTO operations *)
Definition replace_operation (job_id op_id : N) (row : OperationRow) (s : Store)
    : result SqlFault (unit * Store) :=
  bound [job_id; op_id; or_plan_id row; or_expected_dev row; or_expected_ino row;
         or_estimated_bytes row; or_reclaimed_bytes row; or_executed_at row]
    (if job_exists s job_id then
       Ok (tt, set_operations s (<[(job_id, op_id) := row]> (operations_table s)))
     else Err ForeignKeyViolation).

(** DELETE FROM leases WHERE resource_id AND expires_at <= now *)
Definition purge_expired (resource_id : string) (now : N) (l : gmap string LeaseRow)
    : gmap string LeaseRow :=
  match l !! resource_id with
  | Some r => if lease_expires_at r <=? now then delete resource_id l else l
  | None => l
  end.

(** Another worker has an unexpired lease. *)
Definition lease_taken (resource_id : string) (worker_id now : N) (s : Store) : bool :=
  match purge_expired resource_id now (leases s) !! resource_id with
  | Some r => negb (lease_worker_id r =? worker_id) && (now <? lease_expires_at r)
  | None => false
  end.

(** The transaction of [acquire_lease]: delete an expired lease, look for another
    worker's live one, insert or replace. *)
Definition lease_transaction (resource_id : string) (worker_id ttl_secs now : N) (s : Store)
    : result SqlFault (bool * Store) :=
  let expires_at := wrap_add now ttl_secs in
  let token := "lease-" +:+ pretty worker_id +:+ "-" +:+ pretty now in
  bound [now]
    (if lease_taken resource_id worker_id now s then Ok (false, s)
     else bound [worker_id; now; expires_at]
            (Ok (true, set_leases s (<[resource_id :=
               mkLeaseRow worker_id token now expires_at]>
                 (purge_expired resource_id now (leases s)))))).

Definition delete_lease (resource_id : string) (worker_id : N) (s : Store)
    : result SqlFault (unit * Store) :=
  bound [worker_id]
    (Ok (tt, match leases s !! resource_id with
             | Some r => if lease_worker_id r =? worker_id
                         then set_leases s (delete resource_id (leases s)) else s
             | None => s
             end)).

(** The key is reserved and has not expired. *)
Definition key_live (key : string) (now : N) (s : Store) : bool :=
  match idempotency_keys s !! key with
  | Some r => now <? idem_expires_at r
  | None => false
  end.

(** Look the key up among the unexpired ones, else reserve it. *)
Definition reserve_idempotency (key : string) (job_id ttl_secs now : N) (s : Store)
    : result SqlFault (option string * Store) :=
  let reserve :=
    let expires_at := wrap_add now ttl_secs in
    bound [job_id; now; expires_at]
      (Ok (None, set_idempotency s (<[key :=
         mkIdempotencyRow job_id None now expires_at]> (idempotency_keys s)))) in
  match idempotency_keys s !! key with
  | Some r => if now <? idem_expires_at r then Ok (idem_response_payload r, s) else reserve
  | None => reserve
  end.

Definition update_idempotency (key payload : string) (s : Store)
    : result SqlFault (unit * Store) :=
  Ok (tt, set_idempotency s (alter (fun r =>
     mkIdempotencyRow (idem_job_id r) (Some payload) (idem_created_at r) (idem_expires_at r))
     key (idempotency_keys s))).

Definition insert_outbox (event_type payload : string) (now : N) (s : Store)
    : result SqlFault (unit * Store) :=
  bound [now]
    (Ok (tt, set_outbox s (outbox s ++
       [mkOutboxRow (N.of_nat (length (outbox s)) + 1) event_type payload "PENDING" now]))).

(** ** Methods *)

(** The column values of [record_operation_result]. *)
Definition status_columns (st : OperationStatus) : string * option string :=
  match st with
  | Success => ("SUCCESS", None)
  | Failed error => ("FAILED", Some error)
  | VerificationFailed reason => ("VERIFICATION_FAILED", Some reason)
  | Preempted => ("PREEMPTED", None)
  | Skipped reason => ("SKIPPED", Some reason)
  end.

Definition parse_mutation_type (s : string) : MutationType :=
  if String.eqb s "DELETE_DIR_EMPTY" then MutDeleteDirEmpty
  else if String.eqb s "PRUNE_DIR_RECURSIVE" then MutPruneDirRecursive
  else MutDeleteFile.

Definition parse_intent_state (s : string) : IntentState :=
  if String.eqb s "MUTATING" then Mutating
  else if String.eqb s "VERIFIED_SUCCESS" then VerifiedSuccess
  else if String.eqb s "VERIFIED_FAILED" then VerifiedFailed
  else if String.eqb s "RESOLVED_UNKNOWN" then ResolvedUnknown
  else Committed.

(** The row closure of [get_operation_intents_for_attempt]; [TargetId::new]
    panics on a row whose target is not a valid identifier. *)
Definition intent_of_row (r : IntentRow) : result fault OperationIntent :=
  match TargetId_new (ir_target_id r) with
  | None => Err (Panic "TargetId must be non-empty, <=512, no NUL/newline")
  | Some tid =>
      Ok (mkIntent (Some (ir_intent_id r)) (ir_job_id r) (ir_attempt_id r) (ir_op_id r) tid
            (default RelativePath.empty (RelativePath.parse (ir_rel_path r)))
            (mkFileIdentity (ir_expected_dev r) (ir_expected_ino r))
            (ByteCount.new_unchecked (ir_estimated_bytes r))
            (parse_mutation_type (ir_mutation_type r)) (parse_intent_state (ir_state r))
            (mkCatalogGeneration (ir_catalog_generation r))
            (mkConfigGeneration (ir_config_generation r))
            (ir_committed_at r) (ir_resolved_at r))
  end.

Fixpoint intents_of_rows (l : list IntentRow) : result fault (list OperationIntent) :=
  match l with
  | [] => Ok []
  | r :: l' => try! i := intent_of_row r in try! rest := intents_of_rows l' in Ok (i :: rest)
  end.

Section methods.
Context (sql_text : SqlFault -> string).

(** One statement or transaction: refused by the engine, rejected by a
    constraint, or applied. *)
Definition run_stmt {A} (ctx : string) (fault : option SqlFault)
    (body : Store -> result SqlFault (A * Store)) (s : Store)
    : result CleanerError A * Store :=
  match fault with
  | Some f => (Err (Storage (ctx +:+ sql_text f)), s)
  | None => match body s with
            | Ok (a, s') => (Ok a, s')
            | Err f => (Err (Storage (ctx +:+ sql_text f)), s)
            end
  end.

(** Several statements: the error text depends on the stage that is refused,
    and a method that returns early ([early]) never reaches its writes. *)
Definition run_stages {A} (ctx : Stage -> string) (early : Store -> bool) (at_ : Stage)
    (fault : option SqlFault) (body : Store -> result SqlFault (A * Store)) (s : Store)
    : result CleanerError A * Store :=
  match fault, at_ with
  | Some f, Begin | Some f, Prepare | Some f, Query =>
      (Err (Storage (ctx at_ +:+ sql_text f)), s)
  | Some f, Write => if early s then run_stmt (ctx Write) None body s
                     else (Err (Storage (ctx Write +:+ sql_text f)), s)
  | Some f, Commit =>
      if early s then run_stmt (ctx Write) None body s
      else match body s with
           | Ok _ => (Err (Storage (ctx Commit +:+ sql_text f)), s)
           | Err f' => (Err (Storage (ctx Write +:+ sql_text f')), s)
           end
  | None, _ => run_stmt (ctx Write) None body s
  end.

(** [SELECT MAX(..)]; a failed query counts as an empty table. *)
Definition max_key {V} (m : gmap N V) : N := map_fold (fun k _ acc => N.max k acc) 0 m.
Definition get_max_job_id (fault : option SqlFault) (s : Store) : N :=
  match fault with Some _ => 0 | None => max_key (jobs s) end.
Definition get_max_attempt_id (fault : option SqlFault) (s : Store) : N :=
  match fault with Some _ => 0 | None => max_key (attempts s) end.

Definition register_job (job_id : JobId) (job_type : string) (cat : CatalogGeneration)
    (cfg : ConfigGeneration) (now : N) (fault : option SqlFault) :=
  run_stmt ("Failed to register job " +:+ JobId_display job_id +:+ ": ") fault
    (insert_job job_id job_type (catalog_gen cat) (config_gen cfg) now).

Definition update_job_state (job_id : JobId) (state : string) (total : ByteCount.t)
    (now : N) (fault : option SqlFault) :=
  run_stmt ("Failed to update job " +:+ JobId_display job_id +:+ " state: ") fault
    (update_job job_id state total now).

Definition create_attempt (attempt_id : AttemptId) (job_id : JobId) (worker_id : WorkerId)
    (lease_duration_secs now : N) (fault : option SqlFault) :=
  run_stmt ("Failed to create attempt " +:+ AttemptId_display attempt_id +:+ ": ") fault
    (insert_attempt attempt_id job_id worker_id (wrap_add now lease_duration_secs) now).

Definition update_attempt_state (attempt_id : AttemptId) (state : string) (now : N)
    (fault : option SqlFault) :=
  run_stmt ("Failed to update attempt " +:+ AttemptId_display attempt_id +:+ " state: ") fault
    (update_attempt attempt_id state now).

Definition commit_operation_intent (intent : OperationIntent) (fault : option SqlFault) :=
  run_stmt "Failed to commit operation intent: " fault (insert_intent intent).

Definition batch_ctx (st : Stage) : string :=
  match st with
  | Begin => "Failed to begin transaction: "
  | Prepare | Query => "Failed to prepare statement: "
  | Write => "Failed to insert intent in batch: "
  | Commit => "Failed to commit intent batch transaction: "
  end.

Definition commit_operation_intents_batch (intents : list OperationIntent) (at_ : Stage)
    (fault : option SqlFault) (s : Store) : result CleanerError unit * Store :=
  match intents with
  | [] => (Ok tt, s)
  | _ => run_stages batch_ctx (fun _ => false) at_ fault (insert_intents intents) s
  end.

Definition summary_ctx (st : Stage) : string :=
  match st with
  | Begin | Prepare => "Failed to prepare query: "
  | Query => "Failed to query job: "
  | Write | Commit => ""
  end.

Definition get_job_summary (job_id : JobId) (at_ : Stage) (fault : option SqlFault)
    (s : Store) : result CleanerError (option (string * N * N)) :=
  match fault with
  | Some f => Err (Storage (summary_ctx at_ +:+ sql_text f))
  | None =>
      if negb (fits [job_id]) then Err (Storage (summary_ctx Query +:+ sql_text ToSqlOutOfRange))
      else match jobs s !! job_id with
           | Some r => Ok (Some (jobs_state r, jobs_total_reclaimed_bytes r, jobs_updated_at r))
           | None => Ok None
           end
  end.

Definition update_intent_state (attempt_id : AttemptId) (op_id : OperationId)
    (state : string) (now : N) (fault : option SqlFault) :=
  run_stmt "Failed to update intent state: " fault (update_intent attempt_id op_id state now).

Definition record_operation_result (job_id : JobId) (plan_id : PlanId) (target_id : TargetId)
    (op_type rel_path : string) (expected_id : FileIdentity) (estimated_bytes : ByteCount.t)
    (res : OperationFinalResult) (fault : option SqlFault) :=
  let '(status_str, error_msg) := status_columns (r_status res) in
  run_stmt "Failed to record operation result: " fault
    (replace_operation job_id (r_op_id res)
       (mkOperationRow plan_id target_id op_type rel_path (dev expected_id) (ino expected_id)
          estimated_bytes status_str (r_reclaimed_bytes res) error_msg (r_executed_at res))).

Definition lease_ctx (st : Stage) : string :=
  match st with Write => "Failed to insert lease: " | _ => "" end.

(** The error of the first DELETE is dropped by the code. *)
Definition acquire_lease (resource_id : string) (worker_id : WorkerId) (ttl_secs now : N)
    (at_ : Stage) (fault : option SqlFault) :=
  run_stages lease_ctx (lease_taken resource_id worker_id now) at_ fault
    (lease_transaction resource_id worker_id ttl_secs now).

Definition release_lease (resource_id : string) (worker_id : WorkerId)
    (fault : option SqlFault) :=
  run_stmt ("Failed to release lease " +:+ resource_id +:+ ": ") fault
    (delete_lease resource_id worker_id).

Definition idempotency_ctx (st : Stage) : string :=
  match st with Write | Commit => "Failed to insert idempotency key: " | _ => "" end.

Definition check_or_insert_idempotency (key : string) (job_id : JobId) (ttl_secs now : N)
    (at_ : Stage) (fault : option SqlFault) (s : Store)
    : result CleanerError (option string) * Store :=
  if negb (fits [now]) then (Err (Storage (sql_text ToSqlOutOfRange)), s)
  else run_stages idempotency_ctx (key_live key now) at_ fault
         (reserve_idempotency key job_id ttl_secs now) s.

Definition set_idempotency_response (key payload : string) (fault : option SqlFault) :=
  run_stmt "Failed to set idempotency response: " fault (update_idempotency key payload).

Definition append_outbox (event_type payload : string) (now : N) (fault : option SqlFault) :=
  run_stmt "Failed to append outbox event: " fault (insert_outbox event_type payload now).

(** The attempts in state RUNNING, in rowid order. *)
Definition get_uncompleted_attempts (fault : option SqlFault) (s : Store)
    : result CleanerError (list (AttemptId * JobId)) :=
  match fault with
  | Some f => Err (Storage (sql_text f))
  | None =>
      Ok (sort_by (fun a b => N.compare a.1 b.1)
            (omap (fun '(a, r) => if String.eqb (att_state r) "RUNNING"
                                  then Some (a, att_job_id r) else None)
               (map_to_list (attempts s))))
  end.

Definition get_operation_intents_for_attempt (attempt_id : AttemptId)
    (fault : option SqlFault) (s : Store) : result Domain.fault (list OperationIntent) :=
  match fault with
  | Some f => Err (Error (Storage (sql_text f)))
  | None =>
      if negb (fits [attempt_id]) then Err (Error (Storage (sql_text ToSqlOutOfRange)))
      else intents_of_rows (filter (fun r => ir_attempt_id r = attempt_id)
                              (operation_intents s))
  end.
End methods.

(** ** Invariant *)

(** A parameter of a method call and the call itself, so that histories of the
    store are lists of commands; [now] and the fault come with each. *)
Inductive StoreCmd :=
| CmdRegisterJob (job_id : JobId) (job_type : string) (cat : CatalogGeneration)
    (cfg : ConfigGeneration)
| CmdUpdateJob (job_id : JobId) (state : string) (total : N)
| CmdCreateAttempt (attempt_id : AttemptId) (job_id : JobId) (worker_id : WorkerId) (lease : N)
| CmdUpdateAttempt (attempt_id : AttemptId) (state : string)
| CmdCommitIntent (i : OperationIntent)
| CmdCommitBatch (l : list OperationIntent) (at_ : Stage)
| CmdUpdateIntent (attempt_id : AttemptId) (op_id : OperationId) (state : string)
| CmdRecordResult (job_id : JobId) (plan_id : PlanId) (target_id : TargetId)
    (op_type rel_path : string) (id : FileIdentity) (est : N) (res : OperationFinalResult)
| CmdAcquireLease (resource : string) (worker_id : WorkerId) (ttl : N) (at_ : Stage)
| CmdReleaseLease (resource : string) (worker_id : WorkerId)
| CmdReserveKey (key : string) (job_id : JobId) (ttl : N) (at_ : Stage)
| CmdSetResponse (key payload : string)
| CmdAppendOutbox (event_type payload : string).

Definition exec_cmd (sql_text : SqlFault -> string) (c : StoreCmd) (now : N)
    (fault : option SqlFault) (s : Store) : Store :=
  match c with
  | CmdRegisterJob j ty cat cfg => snd (register_job sql_text j ty cat cfg now fault s)
  | CmdUpdateJob j st t => snd (update_job_state sql_text j st t now fault s)
  | CmdCreateAttempt a j w l => snd (create_attempt sql_text a j w l now fault s)
  | CmdUpdateAttempt a st => snd (update_attempt_state sql_text a st now fault s)
  | CmdCommitIntent i => snd (commit_operation_intent sql_text i fault s)
  | CmdCommitBatch l g => snd (commit_operation_intents_batch sql_text l g fault s)
  | CmdUpdateIntent a o st => snd (update_intent_state sql_text a o st now fault s)
  | CmdRecordResult j p t ty rp id est res =>
      snd (record_operation_result sql_text j p t ty rp id est res fault s)
  | CmdAcquireLease r w ttl g => snd (acquire_lease sql_text r w ttl now g fault s)
  | CmdReleaseLease r w => snd (release_lease sql_text r w fault s)
  | CmdReserveKey k j ttl g =>
      snd (check_or_insert_idempotency sql_text k j ttl now g fault s)
  | CmdSetResponse k p => snd (set_idempotency_response sql_text k p fault s)
  | CmdAppendOutbox ty p => snd (append_outbox sql_text ty p now fault s)
  end.

(** A history: commands with the time and the fault of each. *)
Definition exec_all (sql_text : SqlFault -> string)
    (l : list (StoreCmd * N * option SqlFault)) (s : Store) : Store :=
  fold_left (fun s '(c, now, f) => exec_cmd sql_text c now f s) l s.

(** The schema's constraints. *)
Record store_wf (s : Store) : Prop := {
  wf_unique : NoDup (map intent_key (operation_intents s));
  wf_rowids : StronglySorted N.lt (map ir_intent_id (operation_intents s));
  wf_seq : Forall (fun r => ir_intent_id r <= intent_seq s) (operation_intents s);
  wf_intent_jobs : Forall (fun r => is_Some (jobs s !! ir_job_id r)) (operation_intents s);
  wf_attempt_jobs : map_Forall (fun _ r => is_Some (jobs s !! att_job_id r)) (attempts s);
  wf_operation_jobs : map_Forall (fun k _ => is_Some (jobs s !! k.1)) (operations_table s);
}.

(** The columns of an intent that no statement changes. *)
Definition same_intent (r r' : IntentRow) : Prop :=
  ir_intent_id r' = ir_intent_id r /\ intent_key r' = intent_key r /\
  ir_job_id r' = ir_job_id r /\ ir_target_id r' = ir_target_id r /\
  ir_rel_path r' = ir_rel_path r /\ ir_expected_dev r' = ir_expected_dev r /\
  ir_expected_ino r' = ir_expected_ino r /\ ir_estimated_bytes r' = ir_estimated_bytes r /\
  ir_mutation_type r' = ir_mutation_type r.

(** [s'] has every intent of [s], at the same position, and every job. *)
Definition store_extends (s s' : Store) : Prop :=
  (exists new, Forall2 same_intent (operation_intents s)
                 (take (length (operation_intents s)) (operation_intents s')) /\
     operation_intents s' = take (length (operation_intents s)) (operation_intents s') ++ new) /\
  (forall j, is_Some (jobs s !! j) -> is_Some (jobs s' !! j)).

#[export] Instance same_intent_refl : Reflexive same_intent.
Proof. repeat split. Qed.
#[export] Instance same_intent_trans : Transitive same_intent.
Proof. unfold same_intent. intros a b c. intuition congruence. Qed.

(** What a statement must do to keep both. *)
Definition good_stmt {A} (body : Store -> result SqlFault (A * Store)) : Prop :=
  forall s a s', body s = Ok (a, s') -> store_wf s -> store_wf s' /\ store_extends s s'.

Lemma store_extends_eq s s' :
  operation_intents s' = operation_intents s ->
  (forall j, is_Some (jobs s !! j) -> is_Some (jobs s' !! j)) -> store_extends s s'.
Proof.
  intros E Hj. split; [|done]. exists []. rewrite E, firstn_all, app_nil_r.
  split; [|done]. by apply Forall_Forall2_diag, Forall_true.
Qed.

Lemma store_extends_refl s : store_extends s s.
Proof. by apply store_extends_eq. Qed.

Lemma store_extends_alt s s' :
  store_extends s s' <->
  (exists l new, operation_intents s' = l ++ new /\ Forall2 same_intent (operation_intents s) l)
  /\ (forall j, is_Some (jobs s !! j) -> is_Some (jobs s' !! j)).
Proof.
  unfold store_extends. split; intros [H Hj]; (split; [|done]).
  - destruct H as (new & HF & E). eauto.
  - destruct H as (l & new & E & HF). exists new. apply Forall2_length in HF as Hlen.
    rewrite E, Hlen, take_app_length. done.
Qed.

Lemma store_extends_trans s1 s2 s3 :
  store_extends s1 s2 -> store_extends s2 s3 -> store_extends s1 s3.
Proof.
  rewrite !store_extends_alt. intros [(l & n & E & H) Hj] [(l' & n' & E' & H') Hj'].
  split; [|auto]. rewrite E in H'. apply Forall2_app_inv_l in H' as (l1 & l2 & H1 & H2 & ->).
  exists l1, (l2 ++ n'). rewrite app_assoc, <- E'. split; [done|].
  by transitivity l.
Qed.

Lemma bound_ok {A} params (k : result SqlFault A) a :
  bound params k = Ok a -> fits params = true /\ k = Ok a.
Proof. unfold bound. by destruct (fits params). Qed.

(** Statements that touch neither jobs, intents, attempts nor operations. *)
Lemma store_frame s s' :
  jobs s' = jobs s -> operation_intents s' = operation_intents s ->
  intent_seq s' = intent_seq s -> attempts s' = attempts s ->
  operations_table s' = operations_table s ->
  store_wf s -> store_wf s' /\ store_extends s s'.
Proof.
  intros E1 E2 E3 E4 E5 [H1 H2 H3 H4 H5 H6]. split.
  - constructor; by rewrite ?E1, ?E2, ?E3, ?E4, ?E5.
  - apply store_extends_eq; [done|]. by rewrite E1.
Qed.

(** Statements that only write [jobs], without removing a row. *)
Lemma store_jobs_grow s m :
  (forall j, is_Some (jobs s !! j) -> is_Some (m !! j)) ->
  store_wf s -> store_wf (set_jobs s m) /\ store_extends s (set_jobs s m).
Proof.
  intros Hm [H1 H2 H3 H4 H5 H6]. split; [|by apply store_extends_eq].
  constructor; simpl; try done.
  - eapply Forall_impl; [exact H4|]. simpl. auto.
  - eapply map_Forall_impl; [exact H5|]. simpl. auto.
  - eapply map_Forall_impl; [exact H6|]. simpl. auto.
Qed.

Lemma store_attempts_ok s m :
  map_Forall (fun _ r => is_Some (jobs s !! att_job_id r)) m ->
  store_wf s -> store_wf (set_attempts s m) /\ store_extends s (set_attempts s m).
Proof.
  intros Hm [H1 H2 H3 H4 H5 H6]. split; [by constructor|by apply store_extends_eq].
Qed.

Lemma good_insert_job j ty cat cfg now : good_stmt (insert_job j ty cat cfg now).
Proof.
  intros s a s' (_ & E)%bound_ok. simplify_eq. apply store_jobs_grow.
  intros k Hk. rewrite lookup_insert. by case_decide; [eexists|].
Qed.

Lemma good_update_job j st t now : good_stmt (update_job j st t now).
Proof.
  intros s a s' (_ & E)%bound_ok. simplify_eq. apply store_jobs_grow.
  intros k Hk. rewrite lookup_alter. case_decide; [subst; by apply fmap_is_Some|done].
Qed.

Lemma good_insert_attempt a j w l now : good_stmt (insert_attempt a j w l now).
Proof.
  intros s x s' (_ & E)%bound_ok Hwf.
  destruct (attempts s !! a) as [r|] eqn:Ea.
  - simplify_eq. apply store_attempts_ok; [|done]. apply map_Forall_insert_2.
    + exact (wf_attempt_jobs _ Hwf a r Ea).
    + apply (wf_attempt_jobs _ Hwf).
  - destruct (job_exists s j) eqn:Ej; [|done]. simplify_eq.
    apply store_attempts_ok; [|done]. apply map_Forall_insert_2.
    + by apply bool_decide_eq_true in Ej.
    + apply (wf_attempt_jobs _ Hwf).
Qed.

Lemma good_update_attempt a st now : good_stmt (update_attempt a st now).
Proof.
  intros s x s' (_ & E)%bound_ok Hwf. simplify_eq. apply store_attempts_ok; [|done].
  intros k r. rewrite lookup_alter. case_decide.
  - subst. intros (r0 & Hr0 & ->)%fmap_Some. exact (wf_attempt_jobs _ Hwf _ _ Hr0).
  - apply (wf_attempt_jobs _ Hwf).
Qed.

Lemma insert_intent_ok i s id s' :
  insert_intent i s = Ok (id, s') ->
  ((i_attempt_id i, i_op_id i) ∉ map intent_key (operation_intents s)) /\
  is_Some (jobs s !! i_job_id i) /\ id = intent_seq s + 1 /\
  s' = set_intents s (operation_intents s ++ [intent_row id i]) id.
Proof.
  intros (_ & E)%bound_ok. destruct (existsb _ _) eqn:Ee; [done|].
  destruct (job_exists s (i_job_id i)) eqn:Ej; [|done]. simpl in E. simplify_eq.
  split; [|split; [by apply bool_decide_eq_true in Ej|done]].
  intros (r & Hk & Hr)%list_elem_of_fmap. apply not_true_iff_false in Ee. apply Ee.
  apply existsb_exists. exists r. split; [by apply list_elem_of_In|].
  by apply bool_decide_eq_true.
Qed.

Lemma good_insert_intent i : good_stmt (insert_intent i).
Proof.
  intros s id s' (Hk & Hj & -> & ->)%insert_intent_ok [H1 H2 H3 H4 H5 H6].
  split.
  - constructor; simpl; try done.
    + rewrite map_app, NoDup_app. split; [done|]. split; [|apply NoDup_singleton].
      intros x Hx ->%list_elem_of_singleton. done.
    + rewrite map_app. apply StronglySorted_app. split; [|split; [done|by repeat constructor]].
      intros x y (r & -> & Hr)%list_elem_of_fmap ->%list_elem_of_singleton.
      rewrite Forall_forall in H3. specialize (H3 r Hr). simpl. lia.
    + apply Forall_app. split; [|by repeat constructor].
      eapply Forall_impl; [exact H3|]. simpl. lia.
    + apply Forall_app. split; [done|]. by repeat constructor.
  - apply store_extends_alt. split; [|done]. exists (operation_intents s), [intent_row (intent_seq s + 1) i].
    split; [done|]. by apply Forall_Forall2_diag, Forall_true.
Qed.

Lemma good_insert_intents l : good_stmt (insert_intents l).
Proof.
  induction l as [|i l IH]; intros s a s'; simpl.
  - intros [= _ <-] Hwf. split; [done|apply store_extends_refl].
  - intros H Hwf. destruct (insert_intent i s) as [[id s1]|] eqn:E; [|done]. simpl in H.
    destruct (good_insert_intent i _ _ _ E Hwf) as [Hwf1 He1].
    destruct (IH _ _ _ H Hwf1) as [Hwf2 He2]. split; [done|].
    by eapply store_extends_trans.
Qed.

Lemma mark_intent_same a o st now r : same_intent r (mark_intent a o st now r).
Proof. unfold mark_intent. case_bool_decide; repeat split. Qed.

Lemma good_update_intent a o st now : good_stmt (update_intent a o st now).
Proof.
  intros s x s' (_ & E)%bound_ok [H1 H2 H3 H4 H5 H6]. simplify_eq.
  assert (forall {B} (f : IntentRow -> B), (forall r r', same_intent r r' -> f r' = f r) ->
    map f (map (mark_intent a o st now) (operation_intents s)) = map f (operation_intents s))
    as Hmap.
  { intros B f Hf. rewrite map_map. apply map_ext. intros r. apply Hf, mark_intent_same. }
  split.
  - constructor; simpl; try done.
    + rewrite Hmap; [done|]. intros r r' Hs. apply Hs.
    + rewrite Hmap; [done|]. intros r r' Hs. apply Hs.
    + apply Forall_map. eapply Forall_impl; [exact H3|]. intros r.
      destruct (mark_intent_same a o st now r) as (-> & _). done.
    + apply Forall_map. eapply Forall_impl; [exact H4|]. intros r.
      destruct (mark_intent_same a o st now r) as (_ & _ & -> & _). done.
  - apply store_extends_alt. split; [|done]. eexists _, []. rewrite app_nil_r.
    split; [done|]. simpl. clear. induction (operation_intents s); simpl; [constructor|].
    constructor; [apply mark_intent_same|done].
Qed.

Lemma good_replace_operation j o row : good_stmt (replace_operation j o row).
Proof.
  intros s x s' (_ & E)%bound_ok [H1 H2 H3 H4 H5 H6].
  destruct (job_exists s j) eqn:Ej; [|done]. simplify_eq.
  apply bool_decide_eq_true in Ej. split; [|by apply store_extends_eq].
  constructor; simpl; try done. by apply map_Forall_insert_2.
Qed.

(** Another worker's lease on the resource that has not expired. *)
Definition held_by_other (s : Store) (resource : string) (worker now : N) : Prop :=
  exists r, leases s !! resource = Some r /\ lease_worker_id r <> worker /\
    now < lease_expires_at r.

Lemma lease_transaction_ok r w ttl now s b s' :
  lease_transaction r w ttl now s = Ok (b, s') ->
  if b then ~ held_by_other s r w now /\
    exists token, s' = set_leases s (<[r := mkLeaseRow w token now (wrap_add now ttl)]> (leases s))
  else held_by_other s r w now /\ s' = s.
Proof.
  intros (_ & E)%bound_ok. unfold lease_taken, purge_expired, held_by_other in *.
  destruct (leases s !! r) as [row|] eqn:Er.
  - destruct (lease_expires_at row <=? now) eqn:Ee.
    + apply N.leb_le in Ee. rewrite lookup_delete_eq in E.
      apply bound_ok in E as [_ E]. simplify_eq. rewrite insert_delete_eq. split; [|eauto].
      intros (row' & [= <-] & _ & ?). lia.
    + apply N.leb_gt in Ee. rewrite Er in E.
      rewrite (proj2 (N.ltb_lt _ _) Ee), andb_true_r in E.
      destruct (lease_worker_id row =? w) eqn:Ew; simpl in E.
      * apply N.eqb_eq in Ew. apply bound_ok in E as [_ E]. simplify_eq.
        split; [|eauto]. intros (row' & [= <-] & Hne & _). done.
      * apply N.eqb_neq in Ew. simplify_eq. eauto.
  - rewrite Er in E. apply bound_ok in E as [_ E]. simplify_eq. split; [|eauto].
    by intros (row' & ? & _).
Qed.

Lemma good_lease r w ttl now : good_stmt (lease_transaction r w ttl now).
Proof.
  intros s b s' E. apply lease_transaction_ok in E. destruct b.
  - destruct E as (_ & token & ->). by apply store_frame.
  - destruct E as [_ ->]. by apply store_frame.
Qed.

Lemma good_delete_lease r w : good_stmt (delete_lease r w).
Proof.
  intros s x s' (_ & E)%bound_ok. simplify_eq.
  destruct (leases s !! r); [|by apply store_frame]. by case_match; apply store_frame.
Qed.

Lemma good_reserve k j ttl now : good_stmt (reserve_idempotency k j ttl now).
Proof.
  intros s x s'. unfold reserve_idempotency. destruct (idempotency_keys s !! k).
  - case_match; [|intros (_ & ?)%bound_ok]; intros; simplify_eq; by apply store_frame.
  - intros (_ & ?)%bound_ok. simplify_eq. by apply store_frame.
Qed.

Lemma good_update_idempotency k p : good_stmt (update_idempotency k p).
Proof. intros s x s' E. unfold update_idempotency in E. simplify_eq. by apply store_frame. Qed.

Lemma good_insert_outbox ty p now : good_stmt (insert_outbox ty p now).
Proof. intros s x s' (_ & E)%bound_ok. simplify_eq. by apply store_frame. Qed.

Create HintDb store.
#[export] Hint Resolve good_insert_job good_update_job good_insert_attempt good_update_attempt
  good_insert_intent good_insert_intents good_update_intent good_replace_operation good_lease
  good_delete_lease good_reserve good_update_idempotency good_insert_outbox : store.

Lemma run_stmt_good {A} txt ctx f (body : Store -> result SqlFault (A * Store)) s :
  good_stmt body -> store_wf s ->
  store_wf (snd (run_stmt txt ctx f body s)) /\ store_extends s (snd (run_stmt txt ctx f body s)).
Proof.
  intros Hg Hwf. unfold run_stmt. destruct f; [split; [done|apply store_extends_refl]|].
  destruct (body s) as [[a s']|] eqn:E; simpl; [by eapply Hg|].
  split; [done|apply store_extends_refl].
Qed.

Lemma run_stages_good {A} txt ctx early g f (body : Store -> result SqlFault (A * Store)) s :
  good_stmt body -> store_wf s ->
  store_wf (snd (run_stages txt ctx early g f body s)) /\
  store_extends s (snd (run_stages txt ctx early g f body s)).
Proof.
  intros Hg Hwf. pose proof (store_extends_refl s).
  unfold run_stages. destruct f, g; try case_match; try (by apply run_stmt_good); try done.
  by case_match.
Qed.

Lemma exec_cmd_good txt c now f s :
  store_wf s -> store_wf (exec_cmd txt c now f s) /\ store_extends s (exec_cmd txt c now f s).
Proof.
  intros Hwf. destruct c; simpl;
    try (apply run_stmt_good || apply run_stages_good; [auto with store|done]).
  - unfold commit_operation_intents_batch.
    destruct l; [split; [done|apply store_extends_refl]|].
    apply run_stages_good; [auto with store|done].
  - unfold record_operation_result. destruct (status_columns _).
    apply run_stmt_good; [auto with store|done].
  - unfold check_or_insert_idempotency. destruct (fits [now]); simpl.
    + apply run_stages_good; [auto with store|done].
    + split; [done|apply store_extends_refl].
Qed.

Lemma exec_all_good txt l s :
  store_wf s -> store_wf (exec_all txt l s) /\ store_extends s (exec_all txt l s).
Proof.
  revert s. induction l as [|[[c now] f] l IH]; intros s Hwf; simpl.
  - split; [done|apply store_extends_refl].
  - destruct (exec_cmd_good txt c now f s Hwf) as [H1 H2].
    destruct (IH _ H1) as [H3 H4]. split; [done|]. by eapply store_extends_trans.
Qed.

Lemma empty_store_wf : store_wf empty_store.
Proof. by constructor; try constructor. Qed.

Lemma run_stmt_ok {A} txt ctx f (body : Store -> result SqlFault (A * Store)) s a s' :
  run_stmt txt ctx f body s = (Ok a, s') -> f = None /\ body s = Ok (a, s').
Proof.
  unfold run_stmt. destruct f; [done|].
  destruct (body s) as [[? ?]|]; intros; by simplify_eq.
Qed.

Lemma run_stmt_err {A} txt ctx f (body : Store -> result SqlFault (A * Store)) s e s' :
  run_stmt txt ctx f body s = (Err e, s') -> s' = s.
Proof.
  unfold run_stmt. destruct f; [by intros [=]|].
  destruct (body s) as [[? ?]|]; intros; by simplify_eq.
Qed.

(** Only a method that returned early survives a refusal. *)
Lemma run_stages_ok {A} txt ctx early g f (body : Store -> result SqlFault (A * Store)) s a s' :
  run_stages txt ctx early g f body s = (Ok a, s') -> body s = Ok (a, s').
Proof.
  unfold run_stages. destruct f, g; try done; try (by intros [_ ?]%run_stmt_ok).
  - case_match; [|done]. by intros [_ ?]%run_stmt_ok.
  - case_match; [by intros [_ ?]%run_stmt_ok|]. by case_match.
Qed.

Lemma parse_mutation_display m : parse_mutation_type (MutationType_display m) = m.
Proof. by destruct m. Qed.
Lemma parse_intent_display st : parse_intent_state (IntentState_display st) = st.
Proof. by destruct st. Qed.

(** A fresh row reads back as its intent, with the row's id. *)
Lemma intent_of_row_row id i :
  TargetId_new (i_target_id i) = Some (i_target_id i) ->
  RelativePath.parse (i_rel_path i) = Some (i_rel_path i) ->
  i_resolved_at i = None ->
  intent_of_row (intent_row id i) =
  Ok (mkIntent (Some id) (i_job_id i) (i_attempt_id i) (i_op_id i) (i_target_id i)
        (i_rel_path i) (i_expected_identity i) (i_estimated_bytes i) (i_mutation_type i)
        (i_state i) (i_catalog_generation i) (i_config_generation i) (i_committed_at i) None).
Proof.
  intros Ht Hp Hr. unfold intent_of_row, intent_row, RelativePath.as_str; simpl.
  rewrite Ht, Hp, parse_mutation_display, parse_intent_display. simpl.
  destruct i as [? ? ? ? ? ? [? ?] ? ? ? [?] [?] ? ?]; done.
Qed.

Lemma intents_of_rows_app l1 l2 :
  intents_of_rows (l1 ++ l2) =
  try! a := intents_of_rows l1 in try! b := intents_of_rows l2 in Ok (a ++ b).
Proof.
  induction l1 as [|r l1 IH]; simpl; [by destruct (intents_of_rows l2)|].
  destruct (intent_of_row r); simpl; [|done]. rewrite IH.
  destruct (intents_of_rows l1); simpl; [|done]. by destruct (intents_of_rows l2).
Qed.

(** ** Properties *)

(** C23 Whatever sequence of store calls runs, with whatever times and refused
    statements, the tables satisfy the schema: an attempt has at most one intent
    per operation, rowids ascend, and every intent, attempt and operation belongs
    to a registered job; and no later call loses an intent or changes which file
    it names, so what was durable before a crash is there after it. *)
Theorem store_history_safe txt before after :
  let s := exec_all txt before empty_store in
  let s' := exec_all txt (before ++ after) empty_store in
  store_wf s' /\ store_extends s s'.
Proof.
  cbv zeta. unfold exec_all. rewrite fold_left_app.
  apply exec_all_good, exec_all_good, empty_store_wf.
Qed.

(** A committed intent reads back: after [commit_operation_intent] succeeds,
    [get_operation_intents_for_attempt] returns the earlier intents of the
    attempt followed by the new one, every field equal, with its rowid filled
    in; intents of other attempts are unchanged. *)
Theorem intent_round_trip txt i f s id s' before :
  commit_operation_intent txt i f s = (Ok id, s') ->
  TargetId_new (i_target_id i) = Some (i_target_id i) ->
  RelativePath.parse (i_rel_path i) = Some (i_rel_path i) ->
  i_resolved_at i = None ->
  get_operation_intents_for_attempt txt (i_attempt_id i) None s = Ok before ->
  get_operation_intents_for_attempt txt (i_attempt_id i) None s' =
    Ok (before ++ [mkIntent (Some id) (i_job_id i) (i_attempt_id i) (i_op_id i) (i_target_id i)
          (i_rel_path i) (i_expected_identity i) (i_estimated_bytes i) (i_mutation_type i)
          (i_state i) (i_catalog_generation i) (i_config_generation i) (i_committed_at i)
          None]) /\
  (forall a, a <> i_attempt_id i ->
     get_operation_intents_for_attempt txt a None s' =
     get_operation_intents_for_attempt txt a None s).
Proof.
  intros [_ Hc]%run_stmt_ok Ht Hp Hr Hb. pose proof Hc as [Hf _]%bound_ok.
  apply insert_intent_ok in Hc as (_ & _ & -> & ->).
  assert (fits [i_attempt_id i] = true) as Ha
    by (unfold fits in *; simpl in *; rewrite !andb_true_iff in *; tauto).
  unfold get_operation_intents_for_attempt in *. rewrite Ha in *. cbn [negb] in *.
  split; [|intros a Hne; destruct (fits [a]); [|done]; cbn [negb]];
    cbn [operation_intents set_intents]; rewrite filter_app.
  - rewrite filter_cons_True, filter_nil, intents_of_rows_app, Hb by done.
    simpl. by rewrite intent_of_row_row.
  - rewrite filter_cons_False, filter_nil, app_nil_r; [done|]. simpl. congruence.
Qed.

Definition example_intent : OperationIntent :=
  OperationIntent_new 1 1 1 "app_cache" "a.tmp" (mkFileIdentity 7 42) 100 MutDeleteFile
    CatalogGeneration_INITIAL ConfigGeneration_INITIAL 1000.

Definition example_store : Store :=
  exec_all (fun _ => "sql")
    [(CmdRegisterJob 1 "CLEAN" CatalogGeneration_INITIAL ConfigGeneration_INITIAL, 1000, None);
     (CmdCreateAttempt 1 1 1 300, 1000, None)] empty_store.

Lemma intent_round_trip_witness :
  get_operation_intents_for_attempt (fun _ => "sql") 1 None
    (snd (commit_operation_intent (fun _ => "sql") example_intent None example_store)) =
  Ok ([] ++ [mkIntent (Some 1) 1 1 1 "app_cache" "a.tmp" (mkFileIdentity 7 42) 100 MutDeleteFile
        Committed CatalogGeneration_INITIAL ConfigGeneration_INITIAL 1000 None]).
Proof.
  apply (intent_round_trip (fun _ => "sql") example_intent None example_store 1 _ []);
    vm_compute; reflexivity.
Defined.

(** A lease is exclusive while it lives: a worker obtains it exactly when no
    other worker holds an unexpired one; once obtained, every other worker is
    refused, without any change of the table, until it expires, and from then
    on any worker can take it over. *)
Theorem lease_exclusive txt r w ttl now g f s b s' :
  acquire_lease txt r w ttl now g f s = (Ok b, s') ->
  (b = true <-> ~ held_by_other s r w now) /\
  (b = false -> s' = s) /\
  (b = true -> forall w' ttl' now', w' <> w -> fits [w'; now'; wrap_add now' ttl'] = true ->
     if now' <? wrap_add now ttl
     then acquire_lease txt r w' ttl' now' g None s' = (Ok false, s')
     else fst (acquire_lease txt r w' ttl' now' g None s') = Ok true).
Proof.
  intros E%run_stages_ok. apply lease_transaction_ok in E.
  destruct b; [destruct E as (Hn & token & ->)|destruct E as [Hh ->]].
  2: { split; [|done]. split; [done|]. intros Hn. by destruct (Hn Hh). }
  split; [done|]. split; [done|]. intros _ w' ttl' now' Hw Hfits.
  unfold acquire_lease, run_stages, run_stmt, lease_transaction, lease_taken, purge_expired. simpl leases.
  rewrite lookup_insert_eq. simpl lease_expires_at.
  assert (fits [now'] = true) as Hf1
    by (unfold fits in *; simpl in *; rewrite !andb_true_iff in *; tauto).
  unfold bound at 1. rewrite Hf1. destruct (now' <? wrap_add now ttl) eqn:El.
  - apply N.ltb_lt in El. rewrite (proj2 (N.leb_gt _ _)) by done.
    rewrite lookup_insert_eq. simpl. rewrite (proj2 (N.eqb_neq _ _)) by done.
    by rewrite (proj2 (N.ltb_lt _ _)).
  - apply N.ltb_ge in El. rewrite (proj2 (N.leb_le _ _)) by done.
    rewrite lookup_delete_eq. cbv beta iota. unfold bound. by rewrite Hfits, Hf1.
Qed.

Lemma lease_exclusive_witness :
  acquire_lease (fun _ => "sql") "job:1" 2 60 1010 Begin None
    (snd (acquire_lease (fun _ => "sql") "job:1" 1 60 1000 Begin None empty_store)) =
  (Ok false, snd (acquire_lease (fun _ => "sql") "job:1" 1 60 1000 Begin None empty_store)).
Proof.
  assert (acquire_lease (fun _ => "sql") "job:1" 1 60 1000 Begin None empty_store =
          (Ok true, snd (acquire_lease (fun _ => "sql") "job:1" 1 60 1000 Begin None empty_store)))
    as H by (vm_compute; reflexivity).
  pose proof (proj2 (proj2 (lease_exclusive (fun _ => "sql") "job:1" 1 60 1000 Begin None empty_store
           true _ H)) eq_refl 2 60 1010 ltac:(lia) ltac:(vm_compute; reflexivity)) as H1.
  exact H1.
Defined.

(** A target identifier with a line feed passes [TargetId::try_new], which the
    catalog uses, but not [TargetId::new], which reading intents back uses: once
    such an intent is committed, every later read of the attempt's intents
    panics, recovery's included. *)
Theorem unreadable_intent_panics txt i f s id s' before :
  commit_operation_intent txt i f s = (Ok id, s') ->
  TargetId_try_new (i_target_id i) = Ok (i_target_id i) ->
  str_contains_char LF (i_target_id i) = true ->
  get_operation_intents_for_attempt txt (i_attempt_id i) None s = Ok before ->
  get_operation_intents_for_attempt txt (i_attempt_id i) None s' =
    Err (Panic "TargetId must be non-empty, <=512, no NUL/newline").
Proof.
  intros [_ Hc]%run_stmt_ok _ Hlf Hb. pose proof Hc as [Hf _]%bound_ok.
  apply insert_intent_ok in Hc as (_ & _ & -> & ->).
  assert (fits [i_attempt_id i] = true) as Ha
    by (unfold fits in *; simpl in *; rewrite !andb_true_iff in *; tauto).
  unfold get_operation_intents_for_attempt in *. rewrite Ha in *. cbn [negb] in *.
  cbn [operation_intents set_intents]. rewrite filter_app.
  rewrite filter_cons_True, filter_nil, intents_of_rows_app, Hb by done.
  simpl. unfold intent_of_row, intent_row, TargetId_new. simpl.
  by rewrite Hlf, orb_true_r.
Qed.

Definition newline_intent : OperationIntent :=
  OperationIntent_new 1 1 1 ("android:u0:a" +:+ String LF "b:ext_cache") "a.tmp"
    (mkFileIdentity 7 42) 100 MutDeleteFile CatalogGeneration_INITIAL ConfigGeneration_INITIAL
    1000.

Lemma unreadable_intent_panics_witness :
  get_operation_intents_for_attempt (fun _ => "sql") 1 None
    (snd (commit_operation_intent (fun _ => "sql") newline_intent None example_store)) =
  Err (Panic "TargetId must be non-empty, <=512, no NUL/newline").
Proof.
  apply (unreadable_intent_panics (fun _ => "sql") newline_intent None example_store 1 _ []);
    vm_compute; reflexivity.
Defined.
