(* ===== verification/StoreOpen.v ===== *)
(** Opening and migrating the database, src/store/mod.rs over src/store/schema.rs.

    A database is what SQLite keeps of it: for each table its columns, its unique keys
    and its rows, and the indexes.  Opening is the list of the statements it executes,
    each committed on its own; SQLite may refuse any of them, and the process may stop
    after any of them.  SQLite compares names without case; a database here has them in
    lower case.

    The theorem: whatever SQLite refuses and wherever the process stops, opening never
    loses a row, the next opening continues where this one stopped and ends in the same
    database, and it ends with every column exactly for a database of an earlier version
    without two intents of one attempt and number. *)
From Stdlib Require Import Ascii String.
From S2P Require Import Prelude Paths Domain.

(** ** Databases *)

Inductive SqlValue := Null | Int (z : Z) | Txt (s : string).

#[export] Instance SqlValue_eq_dec : EqDecision SqlValue.
Proof. solve_decision. Defined.

Abbreviation Row := (gmap string SqlValue).

Record Table := mkTable {
  t_columns : list string;
  t_unique : list (list string);
  t_rows : list Row;
}.

Record Index := mkIndex { ix_table : string; ix_columns : list string; ix_unique : bool }.

Record Database := mkDatabase {
  db_tables : gmap string Table;
  db_indexes : gmap string Index;
}.

Definition Database_empty : Database := mkDatabase ∅ ∅.

Definition has_column (columns : list string) (c : string) : bool :=
  existsb (fun c' => eq_ignore_ascii_case c' c) columns.

Definition table_has (db : Database) (table : string) (columns : list string) : bool :=
  match db_tables db !! table with
  | Some t => forallb (has_column (t_columns t)) columns
  | None => false
  end.

(** A key of a row; SQLite lets NULLs repeat in a unique index. *)
Definition row_key (columns : list string) (r : Row) : option (list SqlValue) :=
  let key := map (fun c => default Null (r !! c)) columns in
  if existsb (fun v => bool_decide (v = Null)) key then None else Some key.

Definition keys_unique (columns : list string) (rows : list Row) : bool :=
  bool_decide (NoDup (omap (row_key columns) rows)).

(** ** Statements *)

Inductive Stmt :=
| CreateTable (name : string) (columns : list string) (unique : list (list string))
| CreateIndex (name table : string) (columns : list string) (unique : bool)
| EnsureColumn (table column : string) (value : SqlValue)
| RecordMigration (version now : N).

Definition set_table (name : string) (t : Table) (db : Database) : Database :=
  mkDatabase (<[name := t]> (db_tables db)) (db_indexes db).

(** [PRAGMA table_info] of a missing table has no rows; [refused] is of the
    [ALTER TABLE]. *)
Definition ensure_column_exists (refused : option string) (table column : string)
    (value : SqlValue) (db : Database) : result string Database :=
  let columns := match db_tables db !! table with Some t => t_columns t | None => [] end in
  let failed m := Err ("Failed to add column " +:+ column +:+ " to " +:+ table +:+ ": " +:+ m) in
  if has_column columns column then Ok db
  else match refused, db_tables db !! table with
       | Some m, _ => failed m
       | None, None => failed ("no such table: " +:+ table)
       | None, Some t =>
           Ok (set_table table
             (mkTable (t_columns t ++ [column]) (t_unique t)
                      (map (fun r : Row => r ∪ {[column := value]}) (t_rows t))) db)
       end.

Definition version_recorded (version : N) (t : Table) : bool :=
  existsb (fun r : Row => bool_decide (r !! "version"%string = Some (Int (Z.of_N version)))) (t_rows t).

Definition record_migration (version now : N) (db : Database) : result string Database :=
  match db_tables db !! "schema_migrations"%string with
  | None => Err "no such table: schema_migrations"
  | Some t =>
      if forallb (has_column (t_columns t)) ["version"; "applied_at"]%string then
        if version_recorded version t then Ok db
        else Ok (set_table "schema_migrations"
               (mkTable (t_columns t) (t_unique t)
                  (t_rows t ++ [{["version"%string := Int (Z.of_N version);
                                  "applied_at"%string := Int (Z.of_N now)]}])) db)
      else Err "table schema_migrations has no such column"
  end.

Definition exec_stmt (s : Stmt) (db : Database) : result string Database :=
  match s with
  | CreateTable name columns unique =>
      match db_tables db !! name with
      | Some _ => Ok db
      | None => Ok (set_table name (mkTable columns unique []) db)
      end
  | CreateIndex name table columns unique =>
      match db_indexes db !! name with
      | Some _ => Ok db
      | None =>
          match db_tables db !! table with
          | None => Err ("no such table: " +:+ table)
          | Some t =>
              if forallb (has_column (t_columns t)) columns then
                if unique && negb (keys_unique columns (t_rows t))
                then Err "UNIQUE constraint failed"
                else Ok (mkDatabase (db_tables db)
                           (<[name := mkIndex table columns unique]> (db_indexes db)))
              else Err ("table " +:+ table +:+ " has no such column")
          end
      end
  | EnsureColumn table column value => ensure_column_exists None table column value db
  | RecordMigration version now => record_migration version now db
  end.

(** ** The schema *)

Definition SCHEMA_VERSION : N := 3.

Section schema.
#[local] Open Scope string_scope.

Definition TABLES : list (string * (list string * list (list string))) := [
  ("schema_migrations", (["version"; "applied_at"], [["version"]]));
  ("jobs", (["job_id"; "job_type"; "state"; "catalog_generation"; "config_generation";
             "total_estimated_bytes"; "total_reclaimed_bytes"; "created_at"; "updated_at"],
            [["job_id"]]));
  ("attempts", (["attempt_id"; "job_id"; "worker_id"; "state"; "lease_expires_at"; "started_at";
                 "finished_at"], [["attempt_id"]]));
  ("operation_intents", (["intent_id"; "job_id"; "attempt_id"; "op_id"; "target_id"; "rel_path";
                          "expected_dev"; "expected_ino"; "estimated_bytes"; "mutation_type";
                          "state"; "catalog_generation"; "config_generation"; "committed_at";
                          "resolved_at"], [["intent_id"]; ["attempt_id"; "op_id"]]));
  ("operations", (["job_id"; "op_id"; "plan_id"; "target_id"; "op_type"; "rel_path";
                   "expected_dev"; "expected_ino"; "estimated_bytes"; "status";
                   "reclaimed_bytes"; "error_message"; "executed_at"], [["job_id"; "op_id"]]));
  ("leases", (["resource_id"; "worker_id"; "lease_token"; "acquired_at"; "expires_at"],
              [["resource_id"]]));
  ("idempotency_keys", (["idempotency_key"; "job_id"; "response_payload"; "created_at";
                         "expires_at"], [["idempotency_key"]]));
  ("outbox", (["event_id"; "event_type"; "payload"; "status"; "created_at"], [["event_id"]]))].

Definition INDEXES : list Stmt := [
  CreateIndex "idx_attempts_job_id" "attempts" ["job_id"] false;
  CreateIndex "idx_operation_intents_job_attempt" "operation_intents" ["job_id"; "attempt_id"] false;
  CreateIndex "idx_operation_intents_attempt_op" "operation_intents" ["attempt_id"; "op_id"] true;
  CreateIndex "idx_operations_job_id" "operations" ["job_id"] false;
  CreateIndex "idx_leases_expires_at" "leases" ["expires_at"] false].

Definition CREATE_TABLES_SQL : list Stmt :=
  map (fun '(name, (columns, unique)) => CreateTable name columns unique) TABLES ++ INDEXES.

(** The columns [apply_migrations] adds. *)
Definition MIGRATED : list (string * string * SqlValue) := [
  ("operation_intents", "state", Txt "COMMITTED");
  ("operation_intents", "resolved_at", Null);
  ("jobs", "total_estimated_bytes", Int 0);
  ("jobs", "total_reclaimed_bytes", Int 0)].
End schema.

(** ** Opening *)

(** Which SQL fails, and with what text: the [n]-th statement, or the [ALTER TABLE] of
    the [n]-th. *)
Record Refusals := mkRefusals {
  rf_stmt : nat -> option string;
  rf_alter : nat -> option string;
}.

Definition no_refusals : Refusals := mkRefusals (fun _ => None) (fun _ => None).

Definition try_stmt (rf : Refusals) (n : nat) (s : Stmt) (db : Database) : result string Database :=
  match rf_stmt rf n with
  | Some m => Err m
  | None =>
      match s with
      | EnsureColumn table column value => ensure_column_exists (rf_alter rf n) table column value db
      | _ => exec_stmt s db
      end
  end.

(** [execute_batch], or a sequence of [?]: the statements up to the first that
    fails. *)
Fixpoint run (rf : Refusals) (n : nat) (l : list Stmt) (db : Database)
    : result string unit * Database :=
  match l with
  | [] => (Ok tt, db)
  | s :: l' =>
      match try_stmt rf n s db with
      | Err m => (Err m, db)
      | Ok db' => run rf (S n) l' db'
      end
  end.

Definition MIGRATIONS : list Stmt := map (fun '(t, c, v) => EnsureColumn t c v) MIGRATED.
Definition ATTEMPT_OP_INDEX : Stmt :=
  CreateIndex "idx_operation_intents_attempt_op" "operation_intents" ["attempt_id"; "op_id"]%string true.

(** The result of the index is dropped. *)
Definition apply_migrations (rf : Refusals) (db : Database) : result string unit * Database :=
  let '(r, db) := run rf 13 MIGRATIONS db in
  match r with
  | Err m => (Err m, db)
  | Ok _ => (Ok tt, snd (run rf 17 [ATTEMPT_OP_INDEX] db))
  end.

Definition init_schema (rf : Refusals) (now : N) (db : Database) : result string unit * Database :=
  let '(r, db) := run rf 0 CREATE_TABLES_SQL db in
  match r with
  | Err m => (Err ("Failed to initialize SQLite schema: " +:+ m), db)
  | Ok _ =>
      let '(r, db) := apply_migrations rf db in
      match r with
      | Err m => (Err m, db)
      | Ok _ =>
          let '(r, db) := run rf 18 [RecordMigration SCHEMA_VERSION now] db in
          match r with
          | Err m => (Err ("Failed to record schema migration: " +:+ m), db)
          | Ok _ => (Ok tt, db)
          end
      end
  end.

(** The settings of a connection. *)
Record Connection := mkConnection {
  cn_busy_timeout : N;
  cn_journal_wal : bool;
  cn_synchronous_full : bool;
  cn_foreign_keys : bool;
}.

Definition configure_pragmas (refused : option string) : result string Connection :=
  match refused with
  | Some m => Err ("Failed to set SQLite pragmas: " +:+ m)
  | None => Ok (mkConnection 5000 true true true)
  end.

Record SqliteStore := mkSqliteStore { db_path : string; db_conn : Connection }.

(** The database files, by path. *)
Abbreviation Databases := (gmap string Database).

(** [opened] and [pragmas] are the refusals of the open and of the pragmas. *)
Definition open_or_create (opened pragmas : option string) (rf : Refusals) (now : N)
    (path : string) (disk : Databases) : result CleanerError SqliteStore * Databases :=
  match opened with
  | Some e => (Err (Storage ("Failed to open SQLite store at " +:+ path +:+ ": " +:+ e)), disk)
  | None =>
      match configure_pragmas pragmas with
      | Err m => (Err (Storage m), disk)
      | Ok conn =>
          let '(r, db) := init_schema rf now (default Database_empty (disk !! path)) in
          (match r with Err m => Err (Storage m) | Ok _ => Ok (mkSqliteStore path conn) end,
           <[path := db]> disk)
      end
  end.

Definition in_memory (opened pragmas : option string) (rf : Refusals) (now : N)
    : result CleanerError (SqliteStore * Database) :=
  match opened with
  | Some e => Err (Storage ("Failed to open in-memory SQLite store: " +:+ e))
  | None =>
      match configure_pragmas pragmas with
      | Err m => Err (Storage m)
      | Ok conn =>
          match init_schema rf now Database_empty with
          | (Err m, _) => Err (Storage m)
          | (Ok _, db) => Ok (mkSqliteStore ":memory:" conn, db)
          end
      end
  end.

(** [store_dir] is whether the directory of the primary path exists. *)
Definition default_store_path (store_dir : bool) (temp_dir : string) : string :=
  if store_dir then "/data/adb/cleaner/store/cleaner.db"
  else path_join (path_join temp_dir "cleaner_store") "cleaner.db".

Definition default_store (store_dir : bool) (temp_dir : string) (opened pragmas : option string)
    (rf : Refusals) (now : N) (disk : Databases) : result CleanerError SqliteStore * Databases :=
  open_or_create opened pragmas rf now (default_store_path store_dir temp_dir) disk.

(** ** Lemmas *)

(** All statements of an opening, none refused. *)
Fixpoint execs (l : list Stmt) (db : Database) : result string Database :=
  match l with
  | [] => Ok db
  | s :: l' => try! db' := exec_stmt s db in execs l' db'
  end.

Definition ALL_BUT_LAST : list Stmt := CREATE_TABLES_SQL ++ MIGRATIONS ++ [ATTEMPT_OP_INDEX].

Lemma execs_app l1 l2 db : execs (l1 ++ l2) db = result_bind (execs l1 db) (execs l2).
Proof. revert db. induction l1 as [|s l1 IH]; intros db; simpl; [done|]. destruct (exec_stmt s db); simpl; [apply IH|done]. Qed.

Lemma has_column_app l l' c : has_column l c = true -> has_column (l ++ l') c = true.
Proof. unfold has_column. rewrite existsb_app. by intros ->. Qed.
#[local] Hint Resolve has_column_app : core.

Lemma eq_ignore_ascii_case_refl a : eq_ignore_ascii_case a a = true.
Proof. induction a as [|c a IH]; simpl; [done|]. by rewrite Ascii.eqb_refl. Qed.

(** How a statement changes a table: columns are appended, rows only gain columns, and
    only [schema_migrations] gains a row. *)
Definition table_grows (name : string) (t t' : Table) : Prop :=
  (exists cs, t_columns t' = t_columns t ++ cs) /\
  exists rows extra, t_rows t' = rows ++ extra /\ Forall2 (fun r r' : Row => r ⊆ r') (t_rows t) rows /\
    (extra <> [] -> name = "schema_migrations"%string).

Definition grows (db db' : Database) : Prop :=
  (forall name t, db_tables db !! name = Some t ->
     exists t', db_tables db' !! name = Some t' /\ table_grows name t t') /\
  db_indexes db ⊆ db_indexes db'.

Lemma table_grows_refl name t : table_grows name t t.
Proof.
  split; [exists []; by rewrite app_nil_r|]. exists (t_rows t), []. rewrite app_nil_r.
  split; [done|]. split; [|done]. apply Forall2_same_length_lookup_2; [done|]. intros i x y Hx Hy. by simplify_eq.
Qed.

Lemma grows_refl db : grows db db.
Proof. split; [|done]. intros name t Ht. exists t. eauto using table_grows_refl. Qed.

Lemma rows_trans (l1 l2 l3 : list Row) :
  Forall2 (fun r r' => r ⊆ r') l1 l2 -> Forall2 (fun r r' => r ⊆ r') l2 l3 -> Forall2 (fun r r' => r ⊆ r') l1 l3.
Proof.
  intros H12. revert l3. induction H12 as [|x y l1 l2 Hxy _ IH]; intros l3 H23; inv H23; constructor; eauto.
  by etrans.
Qed.

Lemma table_grows_trans name t1 t2 t3 :
  table_grows name t1 t2 -> table_grows name t2 t3 -> table_grows name t1 t3.
Proof.
  intros [[c1 Hc1] (r1 & e1 & Hr1 & Hf1 & He1)] [[c2 Hc2] (r2 & e2 & Hr2 & Hf2 & He2)].
  split; [exists (c1 ++ c2); by rewrite Hc2, Hc1, app_assoc|].
  rewrite Hr1 in Hf2. apply Forall2_app_inv_l in Hf2 as (k1 & k2 & Hk1 & Hk2 & ->).
  exists k1, (k2 ++ e2). split; [by rewrite Hr2, app_assoc|]. split.
  - by eapply rows_trans.
  - intros Hne. destruct (decide (e2 = [])) as [->|H2]; [|by apply He2].
    apply He1. intros ->. apply Forall2_nil_inv_l in Hk2 as ->. done.
Qed.

Lemma grows_trans db1 db2 db3 : grows db1 db2 -> grows db2 db3 -> grows db1 db3.
Proof.
  intros [H1 I1] [H2 I2]. split; [|by etrans]. intros name t Ht.
  destruct (H1 _ _ Ht) as (t2 & Ht2 & G1). destruct (H2 _ _ Ht2) as (t3 & Ht3 & G2).
  exists t3. eauto using table_grows_trans.
Qed.

Lemma set_table_grows name t db :
  (forall t0, db_tables db !! name = Some t0 -> table_grows name t0 t) -> grows db (set_table name t db).
Proof.
  intros Ht. split; [|done]. intros n t0 H0. cbn. destruct (decide (n = name)) as [->|Hn].
  - exists t. rewrite lookup_insert_eq. eauto.
  - exists t0. rewrite lookup_insert_ne by done. eauto using table_grows_refl.
Qed.

Lemma exec_grows s db db' : exec_stmt s db = Ok db' -> grows db db'.
Proof.
  destruct s as [name cols uniq|name table cols uniq|table col v|ver now]; simpl.
  - destruct (db_tables db !! name) eqn:E; intros [= <-]; [apply grows_refl|].
    apply set_table_grows. intros t0 H0. congruence.
  - destruct (db_indexes db !! name) eqn:E; [intros [= <-]; apply grows_refl|].
    destruct (db_tables db !! table); [|done]. destruct (forallb _ _); [|done].
    destruct (_ && _); [done|]. intros [= <-]. split; [|by apply insert_subseteq].
    intros n t0 H0. exists t0. eauto using table_grows_refl.
  - unfold ensure_column_exists. destruct (db_tables db !! table) as [t|] eqn:E; [|done].
    destruct (has_column _ _); intros [= <-]; [apply grows_refl|].
    apply set_table_grows. intros t0 H0. assert (t0 = t) as -> by congruence. split; [by eexists|].
    exists (map (fun r : Row => r ∪ {[col := v]}) (t_rows t)), []. cbn. rewrite app_nil_r.
    split; [done|]. split; [|done]. apply Forall2_fmap_r, Forall_Forall2_diag, Forall_true.
    intros r. apply map_union_subseteq_l.
  - unfold record_migration. destruct (db_tables db !! _) as [t|] eqn:E; [|done].
    destruct (forallb _ _); [|done]. destruct (version_recorded _ _); intros [= <-]; [apply grows_refl|].
    apply set_table_grows. intros t0 H0. assert (t0 = t) as -> by congruence.
    split; [exists []; by rewrite app_nil_r|].
    eexists _, _. cbn. split; [done|]. split; [|done]. by apply Forall_Forall2_diag, Forall_true.
Qed.

Lemma execs_grows l db db' : execs l db = Ok db' -> grows db db'.
Proof.
  revert db. induction l as [|s l IH]; simpl; intros db; [intros [= <-]; apply grows_refl|].
  destruct (exec_stmt s db) as [d|] eqn:E; [|done]. simpl. intros Hl.
  eapply grows_trans; [by eapply exec_grows|by apply IH].
Qed.

(** What the effect of a statement is, of which growth takes nothing away. *)
Definition settled (s : Stmt) (db : Database) : Prop :=
  match s with
  | CreateTable name _ _ => is_Some (db_tables db !! name)
  | CreateIndex name _ _ _ => is_Some (db_indexes db !! name)
  | EnsureColumn table column _ => table_has db table [column] = true
  | RecordMigration version _ =>
      table_has db "schema_migrations" ["version"; "applied_at"] = true /\
      exists t, db_tables db !! "schema_migrations"%string = Some t /\ version_recorded version t = true
  end.

Lemma table_has_grows db db' table cols :
  grows db db' -> table_has db table cols = true -> table_has db' table cols = true.
Proof.
  intros [Hg _]. unfold table_has. destruct (db_tables db !! table) as [t|] eqn:E; [|done].
  destruct (Hg _ _ E) as (t' & -> & [[cs Hcs] _]). rewrite !forallb_forall, Hcs. eauto.
Qed.

Lemma version_recorded_grows name v t t' :
  table_grows name t t' -> version_recorded v t = true -> version_recorded v t' = true.
Proof.
  intros [_ (rows & extra & Hr & Hf & _)]. unfold version_recorded. rewrite Hr, existsb_app.
  rewrite !existsb_exists. intros (r & Hin & Hb). apply bool_decide_eq_true in Hb.
  rewrite orb_true_iff, !existsb_exists. left. apply list_elem_of_In in Hin.
  destruct (list_elem_of_lookup_1 _ _ Hin) as [i Hi].
  destruct (Forall2_lookup_l _ _ _ _ _ Hf Hi) as (r' & Hi' & Hsub). exists r'.
  split; [by eapply list_elem_of_In, list_elem_of_lookup_2|].
  apply bool_decide_eq_true. by eapply lookup_weaken.
Qed.

Lemma settled_grows s db db' : grows db db' -> settled s db -> settled s db'.
Proof.
  intros Hg. destruct s as [name cols uniq|name table cols uniq|table col v|ver now]; simpl.
  - intros [t Ht]. destruct (proj1 Hg _ _ Ht) as (t' & -> & _). by eexists.
  - intros [i Hi]. exists i. eapply lookup_weaken; [exact Hi|apply Hg].
  - by apply table_has_grows.
  - intros [Hh (t & Ht & Hv)]. split; [by eapply table_has_grows|].
    destruct (proj1 Hg _ _ Ht) as (t' & Ht' & Hg'). eauto using version_recorded_grows.
Qed.

Lemma settled_exec s db : settled s db -> exec_stmt s db = Ok db.
Proof.
  destruct s as [name cols uniq|name table cols uniq|table col v|ver now]; simpl.
  - by intros [t ->].
  - by intros [i ->].
  - unfold table_has, ensure_column_exists. destruct (db_tables db !! table); [|done].
    simpl. rewrite andb_true_r. by intros ->.
  - intros [Hh (t & Ht & Hv)]. unfold table_has in Hh. unfold record_migration. rewrite Ht in *.
    by rewrite Hh, Hv.
Qed.

Lemma exec_settles s db db' : exec_stmt s db = Ok db' -> settled s db'.
Proof.
  destruct s as [name cols uniq|name table cols uniq|table col v|ver now]; simpl.
  - destruct (db_tables db !! name) eqn:E; intros [= <-]; [by rewrite E|].
    cbn. by rewrite lookup_insert_eq.
  - destruct (db_indexes db !! name) eqn:E; [intros [= <-]; by rewrite E|].
    destruct (db_tables db !! table); [|done]. destruct (forallb _ _); [|done].
    destruct (_ && _); [done|]. intros [= <-]. cbn. by rewrite lookup_insert_eq.
  - unfold ensure_column_exists, table_has. destruct (db_tables db !! table) as [t|] eqn:E; [|done].
    destruct (has_column _ _) eqn:Eh; intros [= <-]; [by rewrite E; simpl; rewrite Eh|].
    cbn. rewrite lookup_insert_eq. cbn. unfold has_column. rewrite existsb_app. cbn.
    by rewrite eq_ignore_ascii_case_refl, orb_true_r.
  - unfold record_migration, table_has. destruct (db_tables db !! _) as [t|] eqn:E; [|done].
    destruct (forallb _ _) eqn:Ef; [|done]. destruct (version_recorded ver t) eqn:Ev; intros [= <-].
    + rewrite E. split; [done|]. eauto.
    + cbn. rewrite lookup_insert_eq. split; [done|]. eexists. split; [done|].
      unfold version_recorded. cbn. rewrite existsb_app. cbn.
      rewrite lookup_insert_eq, bool_decide_eq_true_2 by done. by rewrite orb_true_r.
Qed.

Lemma execs_settle l db db' : execs l db = Ok db' -> Forall (fun s => settled s db') l.
Proof.
  revert db. induction l as [|s l IH]; simpl; intros db; [by constructor|].
  destruct (exec_stmt s db) as [d|] eqn:E; [|done]. simpl. intros Hl.
  constructor; [|by eapply IH]. eapply settled_grows; [by eapply execs_grows|]. by eapply exec_settles.
Qed.

Lemma settled_execs l db : Forall (fun s => settled s db) l -> execs l db = Ok db.
Proof. induction 1 as [|s l Hs _ IH]; simpl; [done|]. by rewrite settled_exec. Qed.

Lemma try_exec rf n s db db' : try_stmt rf n s db = Ok db' -> exec_stmt s db = Ok db'.
Proof.
  unfold try_stmt. destruct (rf_stmt rf n); [done|]. destruct s; try done. simpl.
  unfold ensure_column_exists. destruct (has_column _ _); [done|]. by destruct (rf_alter rf n).
Qed.

(** Some of the statements are done. *)
Lemma run_prefix rf n l db r db' :
  run rf n l db = (r, db') ->
  exists l1 l2, l = l1 ++ l2 /\ execs l1 db = Ok db' /\ (r = Ok tt -> l2 = []).
Proof.
  revert n db. induction l as [|s l IH]; simpl; intros n db.
  - intros [= <- <-]. by exists [], [].
  - destruct (try_stmt rf n s db) as [d|] eqn:E.
    + intros (l1 & l2 & -> & He & Hr)%IH. exists (s :: l1), l2. simpl. by rewrite (try_exec _ _ _ _ _ E).
    + intros [= <- <-]. by exists [], (s :: l).
Qed.

Lemma run_all n l db db' : execs l db = Ok db' -> run no_refusals n l db = (Ok tt, db').
Proof.
  revert n db. induction l as [|s l IH]; simpl; intros n db; [by intros [= <-]|].
  assert (try_stmt no_refusals n s db = exec_stmt s db) as -> by (by destruct s).
  destruct (exec_stmt s db); [|done]. apply IH.
Qed.

Lemma init_prefix rf now db r db' :
  init_schema rf now db = (r, db') ->
  (r = Ok tt /\ execs (ALL_BUT_LAST ++ [RecordMigration SCHEMA_VERSION now]) db = Ok db') \/
  (r <> Ok tt /\ exists l1 l2, ALL_BUT_LAST = l1 ++ l2 /\ execs l1 db = Ok db').
Proof.
  unfold init_schema, ALL_BUT_LAST. destruct (run rf 0 CREATE_TABLES_SQL db) as [r1 d1] eqn:E1.
  destruct (run_prefix _ _ _ _ _ _ E1) as (a1 & a2 & Ha & He1 & Hr1).
  destruct r1 as [[]|m]; [|intros [= <- <-]; right; split; [done|];
    exists a1, (a2 ++ MIGRATIONS ++ [ATTEMPT_OP_INDEX]); by rewrite Ha, <- app_assoc].
  rewrite Hr1, app_nil_r in Ha by done. subst a1.
  unfold apply_migrations. destruct (run rf 13 MIGRATIONS d1) as [r2 d2] eqn:E2.
  destruct (run_prefix _ _ _ _ _ _ E2) as (b1 & b2 & Hb & He2 & Hr2).
  destruct r2 as [[]|m]; [|intros [= <- <-]; right; split; [done|];
    exists (CREATE_TABLES_SQL ++ b1), (b2 ++ [ATTEMPT_OP_INDEX]);
    rewrite execs_app, He1, Hb, <- !app_assoc; done].
  rewrite Hr2, app_nil_r in Hb by done. subst b1.
  assert (exec_stmt ATTEMPT_OP_INDEX d2 = Ok d2) as Hix.
  { apply settled_exec. eapply settled_grows; [by eapply execs_grows|].
    apply execs_settle in He1. rewrite Forall_forall in He1. apply He1. unfold CREATE_TABLES_SQL.
    apply elem_of_app. right. apply list_elem_of_In. simpl. tauto. }
  assert (snd (run rf 17 [ATTEMPT_OP_INDEX] d2) = d2) as ->.
  { simpl run. destruct (try_stmt rf 17 ATTEMPT_OP_INDEX d2) eqn:Et; [|done].
    apply try_exec in Et. cbn [snd]. congruence. }
  assert (execs (CREATE_TABLES_SQL ++ MIGRATIONS ++ [ATTEMPT_OP_INDEX]) db = Ok d2) as Hall.
  { rewrite execs_app, He1. cbn [result_bind]. rewrite execs_app, He2. cbn [result_bind execs].
    by rewrite Hix. }
  destruct (run rf 18 _ d2) as [r3 d3] eqn:E3.
  destruct (run_prefix _ _ _ _ _ _ E3) as (c1 & c2 & Hc & He3 & Hr3).
  destruct r3 as [[]|m]; intros [= <- <-].
  - left. split; [done|]. rewrite Hr3, app_nil_r in Hc by done. subst c1.
    by rewrite execs_app, Hall.
  - right. split; [done|]. exists (CREATE_TABLES_SQL ++ MIGRATIONS ++ [ATTEMPT_OP_INDEX]), [].
    rewrite app_nil_r. split; [done|]. simpl in E3.
    destruct (try_stmt _ _ _ _); [done|]. congruence.
Qed.

(** Without refusals, opening is the list of its statements. *)
Lemma init_unrefused now db db' :
  execs (ALL_BUT_LAST ++ [RecordMigration SCHEMA_VERSION now]) db = Ok db' <->
  init_schema no_refusals now db = (Ok tt, db').
Proof.
  split.
  - unfold ALL_BUT_LAST. rewrite <- !app_assoc, execs_app.
    destruct (execs CREATE_TABLES_SQL db) as [d1|] eqn:E1; [|done]. cbn [result_bind].
    rewrite execs_app. destruct (execs MIGRATIONS d1) as [d2|] eqn:E2; [|done]. cbn [result_bind].
    rewrite execs_app. destruct (execs [ATTEMPT_OP_INDEX] d2) as [d3|] eqn:E3; [|done]. cbn [result_bind].
    intros E4. unfold init_schema, apply_migrations.
    rewrite (run_all 0 _ _ _ E1), (run_all 13 _ _ _ E2), (run_all 17 _ _ _ E3).
    cbn [snd]. by rewrite (run_all 18 _ _ _ E4).
  - intros Hi. destruct (init_prefix _ _ _ _ _ Hi) as [[_ He]|[Hr _]]; done.
Qed.

(** Every table has every column of the schema. *)
Definition complete (db : Database) : bool :=
  forallb (fun '(name, (columns, _)) => table_has db name columns) TABLES.

Definition is_migrated (table column : string) : bool :=
  existsb (fun '(t, c, _) => String.eqb t table && String.eqb c column) MIGRATED.

(** A table that is there has the columns no migration adds, and no two intents share
    an attempt and a number: a database that an earlier version of the schema left. *)
Definition base_table (db : Database) (name : string) (columns : list string) : bool :=
  match db_tables db !! name with
  | None => true
  | Some t =>
      forallb (fun c => is_migrated name c || has_column (t_columns t) c) columns &&
      (if String.eqb name "operation_intents"
       then keys_unique ["attempt_id"; "op_id"]%string (t_rows t) else true)
  end.

Definition upgradable (db : Database) : bool :=
  forallb (fun '(name, (columns, _)) => base_table db name columns) TABLES.

Definition columns_of (name : string) : option (list string) :=
  match List.find (fun '(n, _) => String.eqb n name) TABLES with
  | Some (_, (columns, _)) => Some columns
  | None => None
  end.

Lemma columns_of_elem name columns unique :
  (name, (columns, unique)) ∈ TABLES -> columns_of name = Some columns.
Proof.
  intros Hin. unfold TABLES in Hin. rewrite !elem_of_cons, elem_of_nil in Hin.
  repeat destruct Hin as [[= -> -> ->]|Hin]; done.
Qed.

Lemma forall_tables (f : string -> list string -> bool) :
  forallb (fun '(name, (columns, _)) => f name columns) TABLES = true <->
  forall name columns, columns_of name = Some columns -> f name columns = true.
Proof.
  rewrite forallb_forall. split.
  - intros Hall name columns. unfold columns_of. destruct (List.find _ _) as [[n [c u]]|] eqn:Ef; [|done].
    intros [= <-]. apply find_some in Ef as [Hin He]. apply String.eqb_eq in He as ->. apply (Hall _ Hin).
  - intros Hc [n [c u]] Hin. apply Hc. by eapply columns_of_elem, list_elem_of_In.
Qed.

(** What makes a statement fit the schema. *)
Definition fits_schema (s : Stmt) : bool :=
  match s with
  | CreateTable name columns _ => bool_decide (columns_of name = Some columns)
  | CreateIndex _ table columns unique =>
      match columns_of table with
      | Some all =>
          forallb (fun c => bool_decide (c ∈ all) && negb (is_migrated table c)) columns &&
          implb unique (bool_decide (table = "operation_intents"%string) &&
                        bool_decide (columns = ["attempt_id"; "op_id"]%string))
      | None => false
      end
  | EnsureColumn table column _ =>
      bool_decide (is_Some (columns_of table)) &&
      negb (bool_decide (column ∈ ["attempt_id"; "op_id"]%string))
  | RecordMigration _ _ => true
  end.

Lemma all_fit now : forallb fits_schema (ALL_BUT_LAST ++ [RecordMigration SCHEMA_VERSION now]) = true.
Proof. vm_compute. reflexivity. Qed.

Lemma base_column db name columns t c :
  base_table db name columns = true -> db_tables db !! name = Some t -> c ∈ columns ->
  is_migrated name c = false -> has_column (t_columns t) c = true.
Proof.
  unfold base_table. intros Hb Ht Hc Hm. rewrite Ht, andb_true_iff, forallb_forall in Hb.
  destruct Hb as [Hb _]. apply list_elem_of_In in Hc. specialize (Hb c Hc). by rewrite Hm in Hb.
Qed.

Lemma keys_kept (column : string) v rows :
  column ∉ ["attempt_id"; "op_id"]%string ->
  keys_unique ["attempt_id"; "op_id"] (map (fun r : Row => r ∪ {[column := v]}) rows) =
  keys_unique ["attempt_id"; "op_id"] rows.
Proof.
  intros Hc. unfold keys_unique. f_equal.
  assert (omap (row_key ["attempt_id"; "op_id"]%string) (map (fun r : Row => r ∪ {[column := v]}) rows)
          = omap (row_key ["attempt_id"; "op_id"]%string) rows) as ->; [|done].
  induction rows as [|r rows IH]; [done|]. simpl map.
  assert (row_key ["attempt_id"; "op_id"]%string (r ∪ {[column := v]}) = row_key ["attempt_id"; "op_id"]%string r)
    as Hk.
  { unfold row_key. simpl. rewrite !lookup_union, !lookup_singleton_ne by set_solver. by destruct (r !! "attempt_id"%string), (r !! "op_id"%string). }
  change (omap ?f (?x :: ?l)) with (match f x with Some y => y :: omap f l | None => omap f l end).
  by rewrite Hk, IH.
Qed.

(** How a statement changes one table. *)
Inductive table_change (name : string) : Stmt -> option Table -> option Table -> Prop :=
| change_none s t : table_change name s t t
| change_create columns unique :
    table_change name (CreateTable name columns unique) None (Some (mkTable columns unique []))
| change_column column v t :
    table_change name (EnsureColumn name column v) (Some t)
      (Some (mkTable (t_columns t ++ [column]) (t_unique t)
               (map (fun r : Row => r ∪ {[column := v]}) (t_rows t))))
| change_record version now t rows :
    name <> "operation_intents"%string ->
    table_change name (RecordMigration version now) (Some t)
      (Some (mkTable (t_columns t) (t_unique t) rows)).

Lemma set_table_change s db table t name :
  table_change table s (db_tables db !! table) (Some t) ->
  table_change name s (db_tables db !! name) (db_tables (set_table table t db) !! name).
Proof.
  intros Ht. cbn. destruct (decide (table = name)) as [->|Hne].
  - by rewrite lookup_insert_eq.
  - rewrite lookup_insert_ne by done. constructor.
Qed.

Lemma exec_change s db db' name :
  exec_stmt s db = Ok db' -> table_change name s (db_tables db !! name) (db_tables db' !! name).
Proof.
  destruct s as [nm cols uniq|nm table cols uniq|table col v|ver now]; simpl.
  - destruct (db_tables db !! nm) eqn:E; intros [= <-]; [constructor|].
    apply set_table_change. rewrite E. constructor.
  - destruct (db_indexes db !! nm); [intros [= <-]; constructor|].
    destruct (db_tables db !! table); [|done]. destruct (forallb _ _); [|done].
    destruct (_ && _); [done|]. intros [= <-]. constructor.
  - unfold ensure_column_exists. destruct (db_tables db !! table) as [t|] eqn:E; [|done].
    destruct (has_column _ _); intros [= <-]; [constructor|].
    apply set_table_change. rewrite E. constructor.
  - unfold record_migration. destruct (db_tables db !! _) as [t|] eqn:E; [|done].
    destruct (forallb _ _); [|done]. destruct (version_recorded _ _); intros [= <-]; [constructor|].
    apply set_table_change. rewrite E. by constructor.
Qed.

Lemma base_exec s db db' name columns :
  fits_schema s = true -> columns_of name = Some columns -> exec_stmt s db = Ok db' ->
  base_table db name columns = true -> base_table db' name columns = true.
Proof.
  intros Hf Hn He. pose proof (exec_change _ _ _ name He) as Hc. unfold base_table. revert Hf.
  destruct Hc as [s t|cols uniq|col v t|ver now t rows Hnm]; [done| | |]; simpl.
  - rewrite bool_decide_eq_true, Hn. intros [= <-] _. apply andb_true_iff. split.
    + apply forallb_forall. intros c Hc. apply orb_true_iff. right. apply existsb_exists.
      eauto using eq_ignore_ascii_case_refl.
    + destruct (String.eqb _ _); [|done]. by apply bool_decide_eq_true, NoDup_nil.
  - rewrite !andb_true_iff, !forallb_forall, negb_true_iff, bool_decide_eq_false.
    intros [_ Hcol] [Hcols Hk]. split.
    + intros c Hc. specialize (Hcols c Hc). rewrite orb_true_iff in *. destruct Hcols; eauto.
    + destruct (String.eqb _ _); [|done]. by rewrite keys_kept.
  - intros _. destruct (String.eqb_spec name "operation_intents"); done.
Qed.

Lemma upgradable_exec s db db' :
  fits_schema s = true -> exec_stmt s db = Ok db' -> upgradable db = true -> upgradable db' = true.
Proof. unfold upgradable. rewrite !forall_tables. eauto using base_exec. Qed.

(** All tables are there. *)
Definition present (db : Database) : Prop :=
  forall name columns, columns_of name = Some columns -> is_Some (db_tables db !! name).

Lemma exec_progress s db :
  fits_schema s = true -> upgradable db = true -> present db -> exists db', exec_stmt s db = Ok db'.
Proof.
  unfold upgradable. rewrite forall_tables. intros Hf Hu Hp.
  destruct s as [nm cols uniq|nm table cols uniq|table col v|ver now]; simpl in *.
  - destruct (db_tables db !! nm); by eexists.
  - destruct (db_indexes db !! nm); [by eexists|].
    destruct (columns_of table) as [all|] eqn:Ec; [|done]. destruct (Hp _ _ Ec) as [t Ht].
    specialize (Hu _ _ Ec). apply andb_true_iff in Hf as [Hf Hun]. rewrite Ht.
    assert (forallb (has_column (t_columns t)) cols = true) as ->.
    { apply forallb_forall. intros c Hc. rewrite forallb_forall in Hf.
      apply Hf in Hc as [Hc%bool_decide_eq_true Hm%negb_true_iff]%andb_true_iff. by eapply base_column. }
    destruct uniq; [|by eexists]. cbn in Hun |- *.
    apply andb_true_iff in Hun as [->%bool_decide_eq_true ->%bool_decide_eq_true].
    unfold base_table in Hu. rewrite Ht in Hu. apply andb_true_iff in Hu as [_ Hk]. simpl in Hk.
    rewrite Hk. by eexists.
  - apply andb_true_iff in Hf as [[all Ec]%bool_decide_eq_true _]. destruct (Hp _ _ Ec) as [t Ht].
    unfold ensure_column_exists. rewrite Ht. destruct (has_column _ _); by eexists.
  - destruct (Hp "schema_migrations"%string _ eq_refl) as [t Ht]. unfold record_migration. rewrite Ht.
    specialize (Hu "schema_migrations"%string _ eq_refl).
    assert (forallb (has_column (t_columns t)) ["version"; "applied_at"]%string = true) as ->.
    { cbn [forallb]. by rewrite !(base_column _ _ _ _ _ Hu Ht) by (set_solver || reflexivity). }
    destruct (version_recorded _ _); by eexists.
Qed.

Lemma present_grows db db' : grows db db' -> present db -> present db'.
Proof. intros [Hg _] Hp name c Hc. destruct (Hp _ _ Hc) as [t Ht]. destruct (Hg _ _ Ht) as (t' & -> & _). by eexists. Qed.

Lemma execs_progress l db :
  forallb fits_schema l = true -> upgradable db = true -> present db ->
  exists db', execs l db = Ok db' /\ upgradable db' = true.
Proof.
  revert db. induction l as [|s l IH]; simpl; intros db; [eauto|]. intros [Hs Hl]%andb_true_iff Hu Hp.
  destruct (exec_progress s db Hs Hu Hp) as [d Hd]. rewrite Hd. simpl.
  apply IH; [done|by eapply upgradable_exec|by eapply present_grows; [eapply exec_grows|]].
Qed.

Lemma create_tables l db :
  forallb fits_schema (map (fun '(n, (c, u)) => CreateTable n c u) l) = true -> upgradable db = true ->
  exists db', execs (map (fun '(n, (c, u)) => CreateTable n c u) l) db = Ok db' /\ upgradable db' = true.
Proof.
  revert db. induction l as [|[n [c u]] l IH]; intros db Hf Hu; [by exists db|].
  cbn [map forallb] in Hf. apply andb_true_iff in Hf as [Hs Hf]. cbn [map execs].
  assert (exists d, exec_stmt (CreateTable n c u) db = Ok d) as [d Hd]
    by (simpl; destruct (db_tables db !! n); by eexists).
  rewrite Hd. cbn [result_bind]. apply IH; [done|]. by eapply upgradable_exec.
Qed.

Lemma upgrade_succeeds now db :
  upgradable db = true ->
  exists db', init_schema no_refusals now db = (Ok tt, db') /\ upgradable db' = true.
Proof.
  intros Hu. pose proof (all_fit now) as Hfit. unfold ALL_BUT_LAST, CREATE_TABLES_SQL in Hfit.
  rewrite <- !app_assoc, forallb_app, andb_true_iff in Hfit. destruct Hfit as [Hf1 Hf2].
  destruct (create_tables TABLES db Hf1 Hu) as (d & Hd & Hud).
  destruct (execs_progress _ d Hf2 Hud) as (d' & Hd' & Hud').
  { intros name columns Hc. unfold columns_of in Hc.
    destruct (List.find _ _) as [[n [c u]]|] eqn:Ef; [|done]. apply find_some in Ef as [Hin He].
    apply String.eqb_eq in He as ->. apply execs_settle in Hd. rewrite List.Forall_forall in Hd.
    apply (Hd (CreateTable name c u)). apply in_map_iff. by exists (name, (c, u)). }
  exists d'. split; [|done]. apply init_unrefused. unfold ALL_BUT_LAST, CREATE_TABLES_SQL.
  rewrite <- !app_assoc, execs_app, Hd. exact Hd'.
Qed.

Lemma settled_complete now db :
  upgradable db = true ->
  Forall (fun s => settled s db) (ALL_BUT_LAST ++ [RecordMigration SCHEMA_VERSION now]) -> complete db = true.
Proof.
  unfold upgradable, complete. rewrite !forall_tables. intros Hu Hs name columns Hc.
  unfold ALL_BUT_LAST in Hs. rewrite !Forall_app in Hs. destruct Hs as [(Hct & Hm & _) _].
  unfold CREATE_TABLES_SQL in Hct. apply Forall_app in Hct as [Hct _].
  assert (is_Some (db_tables db !! name)) as [t Ht].
  { unfold columns_of in Hc. destruct (List.find _ _) as [[n [c u]]|] eqn:Ef; [|done].
    apply find_some in Ef as [Hin He]. apply String.eqb_eq in He as ->. rewrite List.Forall_forall in Hct.
    apply (Hct (CreateTable name c u)). apply in_map_iff. by exists (name, (c, u)). }
  unfold table_has. rewrite Ht. apply forallb_forall. intros c Hin.
  destruct (is_migrated name c) eqn:Em.
  - unfold is_migrated in Em. apply existsb_exists in Em as ([[t0 c0] v] & Hin' & [->%String.eqb_eq ->%String.eqb_eq]%andb_true_iff).
    rewrite List.Forall_forall in Hm. assert (settled (EnsureColumn name c v) db) as Hset.
    { apply Hm, in_map_iff. by exists (name, c, v). }
    unfold settled, table_has in Hset. rewrite Ht in Hset. simpl in Hset. by rewrite andb_true_r in Hset.
  - eapply base_column; [by apply Hu|done|by apply list_elem_of_In|done].
Qed.

Lemma upgradable_execs l db db' :
  forallb fits_schema l = true -> upgradable db = true -> execs l db = Ok db' -> upgradable db' = true.
Proof.
  revert db. induction l as [|s l IH]; simpl; intros db; [by intros _ ? [= <-]|].
  intros [Hs Hl]%andb_true_iff Hu. destruct (exec_stmt s db) as [d|] eqn:E; [|done].
  simpl. apply IH; [done|]. by eapply upgradable_exec.
Qed.

(** *** What a successful opening needs

    An index that SQLite holds as unique is: no two intents have one attempt and number
    while [idx_operation_intents_attempt_op] is there. *)
Definition ATTEMPT_OP : list string := ["attempt_id"; "op_id"]%string.

Definition intents_unique (db : Database) : Prop :=
  forall t, db_tables db !! "operation_intents"%string = Some t -> keys_unique ATTEMPT_OP (t_rows t) = true.

Definition consistent (db : Database) : Prop :=
  is_Some (db_indexes db !! "idx_operation_intents_attempt_op"%string) -> intents_unique db.

(** A statement whose effect on the columns and keys can be told backwards: the index is
    made unique, and an added column is one that the migration adds. *)
Definition reversible (s : Stmt) : bool :=
  match s with
  | CreateIndex name _ _ unique => implb (String.eqb name "idx_operation_intents_attempt_op") unique
  | EnsureColumn table column _ =>
      match columns_of table with
      | Some columns => forallb (fun c => is_migrated table c || negb (eq_ignore_ascii_case column c)) columns
      | None => true
      end
  | _ => true
  end.

Lemma all_reversible now : forallb reversible (ALL_BUT_LAST ++ [RecordMigration SCHEMA_VERSION now]) = true.
Proof. vm_compute. reflexivity. Qed.

Lemma exec_intents s db db' :
  fits_schema s = true -> exec_stmt s db = Ok db' -> intents_unique db <-> intents_unique db'.
Proof.
  intros Hf He. pose proof (exec_change _ _ _ "operation_intents" He) as Hc. unfold intents_unique. revert Hf.
  destruct Hc as [s t|cols uniq|col v t|ver now t rows Hnm]; [done| | |]; simpl.
  - intros _. split; [|by intros _ t [=]]. intros _ t [= <-]. by apply bool_decide_eq_true, NoDup_nil.
  - intros Hcol%negb_true_iff%bool_decide_eq_false. split; intros Hk t' [= <-].
    + cbn. rewrite keys_kept by done. by apply Hk.
    + specialize (Hk _ eq_refl). cbn in Hk. by rewrite keys_kept in Hk.
  - done.
Qed.

Lemma exec_consistent s db db' :
  fits_schema s = true -> reversible s = true -> exec_stmt s db = Ok db' -> consistent db -> consistent db'.
Proof.
  intros Hf Hr He Hc Hix. apply (exec_intents _ _ _ Hf He).
  destruct (db_indexes db !! "idx_operation_intents_attempt_op"%string) eqn:Ei; [by apply Hc; rewrite Ei|].
  destruct s as [nm cols uniq|nm table cols uniq|table col v|ver now]; simpl in He.
  - destruct (db_tables db !! nm); simplify_eq; cbn in Hix; rewrite Ei in Hix; by destruct Hix.
  - destruct (db_indexes db !! nm) eqn:En; simplify_eq; [rewrite Ei in Hix; by destruct Hix|].
    destruct (db_tables db !! table) as [t|] eqn:Et; [|done]. destruct (forallb _ _); [|done].
    destruct (uniq && _) eqn:Eu; [done|]. simplify_eq. cbn in Hix.
    destruct (decide (nm = "idx_operation_intents_attempt_op"%string)) as [->|Hne];
      [|rewrite lookup_insert_ne, Ei in Hix by done; by destruct Hix].
    cbn in Hr, Hf. subst uniq. destruct (columns_of table); [|done].
    apply andb_true_iff in Hf as [_ [->%bool_decide_eq_true ->%bool_decide_eq_true]%andb_true_iff].
    intros t' Ht'. rewrite Et in Ht'. simplify_eq. by apply negb_false_iff in Eu.
  - unfold ensure_column_exists in He. destruct (has_column _ _); simplify_eq; [rewrite Ei in Hix; by destruct Hix|].
    destruct (db_tables db !! table); simplify_eq. cbn in Hix. rewrite Ei in Hix. by destruct Hix.
  - unfold record_migration in He. destruct (db_tables db !! _); [|done]. destruct (forallb _ _); [|done].
    destruct (version_recorded _ _); simplify_eq; cbn in Hix; rewrite Ei in Hix; by destruct Hix.
Qed.

(** The columns that no migration adds were there before. *)
Definition base_columns (db : Database) : Prop :=
  forall name columns, columns_of name = Some columns ->
  forall t, db_tables db !! name = Some t ->
  forall c, c ∈ columns -> is_migrated name c = false -> has_column (t_columns t) c = true.

Lemma exec_base_columns s db db' :
  reversible s = true -> exec_stmt s db = Ok db' -> base_columns db' -> base_columns db.
Proof.
  intros Hr He Hb name columns Hn t Ht c Hin Hm. pose proof (exec_change _ _ _ name He) as Hc.
  rewrite Ht in Hc. specialize (Hb name columns Hn). revert Hr Hb. inv Hc; intros Hr Hb.
  - by eapply Hb.
  - unfold reversible in Hr. rewrite Hn, forallb_forall in Hr. apply list_elem_of_In in Hin as Hin'.
    specialize (Hr c Hin'). rewrite Hm in Hr. apply negb_true_iff in Hr.
    pose proof (Hb _ eq_refl c Hin Hm) as Hhas. cbn in Hhas.
    unfold has_column in *. rewrite existsb_app in Hhas. cbn in Hhas. by rewrite Hr, !orb_false_r in Hhas.
  - assert (has_column (t_columns (mkTable (t_columns t) (t_unique t) rows)) c = true) as Hhas
      by (apply (Hb _ eq_refl c Hin Hm)). done.
Qed.

Lemma execs_backward l db db' :
  forallb fits_schema l = true -> forallb reversible l = true -> execs l db = Ok db' ->
  (consistent db -> consistent db') /\ (intents_unique db' -> intents_unique db) /\
  (base_columns db' -> base_columns db).
Proof.
  revert db. induction l as [|s l IH]; simpl; intros db; [by intros _ _ [= <-]|].
  intros [Hs Hl]%andb_true_iff [Hr Hrl]%andb_true_iff. destruct (exec_stmt s db) as [d|] eqn:E; [|done].
  simpl. intros He. destruct (IH _ Hl Hrl He) as (H1 & H2 & H3).
  split; [|split]; intros Hd.
  - eauto using exec_consistent.
  - apply (exec_intents _ _ _ Hs E). auto.
  - eauto using exec_base_columns.
Qed.

Lemma upgradable_iff db : base_columns db -> intents_unique db -> upgradable db = true.
Proof.
  intros Hb Hu. unfold upgradable. rewrite forall_tables. intros name columns Hn. unfold base_table.
  destruct (db_tables db !! name) as [t|] eqn:Et; [|done]. apply andb_true_iff. split.
  - apply forallb_forall. intros c Hc%list_elem_of_In. apply orb_true_iff.
    destruct (is_migrated name c) eqn:Em; [by left|right]. by eapply Hb.
  - destruct (String.eqb_spec name "operation_intents") as [->|]; [|done]. by apply Hu.
Qed.

(** What an opened database has besides the columns: every index, and the version. *)
Definition indexed (db : Database) : Prop :=
  Forall (fun s => settled s db) INDEXES /\
  exists t, db_tables db !! "schema_migrations"%string = Some t /\ version_recorded 3 t = true.

Lemma execs_indexed now db db' :
  execs (ALL_BUT_LAST ++ [RecordMigration SCHEMA_VERSION now]) db = Ok db' -> indexed db'.
Proof.
  intros He%execs_settle. unfold ALL_BUT_LAST, CREATE_TABLES_SQL in He.
  rewrite !Forall_app in He. destruct He as [[[_ Hi] _] Hv]. split; [done|]. inv Hv.
  match goal with H : settled (RecordMigration _ _) _ |- _ => by destruct H as [_ ?] end.
Qed.

Lemma execs_upgradable now db db' :
  consistent db -> execs (ALL_BUT_LAST ++ [RecordMigration SCHEMA_VERSION now]) db = Ok db' ->
  complete db' = true -> upgradable db = true.
Proof.
  intros Hcon He Hcomp. destruct (execs_backward _ _ _ (all_fit now) (all_reversible now) He) as (H1 & H2 & H3).
  apply upgradable_iff.
  - apply H3. intros name columns Hn t Ht c Hin _. unfold complete in Hcomp. rewrite forall_tables in Hcomp.
    specialize (Hcomp name columns Hn). unfold table_has in Hcomp. rewrite Ht, forallb_forall in Hcomp.
    by apply Hcomp, list_elem_of_In.
  - apply H2, H1; [done|]. destruct (execs_indexed _ _ _ He) as [Hi _]. rewrite Forall_forall in Hi.
    apply (Hi (CreateIndex "idx_operation_intents_attempt_op" "operation_intents" ATTEMPT_OP true)).
    apply list_elem_of_In. simpl. tauto.
Qed.

(** ** Properties *)


(** A database of the first schema, with one job. *)
Definition old_database : Database :=
  mkDatabase
    {["jobs"%string := mkTable ["job_id"; "job_type"; "state"; "catalog_generation";
                                "config_generation"; "created_at"; "updated_at"]%string [["job_id"%string]]
                         [{["job_id"%string := Int 1; "state"%string := Txt "RUNNING"]}]]} ∅.

(** SQLite refuses the second [ALTER TABLE] on it. *)
Definition refuse_alter : Refusals :=
  mkRefusals (fun _ => None) (fun n => if (n =? 16)%nat then Some "database is locked"%string else None).


(** Two intents of one attempt and number, from before the unique index. *)
Definition duplicates_database : Database :=
  let row id : Row := {["intent_id"%string := Int id; "attempt_id"%string := Int 1; "op_id"%string := Int 7]} in
  mkDatabase
    {["operation_intents"%string :=
        mkTable ["intent_id"; "job_id"; "attempt_id"; "op_id"; "target_id"; "rel_path"; "expected_dev";
                 "expected_ino"; "estimated_bytes"; "mutation_type"; "catalog_generation";
                 "config_generation"; "committed_at"]%string [["intent_id"%string]] [row 1%Z; row 2%Z]]} ∅.

(** The migration drops the failure to create the unique index, but the same statement
    has already run in the schema, where its failure ends the opening: with duplicates
    the store never opens. *)
Lemma duplicates_never_open :
  let '(r, db1) := init_schema no_refusals 5 duplicates_database in
  is_ok r = false /\ is_ok (fst (init_schema no_refusals 6 db1)) = false.
Proof. vm_compute. done. Qed.

(** A successful open enforces foreign keys, and without the store's directory the
    database is one in the temporary directory. *)
Lemma open_or_create_spec opened pragmas rf now path disk s disk' :
  open_or_create opened pragmas rf now path disk = (Ok s, disk') ->
  db_path s = path /\ cn_foreign_keys (db_conn s) = true /\
  exists db, disk' = <[path := db]> disk /\
    init_schema rf now (default Database_empty (disk !! path)) = (Ok tt, db).
Proof.
  unfold open_or_create. destruct opened; [done|]. unfold configure_pragmas. destruct pragmas; [done|].
  destruct (init_schema _ _ _) as [[[]|m] db]; [|done]. intros [= <- <-]. split; [done|]. split; [done|]. eauto.
Qed.

Lemma default_store_elsewhere :
  default_store_path false "/tmp" = "/tmp/cleaner_store/cleaner.db"%string.
Proof. reflexivity. Qed.
