(* ===== verification/Effects.v ===== *)
(** The outside world of the pipeline's stateful code.

    [Kernel] is the part of the operating system the sources call: the system
    calls of src/fs/mod.rs as functions of a kernel state, any implementation of
    which is allowed, so between two calls other processes may have changed
    anything.  [Env] is the clock, SQLite's verdict on each statement, and what a
    poll of the cancellation token answers, each read at the current step.
    [World] threads the kernel, the store and the resource manager, and keeps a
    history of the calls that open, inspect or remove entries; the code never
    reads the history, the theorems do.  [M] is the state monad over it, with a
    weakest precondition [wp]; a [Result] is an ordinary value of it and [?] is
    the notation [x ←? m; k]. *)
From Stdlib Require Import ZArith String.
From S2P Require Import Prelude Domain Resource Store.

Record Stat := mkStat { st_dev : N; st_ino : N; st_size : Z; st_mtime : Z }.

Inductive FileType := RegularFile | Directory | Symlink | SpecialFile.
Record DirEnt := mkDirEnt { d_name : string; d_type : FileType }.

#[export] Instance FileType_eq_dec : EqDecision FileType.
Proof. solve_decision. Defined.

(** A descriptor stands for the open file description, so it is never reused. *)
Class Kernel (K : Type) := {
  Fd : Type;
  (** open(path, O_RDONLY|O_DIRECTORY|O_CLOEXEC|O_NOFOLLOW) *)
  sys_open_dir : string -> K -> result Errno Fd * K;
  (** openat2 with RESOLVE_BENEATH|NO_SYMLINKS|NO_MAGICLINKS|NO_XDEV *)
  sys_openat2_dir : Fd -> string -> K -> result Errno Fd * K;
  (** openat with O_DIRECTORY|O_NOFOLLOW *)
  sys_openat_dir : Fd -> string -> K -> result Errno Fd * K;
  sys_fstat : Fd -> K -> result Errno Stat * K;
  (** fstatat with AT_SYMLINK_NOFOLLOW *)
  sys_statat : Fd -> string -> K -> result Errno Stat * K;
  (** unlinkat; the flag is AT_REMOVEDIR *)
  sys_unlinkat : Fd -> string -> bool -> K -> result Errno unit * K;
  (** the entries an iteration of getdents64 returns *)
  sys_getdents : Fd -> K -> list (result Errno DirEnt) * K;
  (** [fs::read_dir] and the names its iteration yields, or the errors *)
  fs_read_dir : string -> K -> result Errno (list (result Errno string)) * K;
  (** [Path::exists] and [Path::is_dir] *)
  fs_exists : string -> K -> bool * K;
  fs_is_dir : string -> K -> bool * K;
  (** [fs::metadata]: the owner; [DirEntry::metadata]: does not follow links *)
  fs_owner : string -> K -> result Errno (N * N) * K;
  fs_entry_metadata : string -> K -> result Errno unit * K;
  fs_canonicalize : string -> K -> result Errno string * K;
}.

Class Env := {
  env_now : nat -> N;
  env_millis : nat -> N;
  env_sql : nat -> option SqlFault;
  (** at which of a method's statements the refusal happens *)
  env_stage : nat -> Stage;
  env_cancelled : nat -> bool;
  env_sql_text : SqlFault -> string;
  env_strerror : Errno -> string;
  (** Android's system properties *)
  env_property : string -> option string;
}.

(** The history: what was opened from where, what a stat saw, and each removal
    with the store and the locks as they were when it was issued. *)
Inductive Event `{Kernel K} :=
| EvOpenRoot (path : string) (fd : Fd) (device : N)
| EvOpenChild (parent : Fd) (name : string) (fd : Fd) (device : N)
| EvStat (fd : Fd) (name : string) (r : result Errno FileIdentity)
| EvUnlink (fd : Fd) (name : string) (removedir : bool) (s : Store) (rm : ResourceManager)
    (r : result Errno unit).

Record World `{Kernel K} := mkWorld {
  w_step : nat;
  w_kernel : K;
  w_openat2 : bool;
  w_rm : ResourceManager;
  w_store : Store;
  w_trace : list Event;
}.
Arguments mkWorld {K _}.

Section monad.
Context `{Kernel K}.

Definition M (A : Type) : Type := World -> A * World.

#[global] Instance M_ret : MRet M := fun A a w => (a, w).
#[global] Instance M_bind : MBind M := fun A B k m w => let '(a, w') := m w in k a w'.

(** [?] *)
Definition try_bind {E A B} (m : M (result E A)) (k : A -> M (result E B))
    : M (result E B) :=
  m ≫= fun r => match r with Ok a => k a | Err e => mret (Err e) end.

Definition wp {A} (m : M A) (Q : A -> World -> Prop) (w : World) : Prop :=
  Q (fst (m w)) (snd (m w)).

Definition update (f : World -> World) : M unit := fun w => (tt, f w).
Definition gets {A} (f : World -> A) : M A := fun w => (f w, w).
End monad.

Notation "x ←? m ; k" := (try_bind m (fun x => k))
  (at level 20, m at level 100, k at level 200, only parsing) : cleaner_scope.

Section effects.
Context `{Kernel K} `{Env}.

Definition w_tick (w : World) : World :=
  mkWorld (S (w_step w)) (w_kernel w) (w_openat2 w) (w_rm w) (w_store w) (w_trace w).
Definition w_set_kernel (k : K) (w : World) : World :=
  mkWorld (w_step w) k (w_openat2 w) (w_rm w) (w_store w) (w_trace w).
Definition w_set_openat2 (b : bool) (w : World) : World :=
  mkWorld (w_step w) (w_kernel w) b (w_rm w) (w_store w) (w_trace w).
Definition w_set_rm (rm : ResourceManager) (w : World) : World :=
  mkWorld (w_step w) (w_kernel w) (w_openat2 w) rm (w_store w) (w_trace w).
Definition w_set_store (s : Store) (w : World) : World :=
  mkWorld (w_step w) (w_kernel w) (w_openat2 w) (w_rm w) s (w_trace w).
Definition w_log (e : Event) (w : World) : World :=
  mkWorld (w_step w) (w_kernel w) (w_openat2 w) (w_rm w) (w_store w) (e :: w_trace w).

(** [UnixTimestamp::now] *)
Definition get_now : M N := fun w => (env_now (w_step w), w_tick w).
(** [Instant::now] in milliseconds *)
Definition get_millis : M N := fun w => (env_millis (w_step w), w_tick w).
(** [CancellationToken::is_cancelled] *)
Definition is_cancelled : M bool := fun w => (env_cancelled (w_step w), w_tick w).

(** A system call. *)
Definition syscall {A} (f : K -> A * K) : M A :=
  fun w => let '(a, k) := f (w_kernel w) in (a, w_set_kernel k w).

(** A call of a method of the resource manager. *)
Definition with_rm {A} (f : ResourceManager -> A * ResourceManager) : M A :=
  fun w => let '(a, rm) := f (w_rm w) in (a, w_set_rm rm w).
Definition modify_rm (f : ResourceManager -> ResourceManager) : M unit :=
  fun w => (tt, w_set_rm (f (w_rm w)) w).

(** A call of a method of the store: it reads the clock and SQLite may refuse
    its statement. *)
Definition with_store {A} (f : N -> option SqlFault -> Store -> A * Store) : M A :=
  fun w => let '(a, s) := f (env_now (w_step w)) (env_sql (w_step w)) (w_store w) in
           (a, w_set_store s (w_tick w)).

(** Errors as text, with the system's messages. *)
Definition show_error (e : CleanerError) : string := CleanerError_display env_strerror e.

(** [wp] by the structure of a program. *)
Lemma wp_ret {A} (a : A) Q w : Q a w -> wp (mret a) Q w.
Proof. done. Qed.
Lemma wp_bind {A B} (m : M A) (k : A -> M B) Q w :
  wp m (fun a => wp (k a) Q) w -> wp (m ≫= k) Q w.
Proof. unfold wp, mbind, M_bind. by destruct (m w). Qed.
Lemma wp_try {E A B} (m : M (result E A)) (k : A -> M (result E B)) Q w :
  wp m (fun r w' => match r with Ok a => wp (k a) Q w' | Err e => Q (Err e) w' end) w ->
  wp (try_bind m k) Q w.
Proof.
  unfold wp, try_bind, mbind, M_bind. by destruct (m w) as [[a|e] w'].
Qed.
Lemma wp_mono {A} (m : M A) (Q R : A -> World -> Prop) w :
  wp m Q w -> (forall a w', Q a w' -> R a w') -> wp m R w.
Proof. unfold wp. auto. Qed.
Lemma wp_any {A} (m : M A) (Q : A -> World -> Prop) w :
  (forall a w', Q a w') -> wp m Q w.
Proof. unfold wp. auto. Qed.
Lemma wp_and {A} (m : M A) (Q R : A -> World -> Prop) w :
  wp m Q w -> wp m R w -> wp m (fun a w' => Q a w' /\ R a w') w.
Proof. by unfold wp. Qed.

(** What the computation did. *)
Lemma wp_eq {A} (m : M A) w : wp m (fun a w' => m w = (a, w')) w.
Proof. apply surjective_pairing. Qed.

Lemma wp_now Q w : (forall n, Q n (w_tick w)) -> wp get_now Q w.
Proof. intros HQ. apply HQ. Qed.
Lemma wp_millis Q w : (forall n, Q n (w_tick w)) -> wp get_millis Q w.
Proof. intros HQ. apply HQ. Qed.
Lemma wp_cancelled Q w :
  Q (env_cancelled (w_step w)) (w_tick w) -> wp is_cancelled Q w.
Proof. done. Qed.
Lemma wp_syscall {A} (f : K -> A * K) Q w :
  (forall a k, f (w_kernel w) = (a, k) -> Q a (w_set_kernel k w)) -> wp (syscall f) Q w.
Proof. unfold wp, syscall. intros HQ. destruct (f (w_kernel w)) eqn:E. by apply HQ. Qed.
Lemma wp_with_rm {A} (f : ResourceManager -> A * ResourceManager) Q w :
  (forall a rm, f (w_rm w) = (a, rm) -> Q a (w_set_rm rm w)) -> wp (with_rm f) Q w.
Proof. unfold wp, with_rm. intros HQ. destruct (f (w_rm w)) eqn:E. by apply HQ. Qed.
Lemma wp_modify_rm f Q w : Q tt (w_set_rm (f (w_rm w)) w) -> wp (modify_rm f) Q w.
Proof. done. Qed.
Lemma wp_update f Q w : Q tt (f w) -> wp (update f) Q w.
Proof. done. Qed.
Lemma wp_gets {A} (f : World -> A) Q w : Q (f w) w -> wp (gets f) Q w.
Proof. done. Qed.
Lemma wp_with_store {A} (f : N -> option SqlFault -> Store -> A * Store) Q w :
  (forall a s, f (env_now (w_step w)) (env_sql (w_step w)) (w_store w) = (a, s) ->
     Q a (w_set_store s (w_tick w))) -> wp (with_store f) Q w.
Proof. unfold wp, with_store. intros HQ. destruct (f _ _ _) eqn:E. by apply HQ. Qed.
End effects.

(** One step of symbolic execution. *)
Ltac wp_step :=
  match goal with
  | |- wp (mret _) _ _ => apply wp_ret
  | |- wp (mbind _ _) _ _ => apply wp_bind
  | |- wp (try_bind _ _) _ _ => apply wp_try
  | |- wp get_now _ _ => apply wp_now; intros ?
  | |- wp get_millis _ _ => apply wp_millis; intros ?
  | |- wp is_cancelled _ _ => apply wp_cancelled
  | |- wp (modify_rm _) _ _ => apply wp_modify_rm
  | |- wp (update _) _ _ => apply wp_update
  | |- wp (gets _) _ _ => apply wp_gets
  end.
Ltac wp_steps := repeat wp_step; cbn beta iota.
