(* ===== verification/Fs.v ===== *)
(** The descriptor-relative file system layer of src/fs/mod.rs: every entry is
    named by one component below an open directory, directories are opened
    without following links and must stay on their parent's device, and a
    removal first checks that the entry still has the expected identity.

    The lemmas say what each operation adds to the history and that none of them
    touches the store or the locks. *)
From Stdlib Require Import ZArith Ascii String.
From S2P Require Import Prelude Paths Domain Resource Store Effects.

Record SafeDirEntry := mkEntry {
  e_name : string;
  e_is_dir : bool;
  e_is_symlink : bool;
  e_identity : FileIdentity;
  e_size_bytes : N;
  e_mtime_secs : N;
}.

Definition TrustedRoot_new (path : string) : result CleanerError string :=
  if negb (is_absolute path) then
    Err (SafetyViolation ("TrustedRoot must be absolute: " +:+ path))
  else Ok path.

Definition validate_single_component (name : string) : result Errno unit :=
  if str_is_empty name || String.eqb name "." || String.eqb name ".."
     || str_contains_char SLASH name || str_contains_char NUL name
  then Err INVAL else Ok tt.

(** [x as u64] of an [i64]. *)
Definition i64_as_u64 (x : Z) : N := Z.to_N (x mod 18446744073709551616)%Z.

Record SafeDirHandle `{Kernel K} := mkHandle {
  h_fd : Fd;
  h_dev : DeviceNumber;
  h_ino : InodeNumber;
  h_permit : option FdPermit;
}.
Arguments mkHandle {K _}.

Section fs.
Context `{Kernel K} `{Env}.

Definition identity (h : SafeDirHandle) : FileIdentity := mkFileIdentity (h_dev h) (h_ino h).

(** Dropping a handle closes its descriptor and returns its permit. *)
Definition drop_handle (h : SafeDirHandle) : M unit := modify_rm (drop_permit (h_permit h)).

Definition open_root_with_permit (path : string) (permit : option FdPermit)
    : M (result CleanerError SafeDirHandle) :=
  r ← syscall (sys_open_dir path);
  match r with
  | Err e => _ ← modify_rm (drop_permit permit); mret (Err (Io e))
  | Ok fd =>
      st ← syscall (sys_fstat fd);
      match st with
      | Err e => _ ← modify_rm (drop_permit permit); mret (Err (Io e))
      | Ok st =>
          _ ← update (w_log (EvOpenRoot path fd (st_dev st)));
          mret (Ok (mkHandle fd (st_dev st) (st_ino st) permit))
      end
  end.

Definition open_root (path : string) : M (result CleanerError SafeDirHandle) :=
  open_root_with_permit path None.

Definition stat_child_errno (h : SafeDirHandle) (child_name : string)
    : M (result Errno FileIdentity) :=
  match validate_single_component child_name with
  | Err e => mret (Err e)
  | Ok _ =>
      r ← syscall (sys_statat (h_fd h) child_name);
      let res := match r with
                 | Ok st => Ok (mkFileIdentity (st_dev st) (st_ino st))
                 | Err e => Err e
                 end in
      _ ← update (w_log (EvStat (h_fd h) child_name res));
      mret res
  end.

Definition stat_child (h : SafeDirHandle) (child_name : string)
    : M (result CleanerError FileIdentity) :=
  r ← stat_child_errno h child_name; mret (result_map_err Io r).

(** [None]: openat2 is not available.  The flag is the process-wide
    [OPENAT2_SUPPORTED]. *)
Definition try_openat2_child (h : SafeDirHandle) (child_name : string)
    : M (result Errno (option Fd)) :=
  supported ← gets w_openat2;
  if negb supported then mret (Ok None)
  else if str_contains_char NUL child_name then mret (Err INVAL)
  else
    res ← syscall (sys_openat2_dir (h_fd h) child_name);
    match res with
    | Ok fd => mret (Ok (Some fd))
    | Err err =>
        if decide (err = NOSYS) then _ ← update (w_set_openat2 false); mret (Ok None)
        else if decide (err = INVAL) then mret (Err INVAL)
        else if decide (err = XDEV) then mret (Err XDEV)
        else if decide (err = LOOP) then mret (Err LOOP)
        else if decide (err = PERM) then mret (Err ACCESS)
        else if decide (err = ACCESS) then mret (Err ACCESS)
        else if decide (err = NOENT) then mret (Err NOENT)
        else mret (Err err)
    end.

Definition open_child_dir_errno (h : SafeDirHandle) (child_name : string)
    : M (result Errno SafeDirHandle) :=
  match validate_single_component child_name with
  | Err e => mret (Err e)
  | Ok _ =>
      found ←? try_openat2_child h child_name;
      child_fd ←? match found with
                  | Some fd => mret (Ok fd)
                  | None => syscall (sys_openat_dir (h_fd h) child_name)
                  end;
      st ←? syscall (sys_fstat child_fd);
      if negb (st_dev st =? h_dev h) then mret (Err XDEV)
      else
        _ ← update (w_log (EvOpenChild (h_fd h) child_name child_fd (st_dev st)));
        mret (Ok (mkHandle child_fd (st_dev st) (st_ino st) None))
  end.

Definition open_child_dir (h : SafeDirHandle) (child_name : string)
    : M (result CleanerError SafeDirHandle) :=
  r ← open_child_dir_errno h child_name; mret (result_map_err Io r).

(** The permit moves into the handle, or is dropped with the error. *)
Definition open_child_dir_with_permit (h : SafeDirHandle) (child_name : string)
    (permit : option FdPermit) : M (result CleanerError SafeDirHandle) :=
  r ← open_child_dir h child_name;
  match r with
  | Ok c => mret (Ok (mkHandle (h_fd c) (h_dev c) (h_ino c) permit))
  | Err e => _ ← modify_rm (drop_permit permit); mret (Err e)
  end.

(** The loop body of [read_entries_fd]. *)
Fixpoint read_loop (h : SafeDirHandle) (l : list (result Errno DirEnt))
    (entries : list SafeDirEntry) : M (result CleanerError (list SafeDirEntry)) :=
  match l with
  | [] => mret (Ok entries)
  | Err e :: _ => mret (Err (Io e))
  | Ok entry :: l' =>
      let name := d_name entry in
      if String.eqb name "." || String.eqb name ".." then read_loop h l' entries
      else if negb (is_utf8 name) then read_loop h l' entries
      else
        let is_symlink := bool_decide (d_type entry = Symlink) in
        let is_dir := bool_decide (d_type entry = Directory) in
        let is_regular := bool_decide (d_type entry = RegularFile) in
        if negb is_regular && negb is_dir && negb is_symlink then read_loop h l' entries
        else
          r ← syscall (sys_statat (h_fd h) name);
          match r with
          | Ok st =>
              read_loop h l'
                (entries ++ [mkEntry name is_dir is_symlink
                   (mkFileIdentity (st_dev st) (st_ino st))
                   (Z.to_N (Z.max (st_size st) 0)) (i64_as_u64 (st_mtime st))])
          | Err _ => read_loop h l' entries
          end
  end.

Definition read_entries_fd (h : SafeDirHandle) : M (result CleanerError (list SafeDirEntry)) :=
  l ← syscall (sys_getdents (h_fd h)); read_loop h l [].

(** unlinkat, with the history. *)
Definition do_unlinkat (h : SafeDirHandle) (name : string) (removedir : bool)
    : M (result CleanerError unit) :=
  s ← gets w_store;
  rm ← gets w_rm;
  r ← syscall (sys_unlinkat (h_fd h) name removedir);
  _ ← update (w_log (EvUnlink (h_fd h) name removedir s rm r));
  mret (result_map_err Io r).

Definition unlink_child_file (h : SafeDirHandle) (name : string)
    (expected_identity : FileIdentity) : M (result CleanerError unit) :=
  match validate_single_component name with
  | Err e => mret (Err (Io e))
  | Ok _ =>
      current_identity ←? stat_child h name;
      if negb (bool_decide (current_identity = expected_identity)) then
        mret (Err (SafetyViolation ("TOCTOU race detected: file " +:+ name +:+ " identity "
          +:+ FileIdentity_display current_identity +:+ " does not match expected "
          +:+ FileIdentity_display expected_identity)))
      else do_unlinkat h name false
  end.

Definition rmdir_child_dir (h : SafeDirHandle) (name : string)
    (expected_identity : FileIdentity) : M (result CleanerError unit) :=
  match validate_single_component name with
  | Err e => mret (Err (Io e))
  | Ok _ =>
      current_identity ←? stat_child h name;
      if negb (bool_decide (current_identity = expected_identity)) then
        mret (Err (SafetyViolation ("TOCTOU race detected: dir " +:+ name +:+ " identity "
          +:+ FileIdentity_display current_identity +:+ " does not match expected "
          +:+ FileIdentity_display expected_identity)))
      else do_unlinkat h name true
  end.
End fs.

(** ** What the operations do to the world *)

Section lemmas.
Context `{Kernel K} `{Env}.

(** Only the kernel moved, the lock table is now [rm], and [evs] was added to
    the history (newest first). *)
Record moves (w w' : World) (rm : ResourceManager) (evs : list Event) : Prop := {
  mv_store : w_store w' = w_store w;
  mv_rm : w_rm w' = rm;
  mv_trace : w_trace w' = evs ++ w_trace w;
  mv_step : w_step w' = w_step w;
}.

Lemma moves_trans w1 w2 w3 rm rm' evs evs' :
  moves w1 w2 rm evs -> moves w2 w3 rm' evs' -> moves w1 w3 rm' (evs' ++ evs).
Proof.
  intros [S1 R1 T1 N1] [S2 R2 T2 N2].
  constructor; try congruence. by rewrite T2, T1, app_assoc.
Qed.

(** An entry name that stays in its directory. *)
Definition single_component (name : string) : Prop :=
  validate_single_component name = Ok tt.

Lemma validate_single_inv name u :
  validate_single_component name = Ok u -> single_component name.
Proof. by destruct u. Qed.

Lemma single_component_spec name :
  single_component name ->
  name <> "" /\ name <> "." /\ name <> ".." /\
  str_contains_char SLASH name = false /\ str_contains_char NUL name = false.
Proof.
  unfold single_component, validate_single_component.
  destruct (_ || _) eqn:E; [done|]. intros _. rewrite !orb_false_iff in E.
  destruct E as [[[[E1 E2%String.eqb_neq] E3%String.eqb_neq] E4] E5].
  repeat split; try done. by intros ->.
Qed.

Lemma wp_stat_child_errno h name w :
  wp (stat_child_errno h name) (fun r w' =>
    match validate_single_component name with
    | Ok _ => moves w w' (w_rm w) [EvStat (h_fd h) name r]
    | Err e => r = Err e /\ moves w w' (w_rm w) []
    end) w.
Proof.
  unfold stat_child_errno. destruct (validate_single_component name).
  - apply wp_bind, wp_syscall. intros r k _. by wp_steps.
  - wp_steps. by split.
Qed.

Lemma wp_stat_child h name w :
  single_component name ->
  wp (stat_child h name) (fun r w' => exists r',
    r = result_map_err Io r' /\ moves w w' (w_rm w) [EvStat (h_fd h) name r']) w.
Proof.
  intros Hn. unfold stat_child. apply wp_bind.
  eapply wp_mono; [apply wp_stat_child_errno|]. intros r w'. unfold single_component in Hn.
  rewrite Hn. intros Hm. wp_steps. by exists r.
Qed.

Lemma wp_open_root path p w :
  wp (open_root_with_permit path p) (fun r w' =>
    match r with
    | Ok h => h_permit h = p /\ moves w w' (w_rm w) [EvOpenRoot path (h_fd h) (h_dev h)]
    | Err _ => moves w w' (drop_permit p (w_rm w)) []
    end) w.
Proof.
  unfold open_root_with_permit. apply wp_bind, wp_syscall. intros [fd|e] k _.
  - apply wp_bind, wp_syscall. intros [st|e] k' _; by wp_steps.
  - by wp_steps.
Qed.

Lemma wp_try_openat2 h name w :
  wp (try_openat2_child h name) (fun _ w' => moves w w' (w_rm w) []) w.
Proof.
  unfold try_openat2_child. wp_steps. destruct (negb _); [by wp_steps|].
  destruct (str_contains_char NUL name); [by wp_steps|].
  apply wp_bind, wp_syscall. intros [fd|e] k _; [by wp_steps|].
  repeat case_decide; by wp_steps.
Qed.

Lemma wp_open_child_errno h name w :
  wp (open_child_dir_errno h name) (fun r w' =>
    match r with
    | Ok c => single_component name /\ h_dev c = h_dev h /\ h_permit c = None /\
              moves w w' (w_rm w) [EvOpenChild (h_fd h) name (h_fd c) (h_dev c)]
    | Err _ => moves w w' (w_rm w) []
    end) w.
Proof.
  unfold open_child_dir_errno. destruct (validate_single_component name) eqn:Hn; [|by wp_steps].
  apply wp_try. eapply wp_mono; [apply wp_try_openat2|]. intros [found|e] w1 Hm1; [|done].
  apply wp_try. assert (forall Q,
    (forall r w2, moves w w2 (w_rm w) [] -> Q r w2) ->
    wp match found with
       | Some fd => mret (Ok fd)
       | None => syscall (sys_openat_dir (h_fd h) name)
       end Q w1) as Hopen.
  { intros Q HQ. destruct found; [by apply wp_ret, HQ|]. apply wp_syscall. intros r k _.
    apply HQ. destruct Hm1 as [? ? ? ?]. by constructor. }
  apply Hopen. intros [fd|e] w2 Hm2; [|done].
  apply wp_try, wp_syscall. intros [st|e] k _.
  2: { destruct Hm2 as [? ? ? ?]. by constructor. }
  destruct (st_dev st =? h_dev h) eqn:Ed; simpl; wp_steps.
  - apply N.eqb_eq in Ed. split; [by eapply validate_single_inv|].
    split; [done|]. split; [done|]. destruct Hm2 as [? ? Ht ?].
    constructor; simpl; try done. by rewrite Ht.
  - destruct Hm2 as [? ? ? ?]. by constructor.
Qed.

Lemma wp_open_child h name p w :
  wp (open_child_dir_with_permit h name p) (fun r w' =>
    match r with
    | Ok c => single_component name /\ h_dev c = h_dev h /\ h_permit c = p /\
              moves w w' (w_rm w) [EvOpenChild (h_fd h) name (h_fd c) (h_dev c)]
    | Err _ => moves w w' (drop_permit p (w_rm w)) []
    end) w.
Proof.
  unfold open_child_dir_with_permit, open_child_dir. apply wp_bind, wp_bind.
  eapply wp_mono; [apply wp_open_child_errno|]. intros [c|e] w'.
  - intros (Hn & Hd & _ & Hm). wp_steps. done.
  - intros Hm. wp_steps. destruct Hm as [? Hr ? ?]. constructor; simpl; try done.
    by rewrite Hr.
Qed.

(** The history of a removal: nothing, a stat that failed or saw another
    identity, or a stat that saw the expected identity and then the removal,
    issued with the store and locks of the start. *)
Inductive removal (h : SafeDirHandle) (name : string) (id : FileIdentity) (rd : bool)
    (w : World) : result CleanerError unit -> list Event -> Prop :=
| rem_invalid e : removal h name id rd w (Err e) []
| rem_stat r e : r <> Ok id -> removal h name id rd w (Err e) [EvStat (h_fd h) name r]
| rem_done r :
    single_component name ->
    removal h name id rd w (result_map_err Io r)
      [EvUnlink (h_fd h) name rd (w_store w) (w_rm w) r; EvStat (h_fd h) name (Ok id)].

Lemma wp_remove h name id rd (text : FileIdentity -> string) w :
  single_component name ->
  wp (current_identity ←? stat_child h name;
      if negb (bool_decide (current_identity = id))
      then mret (Err (SafetyViolation (text current_identity)))
      else do_unlinkat h name rd)
    (fun r w' => exists evs, moves w w' (w_rm w) evs /\ removal h name id rd w r evs) w.
Proof.
  intros Hn. apply wp_try. eapply wp_mono; [by apply wp_stat_child|].
  intros r w1 (r' & -> & Hm). destruct r' as [cur|e]; simpl.
  2: { eexists. split; [exact Hm|]. by constructor. }
  case_bool_decide as Hcur; simpl.
  - subst cur. unfold do_unlinkat. wp_steps. apply wp_bind, wp_syscall. intros ur k _.
    wp_steps. eexists. split; [|by constructor]. destruct Hm as [Hs Hr Ht Hst].
    constructor; simpl; try done. by rewrite Ht, Hs, Hr.
  - wp_steps. eexists. split; [exact Hm|]. constructor. congruence.
Qed.

Lemma wp_unlink_child h name id w :
  wp (unlink_child_file h name id) (fun r w' =>
    exists evs, moves w w' (w_rm w) evs /\ removal h name id false w r evs) w.
Proof.
  unfold unlink_child_file. destruct (validate_single_component name) eqn:Hn.
  - apply wp_remove. by eapply validate_single_inv.
  - wp_steps. exists []. split; [done|constructor].
Qed.

Lemma wp_rmdir_child h name id w :
  wp (rmdir_child_dir h name id) (fun r w' =>
    exists evs, moves w w' (w_rm w) evs /\ removal h name id true w r evs) w.
Proof.
  unfold rmdir_child_dir. destruct (validate_single_component name) eqn:Hn.
  - apply wp_remove. by eapply validate_single_inv.
  - wp_steps. exists []. split; [done|constructor].
Qed.
End lemmas.
