(* ===== verification/Platform.v ===== *)
(** The Android users and their storage encryption: src/platform/users.rs and
    src/platform/encryption.rs.  The catalog asks the latter which of a user's
    directories may be read. *)
From Stdlib Require Import Ascii String.
From S2P Require Import Prelude Paths Domain Text Effects.

(** [str::strip_suffix]. *)
Fixpoint strip_suffix (s suffix : string) : option string :=
  if String.eqb s suffix then Some EmptyString
  else match s with
       | EmptyString => None
       | String c s' => match strip_suffix s' suffix with
                        | Some p => Some (String c p)
                        | None => None
                        end
       end.

Record AndroidUser := mkUser {
  u_user_id : N;
  ce_path : string;
  de_path : string;
  media_path : string;
}.

Inductive EncryptionState := Unencrypted | DeviceEncryptedOnly | FullyUnlocked | EncUnknown.

Section platform.
Context `{Kernel K} `{Env}.

(** [entries.flatten()]: the names that could be read. *)
Definition flatten (l : list (result Errno string)) : list string := omap result_ok l.

(** The ids among the names of a directory; [pick] is the text that is parsed. *)
Definition ids_in (pick : string -> option string) (dir : string) : M (list N) :=
  r ← syscall (fs_read_dir dir);
  mret (match r with
        | Ok entries =>
            omap (fun name => if is_utf8 name then pick name ≫= parse_u32 else None)
              (flatten entries)
        | Err _ => []
        end).

Definition user_paths (id : N) : M AndroidUser :=
  ce ← (if id =? 0 then
          exists_ ← syscall (fs_exists "/data/data");
          mret (if exists_ : bool then "/data/data" else "/data/user/0")
        else
          let user_ce := "/data/user/" +:+ pretty id in
          r ← syscall (fs_canonicalize user_ce);
          mret (default user_ce (result_ok r)));
  let de_raw := "/data/user_de/" +:+ pretty id in
  de ← syscall (fs_canonicalize de_raw);
  let media_raw := "/data/media/" +:+ pretty id in
  media ← syscall (fs_canonicalize media_raw);
  mret (mkUser id ce (default de_raw (result_ok de)) (default media_raw (result_ok media))).

Fixpoint users_of_ids (ids : list N) : M (list AndroidUser) :=
  match ids with
  | [] => mret []
  | id :: ids' => u ← user_paths id; us ← users_of_ids ids'; mret (u :: us)
  end.

(** The set of ids is a [BTreeSet], iterated in ascending order. *)
Definition enumerate_users : M (list AndroidUser) :=
  a ← ids_in (fun name => strip_suffix name ".xml") "/data/system/users";
  b ← ids_in Some "/data/user";
  c ← ids_in Some "/data/user_de";
  d ← ids_in Some "/data/media";
  e ← ids_in Some "/data/misc/profiles/cur";
  users_of_ids (dedup (sort_by N.compare (0 :: a ++ b ++ c ++ d ++ e))).

(** errno values that mean the credential key is not loaded: ENOKEY (126),
    EACCES, EPERM, EIO. *)
Definition locked_errno (e : Errno) : bool :=
  match e with
  | EOther code => code =? 126
  | ACCESS | PERM | IO => true
  | _ => false
  end.

(** The loop over the first entries: [(saw_ok, saw_locked)]. *)
Fixpoint probe_entries (dir : string) (names : list string) (saw_ok : bool)
    : M (bool * bool) :=
  match names with
  | [] => mret (saw_ok, false)
  | n :: names' =>
      r ← syscall (fs_entry_metadata (path_join dir n));
      match r with
      | Ok _ => probe_entries dir names' true
      | Err e => if locked_errno e then mret (saw_ok, true) else probe_entries dir names' saw_ok
      end
  end.

(** [if de_path.exists() { DeviceEncryptedOnly } else { Unknown }] *)
Definition de_or_unknown (de : string) : M EncryptionState :=
  e ← syscall (fs_exists de);
  mret (if e : bool then DeviceEncryptedOnly else EncUnknown).

(** A property is only consulted for [reports_fbe], which selects between two
    branches with the same result. *)
Definition check_encryption_state (user_id : N) : M EncryptionState :=
  let ce := if user_id =? 0 then "/data/data" else "/data/user/" +:+ pretty user_id in
  let de := "/data/user_de/" +:+ pretty user_id in
  data ← syscall (fs_exists "/data");
  if negb data then mret Unencrypted
  else
    let crypto_state := default "unencrypted" (env_property "ro.crypto.state") in
    let reports_fbe :=
      String.eqb crypto_state "encrypted"
      && match env_property "ro.crypto.type" with
         | Some t => String.eqb t "file" || String.eqb t "filesystem"
         | None => true
         end in
    ce1 ← syscall (fs_exists ce);
    neither ← (if negb ce1 then d ← syscall (fs_exists de); mret (negb d) else mret false);
    if neither : bool then mret EncUnknown
    else
      ce2 ← syscall (fs_exists ce);
      if negb ce2 then de_or_unknown de
      else
        rd ← syscall (fs_read_dir ce);
        match rd with
        | Err _ => de_or_unknown de
        | Ok entries =>
            probe ← probe_entries ce (take 8 (flatten entries)) false;
            let '(saw_ok, saw_locked) := probe : bool * bool in
            if saw_locked then de_or_unknown de
            else if saw_ok then mret FullyUnlocked
            else
              d1 ← (if reports_fbe then syscall (fs_exists de) else mret false);
              if d1 : bool then mret DeviceEncryptedOnly else de_or_unknown de
        end.

Record StorageState := mkStorageState {
  ce_available : bool;
  de_available : bool;
  user_unlocked : bool;
}.

Definition StorageState_for_user (user_id : N) : M StorageState :=
  enc_state ← check_encryption_state user_id;
  let ce_available := match enc_state with FullyUnlocked | Unencrypted => true | _ => false end in
  let de_available := match enc_state with
                      | FullyUnlocked | DeviceEncryptedOnly | Unencrypted => true
                      | EncUnknown => false
                      end in
  mret (mkStorageState ce_available de_available ce_available).
End platform.
