(* ===== verification/Catalog.v ===== *)
(** The target catalog of src/catalog/mod.rs: which directories may be cleaned,
    under which identifier, and from which discovery.  A snapshot is published
    as a whole with the generation of its discovery; the safety gate and the
    executor compare generations, so the theorems here say what a published
    snapshot contains and what a bumped generation does to the old targets. *)
From Stdlib Require Import Ascii String.
From S2P Require Import Prelude Paths Domain Config Safety Resource Store Effects Fs.
From S2P Require Import Platform.

Definition KNOWN_CACHE_SUBDIRS : list string := [
  "cache"; ".cache"; "app_webview/Default/Cache"; "app_webview/Default/Code Cache";
  "app_webview/Default/GPUCache"; "app_textures"; "splash_cache"; "image_cache";
  "fresco_cache"; "glide_cache"; "coil_cache"; "http-engine-cache"; "picasso-cache";
  "volley"; "disk_cache"; "network_cache"].

Definition SYSTEM_JUNK_LOCATIONS : list (string * TargetClass * TargetSafetyTier) := [
  ("/data/anr", Tombstones, StandardCache);
  ("/data/tombstones", Tombstones, StandardCache);
  ("/data/system/dropbox", LogArchive, StandardCache);
  ("/data/local/tmp", TempDir, StandardCache)].

Abbreviation Targets := (gmap string TargetDescriptor).

Record CatalogSnapshot := mkSnapshot {
  generation : CatalogGeneration;
  targets : Targets;
}.

Definition catalog_get (s : CatalogSnapshot) (t : TargetId) : option TargetDescriptor :=
  targets s !! t.

(** [TargetCatalog] is the snapshot behind its lock. *)
Definition TargetCatalog_new : CatalogSnapshot := mkSnapshot CatalogGeneration_INITIAL ∅.

Definition register_target (d : TargetDescriptor) (snap : CatalogSnapshot) : CatalogSnapshot :=
  mkSnapshot (generation snap) (<[td_target_id d := d]> (targets snap)).

Definition register_all (l : list (string * TargetDescriptor)) (snap : CatalogSnapshot)
    : CatalogSnapshot :=
  fold_left (fun s p => register_target (snd p) s) l snap.

(** [cur.next().unwrap_or(cur)] *)
Definition next_generation (cur : CatalogGeneration) : CatalogGeneration :=
  match CatalogGeneration_next cur with Ok g => g | Err _ => cur end.

Definition refresh_generation (snap : CatalogSnapshot) : CatalogGeneration * CatalogSnapshot :=
  let next := next_generation (generation snap) in
  (next, mkSnapshot next (targets snap)).

Definition take_snapshot (snap : CatalogSnapshot) : CatalogSnapshot := snap.

Definition app_target_id (user_id : N) (pkg_name sub : string) : string :=
  if user_id =? 0 then
    if String.eqb sub "cache" then "android:" +:+ pkg_name +:+ ":cache"
    else "android:" +:+ pkg_name +:+ ":" +:+ str_replace_char SLASH "_"%char sub +:+ ":cache"
  else if String.eqb sub "cache" then
    "android:u" +:+ pretty user_id +:+ ":" +:+ pkg_name +:+ ":cache"
  else
    "android:u" +:+ pretty user_id +:+ ":" +:+ pkg_name +:+ ":"
      +:+ str_replace_char SLASH "_"%char sub +:+ ":cache".

(** The name checks of [collect_android_user_targets]. *)
Definition package_name_ok (name : string) : bool :=
  is_utf8 name
  && negb (str_is_empty name || (255 <? str_len name) || str_contains_char NUL name).

Section catalog.
Context `{Kernel K} `{Env}.

(** [fs::metadata(path).map(uid, gid).unwrap_or((0, 0))] *)
Definition owner_of (path : string) : M (N * N) :=
  r ← syscall (fs_owner path); mret (default (0, 0) (result_ok r)).

(** The inner loop over the known cache directories of one package. *)
Fixpoint collect_subdirs (pkg_path pkg_name : string) (user_id : N)
    (gen : CatalogGeneration) (subs : list string) (count : nat) (out : Targets)
    : M (nat * Targets) :=
  match subs with
  | [] => mret (count, out)
  | sub :: subs' =>
      let cache_dir := path_join pkg_path sub in
      r ← open_root cache_dir;
      match r with
      | Err _ => collect_subdirs pkg_path pkg_name user_id gen subs' count out
      | Ok safe_handle =>
          owner ← owner_of cache_dir;
          match TargetId_try_new (app_target_id user_id pkg_name sub) with
          | Err _ => collect_subdirs pkg_path pkg_name user_id gen subs' count out
          | Ok tid =>
              if match out !! tid with
                 | Some existing => TargetSafetyTier_u8 (td_safety_tier existing)
                                      <=? TargetSafetyTier_u8 StandardCache
                 | None => false
                 end
              then collect_subdirs pkg_path pkg_name user_id gen subs' count out
              else
                let d := mkTarget tid AppCache cache_dir (h_dev safe_handle)
                           (h_ino safe_handle) (fst owner) (snd owner) (Some pkg_name)
                           StandardCache gen in
                collect_subdirs pkg_path pkg_name user_id gen subs' (S count) (<[tid := d]> out)
          end
      end
  end.

(** The loop over the entries of a user directory. *)
Fixpoint collect_packages (user_base : string) (user_id : N) (gen : CatalogGeneration)
    (names : list string) (count : nat) (out : Targets) : M (nat * Targets) :=
  match names with
  | [] => mret (count, out)
  | name :: names' =>
      let pkg_path := path_join user_base name in
      is_dir ← syscall (fs_is_dir pkg_path);
      if negb is_dir then collect_packages user_base user_id gen names' count out
      else if negb (package_name_ok name) then
        collect_packages user_base user_id gen names' count out
      else if (5000 <? size out)%nat then mret (count, out)
      else
        r ← collect_subdirs pkg_path name user_id gen KNOWN_CACHE_SUBDIRS count out;
        collect_packages user_base user_id gen names' (fst r) (snd r)
  end.

Definition collect_android_user_targets (user_base : string) (user_id : N)
    (gen : CatalogGeneration) (out : Targets) : M (nat * Targets) :=
  r ← syscall (fs_read_dir user_base);
  match r with
  | Err _ => mret (0%nat, out)
  | Ok entries => collect_packages user_base user_id gen (flatten entries) 0 out
  end.

Fixpoint collect_external (data_dir : string) (user_id : N) (gen : CatalogGeneration)
    (names : list string) (count : nat) (out : Targets) : M (nat * Targets) :=
  match names with
  | [] => mret (count, out)
  | name :: names' =>
      let pkg_path := path_join data_dir name in
      is_dir ← syscall (fs_is_dir pkg_path);
      if negb is_dir then collect_external data_dir user_id gen names' count out
      else if negb (is_utf8 name) then collect_external data_dir user_id gen names' count out
      else
        let cache_dir := path_join pkg_path "cache" in
        r ← open_root cache_dir;
        match r with
        | Err _ => collect_external data_dir user_id gen names' count out
        | Ok safe_handle =>
            match TargetId_try_new
                    ("android:u" +:+ pretty user_id +:+ ":" +:+ name +:+ ":ext_cache") with
            | Err _ => collect_external data_dir user_id gen names' count out
            | Ok tid =>
                owner ← owner_of cache_dir;
                let d := mkTarget tid ExternalCache cache_dir (h_dev safe_handle)
                           (h_ino safe_handle) (fst owner) (snd owner) (Some name)
                           StandardCache gen in
                collect_external data_dir user_id gen names' (S count) (<[tid := d]> out)
            end
        end
  end.

Definition collect_android_external_targets (media_base : string) (user_id : N)
    (gen : CatalogGeneration) (out : Targets) : M (nat * Targets) :=
  let data_dir := path_join media_base "Android/data" in
  r ← syscall (fs_read_dir data_dir);
  match r with
  | Err _ => mret (0%nat, out)
  | Ok entries => collect_external data_dir user_id gen (flatten entries) 0 out
  end.

(** [TargetId::new] cannot panic on these constant paths. *)
Fixpoint collect_system_loop (l : list (string * TargetClass * TargetSafetyTier))
    (gen : CatalogGeneration) (count : nat) (out : Targets) : M (nat * Targets) :=
  match l with
  | [] => mret (count, out)
  | (path, class, tier) :: l' =>
      r ← open_root path;
      match r with
      | Err _ => collect_system_loop l' gen count out
      | Ok safe_handle =>
          let tid := "system:" +:+ str_replace_char SLASH "_"%char path in
          owner ← owner_of path;
          let d := mkTarget tid class path (h_dev safe_handle) (h_ino safe_handle)
                     (fst owner) (snd owner) None tier gen in
          collect_system_loop l' gen (S count) (<[tid := d]> out)
      end
  end.

Definition collect_system_targets (gen : CatalogGeneration) (out : Targets)
    : M (nat * Targets) :=
  collect_system_loop SYSTEM_JUNK_LOCATIONS gen 0 out.

(** The loop of [discover_all_targets] over the users. *)
Fixpoint collect_users (users : list AndroidUser) (gen : CatalogGeneration)
    (found_any_user : bool) (staging : Targets) : M (bool * Targets) :=
  match users with
  | [] => mret (found_any_user, staging)
  | user :: users' =>
      enc_state ← check_encryption_state (u_user_id user);
      match enc_state with
      | FullyUnlocked | Unencrypted =>
          a ← collect_android_user_targets (ce_path user) (u_user_id user) gen staging;
          b ← collect_android_user_targets (de_path user) (u_user_id user) gen (snd a);
          c ← collect_android_external_targets (media_path user) (u_user_id user) gen (snd b);
          collect_users users' gen true (snd c)
      | DeviceEncryptedOnly =>
          a ← collect_android_user_targets (de_path user) (u_user_id user) gen staging;
          collect_users users' gen true (snd a)
      | EncUnknown => collect_users users' gen found_any_user staging
      end
  end.

Definition collect_fallback (gen : CatalogGeneration) (staging : Targets) : M Targets :=
  a ← collect_android_user_targets "/data/user/0" 0 gen staging;
  b ← collect_android_user_targets "/data/user_de/0" 0 gen (snd a);
  c ← collect_android_user_targets "/data/data" 0 gen (snd b);
  mret (snd c).

Definition discover_all_targets (snap : CatalogSnapshot) : M CatalogSnapshot :=
  let next_gen := next_generation (generation snap) in
  users ← enumerate_users;
  r ← collect_users users next_gen false ∅;
  staging ← (if negb (fst r) then collect_fallback next_gen (snd r) else mret (snd r));
  sys ← collect_system_targets next_gen staging;
  let staging := snd sys in
  if negb (bool_decide (staging = ∅)) || bool_decide (targets snap = ∅)
  then mret (mkSnapshot next_gen staging)
  else mret snap.

(** The incremental discoveries, which keep the generation. *)
Definition discover_android_user_targets_for_user (user_base : string) (user_id : N)
    (snap : CatalogSnapshot) : M (nat * CatalogSnapshot) :=
  r ← collect_android_user_targets user_base user_id (generation snap) ∅;
  mret (fst r, register_all (map_to_list (snd r)) snap).

Definition discover_android_user_targets (user_base : string) (snap : CatalogSnapshot) :=
  discover_android_user_targets_for_user user_base 0 snap.

Definition discover_android_external_targets (media_base : string) (user_id : N)
    (snap : CatalogSnapshot) : M (nat * CatalogSnapshot) :=
  r ← collect_android_external_targets media_base user_id (generation snap) ∅;
  mret (fst r, register_all (map_to_list (snd r)) snap).

Definition discover_system_targets (snap : CatalogSnapshot) : M (nat * CatalogSnapshot) :=
  r ← collect_system_targets (generation snap) ∅;
  mret (fst r, register_all (map_to_list (snd r)) snap).

(** [TargetId::new] panics on an invalid identifier, before the catalog is
    touched. *)
Definition register_target_simple (target_id base_path : string) (tier : TargetSafetyTier)
    (class : TargetClass) (package_name : string) (snap : CatalogSnapshot)
    : M (result fault CatalogSnapshot) :=
  r ← open_root base_path;
  match r with
  | Err e => mret (Err (Error e))
  | Ok safe_handle =>
      owner ← owner_of base_path;
      match TargetId_new target_id with
      | None => mret (Err (Panic "TargetId must be non-empty, <=512, no NUL/newline"))
      | Some tid =>
          mret (Ok (register_target
            (mkTarget tid class base_path (h_dev safe_handle) (h_ino safe_handle)
               (fst owner) (snd owner)
               (if str_is_empty package_name then None else Some package_name)
               tier (generation snap)) snap))
      end
  end.
End catalog.

(** ** What a discovery produces *)

(** Where a discovered target may lie. *)
Inductive origin (t : TargetDescriptor) : Prop :=
| from_app base name sub :
    package_name_ok name = true -> sub ∈ KNOWN_CACHE_SUBDIRS ->
    td_base_path t = path_join (path_join base name) sub ->
    td_target_class t = AppCache -> td_package_name t = Some name -> origin t
| from_external base name :
    td_base_path t = path_join (path_join (path_join base "Android/data") name) "cache" ->
    td_target_class t = ExternalCache -> td_package_name t = Some name -> origin t
| from_system :
    (td_base_path t, td_target_class t, td_safety_tier t) ∈ SYSTEM_JUNK_LOCATIONS -> origin t.

(** A target of a discovery with generation [gen], under its own key. *)
Record discovered (gen : CatalogGeneration) (k : string) (t : TargetDescriptor) : Prop := {
  disc_key : td_target_id t = k;
  disc_id : TargetId_try_new k = Ok k;
  disc_gen : td_catalog_generation t = gen;
  disc_tier : td_safety_tier t = StandardCache;
  disc_origin : origin t;
}.

Section discovery.
Context `{Kernel K} `{Env}.

Abbreviation good gen out := (map_Forall (discovered gen) out).

Lemma TargetId_try_new_ok s t : TargetId_try_new s = Ok t -> t = s.
Proof. unfold TargetId_try_new. case_match; [done|]. by intros [=]. Qed.

(** A loop that keeps a property of its accumulator. *)
Lemma wp_collect_subdirs base name user_id gen subs count out w :
  package_name_ok name = true -> (forall s, s ∈ subs -> s ∈ KNOWN_CACHE_SUBDIRS) ->
  good gen out ->
  wp (collect_subdirs (path_join base name) name user_id gen subs count out)
    (fun r _ => good gen (snd r)) w.
Proof.
  intros Hn. revert count out w. induction subs as [|sub subs IH]; intros count out w Hs Ho;
    cbn [collect_subdirs]; [done|].
  assert (forall s, s ∈ subs -> s ∈ KNOWN_CACHE_SUBDIRS) as Hs'
    by (intros s Hin; apply Hs; by constructor).
  apply wp_bind, wp_any. intros [h|e] w1; [|by apply IH].
  apply wp_bind, wp_any. intros owner w2.
  destruct (TargetId_try_new _) as [tid|] eqn:Et; [|by apply IH].
  destruct (match out !! tid with Some _ => _ | None => _ end); [by apply IH|].
  apply IH; [done|]. apply map_Forall_insert_2; [|done].
  pose proof (TargetId_try_new_ok _ _ Et). subst tid. constructor; try done.
  econstructor; [done|apply Hs; by constructor|done..].
Qed.

Lemma wp_collect_packages base user_id gen names count out w :
  good gen out ->
  wp (collect_packages base user_id gen names count out) (fun r _ => good gen (snd r)) w.
Proof.
  revert count out w. induction names as [|name names IH]; intros count out w Ho;
    cbn [collect_packages]; [done|].
  apply wp_bind, wp_any. intros is_dir w1. destruct is_dir; [|by apply IH]. simpl negb.
  cbv iota. destruct (package_name_ok name) eqn:En; [|by apply IH]. simpl negb. cbv iota.
  destruct (5000 <? size out)%nat; [done|].
  apply wp_bind. eapply wp_mono; [by apply wp_collect_subdirs|].
  intros r w2 Hr. by apply IH.
Qed.

Lemma wp_collect_user base user_id gen out w :
  good gen out ->
  wp (collect_android_user_targets base user_id gen out) (fun r _ => good gen (snd r)) w.
Proof.
  intros Ho. apply wp_bind, wp_any. intros [entries|e] w1; [|done].
  by apply wp_collect_packages.
Qed.

Lemma wp_collect_external_loop base user_id gen names count out w :
  good gen out ->
  wp (collect_external (path_join base "Android/data") user_id gen names count out)
    (fun r _ => good gen (snd r)) w.
Proof.
  revert count out w. induction names as [|name names IH]; intros count out w Ho;
    cbn [collect_external]; [done|].
  apply wp_bind, wp_any. intros is_dir w1. destruct is_dir; [|by apply IH]. simpl negb.
  cbv iota. destruct (is_utf8 name); [|by apply IH]. simpl negb. cbv iota zeta.
  apply wp_bind, wp_any. intros [h|e] w2; [|by apply IH].
  destruct (TargetId_try_new _) as [tid|] eqn:Et; [|by apply IH].
  apply wp_bind, wp_any. intros owner w3. apply IH. apply map_Forall_insert_2; [|done].
  pose proof (TargetId_try_new_ok _ _ Et). subst tid. constructor; try done.
  by eapply from_external.
Qed.

Lemma wp_collect_ext base user_id gen out w :
  good gen out ->
  wp (collect_android_external_targets base user_id gen out) (fun r _ => good gen (snd r)) w.
Proof.
  intros Ho. apply wp_bind, wp_any. intros [entries|e] w1; [|done].
  by apply wp_collect_external_loop.
Qed.

Lemma system_entry_ok path class tier :
  (path, class, tier) ∈ SYSTEM_JUNK_LOCATIONS ->
  tier = StandardCache /\
  let k := "system:" +:+ str_replace_char SLASH "_"%char path in TargetId_try_new k = Ok k.
Proof.
  unfold SYSTEM_JUNK_LOCATIONS. rewrite !elem_of_cons, elem_of_nil.
  intros [?|[?|[?|[?|[]]]]]; simplify_eq; by split.
Qed.

Lemma wp_collect_system_loop l gen count out w :
  (forall e, e ∈ l -> e ∈ SYSTEM_JUNK_LOCATIONS) -> good gen out ->
  wp (collect_system_loop l gen count out) (fun r _ => good gen (snd r)) w.
Proof.
  revert count out w. induction l as [|[[path class] tier] l IH]; intros count out w Hl Ho;
    cbn [collect_system_loop]; [done|].
  assert (forall e, e ∈ l -> e ∈ SYSTEM_JUNK_LOCATIONS) as Hl'
    by (intros e Hin; apply Hl; by constructor).
  apply wp_bind, wp_any. intros [h|e] w1; [|by apply IH].
  apply wp_bind, wp_any. intros owner w2. apply IH; [done|].
  apply map_Forall_insert_2; [|done].
  assert ((path, class, tier) ∈ SYSTEM_JUNK_LOCATIONS) as Hin by (apply Hl; constructor).
  destruct (system_entry_ok _ _ _ Hin). constructor; try done. by apply from_system.
Qed.

Lemma wp_collect_users users gen found staging w :
  good gen staging ->
  wp (collect_users users gen found staging) (fun r _ => good gen (snd r)) w.
Proof.
  revert found staging w. induction users as [|u users IH]; intros found staging w Hst;
    cbn [collect_users]; [done|].
  apply wp_bind, wp_any. intros enc w1.
  destruct enc; try (by apply IH); apply wp_bind;
    (eapply wp_mono; [by apply wp_collect_user|]); intros a w2 Ha; try (by apply IH).
  all: apply wp_bind; (eapply wp_mono; [by apply wp_collect_user|]); intros b w3 Hb;
    apply wp_bind; (eapply wp_mono; [by apply wp_collect_ext|]); intros c w4 Hc;
    by apply IH.
Qed.

Lemma wp_collect_fallback gen staging w :
  good gen staging -> wp (collect_fallback gen staging) (fun m _ => good gen m) w.
Proof.
  intros Hst. do 3 (apply wp_bind; eapply wp_mono; [by apply wp_collect_user|]; intros ? ? ?).
  done.
Qed.
Lemma wp_discover_all snap w :
  wp (discover_all_targets snap) (fun s' _ =>
    (s' = snap /\ targets snap <> ∅) \/
    (generation s' = next_generation (generation snap) /\
     map_Forall (discovered (generation s')) (targets s'))) w.
Proof.
  set (gen := next_generation (generation snap)).
  unfold discover_all_targets. fold gen. apply wp_bind, wp_any. intros users w1.
  apply wp_bind. eapply wp_mono; [apply wp_collect_users, map_Forall_empty|].
  intros r w2 Hr. apply wp_bind.
  apply (wp_mono _ (fun m _ => map_Forall (discovered gen) m)).
  { destruct (negb (fst r)); [by apply wp_collect_fallback|done]. }
  intros staging w3 Hst. apply wp_bind.
  eapply wp_mono; [by apply wp_collect_system_loop|]. intros sys w4 Hsys.
  destruct (negb _ || _) eqn:E; apply wp_ret; [by right|left].
  split; [done|]. apply orb_false_iff in E as [_ E]. by apply bool_decide_eq_false in E.
Qed.
End discovery.

Lemma next_generation_moves g :
  u64 (catalog_gen g) -> catalog_gen g <> U64_MAX -> g <> next_generation g.
Proof.
  destruct g as [n]. unfold next_generation, CatalogGeneration_next, checked_add, u64. simpl.
  intros Hu Hm. rewrite (proj2 (N.leb_le (n + 1) U64_MAX)) by lia. intros [=]. lia.
Qed.

(** ** Properties *)

(** What a discovery publishes, whatever the file system answers: either the
    last snapshot is kept as it was, which happens only if it has targets, or a
    snapshot of the next generation is published in which every target carries
    that generation, is filed under its own valid identifier, is of the standard
    tier, and lies in a known cache directory of a package, in an external cache
    directory, or at one of the fixed system locations. *)
Theorem discover_all_targets_spec `{Kernel K} `{Env} (snap : CatalogSnapshot) (w : World) :
  let s' := fst (discover_all_targets snap w) in
  (s' = snap /\ targets snap <> ∅) \/
  (generation s' = next_generation (generation snap) /\
   map_Forall (discovered (generation s')) (targets s')).
Proof. exact (wp_discover_all snap w). Qed.

(** Bumping the generation fails closed: after [refresh_generation] every
    target discovered before it is rejected at the mutation boundary under the
    catalog's new generation, until a new discovery replaces it. *)
Theorem refresh_generation_fails_closed snap t p id op cfg now :
  u64 (catalog_gen (generation snap)) -> catalog_gen (generation snap) <> U64_MAX ->
  td_catalog_generation t = generation snap ->
  is_ok (validate_mutation_boundary t p id op (generation (snd (refresh_generation snap)))
           cfg now) = false.
Proof.
  intros Hu Hmax Ht.
  assert (td_catalog_generation t <> generation (snd (refresh_generation snap))) as Hne.
  { rewrite Ht. simpl. by apply next_generation_moves. }
  unfold validate_mutation_boundary. case_match; [done|].
  destruct (verify_target_root_safety _); simpl; [|done].
  do 2 (case_match; [done|]). by rewrite (bool_decide_eq_false_2 _ Hne).
Qed.

Lemma refresh_generation_fails_closed_witness :
  is_ok (validate_mutation_boundary example_target "a.tmp" (mkFileIdentity 7 42) 1
    (generation (snd (refresh_generation
       (mkSnapshot (td_catalog_generation example_target) ∅)))) ConfigGeneration_INITIAL 100)
  = false.
Proof.
  apply refresh_generation_fails_closed; [vm_compute; discriminate|vm_compute; discriminate|].
  reflexivity.
Defined.

(** The dropbox entry of [SYSTEM_JUNK_LOCATIONS] can never be cleaned: it lies
    below a platform-invariant protected path, so both safety gates reject every
    entry of it, whatever the target's other fields. *)
Theorem dropbox_target_never_mutates t c p id op cat cfg now :
  td_base_path t = "/data/system/dropbox" ->
  is_ok (validate_candidate c t now) = false /\
  is_ok (validate_mutation_boundary t p id op cat cfg now) = false.
Proof.
  intros Ht.
  assert (is_ok (verify_target_root_safety (td_base_path t)) = false) as Hr
    by (rewrite Ht; vm_compute; reflexivity).
  split.
  - unfold validate_candidate. repeat (case_match; [done|]).
    by destruct (verify_target_root_safety _).
  - unfold validate_mutation_boundary. case_match; [done|].
    by destruct (verify_target_root_safety _).
Qed.

Lemma dropbox_target_never_mutates_witness :
  exists class tier, ("/data/system/dropbox", class, tier) ∈ SYSTEM_JUNK_LOCATIONS /\
  is_ok (validate_mutation_boundary
    (mkTarget "system:_data_system_dropbox" class "/data/system/dropbox" 7 1 0 0 None tier
       CatalogGeneration_INITIAL) "a" (mkFileIdentity 7 42) 1 CatalogGeneration_INITIAL
    ConfigGeneration_INITIAL 100) = false.
Proof.
  exists LogArchive, StandardCache. split.
  - do 2 right. left.
  - apply (dropbox_target_never_mutates _
      (mkCandidate 1 "t" "a" (mkFileIdentity 7 42) 0 0 None false false)). reflexivity.
Defined.
