(* ===== verification/Verifier.v ===== *)
(** The postcondition verifier of src/verifier/mod.rs: what the disk says of an
    entry after a removal or a crash. *)
From Stdlib Require Import Ascii String.
From S2P Require Import Prelude Paths Domain Resource Store Effects Fs Catalog.

Inductive VerificationOutcome :=
| ConfirmedDeleted | AlreadyGone | StillPresent | IdentityMismatch | ParentUnavailable
| TargetUnavailable | Stale | Unknown.

#[export] Instance VerificationOutcome_eq_dec : EqDecision VerificationOutcome.
Proof. solve_decision. Defined.

Definition is_successful_deletion (o : VerificationOutcome) : bool :=
  match o with ConfirmedDeleted | AlreadyGone => true | _ => false end.

(** [Debug] *)
Definition VerificationOutcome_debug (o : VerificationOutcome) : string :=
  match o with
  | ConfirmedDeleted => "ConfirmedDeleted" | AlreadyGone => "AlreadyGone"
  | StillPresent => "StillPresent" | IdentityMismatch => "IdentityMismatch"
  | ParentUnavailable => "ParentUnavailable" | TargetUnavailable => "TargetUnavailable"
  | Stale => "Stale" | Unknown => "Unknown"
  end.

(** The [match] of [verify_with_parent_handle]. *)
Definition outcome_of_stat (expected : FileIdentity) (r : result Errno FileIdentity)
    : VerificationOutcome :=
  match r with
  | Ok current_id => if bool_decide (current_id = expected) then StillPresent
                     else IdentityMismatch
  | Err NOENT => ConfirmedDeleted
  | Err ROFS | Err BUSY => TargetUnavailable
  | Err NOTDIR | Err STALE => ParentUnavailable
  | Err ACCESS | Err PERM => Unknown
  | Err IO => Unknown
  | Err _ => Unknown
  end.

(** The [match] on the error of opening a parent. *)
Definition outcome_of_open (e : Errno) : VerificationOutcome :=
  match e with
  | NOENT => AlreadyGone
  | ACCESS | PERM => ParentUnavailable
  | IO | STALE => Unknown
  | BUSY | ROFS => TargetUnavailable
  | _ => ParentUnavailable
  end.

Section verifier.
Context `{Kernel K} `{Env}.

Definition verify_with_parent_handle (parent_dir : SafeDirHandle) (leaf_name : string)
    (expected_identity : FileIdentity) : M VerificationOutcome :=
  r ← stat_child_errno parent_dir leaf_name; mret (outcome_of_stat expected_identity r).

(** The loop over the parent components. *)
Fixpoint open_parents (current_dir : SafeDirHandle) (comps : list Component)
    : M (result VerificationOutcome SafeDirHandle) :=
  match comps with
  | [] => mret (Ok current_dir)
  | comp :: comps' =>
      r ← open_child_dir_errno current_dir (component_str comp);
      match r with
      | Ok h => _ ← drop_handle current_dir; open_parents h comps'
      | Err e => _ ← drop_handle current_dir; mret (Err (outcome_of_open e))
      end
  end.

Definition verify_operation_postcondition (base_path rel_path : string)
    (expected_identity : FileIdentity) : M VerificationOutcome :=
  root ← open_root base_path;
  match root with
  | Err _ => mret TargetUnavailable
  | Ok root_handle =>
      match last (components rel_path) with
      | None => _ ← drop_handle root_handle; mret Unknown
      | Some leaf =>
          r ← open_parents root_handle (removelast (components rel_path));
          match r with
          | Err o => mret o
          | Ok current_dir =>
              o ← verify_with_parent_handle current_dir (component_str leaf) expected_identity;
              _ ← drop_handle current_dir;
              mret o
          end
      end
  end.

(** The loop of [verify_plan_postcondition]. *)
Fixpoint verify_operations (ops : list PlannedOperation) (catalog : CatalogSnapshot)
    (outcomes : gmap N VerificationOutcome) : M (gmap N VerificationOutcome) :=
  match ops with
  | [] => mret outcomes
  | op :: ops' =>
      match op_type op with
      | DeleteFile target_id rel_path expected_id _
      | DeleteDirEmpty target_id rel_path expected_id =>
          o ← match catalog_get catalog target_id with
              | Some target => verify_operation_postcondition (td_base_path target)
                                 (RelativePath.as_path rel_path) expected_id
              | None => mret TargetUnavailable
              end;
          verify_operations ops' catalog (<[op_id op := o]> outcomes)
      | _ => verify_operations ops' catalog outcomes
      end
  end.

Definition verify_plan_postcondition (plan : PlannedPlan) (catalog : CatalogSnapshot)
    : M (gmap N VerificationOutcome) :=
  if negb (bool_decide (plan_catalog_generation plan = generation catalog))
  then mret (fold_left (fun m op => <[op_id op := Stale]> m) (operations plan) ∅)
  else verify_operations (operations plan) catalog ∅.
End verifier.

Section lemmas.
Context `{Kernel K} `{Env}.

(** Verification adds at most a stat to the history, and reports a deletion
    only if that stat found no entry. *)
Lemma wp_verify_with_parent h leaf id w :
  wp (verify_with_parent_handle h leaf id) (fun o w' =>
    exists r evs, o = outcome_of_stat id r /\ moves w w' (w_rm w) evs /\
      ((evs = [] /\ exists e, r = Err e /\ validate_single_component leaf = Err e) \/
       evs = [EvStat (h_fd h) leaf r])) w.
Proof.
  unfold verify_with_parent_handle. apply wp_bind.
  eapply wp_mono; [apply wp_stat_child_errno|]. intros r w' Hr. apply wp_ret.
  destruct (validate_single_component leaf) as [|e] eqn:E.
  - eexists _, _. split; [done|]. split; [exact Hr|]. by right.
  - destruct Hr as [-> Hm]. eexists _, _. split; [done|]. split; [exact Hm|]. left. eauto.
Qed.

Lemma outcome_of_stat_success id r :
  is_successful_deletion (outcome_of_stat id r) = true <-> r = Err NOENT.
Proof. destruct r as [cur|[]]; simpl; [case_bool_decide|..]; split; by intros. Qed.
End lemmas.
