(* ===== verification/Executor.v ===== *)
(** The executor of src/executor/mod.rs, the only code that removes entries.

    [execute_plan] runs the operations of an authorized plan in order.  Each
    passes the cancellation poll, the dependency check and the capability check,
    then, for a deletion, the catalog lookup, the target lock, the safety
    recheck, the commit of its intent and the MUTATING mark, before the entry is
    removed through a descriptor of its parent, verified and recorded.  The local
    variables of the function are the record [Exec]; a [continue] returns it, a
    [?] leaves the whole function with an error.  Throttling only delays and has
    no other effect.

    The theorems hold for every kernel, clock, refusal of SQLite and pattern of
    cancellation. *)
From Stdlib Require Import Ascii String.
From S2P Require Import Prelude Paths Domain Config Safety Resource Store Effects Fs.
From S2P Require Import Catalog Verifier.

Record ActiveDirCache `{Kernel K} := mkDirCache {
  ac_target_id : TargetId;
  ac_parent_path : list Component;
  ac_handle : SafeDirHandle;
}.
Arguments mkDirCache {K _}.

(** The mutable locals of [execute_plan]. *)
Record Exec `{Kernel K} := mkExec {
  results : list OperationFinalResult;
  total_reclaimed : ByteCount.t;
  success_count : nat;
  failed_count : nat;
  skipped_count : nat;
  successful_op_ids : gset N;
  active_dir_cache : option ActiveDirCache;
}.
Arguments mkExec {K _}.

(** The capability an operation needs, as the executor matches it. *)
Definition has_capability (g : CapabilityGrant) (op : OperationType) : bool :=
  match op with
  | DeleteFile target_id rel_path _ _ =>
      capabilities_contains g (CapDeleteFile target_id rel_path)
  | DeleteDirEmpty target_id rel_path _ | PruneDirRecursive target_id rel_path _ =>
      capabilities_contains g (CapDeleteDirectory target_id rel_path)
  | TrimFilesystem mount_path => capabilities_contains g (CapTrimMount mount_path)
  | VacuumDatabase db_path => capabilities_contains g (CapVacuumDatabase db_path)
  end.

(** The arguments of [execute_plan] its operations use. *)
Record ExecArgs := mkArgs {
  authorized : AuthorizedPlan;
  catalog : CatalogSnapshot;
  attempt_id : AttemptId;
}.

(** One deletion, file or empty directory. *)
Record Deletion := mkDeletion {
  d_op_id : OperationId;
  d_target_id : TargetId;
  d_rel_path : RelativePath.t;
  d_identity : FileIdentity;
  d_size : ByteCount.t;
  d_is_dir : bool;
}.

Definition d_mutation_type (d : Deletion) : MutationType :=
  if d_is_dir d then MutDeleteDirEmpty else MutDeleteFile.

Section executor.
Context `{Kernel K} `{Env}.

Definition exec_init : Exec := mkExec [] ByteCount.ZERO 0 0 0 ∅ None.

Definition push_result (st : Exec) (r : OperationFinalResult) : Exec :=
  mkExec (results st ++ [r]) (total_reclaimed st) (success_count st) (failed_count st)
    (skipped_count st) (successful_op_ids st) (active_dir_cache st).
Definition count_failed (st : Exec) : Exec :=
  mkExec (results st) (total_reclaimed st) (success_count st) (S (failed_count st))
    (skipped_count st) (successful_op_ids st) (active_dir_cache st).
Definition count_skipped (st : Exec) : Exec :=
  mkExec (results st) (total_reclaimed st) (success_count st) (failed_count st)
    (S (skipped_count st)) (successful_op_ids st) (active_dir_cache st).
Definition count_success (st : Exec) (op : OperationId) : Exec :=
  mkExec (results st) (total_reclaimed st) (S (success_count st)) (failed_count st)
    (skipped_count st) ({[op]} ∪ successful_op_ids st) (active_dir_cache st).
Definition add_reclaimed (st : Exec) (bytes : ByteCount.t) : Exec :=
  mkExec (results st) (ByteCount.saturating_add (total_reclaimed st) bytes)
    (success_count st) (failed_count st) (skipped_count st) (successful_op_ids st)
    (active_dir_cache st).
Definition set_cache (st : Exec) (c : option ActiveDirCache) : Exec :=
  mkExec (results st) (total_reclaimed st) (success_count st) (failed_count st)
    (skipped_count st) (successful_op_ids st) c.

(** [failed_count += 1; results.push(res); continue] *)
Definition fail_op (op : OperationId) (status : OperationStatus) (st : Exec)
    : M (result CleanerError Exec) :=
  now ← get_now;
  mret (Ok (push_result (count_failed st) (mkFinal op status ByteCount.ZERO now))).

(** [skipped_count += 1; results.push(res); continue] *)
Definition skip_op (op : OperationId) (status : OperationStatus) (st : Exec)
    : M (result CleanerError Exec) :=
  now ← get_now;
  mret (Ok (push_result (count_skipped st) (mkFinal op status ByteCount.ZERO now))).

(** Replacing the cached handle drops the old one. *)
Definition drop_cache (c : option ActiveDirCache) : M unit :=
  match c with Some c => drop_handle (ac_handle c) | None => mret tt end.

(** The loop of [get_or_open_parent_dir] over the parent's components. *)
Fixpoint open_path_components (current_dir : SafeDirHandle) (comps : list Component)
    : M (result CleanerError SafeDirHandle) :=
  match comps with
  | [] => mret (Ok current_dir)
  | comp :: comps' =>
      permit ← with_rm acquire_fd_permit;
      r ← open_child_dir_with_permit current_dir (component_str comp) (result_ok permit);
      _ ← drop_handle current_dir;
      match r with
      | Ok child => open_path_components child comps'
      | Err e => mret (Err e)
      end
  end.

(** The branch of [get_or_open_parent_dir] that opens the parent and caches it. *)
Definition open_parent_dir (cache : option ActiveDirCache) (target : TargetDescriptor)
    (parent_path : list Component) : M (result CleanerError (SafeDirHandle * ActiveDirCache)) :=
  permit ← with_rm acquire_fd_permit;
  root ←? open_root_with_permit (td_base_path target) (result_ok permit);
  handle ←? open_path_components root parent_path;
  _ ← drop_cache cache;
  mret (Ok (handle, mkDirCache (td_target_id target) parent_path handle)).

(** The handle, the leaf name and the cache afterwards. *)
Definition get_or_open_parent_dir (cache : option ActiveDirCache) (target : TargetDescriptor)
    (rel_path : string)
    : M (result CleanerError (SafeDirHandle * string * ActiveDirCache)) :=
  let parent_path := parent_components rel_path in
  match file_name rel_path with
  | None => mret (Err (SafetyViolation "Invalid UTF-8 in leaf filename"))
  | Some leaf_name =>
      let opened := r ←? open_parent_dir cache target parent_path;
                    mret (Ok (fst r, leaf_name, snd r)) in
      match cache with
      | Some c => if bool_decide (ac_target_id c = td_target_id target)
                     && bool_decide (ac_parent_path c = parent_path)
                  then mret (Ok (ac_handle c, leaf_name, c)) else opened
      | None => opened
      end
  end.

(** [store.update_intent_state(..)?]: an error leaves [execute_plan], which
    drops the cached handle. *)
Definition set_intent_state (a : ExecArgs) (op : OperationId) (state : string) (st : Exec)
    (k : M (result CleanerError Exec)) : M (result CleanerError Exec) :=
  r ← with_store (fun now f => update_intent_state env_sql_text (attempt_id a) op state now f);
  match r with
  | Ok _ => k
  | Err e => _ ← drop_cache (active_dir_cache st); mret (Err e)
  end.

(** The lock is held for [body] and dropped however it ends. *)
Definition with_target_lock (a : ExecArgs) (target_id : TargetId)
    (collision : CleanerError -> M (result CleanerError Exec))
    (body : M (result CleanerError Exec)) : M (result CleanerError Exec) :=
  l ← with_rm (fun rm => acquire_target_lock_for_attempt rm target_id (attempt_id a));
  match l with
  | Err e => collision e
  | Ok lock => r ← body; _ ← modify_rm (drop_target_lock lock); mret r
  end.

(** What the pair of a removal's result and its verification means. *)
Record Verdict := mkVerdict {
  v_success : bool;
  v_intent : string;
  v_status : OperationStatus;
  v_reclaimed : ByteCount.t;
}.

Definition file_verdict (size : ByteCount.t) (mutation_res : result CleanerError unit)
    (outcome : VerificationOutcome) : Verdict :=
  match mutation_res, outcome with
  | Ok _, (ConfirmedDeleted | AlreadyGone) => mkVerdict true "VERIFIED_SUCCESS" Success size
  | Err _, (ConfirmedDeleted | AlreadyGone) =>
      mkVerdict true "VERIFIED_SUCCESS" Success ByteCount.ZERO
  | Ok _, (StillPresent | IdentityMismatch) =>
      mkVerdict false "VERIFIED_FAILED" (VerificationFailed
        ("Postcondition verification failed: " +:+ VerificationOutcome_debug outcome))
        ByteCount.ZERO
  | Ok _, _ =>
      mkVerdict false "RESOLVED_UNKNOWN" (VerificationFailed
        ("Postcondition verification unresolved: " +:+ VerificationOutcome_debug outcome))
        ByteCount.ZERO
  | Err e, (Unknown | ParentUnavailable | TargetUnavailable) =>
      mkVerdict false "RESOLVED_UNKNOWN"
        (Failed ("Mutation error with unknown disk outcome: " +:+ show_error e)) ByteCount.ZERO
  | Err e, _ => mkVerdict false "VERIFIED_FAILED" (Failed (show_error e)) ByteCount.ZERO
  end.

Definition dir_verdict (mutation_res : result CleanerError unit)
    (outcome : VerificationOutcome) : Verdict :=
  match mutation_res, outcome with
  | Ok _, (ConfirmedDeleted | AlreadyGone) | Err _, (ConfirmedDeleted | AlreadyGone) =>
      mkVerdict true "VERIFIED_SUCCESS" Success ByteCount.ZERO
  | Ok _, (StillPresent | IdentityMismatch) =>
      mkVerdict false "VERIFIED_FAILED" (VerificationFailed
        "Rmdir postcondition verification failed: StillPresent/Mismatch") ByteCount.ZERO
  | Ok _, _ =>
      mkVerdict false "RESOLVED_UNKNOWN" (VerificationFailed
        ("Rmdir postcondition unresolved: " +:+ VerificationOutcome_debug outcome))
        ByteCount.ZERO
  | Err e, (Unknown | ParentUnavailable | TargetUnavailable) =>
      mkVerdict false "RESOLVED_UNKNOWN"
        (Failed ("Rmdir error with unknown disk outcome: " +:+ show_error e)) ByteCount.ZERO
  | Err e, _ =>
      mkVerdict false "VERIFIED_FAILED" (Failed ("Rmdir failed: " +:+ show_error e))
        ByteCount.ZERO
  end.

Definition apply_verdict (d : Deletion) (v : Verdict) (removed : bool) (st : Exec) : Exec :=
  if v_success v then
    let st := count_success st (d_op_id d) in
    if negb (d_is_dir d) && removed then add_reclaimed st (v_reclaimed v) else st
  else count_failed st.

(** Steps 8 to 10 on the parent's handle: remove, verify, mark, record. *)
Definition finish_deletion (a : ExecArgs) (d : Deletion) (h : SafeDirHandle) (leaf : string)
    (st : Exec) : M (result CleanerError Exec) :=
  mutation_res ← (if d_is_dir d then rmdir_child_dir h leaf (d_identity d)
                  else unlink_child_file h leaf (d_identity d));
  outcome ← verify_with_parent_handle h leaf (d_identity d);
  st ← (if d_is_dir d then
          _ ← drop_cache (active_dir_cache st); mret (set_cache st None)
        else mret st);
  let v := if d_is_dir d then dir_verdict mutation_res outcome
           else file_verdict (d_size d) mutation_res outcome in
  let st := apply_verdict d v (is_ok mutation_res) st in
  set_intent_state a (d_op_id d) (v_intent v) st (
    now ← get_now;
    let res := mkFinal (d_op_id d) (v_status v) (v_reclaimed v) now in
    _ ← with_store (fun _ f => record_operation_result env_sql_text
          (plan_job_id (plan (authorized a))) (plan_id (plan (authorized a)))
          (d_target_id d) (MutationType_display (d_mutation_type d))
          (RelativePath.as_str (d_rel_path d)) (d_identity d) (d_size d) res f);
    mret (Ok (push_result st res))).

(** The two deletion arms, which differ in the data of [Deletion], the error
    text of the parent and the calls of [finish_deletion]. *)
Definition delete_entry (a : ExecArgs) (d : Deletion) (st : Exec)
    : M (result CleanerError Exec) :=
  let op := d_op_id d in
  let cat := generation (catalog a) in
  let cfg := grant_config_generation (grant (authorized a)) in
  match catalog_get (catalog a) (d_target_id d) with
  | None => fail_op op (Failed ("Target " +:+ TargetId_display (d_target_id d)
              +:+ " not found in catalog snapshot")) st
  | Some target =>
      with_target_lock a (d_target_id d)
        (fun e => fail_op op (Failed ("Target lock collision: " +:+ show_error e)) st)
        (t0 ← get_now;
         match validate_mutation_boundary target (RelativePath.as_path (d_rel_path d))
                 (d_identity d) op cat cfg t0 with
         | Err e =>
             fail_op op (Failed ("Safety gate boundary rejection: " +:+ show_error e)) st
         | Ok _ =>
             t1 ← get_now;
             let intent := OperationIntent_new (plan_job_id (plan (authorized a)))
               (attempt_id a) op (d_target_id d) (d_rel_path d) (d_identity d) (d_size d)
               (d_mutation_type d) cat cfg t1 in
             committed ← with_store (fun _ f => commit_operation_intent env_sql_text intent f);
             match committed with
             | Err e => fail_op op (Failed
                 ("Intent commit failed (mutation not attempted): " +:+ show_error e)) st
             | Ok _ =>
                 set_intent_state a op "MUTATING" st (
                   p ← get_or_open_parent_dir (active_dir_cache st) target
                         (RelativePath.as_path (d_rel_path d));
                   match p with
                   | Err e => fail_op op (Failed
                       ((if d_is_dir d then "Failed to resolve parent directory for rmdir: "
                         else "Failed to resolve parent directory: ") +:+ show_error e)) st
                   | Ok (h, leaf, cache) =>
                       finish_deletion a d h leaf (set_cache st (Some cache))
                   end)
             end
         end)
  end.

Definition delete_file (a : ExecArgs) (op : OperationId) (target_id : TargetId)
    (rel_path : RelativePath.t) (expected_identity : FileIdentity)
    (estimated_size : ByteCount.t) : Exec -> M (result CleanerError Exec) :=
  delete_entry a (mkDeletion op target_id rel_path expected_identity estimated_size false).

Definition delete_dir_empty (a : ExecArgs) (op : OperationId) (target_id : TargetId)
    (rel_path : RelativePath.t) (expected_identity : FileIdentity)
    : Exec -> M (result CleanerError Exec) :=
  delete_entry a (mkDeletion op target_id rel_path expected_identity ByteCount.ZERO true).

Definition dependencies_unfulfilled (op : PlannedOperation) (st : Exec) : bool :=
  existsb (fun dep => negb (bool_decide (dep ∈ successful_op_ids st))) (dependencies op).

(** The body of the loop. *)
Definition execute_op (a : ExecArgs) (op : PlannedOperation) (st : Exec)
    : M (result CleanerError Exec) :=
  cancelled ← is_cancelled;
  if cancelled : bool then skip_op (op_id op) Preempted st
  else if dependencies_unfulfilled op st then
    skip_op (op_id op) (Skipped "Precondition dependency failed or unfulfilled") st
  else if negb (has_capability (grant (authorized a)) (op_type op)) then
    fail_op (op_id op) (Failed
      "Capability authorization denial: operation not granted in CapabilityGrant") st
  else
    match op_type op with
    | DeleteFile target_id rel_path expected_identity estimated_size =>
        delete_file a (op_id op) target_id rel_path expected_identity estimated_size st
    | DeleteDirEmpty target_id rel_path expected_identity =>
        delete_dir_empty a (op_id op) target_id rel_path expected_identity st
    | PruneDirRecursive _ _ _ =>
        skip_op (op_id op) (Skipped
          "PruneDirRecursive is deprecated in favor of hierarchical DAG atomic deletions") st
    | TrimFilesystem _ | VacuumDatabase _ =>
        skip_op (op_id op) (Skipped "Maintenance operation delegated to subsystem") st
    end.

Fixpoint execute_ops (a : ExecArgs) (ops : list PlannedOperation) (st : Exec)
    : M (result CleanerError Exec) :=
  match ops with
  | [] => mret (Ok st)
  | op :: ops' => st' ←? execute_op a op st; execute_ops a ops' st'
  end.

Definition execute_plan (a : ExecArgs) (current_config_gen : ConfigGeneration)
    : M (result CleanerError JobResult) :=
  start_time ← get_millis;
  now ← get_now;
  if negb (is_authorized_for_execution (authorized a) now (generation (catalog a))
             current_config_gen)
  then mret (Err (SafetyViolation
         "Execution rejected: AuthorizedPlan has expired or generation is invalid"))
  else
    st ←? execute_ops a (operations (plan (authorized a))) exec_init;
    end_time ← get_millis;
    _ ← drop_cache (active_dir_cache st);
    mret (Ok (mkJobResult (plan_job_id (plan (authorized a))) (attempt_id a)
      (total_reclaimed st) (length (operations (plan (authorized a)))) (success_count st)
      (failed_count st) (skipped_count st) (saturating_sub end_time start_time))).
End executor.

(** ** Descriptors and the history *)

Section history.
Context `{Kernel K} `{Env}.

(** [fd] was obtained by opening [root] and then each of [names] below it,
    never following a link, and every directory on the way is on [device]. *)
Inductive resolved (tr : list Event) (root : string) : list string -> Fd -> N -> Prop :=
| resolved_root fd device : EvOpenRoot root fd device ∈ tr -> resolved tr root [] fd device
| resolved_child names fd name fd' device :
    resolved tr root names fd device -> single_component name ->
    EvOpenChild fd name fd' device ∈ tr -> resolved tr root (names ++ [name]) fd' device.

Lemma resolved_mono tr tr' root names fd device :
  (forall e, e ∈ tr -> e ∈ tr') ->
  resolved tr root names fd device -> resolved tr' root names fd device.
Proof. intros Hsub. induction 1; [apply resolved_root|eapply resolved_child]; eauto. Qed.

Lemma resolved_app evs tr root names fd device :
  resolved tr root names fd device -> resolved (evs ++ tr) root names fd device.
Proof. apply resolved_mono. intros e He. apply elem_of_app. by right. Qed.

Definition is_unlink (e : Event) : Prop :=
  match e with EvUnlink _ _ _ _ _ _ => True | _ => False end.

(** The permits a handle or a cache holds. *)
Definition permit_fds (p : option FdPermit) : N := match p with Some _ => 1 | None => 0 end.
Definition cache_fds (c : option ActiveDirCache) : N :=
  match c with Some c => permit_fds (h_permit (ac_handle c)) | None => 0 end.

(** The manager has the locks of [rm0] and [n] descriptors more. *)
Record rm_same (rm0 rm : ResourceManager) (n : N) : Prop := {
  same_targets : locked_targets rm = locked_targets rm0;
  same_storages : locked_storages rm = locked_storages rm0;
  same_mounts : locked_mounts rm = locked_mounts rm0;
  same_max : max_fds rm = max_fds rm0;
  same_fds : active_fds rm = active_fds rm0 + n;
}.

Lemma rm_same_refl rm : rm_same rm rm 0.
Proof. constructor; try done. lia. Qed.

Lemma rm_same_drop rm0 rm n p :
  rm_same rm0 rm (n + permit_fds p) -> rm_same rm0 (drop_permit p rm) n.
Proof.
  intros [? ? ? ? Hf]. destruct p; constructor; simpl in *; try done.
  - unfold saturating_sub. lia.
  - by rewrite Hf, N.add_0_r.
Qed.

Lemma rm_same_acquire rm0 rm n r rm' :
  rm_same rm0 rm n -> acquire_fd_permit rm = (r, rm') ->
  rm_same rm0 rm' (n + permit_fds (result_ok r)).
Proof.
  intros [? ? ? ? Hf]. unfold acquire_fd_permit.
  destruct (max_fds rm <=? active_fds rm); intros [= <- <-]; constructor; simpl; try done; lia.
Qed.

(** What opening directories leaves alone. *)
Record opens (w w' : World) : Prop := {
  op_store : w_store w' = w_store w;
  op_step : (w_step w <= w_step w')%nat;
  op_trace : exists evs, w_trace w' = evs ++ w_trace w /\ Forall (fun e => ~ is_unlink e) evs;
}.

#[global] Instance opens_refl : Reflexive opens.
Proof. intros w. constructor; try done. by exists []. Qed.
#[global] Instance opens_trans : Transitive opens.
Proof.
  intros w1 w2 w3 [S1 N1 (e1 & T1 & F1)] [S2 N2 (e2 & T2 & F2)].
  constructor; [congruence|lia|]. exists (e2 ++ e1). rewrite T2, T1, app_assoc.
  split; [done|]. by apply Forall_app.
Qed.

Lemma moves_opens w w' rm evs :
  moves w w' rm evs -> Forall (fun e => ~ is_unlink e) evs -> opens w w'.
Proof. intros [? ? ? Hs] ?. constructor; [done|lia|by eexists]. Qed.

Lemma opens_resolved w w' root names fd device :
  opens w w' -> resolved (w_trace w) root names fd device ->
  resolved (w_trace w') root names fd device.
Proof. intros [_ _ (evs & -> & _)]. apply resolved_app. Qed.

(** Changing the manager alone. *)
Lemma opens_rm w w' rm : opens w w' -> opens w (w_set_rm rm w').
Proof. intros [? ? ?]. by constructor. Qed.

Lemma wp_open_path_components rm0 n root cur comps names w :
  resolved (w_trace w) root names (h_fd cur) (h_dev cur) ->
  rm_same rm0 (w_rm w) (n + permit_fds (h_permit cur)) ->
  wp (open_path_components cur comps) (fun r w' => opens w w' /\
    match r with
    | Ok h => resolved (w_trace w') root (names ++ map component_str comps) (h_fd h) (h_dev h)
              /\ rm_same rm0 (w_rm w') (n + permit_fds (h_permit h))
    | Err _ => rm_same rm0 (w_rm w') n
    end) w.
Proof.
  revert cur names w. induction comps as [|c comps IH]; intros cur names w Hres Hrm;
    cbn [open_path_components].
  { apply wp_ret. split; [done|]. by rewrite app_nil_r. }
  apply wp_bind, wp_with_rm. intros permit rm1 Hacq.
  pose proof (rm_same_acquire _ _ _ _ _ Hrm Hacq) as Hrm1.
  apply wp_bind. eapply wp_mono; [apply wp_open_child|]. intros r w2 Hr.
  unfold drop_handle. wp_steps. destruct r as [child|e].
  - destruct Hr as (Hn & Hd & Hp & Hm). destruct Hm as [Hs Hrm2 Ht Hst]. simpl in *.
    eapply wp_mono; [apply (IH child (names ++ [component_str c]))|].
    + simpl. rewrite Ht, Hd. eapply resolved_child; [|done|].
      * by apply (resolved_app [_]).
      * left.
    + simpl. rewrite Hrm2, Hp. apply rm_same_drop.
      replace (n + permit_fds (result_ok permit) + permit_fds (h_permit cur))
        with (n + permit_fds (h_permit cur) + permit_fds (result_ok permit)) by lia. done.
    + intros r w' [Ho Hpost]. split.
      * etransitivity; [|exact Ho]. constructor; simpl; [done|lia|]. exists [EvOpenChild (h_fd cur) (component_str c) (h_fd child) (h_dev child)].
        split; [done|]. constructor; [tauto|constructor].
      * destruct r; [|done]. by rewrite <- app_assoc in Hpost.
  - apply wp_ret. destruct Hr as [Hs Hrm2 Ht Hst]. simpl in *. split.
    + constructor; simpl; [done|lia|]. by exists [].
    + rewrite Hrm2. do 2 apply rm_same_drop. done.
Qed.
End history.

(** ** The invariant of a run *)

(** The snapshot files its targets under their own identifiers. *)
Definition catalog_wf (c : CatalogSnapshot) : Prop :=
  map_Forall (fun k t => td_target_id t = k) (targets c).

(** The operation that a deletion carries out. *)
Definition deletion_op (d : Deletion) (op : PlannedOperation) : Prop :=
  op_id op = d_op_id d /\
  op_type op = (if d_is_dir d then DeleteDirEmpty (d_target_id d) (d_rel_path d) (d_identity d)
                else DeleteFile (d_target_id d) (d_rel_path d) (d_identity d) (d_size d)).

(** The row of an operation's intent in [s], in a given state. *)
Definition intent_in (s : Store) (attempt op : N) (state : string) (r : IntentRow) : Prop :=
  r ∈ operation_intents s /\ intent_key r = (attempt, op) /\ ir_state r = state.

Section invariant.
Context `{Kernel K} `{Env} (a : ExecArgs).

(** Why a removal was allowed to be issued, given the older history. *)
Record justified (fd : Fd) (name : string) (rd : bool) (s : Store) (rm : ResourceManager)
    (older : list Event) (d : Deletion) (op : PlannedOperation) (t : TargetDescriptor)
    : Prop := {
  j_planned : op ∈ operations (plan (authorized a));
  j_op : deletion_op d op;
  j_kind : d_is_dir d = rd;
  j_granted : has_capability (grant (authorized a)) (op_type op) = true;
  j_catalog : catalog_get (catalog a) (d_target_id d) = Some t;
  j_safe : mutation_safe t (d_rel_path d) (d_identity d);
  j_generation : td_catalog_generation t = generation (catalog a);
  j_parent : exists device,
    resolved older (td_base_path t) (map component_str (parent_components (d_rel_path d)))
      fd device;
  j_leaf : file_name (d_rel_path d) = Some name;
  j_single : single_component name;
  j_checked : head older = Some (EvStat fd name (Ok (d_identity d)));
  j_intent : exists r, intent_in s (attempt_id a) (d_op_id d) "MUTATING" r /\
    ir_target_id r = d_target_id d /\ ir_rel_path r = d_rel_path d /\
    ir_expected_dev r = dev (d_identity d) /\ ir_expected_ino r = ino (d_identity d);
  j_locked : exists res, locked_targets rm !! d_target_id d = Some (attempt_id a, res);
  j_dependencies : forall dep, dep ∈ dependencies op ->
    exists r, intent_in s (attempt_id a) dep "VERIFIED_SUCCESS" r;
}.

(** Every removal of a history is justified by what came before it. *)
Fixpoint good_trace (tr : list Event) : Prop :=
  match tr with
  | [] => True
  | e :: older =>
      match e with
      | EvUnlink fd name rd s rm _ => exists d op t, justified fd name rd s rm older d op t
      | _ => True
      end /\ good_trace older
  end.

Lemma good_trace_app evs tr :
  Forall (fun e => ~ is_unlink e) evs -> good_trace tr -> good_trace (evs ++ tr).
Proof. induction 1 as [|e evs He _ IH]; simpl; [done|]. destruct e; simpl in *; tauto. Qed.

Lemma good_trace_nil w : w_trace w = [] -> good_trace (w_trace w).
Proof. by intros ->. Qed.

Lemma opens_good w w' : opens w w' -> good_trace (w_trace w) -> good_trace (w_trace w').
Proof. intros [_ _ (evs & -> & Hf)]. by apply good_trace_app. Qed.

(** The cached handle is the parent it claims to be. *)
Definition cache_ok (tr : list Event) (c : ActiveDirCache) : Prop :=
  exists t, catalog_get (catalog a) (ac_target_id c) = Some t /\
    resolved tr (td_base_path t) (map component_str (ac_parent_path c))
      (h_fd (ac_handle c)) (h_dev (ac_handle c)).

Lemma cache_ok_opens w w' c : opens w w' -> cache_ok (w_trace w) c -> cache_ok (w_trace w') c.
Proof. intros Ho (t & Ht & Hr). exists t. split; [done|]. by eapply opens_resolved. Qed.

Definition option_cache_ok (tr : list Event) (c : option ActiveDirCache) : Prop :=
  match c with Some c => cache_ok tr c | None => True end.

Lemma drop_cache_same rm0 n c w :
  rm_same rm0 (w_rm w) (n + cache_fds c) ->
  wp (drop_cache c) (fun _ w' => opens w w' /\ rm_same rm0 (w_rm w') n) w.
Proof.
  intros Hrm. destruct c as [c|]; simpl in *.
  - apply wp_modify_rm. simpl. split; [by apply opens_rm|]. by apply rm_same_drop.
  - apply wp_ret. split; [done|]. by rewrite N.add_0_r in Hrm.
Qed.

Lemma drop_cache_trace c w : wp (drop_cache c) (fun _ w' => w_trace w' = w_trace w) w.
Proof. destruct c as [c|]; [by apply wp_modify_rm|by apply wp_ret]. Qed.

Lemma wp_open_parent_dir rm0 cache target parent w :
  catalog_get (catalog a) (td_target_id target) = Some target ->
  rm_same rm0 (w_rm w) (cache_fds cache) ->
  wp (open_parent_dir cache target parent) (fun r w' => opens w w' /\
    match r with
    | Ok (h, c) => cache_ok (w_trace w') c /\ ac_handle c = h /\
        ac_target_id c = td_target_id target /\ ac_parent_path c = parent /\
        rm_same rm0 (w_rm w') (permit_fds (h_permit h))
    | Err _ => rm_same rm0 (w_rm w') (cache_fds cache)
    end) w.
Proof.
  intros Hcat Hrm. unfold open_parent_dir.
  apply wp_bind, wp_with_rm. intros permit rm1 Hacq.
  pose proof (rm_same_acquire _ _ _ _ _ Hrm Hacq) as Hrm1.
  apply wp_try. eapply wp_mono; [apply wp_open_root|]. intros [root|e] w1; simpl.
  2: { intros Hm. split.
       - apply (moves_opens _ _ _ _) in Hm; [|constructor]. etransitivity; [|exact Hm].
         by apply opens_rm.
       - destruct Hm as [_ -> _ _]. by apply rm_same_drop. }
  intros [Hp Hm]. assert (opens w w1) as Ho1.
  { apply (moves_opens _ _ _ _) in Hm; [|constructor; [tauto|constructor]].
    etransitivity; [|exact Hm]. by apply opens_rm. }
  destruct Hm as [_ Hrm2 Ht _]. simpl in *.
  apply wp_try. eapply wp_mono.
  { apply (wp_open_path_components rm0 (cache_fds cache) (td_base_path target) root parent []).
    - rewrite Ht. apply resolved_root. left.
    - by rewrite Hrm2, Hp. }
  intros [h|e] w2 [Ho2 Hpost].
  2: { split; [by transitivity w1|done]. }
  destruct Hpost as [Hres Hrm3]. apply wp_bind.
  rewrite N.add_comm in Hrm3. eapply wp_mono; [by apply drop_cache_same|].
  intros _ w3 [Ho3 Hrm4]. apply wp_ret. split.
  { transitivity w1; [done|]. by transitivity w2. }
  split; [|done]. exists target. split; [done|]. by eapply opens_resolved.
Qed.

Lemma wp_get_or_open rm0 cache target rel w :
  catalog_get (catalog a) (td_target_id target) = Some target ->
  option_cache_ok (w_trace w) cache ->
  rm_same rm0 (w_rm w) (cache_fds cache) ->
  wp (get_or_open_parent_dir cache target rel) (fun r w' => opens w w' /\
    match r with
    | Ok (h, leaf, c) => file_name rel = Some leaf /\ cache_ok (w_trace w') c /\
        ac_handle c = h /\ ac_target_id c = td_target_id target /\
        ac_parent_path c = parent_components rel /\ rm_same rm0 (w_rm w') (cache_fds (Some c))
    | Err _ => rm_same rm0 (w_rm w') (cache_fds cache)
    end) w.
Proof.
  intros Hcat Hok Hrm. unfold get_or_open_parent_dir.
  destruct (file_name rel) as [leaf|] eqn:Ef; [|by apply wp_ret].
  assert (forall cache0, rm_same rm0 (w_rm w) (cache_fds cache0) ->
    wp (r ←? open_parent_dir cache0 target (parent_components rel);
        mret (Ok (fst r, leaf, snd r))) (fun r w' => opens w w' /\
    match r with
    | Ok (h, leaf', c) => Some leaf = Some leaf' /\ cache_ok (w_trace w') c /\
        ac_handle c = h /\ ac_target_id c = td_target_id target /\
        ac_parent_path c = parent_components rel /\ rm_same rm0 (w_rm w') (cache_fds (Some c))
    | Err _ => rm_same rm0 (w_rm w') (cache_fds cache0)
    end) w) as Hopened.
  { intros cache0 Hrm'. apply wp_try.
    eapply wp_mono; [by apply wp_open_parent_dir|]. intros [[h c]|e] w1; [|done].
    intros (Ho & Hc & Hh & Ht & Hp & Hr). apply wp_ret. simpl.
    split; [done|]. rewrite Hh. done. }
  destruct cache as [c|]; [|by apply Hopened].
  destruct (_ && _) eqn:E; [|by apply Hopened].
  apply andb_true_iff in E as [E1%bool_decide_eq_true E2%bool_decide_eq_true].
  apply wp_ret. split; [done|]. done.
Qed.
End invariant.

(** ** Intents in the store *)

Lemma commit_intent_rows txt i f s id s' :
  commit_operation_intent txt i f s = (Ok id, s') ->
  ((i_attempt_id i, i_op_id i) ∉ map intent_key (operation_intents s)) /\
  operation_intents s' = operation_intents s ++ [intent_row id i].
Proof. intros [_ (Hk & _ & -> & ->)%insert_intent_ok]%run_stmt_ok. done. Qed.

Lemma update_intent_rows txt at_ op state now f s u s' :
  update_intent_state txt at_ op state now f s = (Ok u, s') ->
  operation_intents s' = map (mark_intent at_ op state now) (operation_intents s).
Proof. intros [_ [_ E]%bound_ok]%run_stmt_ok. by simplify_eq. Qed.

Lemma record_result_rows txt j p t ty rp id est res f s r s' :
  record_operation_result txt j p t ty rp id est res f s = (r, s') ->
  operation_intents s' = operation_intents s.
Proof.
  unfold record_operation_result. destruct (status_columns _) as [status msg].
  destruct r as [u|e]; [|by intros ->%run_stmt_err].
  intros [_ [_ E]%bound_ok]%run_stmt_ok. destruct (job_exists s j); by simplify_eq.
Qed.

Lemma intent_in_app s s' new at_ op state r :
  operation_intents s' = operation_intents s ++ new ->
  intent_in s at_ op state r -> intent_in s' at_ op state r.
Proof. intros E (Hr & ?). split; [|done]. rewrite E. apply elem_of_app. by left. Qed.

Lemma intent_in_other s s' at_ op op' state state' now r :
  operation_intents s' = map (mark_intent at_ op' state' now) (operation_intents s) ->
  op <> op' -> intent_in s at_ op state r -> intent_in s' at_ op state r.
Proof.
  intros E Hne (Hr & Hk & Hs). split; [|done]. rewrite E. apply list_elem_of_fmap.
  exists r. split; [|done]. unfold mark_intent. rewrite bool_decide_eq_false_2; [done|].
  rewrite Hk. congruence.
Qed.

Lemma intent_in_marked s s' at_ op state state' now r :
  operation_intents s' = map (mark_intent at_ op state' now) (operation_intents s) ->
  intent_in s at_ op state r ->
  intent_in s' at_ op state' (mark_intent at_ op state' now r) /\
  same_intent r (mark_intent at_ op state' now r).
Proof.
  intros E (Hr & Hk & Hs). split; [|apply mark_intent_same]. split.
  - rewrite E. by apply list_elem_of_fmap_2.
  - unfold mark_intent. by rewrite bool_decide_eq_true_2.
Qed.

(** ** One operation *)

(** Bytes an operation may claim. *)
Definition op_size (op : PlannedOperation) : N :=
  match op_type op with DeleteFile _ _ _ size => size | _ => 0 end.

(** How the locals change over one operation: one result, counted once. *)
Record accounts `{Kernel K} (op : PlannedOperation) (st st' : Exec) (r : OperationFinalResult)
    : Prop := {
  acc_results : results st' = results st ++ [r];
  acc_op : r_op_id r = op_id op;
  acc_counts :
    (success_count st', failed_count st', skipped_count st') =
    match r_status r with
    | Success => (S (success_count st), failed_count st, skipped_count st)
    | Failed _ | VerificationFailed _ => (success_count st, S (failed_count st), skipped_count st)
    | Skipped _ | Preempted => (success_count st, failed_count st, S (skipped_count st))
    end;
  acc_done : successful_op_ids st' =
    if is_success (r_status r) then {[op_id op]} ∪ successful_op_ids st else successful_op_ids st;
  acc_total : u64 (total_reclaimed st) ->
    total_reclaimed st' = saturating_add (total_reclaimed st) (r_reclaimed_bytes r);
}.

Definition is_failure (s : OperationStatus) : bool :=
  match s with Failed _ | VerificationFailed _ => true | _ => false end.
Definition is_skip (s : OperationStatus) : bool :=
  match s with Skipped _ | Preempted => true | _ => false end.

(** The last two events of an operation, if they are a removal that succeeded and the
    look at its place that found nothing: whether it was of a directory. *)
Definition confirmed_removal `{Kernel K} (evs : list Event) : option bool :=
  match evs with
  | EvStat _ _ (Err NOENT) :: EvUnlink _ _ rd _ _ (Ok _) :: _ => Some rd
  | _ => None
  end.

(** What the result [r] of an operation says about the events [evs] it caused: bytes for
    a confirmed removal of a file, its planned size, and for nothing else; success after
    every confirmed removal, and only if the last look found nothing; and a skip only if
    nothing was done at all. *)
Record op_report `{Kernel K} (op : PlannedOperation) (evs : list Event) (r : OperationFinalResult)
    : Prop := {
  rep_op : r_op_id r = op_id op;
  rep_bytes : r_reclaimed_bytes r =
    match confirmed_removal evs with Some false => op_size op | _ => 0 end;
  rep_removed : confirmed_removal evs <> None -> r_status r = Success;
  rep_success : r_status r = Success ->
    exists fd name older, evs = EvStat fd name (Err NOENT) :: older;
  rep_skip : is_skip (r_status r) = true -> evs = [];
}.

Lemma confirmed_none `{Kernel K} evs :
  Forall (fun e => ~ is_unlink e) evs -> confirmed_removal evs = None.
Proof.
  destruct evs as [|e1 [|e2 evs]]; [done|by destruct e1 as [| |? ? [|[]]|]|].
  intros [_ [H2 _]%Forall_cons]%Forall_cons. by destruct e1 as [| |? ? [|[]]|], e2.
Qed.

(** A failure before the removal, and a skip. *)
Lemma op_report_failed `{Kernel K} op evs e now :
  Forall (fun e => ~ is_unlink e) evs -> op_report op evs (mkFinal (op_id op) (Failed e) 0 now).
Proof. intros Hf. constructor; try done; by rewrite confirmed_none. Qed.

Lemma op_report_skipped `{Kernel K} op status now :
  is_skip status = true -> op_report op [] (mkFinal (op_id op) status 0 now).
Proof. intros Hs. constructor; try done. by simpl; intros ->. Qed.

Lemma saturating_add_0_r n : u64 n -> n = saturating_add n 0.
Proof. unfold u64, saturating_add. lia. Qed.

Section one_op.
Context `{Kernel K} `{Env} (a : ExecArgs).

Record Inv (rm0 : ResourceManager) (st : Exec) (w : World) : Prop := {
  inv_trace : good_trace a (w_trace w);
  inv_cache : option_cache_ok a (w_trace w) (active_dir_cache st);
  inv_done : forall o, o ∈ successful_op_ids st ->
    exists r, intent_in (w_store w) (attempt_id a) o "VERIFIED_SUCCESS" r;
  inv_rm : rm_same rm0 (w_rm w) (cache_fds (active_dir_cache st));
}.

(** What a step of the run leaves, on success and on an error; [tr0] is the history at
    the start of the operation. *)
Definition op_post (rm0 : ResourceManager) (op : PlannedOperation) (st : Exec)
    (tr0 : list Event) (r : result CleanerError Exec) (w' : World) : Prop :=
  match r with
  | Ok st' => Inv rm0 st' w' /\ exists evs res, w_trace w' = evs ++ tr0 /\
      accounts op st st' res /\ op_report op evs res
  | Err _ => good_trace a (w_trace w') /\ rm_same rm0 (w_rm w') 0
  end.

Lemma Inv_opens rm0 st w w' :
  opens w w' -> rm_same rm0 (w_rm w') (cache_fds (active_dir_cache st)) ->
  Inv rm0 st w -> Inv rm0 st w'.
Proof.
  intros Ho Hrm [Ht Hc Hd _]. constructor; [by eapply opens_good| |by rewrite (op_store _ _ Ho)|done].
  destruct (active_dir_cache st); simpl in *; [|done]. by eapply cache_ok_opens.
Qed.

Lemma opens_tick w : opens w (w_tick w).
Proof. constructor; simpl; [done|lia|]. by exists []. Qed.

(** So far the operation has removed nothing. *)
Definition only_looked (tr0 : list Event) (w : World) : Prop :=
  exists evs, w_trace w = evs ++ tr0 /\ Forall (fun e => ~ is_unlink e) evs.

Lemma only_looked_refl w : only_looked (w_trace w) w.
Proof. by exists []. Qed.
Lemma only_looked_opens tr0 w w' : opens w w' -> only_looked tr0 w -> only_looked tr0 w'.
Proof.
  intros [_ _ (e2 & T2 & F2)] (e1 & T1 & F1). exists (e2 ++ e1).
  rewrite T2, T1, app_assoc. split; [done|]. by apply Forall_app.
Qed.

Lemma wp_fail_op rm0 op st tr0 (error : string) w :
  Inv rm0 st w -> only_looked tr0 w ->
  wp (fail_op (op_id op) (Failed error) st) (op_post rm0 op st tr0) w.
Proof.
  intros HI (evs & Htr & Hevs). unfold fail_op. wp_steps. split.
  - apply (Inv_opens rm0 st w (w_tick w)) in HI; [|apply opens_tick|apply HI].
    destruct HI. by constructor.
  - eexists _, _. split; [exact Htr|]. split; [|by apply op_report_failed].
    constructor; try done; simpl; apply saturating_add_0_r.
Qed.

Lemma wp_skip_op rm0 op st status w :
  is_skip status = true ->
  Inv rm0 st w -> wp (skip_op (op_id op) status st) (op_post rm0 op st (w_trace w)) w.
Proof.
  intros Hs HI. unfold skip_op. wp_steps. split.
  - apply (Inv_opens rm0 st w (w_tick w)) in HI; [|apply opens_tick|apply HI].
    destruct HI. by constructor.
  - exists []. eexists. split; [done|]. split; [|by apply op_report_skipped].
    constructor; try done; simpl; try apply saturating_add_0_r; by destruct status.
Qed.

(** Storing the state of an operation that has not succeeded yet. *)
Lemma wp_set_intent rm0 d state st st0 k Q w :
  Inv rm0 st w -> d_op_id d ∉ successful_op_ids st ->
  active_dir_cache st0 = active_dir_cache st ->
  (forall now s', operation_intents s' = map (mark_intent (attempt_id a) (d_op_id d) state now)
                    (operation_intents (w_store w)) ->
     let w' := w_set_store s' (w_tick w) in
     Inv rm0 st w' -> wp k Q w') ->
  (forall e w', good_trace a (w_trace w') -> rm_same rm0 (w_rm w') 0 -> Q (Err e) w') ->
  wp (set_intent_state a (d_op_id d) state st0 k) Q w.
Proof.
  intros HI Hfresh Hc Hk Herr. unfold set_intent_state.
  apply wp_bind, wp_with_store. intros [u|e] s' Hupd.
  - pose proof (update_intent_rows _ _ _ _ _ _ _ _ _ Hupd) as Hrows.
    apply (Hk _ s' Hrows). destruct HI as [Ht Hch Hd Hr]. constructor; try done.
    intros o Ho. destruct (Hd o Ho) as [r Hin]. exists r.
    eapply intent_in_other; [done| |done]. intros ->. done.
  - pose proof (run_stmt_err _ _ _ _ _ _ _ Hupd) as ->. apply wp_bind. rewrite Hc.
    destruct HI as [Ht Hch Hd Hr].
    eapply wp_mono; [by apply (drop_cache_same rm0 0)|]. intros _ w' [Ho Hrm].
    apply wp_ret. apply Herr; [|done]. by eapply opens_good.
Qed.

(** An operation that passed every gate: what [delete_entry] knows when it
    reaches the removal. *)
Record ready (rm0 : ResourceManager) (d : Deletion) (op : PlannedOperation)
    (t : TargetDescriptor) (st : Exec) (s : Store) : Prop := {
  rd_planned : op ∈ operations (plan (authorized a));
  rd_op : deletion_op d op;
  rd_granted : has_capability (grant (authorized a)) (op_type op) = true;
  rd_catalog : catalog_get (catalog a) (d_target_id d) = Some t;
  rd_key : td_target_id t = d_target_id d;
  rd_safe : mutation_safe t (d_rel_path d) (d_identity d);
  rd_generation : td_catalog_generation t = generation (catalog a);
  rd_locked : exists res, locked_targets rm0 !! d_target_id d = Some (attempt_id a, res);
  rd_fresh : d_op_id d ∉ successful_op_ids st;
  rd_dependencies : forall dep, dep ∈ dependencies op -> dep ∈ successful_op_ids st;
  rd_intent : exists r, intent_in s (attempt_id a) (d_op_id d) "MUTATING" r /\
    ir_target_id r = d_target_id d /\ ir_rel_path r = d_rel_path d /\
    ir_expected_dev r = dev (d_identity d) /\ ir_expected_ino r = ino (d_identity d);
}.

(** The removal keeps the history good. *)
Lemma removal_good rm0 d op t st c h leaf w r evs :
  Inv rm0 st w -> ready rm0 d op t st (w_store w) ->
  active_dir_cache st = Some c -> ac_handle c = h ->
  ac_target_id c = td_target_id t -> ac_parent_path c = parent_components (d_rel_path d) ->
  file_name (d_rel_path d) = Some leaf ->
  removal h leaf (d_identity d) (d_is_dir d) w r evs ->
  good_trace a (evs ++ w_trace w).
Proof.
  intros HI Hrd Hc Hh Ht Hp Hleaf Hrem. pose proof (inv_trace _ _ _ HI) as Hgood.
  destruct Hrem as [e|r' e Hr|r' Hsingle]; simpl; try done.
  split; [|done]. exists d, op, t. destruct Hrd. pose proof (inv_cache _ _ _ HI) as Hco.
  rewrite Hc in Hco. destruct Hco as (t' & Ht' & Hres).
  assert (t' = t) as -> by congruence.
  constructor; try done.
  - exists (h_dev h). apply (resolved_app [_]). by rewrite <- Hp, <- Hh.
  - destruct rd_locked0 as [res Hl]. exists res. by rewrite (same_targets _ _ _ (inv_rm _ _ _ HI)).
  - intros dep Hdep. by apply (inv_done _ _ _ HI), rd_dependencies0.
Qed.

Lemma Inv_moves rm0 st w w' evs :
  Inv rm0 st w -> moves w w' (w_rm w) evs -> good_trace a (evs ++ w_trace w) -> Inv rm0 st w'.
Proof.
  intros [Ht Hc Hd Hr] [Hs Hrm Htr Hst] Hg. constructor.
  - by rewrite Htr.
  - rewrite Htr. destruct (active_dir_cache st); [|done]. destruct Hc as (t & Ht' & Hres).
    exists t. split; [done|]. by apply resolved_app.
  - by rewrite Hs.
  - by rewrite Hrm.
Qed.

(** The verdict's state, status and counting agree. *)
Lemma verdict_shape d m o :
  let v := if d_is_dir d then dir_verdict m o else file_verdict (d_size d) m o in
  if v_success v then v_status v = Success /\ v_intent v = "VERIFIED_SUCCESS" /\
    is_successful_deletion o = true /\
    v_reclaimed v = (if negb (d_is_dir d) && is_ok m then d_size d else 0)
  else (exists e, v_status v = Failed e \/ v_status v = VerificationFailed e) /\
    v_reclaimed v = 0.
Proof. destruct (d_is_dir d), m as [|], o; simpl; try done; eauto. Qed.

(** The counters after the verdict. *)
Lemma verdict_accounts d op m o st now :
  deletion_op d op ->
  let v := if d_is_dir d then dir_verdict m o else file_verdict (d_size d) m o in
  let res := mkFinal (d_op_id d) (v_status v) (v_reclaimed v) now in
  accounts op st (push_result (apply_verdict d v (is_ok m) st) res) res.
Proof.
  intros [Hid Hty] v res. pose proof (verdict_shape d m o) as Hv. cbv zeta in Hv. fold v in Hv.
  unfold apply_verdict. subst res. destruct (v_success v).
  - destruct Hv as (Hs & _ & _ & Hr). rewrite Hs, Hr.
    destruct (negb (d_is_dir d) && is_ok m) eqn:E.
    + constructor; simpl; try done; by rewrite Hid.
    + constructor; simpl; try done; [by rewrite Hid|apply saturating_add_0_r].
  - destruct Hv as [(e & [Hs|Hs]) Hr]; rewrite Hs, Hr;
      constructor; simpl; try done; apply saturating_add_0_r.
Qed.

(** The verdict says what the events of the removal and the verification show. *)
Lemma verdict_report d op m h leaf w r evs evs0 now :
  deletion_op d op -> removal h leaf (d_identity d) (d_is_dir d) w m evs ->
  Forall (fun e => ~ is_unlink e) evs0 ->
  let o := outcome_of_stat (d_identity d) r in
  let v := if d_is_dir d then dir_verdict m o else file_verdict (d_size d) m o in
  op_report op (EvStat (h_fd h) leaf r :: evs ++ evs0) (mkFinal (d_op_id d) (v_status v) (v_reclaimed v) now).
Proof.
  intros [Hid Hty] Hrem Hevs0 o v.
  pose proof (verdict_shape d m o) as Hv. cbv zeta in Hv. fold v in Hv.
  assert (v_success v = true <-> r = Err NOENT) as Hok.
  { rewrite <- (outcome_of_stat_success (d_identity d)). fold o. unfold v. generalize o.
    intros o'. destruct (d_is_dir d), m, o'; done. }
  assert (v_status v = Success <-> v_success v = true) as Hst.
  { destruct (v_success v); [split; [done|]; intros _; apply Hv|].
    destruct Hv as [(e & [-> | ->]) _]; done. }
  assert (confirmed_removal (EvStat (h_fd h) leaf r :: evs ++ evs0) =
          if v_success v && is_ok m then Some (d_is_dir d) else None) as Hconf.
  { destruct (v_success v) eqn:Es.
    - rewrite (proj1 Hok eq_refl). destruct Hrem as [e|r' e _|r' _]; simpl.
      + destruct evs0 as [|e0 evs0]; [done|]. apply Forall_cons in Hevs0 as [He0 _]. by destruct e0.
      + done.
      + by destruct r'.
    - destruct r as [i|e]; [done|]. destruct e; try done. by pose proof (proj2 Hok eq_refl). }
  constructor; simpl r_op_id; simpl r_status; simpl r_reclaimed_bytes.
  - done.
  - rewrite Hconf. unfold op_size. rewrite Hty. destruct (v_success v), (d_is_dir d), m; simpl in *; try tauto.
    all: by destruct Hv as (_ & _ & _ & ->).
  - rewrite Hconf. intros Hn. apply Hst. by destruct (v_success v).
  - intros Hs%Hst%Hok. subst r. eauto.
  - destruct (v_success v); [destruct Hv as (-> & _); done|]. by destruct Hv as [(e & [-> | ->]) _].
Qed.

(** The same if the name is not one component: then nothing is removed. *)
Lemma verdict_report_invalid d op m h leaf w e evs evs0 now :
  deletion_op d op -> removal h leaf (d_identity d) (d_is_dir d) w m evs ->
  validate_single_component leaf = Err e -> Forall (fun e => ~ is_unlink e) evs0 ->
  let o := outcome_of_stat (d_identity d) (Err e) in
  let v := if d_is_dir d then dir_verdict m o else file_verdict (d_size d) m o in
  op_report op (evs ++ evs0) (mkFinal (d_op_id d) (v_status v) (v_reclaimed v) now).
Proof.
  intros [Hid Hty] Hrem Hbad Hevs0 o v.
  assert (Forall (fun e => ~ is_unlink e) (evs ++ evs0)) as Hf.
  { apply Forall_app. split; [|done]. destruct Hrem as [|r' e' _|r' Hs].
    - constructor.
    - constructor; [tauto|constructor].
    - unfold single_component in Hs. congruence. }
  assert (e = INVAL) as -> by (unfold validate_single_component in Hbad; by destruct (_ || _); simplify_eq).
  pose proof (verdict_shape d m o) as Hv. cbv zeta in Hv. fold v in Hv.
  assert (v_success v = false) as Hno by (unfold v; by destruct (d_is_dir d), m).
  rewrite Hno in Hv. destruct Hv as [(e & [Hs|Hs]) Hr]; rewrite Hs, Hr.
  all: constructor; try done; by rewrite confirmed_none.
Qed.

Lemma accounts_cache op st c st' r : accounts op (set_cache st c) st' r -> accounts op st st' r.
Proof. intros []. by constructor. Qed.

(** After the removal: the cached handle of a removed directory is dropped. *)
Lemma wp_invalidate rm0 d st w :
  Inv rm0 st w ->
  wp (if d_is_dir d then _ ← drop_cache (active_dir_cache st); mret (set_cache st None)
      else mret st)
    (fun st' w' => Inv rm0 st' w' /\ w_store w' = w_store w /\ w_trace w' = w_trace w /\
       (st' = st \/ st' = set_cache st None)) w.
Proof.
  intros HI. destruct (d_is_dir d); [|apply wp_ret; by eauto].
  apply wp_bind. eapply wp_mono.
  { apply wp_and; [by apply (drop_cache_same rm0 0), (inv_rm _ _ _ HI)|apply drop_cache_trace]. }
  intros _ w' [[Ho Hrm] Htr]. apply wp_ret. split; [|split; [apply Ho|split; [done|by right]]].
  destruct HI as [Ht Hc Hd Hr]. constructor; simpl; try done.
  - by eapply opens_good.
  - by rewrite (op_store _ _ Ho).
Qed.

(** Marking the verdict and recording the result. *)
Lemma wp_record rm0 d op t m o st1 tr0 w job_id_ plan_id_ s :
  Inv rm0 st1 w -> ready rm0 d op t st1 s -> w_store w = s ->
  let v := if d_is_dir d then dir_verdict m o else file_verdict (d_size d) m o in
  let st2 := apply_verdict d v (is_ok m) st1 in
  (exists evs, w_trace w = evs ++ tr0 /\
     forall now, op_report op evs (mkFinal (d_op_id d) (v_status v) (v_reclaimed v) now)) ->
  wp (set_intent_state a (d_op_id d) (v_intent v) st2 (
        now ← get_now;
        let res := mkFinal (d_op_id d) (v_status v) (v_reclaimed v) now in
        _ ← with_store (fun _ f => record_operation_result env_sql_text job_id_ plan_id_
              (d_target_id d) (MutationType_display (d_mutation_type d))
              (RelativePath.as_str (d_rel_path d)) (d_identity d) (d_size d) res f);
        mret (Ok (push_result st2 res)))) (op_post rm0 op st1 tr0) w.
Proof.
  intros HI Hrd Hs v st2 (evs & Hevs & Hrep). pose proof (verdict_shape d m o) as Hv. cbv zeta in Hv. fold v in Hv.
  apply (wp_set_intent rm0 d (v_intent v) st1); [done|apply Hrd| | |].
  - unfold st2, apply_verdict. by repeat case_match.
  - intros now s' Hrows w' HI'. apply wp_bind, wp_now. intros t1. cbv zeta.
    apply wp_bind, wp_with_store. intros r s'' Hrec. apply record_result_rows in Hrec.
    apply wp_ret. split.
    2: { eexists _, _. split; [exact Hevs|]. split; [|by apply Hrep].
         apply (verdict_accounts d op m o). apply Hrd. }
    destruct HI' as [Ht Hc Hd Hrm].
    assert (active_dir_cache (push_result st2 (mkFinal (d_op_id d) (v_status v) (v_reclaimed v) t1))
            = active_dir_cache st1) as Hcache
      by (unfold st2, apply_verdict; by repeat case_match).
    constructor; simpl.
    + done.
    + by rewrite <- Hcache in Hc.
    + assert (forall o0, o0 ∈ successful_op_ids st2 ->
        exists r0, intent_in s' (attempt_id a) o0 "VERIFIED_SUCCESS" r0) as Hdone.
      { intros o0. unfold st2, apply_verdict. destruct (v_success v).
        - destruct Hv as (_ & Hvi & _). destruct (rd_intent _ _ _ _ _ _ Hrd) as (r0 & Hr0 & _).
          rewrite <- Hs in Hr0.
          assert (o0 ∈ {[d_op_id d]} ∪ successful_op_ids st1 ->
            exists r1, intent_in s' (attempt_id a) o0 "VERIFIED_SUCCESS" r1) as Hu.
          { rewrite elem_of_union, elem_of_singleton. intros [->|Ho0]; [|by apply Hd].
            rewrite Hvi in Hrows. eexists. by eapply intent_in_marked. }
          by case_match.
        - apply Hd. }
      intros o0 Ho0. destruct (Hdone o0 Ho0) as (r0 & Hin & ?). exists r0.
      split; [|done]. by rewrite Hrec.
    + by rewrite <- Hcache in Hrm.
  - by intros e w' Hg Hr.
Qed.

Lemma wp_finish_deletion rm0 d op t st c h leaf tr0 w :
  Inv rm0 st w -> only_looked tr0 w -> ready rm0 d op t st (w_store w) ->
  active_dir_cache st = Some c -> ac_handle c = h ->
  ac_target_id c = td_target_id t -> ac_parent_path c = parent_components (d_rel_path d) ->
  file_name (d_rel_path d) = Some leaf ->
  wp (finish_deletion a d h leaf st) (op_post rm0 op st tr0) w.
Proof.
  intros HI (evs0 & Htr0 & Hevs0) Hrd Hc Hh Ht Hp Hleaf. unfold finish_deletion. apply wp_bind.
  apply (wp_mono _ (fun r w' => exists evs, moves w w' (w_rm w) evs /\
           removal h leaf (d_identity d) (d_is_dir d) w r evs)).
  { destruct (d_is_dir d); [apply wp_rmdir_child|apply wp_unlink_child]. }
  intros m w1 (evs & Hm & Hrem).
  assert (Inv rm0 st w1) as HI1 by (eapply Inv_moves; [done..|by eapply removal_good]).
  apply wp_bind. eapply wp_mono; [apply wp_verify_with_parent|].
  intros o w2 (r & evs2 & Ho & Hm2 & Hevs2).
  assert (Inv rm0 st w2) as HI2.
  { eapply Inv_moves; [done..|]. apply good_trace_app; [|apply HI1].
    destruct Hevs2 as [[-> _]| ->]; repeat constructor. by intros []. }
  apply wp_bind. eapply wp_mono; [by apply wp_invalidate|].
  intros st1 w3 (HI3 & Hs3 & Ht3 & Hst1). cbv zeta.
  assert (w_store w3 = w_store w) as Hs by (rewrite Hs3, (mv_store _ _ _ _ Hm2); apply Hm).
  assert (ready rm0 d op t st1 (w_store w)) as Hrd1.
  { destruct Hst1 as [-> | ->]; [done|]. destruct Hrd. by constructor. }
  eapply wp_mono; [apply (wp_record rm0 d op t m o st1 tr0 w3 _ _ (w_store w) HI3 Hrd1 Hs)|].
  { exists (evs2 ++ evs ++ evs0). split.
    { by rewrite Ht3, (mv_trace _ _ _ _ Hm2), (mv_trace _ _ _ _ Hm), Htr0, !app_assoc. }
    intros now. rewrite Ho. destruct Hevs2 as [[-> (e & -> & Hbad)]| ->].
    - cbn [app]. apply (verdict_report_invalid d op m h leaf w e evs evs0 now (rd_op _ _ _ _ _ _ Hrd) Hrem Hbad Hevs0).
    - cbn [app]. apply (verdict_report d op m h leaf w r evs evs0 now (rd_op _ _ _ _ _ _ Hrd) Hrem Hevs0). }
  intros [st'|e] w'; [|done].
  intros [HI' (evs' & res & Htr' & Hacc & Hrep)]. split; [done|]. exists evs', res. split; [done|].
  split; [|done]. destruct Hst1 as [-> | ->]; [done|]. by eapply accounts_cache.
Qed.

(** Taking a target lock and giving it back. *)
Lemma lock_same rm0 rm n t at_ p rm' :
  rm_same rm0 rm n -> acquire_target_lock_for_attempt rm t at_ = (Ok p, rm') ->
  exists rm0', rm_same rm0' rm' n /\
    (exists res, locked_targets rm0' !! t = Some (at_, res)) /\
    (forall rm'' m, rm_same rm0' rm'' m -> rm_same rm0 (drop_target_lock p rm'') m).
Proof.
  intros [Ht Hs Hm Hx Hf] Hacq. unfold acquire_target_lock_for_attempt in Hacq.
  destruct (locked_targets rm !! t) as [[? ?]|] eqn:El; [done|]. simplify_eq.
  rewrite Ht in El.
  exists (set_locked_targets rm0 (<[t := (at_, reservation_counter rm)]> (locked_targets rm0)) 0).
  split; [by constructor; simpl; rewrite ?Ht|]. split; [eexists; apply lookup_insert_eq|].
  intros rm'' m [Ht' Hs' Hm' Hx' Hf']. unfold drop_target_lock. simpl in *.
  rewrite Ht', lookup_insert_eq, N.eqb_refl. constructor; simpl; try done.
  by rewrite delete_insert_id.
Qed.

(** The intent row just committed, now marked. *)
Lemma committed_ready rm0 d op t st s id i s1 now s2 :
  op ∈ operations (plan (authorized a)) -> deletion_op d op ->
  has_capability (grant (authorized a)) (op_type op) = true ->
  catalog_get (catalog a) (d_target_id d) = Some t -> td_target_id t = d_target_id d ->
  mutation_safe t (d_rel_path d) (d_identity d) ->
  td_catalog_generation t = generation (catalog a) ->
  (exists res, locked_targets rm0 !! d_target_id d = Some (attempt_id a, res)) ->
  d_op_id d ∉ successful_op_ids st ->
  (forall dep, dep ∈ dependencies op -> dep ∈ successful_op_ids st) ->
  i_attempt_id i = attempt_id a -> i_op_id i = d_op_id d -> i_target_id i = d_target_id d ->
  i_rel_path i = d_rel_path d -> i_expected_identity i = d_identity d ->
  operation_intents s1 = operation_intents s ++ [intent_row id i] ->
  operation_intents s2 =
    map (mark_intent (attempt_id a) (d_op_id d) "MUTATING" now) (operation_intents s1) ->
  ready rm0 d op t st s2.
Proof.
  intros ? ? ? ? ? ? ? ? ? ? Ea Eo Et Ep Ei E1 E2. constructor; try done.
  assert (intent_in s1 (attempt_id a) (d_op_id d) (IntentState_display (i_state i))
            (intent_row id i)) as Hin.
  { split; [|split; [unfold intent_key; simpl; congruence|done]].
    rewrite E1. apply elem_of_app. right. apply list_elem_of_singleton. done. }
  destruct (intent_in_marked _ s2 _ _ _ "MUTATING" now _ E2 Hin) as [Hin' Hsame].
  eexists. split; [exact Hin'|].
  destruct Hsame as (_ & _ & _ & -> & -> & -> & -> & _). simpl.
  unfold RelativePath.as_str. by rewrite Et, Ep, Ei.
Qed.

Lemma wp_with_target_lock rm0 op st t tr0 collision body w :
  Inv rm0 st w ->
  (forall e, wp (collision e) (op_post rm0 op st tr0) w) ->
  (forall rm0' w', Inv rm0' st w' -> w_store w' = w_store w -> w_trace w' = w_trace w ->
     (exists res, locked_targets rm0' !! t = Some (attempt_id a, res)) ->
     wp body (op_post rm0' op st tr0) w') ->
  wp (with_target_lock a t collision body) (op_post rm0 op st tr0) w.
Proof.
  intros HI Hc Hb. unfold with_target_lock. apply wp_bind, wp_with_rm.
  intros [lock|e] rm Hacq.
  - destruct HI as [Ht Hca Hd Hr].
    destruct (lock_same _ _ _ _ _ _ _ Hr Hacq) as (rm0' & Hsame & Hl & Hdrop).
    apply wp_bind. eapply wp_mono; [by apply (Hb rm0')|]. intros r w' Hpost.
    wp_steps. destruct r as [st'|e].
    + destruct Hpost as [[Ht' Hca' Hd' Hr'] Hacc]. split; [|done].
      constructor; try done. by apply Hdrop.
    + destruct Hpost as [Hg Hr']. split; [done|]. by apply Hdrop.
  - assert (rm = w_rm w) as ->.
    { unfold acquire_target_lock_for_attempt in Hacq. by repeat case_match; simplify_eq. }
    replace (w_set_rm (w_rm w) w) with w by by destruct w. apply Hc.
Qed.

Lemma wp_delete_entry rm0 d op st w :
  catalog_wf (catalog a) -> op ∈ operations (plan (authorized a)) -> deletion_op d op ->
  has_capability (grant (authorized a)) (op_type op) = true ->
  (forall dep, dep ∈ dependencies op -> dep ∈ successful_op_ids st) ->
  Inv rm0 st w ->
  wp (delete_entry a d st) (op_post rm0 op st (w_trace w)) w.
Proof.
  intros Hwf Hin Hd Hcap Hdeps HI. unfold delete_entry. rewrite <- (proj1 Hd).
  pose proof (only_looked_refl w) as Hlook. set (tr0 := w_trace w) in *. clearbody tr0.
  destruct (catalog_get (catalog a) (d_target_id d)) as [t|] eqn:Hcat; [|by apply wp_fail_op].
  pose proof (Hwf _ _ Hcat) as Hkey. simpl in Hkey.
  apply wp_with_target_lock; [done|intros e; by apply wp_fail_op|].
  intros rm1 w1 HI' _ Htr1 Hlock. assert (only_looked tr0 w1) as Hlook1.
  { destruct Hlook as (evs & ? & ?). exists evs. by rewrite Htr1. }
  clear HI w rm0 Hlook Htr1. rename Hlook1 into Hlook. rename rm1 into rm0, w1 into w, HI' into HI.
  apply wp_bind, wp_now. intros t0.
  assert (Inv rm0 st (w_tick w)) as HI1
    by (eapply Inv_opens; [apply opens_tick|apply HI|done]).
  destruct (validate_mutation_boundary _ _ _ _ _ _ _) as [pf|e] eqn:Hval;
    [|by apply wp_fail_op].
  apply validate_mutation_boundary_inv in Hval as (Hsafe & Hgen & _).
  apply wp_bind, wp_now. intros t1. cbv zeta.
  assert (Inv rm0 st (w_tick (w_tick w))) as HI2
    by (eapply Inv_opens; [apply opens_tick|apply HI1|done]).
  set (w2 := w_tick (w_tick w)) in *. apply wp_bind, wp_with_store. intros [id|e] s1 Hcom.
  2: { apply run_stmt_err in Hcom as ->. apply wp_fail_op; [|done].
       eapply Inv_opens; [apply (opens_tick w2)|apply HI2|done]. }
  apply commit_intent_rows in Hcom as [Hfresh Hrows].
  assert (Inv rm0 st (w_set_store s1 (w_tick w2))) as HI3.
  { destruct HI2 as [Ht Hc Hdn Hr]. constructor; try done. intros o Ho.
    destruct (Hdn o Ho) as [r Hr']. exists r. by eapply intent_in_app. }
  assert (op_id op ∉ successful_op_ids st) as Hnew.
  { intros Ho. destruct (inv_done _ _ _ HI2 _ Ho) as (r & Hr & Hk & _). apply Hfresh.
    simpl. rewrite <- Hk. by apply list_elem_of_fmap_2. }
  rewrite (proj1 Hd) in *.
  apply (wp_set_intent rm0 d "MUTATING" st); [done|done|done| |by intros].
  intros now s2 Hrows2 w4 HI4. simpl in Hrows2.
  assert (ready rm0 d op t st s2) as Hready by (eapply (committed_ready rm0 d op t st _ id _ s1 now s2);
        try exact Hrows; try exact Hrows2; try done).
  apply wp_bind. eapply wp_mono.
  { apply (wp_get_or_open a rm0); [by rewrite Hkey|apply HI4|apply HI4]. }
  intros [[[h leaf] c]|e] w5 [Ho Hpost].
  - destruct Hpost as (Hleaf & Hc & Hh & Ht & Hp & Hr).
    assert (only_looked tr0 w5) as Hlook5 by (by eapply only_looked_opens).
    eapply wp_mono; [eapply (wp_finish_deletion rm0 d op t _ _ _ _ tr0)|]; try done.
    + destruct HI4 as [Htr _ Hdn _]. constructor; simpl; try done.
      * by eapply opens_good.
      * by rewrite (op_store _ _ Ho).
    + rewrite (op_store _ _ Ho). destruct Hready. by constructor.
    + intros [st'|e] w'; [|done]. intros [HI' (evs & res & Htr & Hacc & Hrep)]. split; [done|].
      exists evs, res. split; [done|]. split; [|done]. by eapply accounts_cache.
  - rewrite <- (proj1 Hd). apply wp_fail_op; [by eapply Inv_opens|by eapply only_looked_opens].
Qed.
End one_op.

(** ** A whole run *)

Definition count_status (f : OperationStatus -> bool) (rs : list OperationFinalResult) : nat :=
  length (List.filter (fun r => f (r_status r)) rs).

Section run.
Context `{Kernel K} `{Env} (a : ExecArgs).

(** The operations of a run one after another, each as it was executed in the state and
    the world that the ones before it left: the events it caused and the result it
    added. *)
Inductive op_runs : list PlannedOperation -> Exec -> World ->
    list (list Event * OperationFinalResult) -> Exec -> World -> Prop :=
| runs_nil st w : op_runs [] st w [] st w
| runs_cons op ops st w st1 w1 evs r steps st2 w2 :
    execute_op a op st w = (Ok st1, w1) ->
    w_trace w1 = evs ++ w_trace w -> results st1 = results st ++ [r] ->
    op_runs ops st1 w1 steps st2 w2 ->
    op_runs (op :: ops) st w ((evs, r) :: steps) st2 w2.

Definition reported (op : PlannedOperation) (step : list Event * OperationFinalResult) : Prop :=
  op_report op (fst step) (snd step).

(** The locals after the operations [ops], whose results are [rs]. *)
Record tallied (ops : list PlannedOperation) (st : Exec) (w : World)
    (steps : list (list Event * OperationFinalResult)) (st' : Exec) (w' : World) : Prop := {
  tal_runs : op_runs ops st w steps st' w';
  tal_reports : Forall2 reported ops steps;
  tal_success : success_count st' = (success_count st + count_status is_success (map snd steps))%nat;
  tal_failed : failed_count st' = (failed_count st + count_status is_failure (map snd steps))%nat;
  tal_skipped : skipped_count st' = (skipped_count st + count_status is_skip (map snd steps))%nat;
  tal_total : u64 (total_reclaimed st) ->
    total_reclaimed st' = fold_left saturating_add (map r_reclaimed_bytes (map snd steps)) (total_reclaimed st);
}.

(** Run by run, the events are those of the whole and the results are the list. *)
Lemma op_runs_history ops st w steps st' w' :
  op_runs ops st w steps st' w' ->
  w_trace w' = concat (rev (map fst steps)) ++ w_trace w /\
  results st' = results st ++ map snd steps.
Proof.
  induction 1 as [|op ops st w st1 w1 evs r steps st2 w2 He Ht Hr _ [IHt IHr]]; simpl.
  { split; [done|by rewrite app_nil_r]. }
  rewrite IHt, IHr, Ht, Hr, concat_app, <- !app_assoc. simpl. by rewrite app_nil_r.
Qed.

Lemma dependencies_fulfilled op st :
  dependencies_unfulfilled op st = false ->
  forall dep, dep ∈ dependencies op -> dep ∈ successful_op_ids st.
Proof.
  unfold dependencies_unfulfilled. intros E dep Hdep.
  destruct (decide (dep ∈ successful_op_ids st)) as [|Hn]; [done|exfalso].
  apply not_true_iff_false in E. apply E. apply existsb_exists. exists dep.
  split; [by apply list_elem_of_In|]. by rewrite bool_decide_eq_false_2.
Qed.

Lemma wp_execute_op rm0 op st w :
  catalog_wf (catalog a) -> op ∈ operations (plan (authorized a)) -> Inv a rm0 st w ->
  wp (execute_op a op st) (op_post a rm0 op st (w_trace w)) w.
Proof.
  intros Hwf Hin HI. change (w_trace w) with (w_trace (w_tick w)). unfold execute_op. apply wp_bind, wp_cancelled.
  assert (Inv a rm0 st (w_tick w)) as HI1
    by (eapply Inv_opens; [apply opens_tick|apply HI|done]).
  destruct (env_cancelled _); [by apply wp_skip_op|].
  destruct (dependencies_unfulfilled op st) eqn:Hdep; [by apply wp_skip_op|].
  pose proof (dependencies_fulfilled _ _ Hdep) as Hdeps.
  destruct (has_capability _ _) eqn:Hcap; [|apply wp_fail_op; [done|apply only_looked_refl]]. simpl negb. cbv iota.
  destruct (op_type op) eqn:Hty; try (by apply wp_skip_op).
  all: apply wp_delete_entry; try done; by rewrite Hty.
Qed.

Lemma accounts_tallied op ops st w st1 w1 evs r st2 w2 steps :
  execute_op a op st w = (Ok st1, w1) -> w_trace w1 = evs ++ w_trace w ->
  accounts op st st1 r -> op_report op evs r -> tallied ops st1 w1 steps st2 w2 ->
  tallied (op :: ops) st w ((evs, r) :: steps) st2 w2.
Proof.
  intros He Htr [Hres Hop Hc _ Ht] Hrep [Hruns Hf H1 H2 H3 H4]. constructor.
  - by eapply runs_cons.
  - by constructor.
  - rewrite H1. unfold count_status. simpl.
    destruct (r_status r); simpl in *; injection Hc; intros; lia.
  - rewrite H2. unfold count_status. simpl.
    destruct (r_status r); simpl in *; injection Hc; intros; lia.
  - rewrite H3. unfold count_status. simpl.
    destruct (r_status r); simpl in *; injection Hc; intros; lia.
  - intros Hu. specialize (Ht Hu). rewrite H4; simpl; [by rewrite Ht|].
    rewrite Ht. apply saturating_add_u64.
Qed.

Lemma wp_execute_ops rm0 ops st w :
  catalog_wf (catalog a) -> (forall op, op ∈ ops -> op ∈ operations (plan (authorized a))) ->
  Inv a rm0 st w ->
  wp (execute_ops a ops st) (fun r w' =>
    match r with
    | Ok st' => Inv a rm0 st' w' /\ exists steps, tallied ops st w steps st' w'
    | Err _ => good_trace a (w_trace w') /\ rm_same rm0 (w_rm w') 0
    end) w.
Proof.
  intros Hwf. revert st w. induction ops as [|op ops IH]; intros st w Hin HI; simpl.
  { apply wp_ret. split; [done|]. exists [].
    constructor; unfold count_status; simpl; try done; try lia. constructor. }
  apply wp_try. eapply wp_mono.
  { apply wp_and; [apply wp_execute_op; [done|apply Hin; left|exact HI]|apply wp_eq]. }
  intros [st1|e] w1; [|by intros [? _]]. intros [[HI1 (evs & r & Htr & Hacc & Hrep)] He].
  eapply wp_mono; [apply IH; [|done]|].
  { intros o Ho. apply Hin. by right. }
  intros [st2|e] w2; [|done]. intros [HI2 [steps Hs]]. split; [done|].
  exists ((evs, r) :: steps). by eapply accounts_tallied.
Qed.

(** What a completed run [jr] of the operations reports, from the world [w] to [w']. *)
Definition run_backed (w w' : World) (jr : JobResult) : Prop :=
  let ops := operations (plan (authorized a)) in
  exists steps st w1, op_runs ops exec_init (w_tick (w_tick w)) steps st w1 /\
    w_trace w' = w_trace w1 /\ Forall2 reported ops steps /\
    jr = mkJobResult (plan_job_id (plan (authorized a))) (attempt_id a)
           (saturating_sum (map r_reclaimed_bytes (map snd steps)))
           (length ops) (count_status is_success (map snd steps))
           (count_status is_failure (map snd steps)) (count_status is_skip (map snd steps))
           (jr_duration_ms jr).

(** Everything the theorems need of a run. *)
Lemma wp_execute_plan cfg w :
  catalog_wf (catalog a) -> good_trace a (w_trace w) ->
  wp (execute_plan a cfg) (fun r w' =>
    good_trace a (w_trace w') /\ rm_same (w_rm w) (w_rm w') 0 /\
    match r with
    | Ok jr => run_backed w w' jr
    | Err _ => True
    end) w.
Proof.
  intros Hwf Htr. unfold execute_plan. wp_steps.
  assert (Inv a (w_rm w) exec_init (w_tick (w_tick w))) as HI.
  { constructor; simpl; try done.
    change (rm_same (w_rm w) (w_rm w) 0). apply rm_same_refl. }
  destruct (is_authorized_for_execution _ _ _ _); simpl negb; cbv iota.
  2: { apply wp_ret. split; [apply HI|]. split; [apply (inv_rm _ _ _ _ HI)|done]. }
  apply wp_try. eapply wp_mono; [by apply wp_execute_ops|].
  intros [st|e] w1; [|by intros [? ?]]. intros [HI1 [steps Hsteps]].
  apply wp_bind, wp_millis. intros t. apply wp_bind.
  assert (Inv a (w_rm w) st (w_tick w1)) as HI2
    by (eapply Inv_opens; [apply opens_tick|apply HI1|done]).
  eapply wp_mono.
  { apply wp_and; [by apply (drop_cache_same (w_rm w) 0), (inv_rm _ _ _ _ HI2)|apply drop_cache_trace]. }
  intros _ w2 [[Ho Hrm] Htr2]. apply wp_ret. split; [by eapply opens_good; [|apply HI2]|].
  split; [done|]. destruct Hsteps as [Hruns Hf H1 H2 H3 H4]. exists steps, st, w1.
  split; [done|]. split; [done|]. split; [done|]. simpl in *. by rewrite H1, H2, H3, H4.
Qed.

Lemma good_trace_split tr newer fd name rd s rm r older :
  good_trace a tr -> tr = newer ++ EvUnlink fd name rd s rm r :: older ->
  exists d op t, justified a fd name rd s rm older d op t.
Proof.
  intros Hg ->. induction newer as [|e newer IH]; simpl in *; [tauto|apply IH, Hg].
Qed.
End run.
