(* ===== verification/MemFs.v ===== *)
(** A concrete kernel: a file system in memory, on which the examples run.  A
    path is mapped to its inode, type and size; an open directory is its path;
    nothing changes between two calls.  [locked] lists directories whose entries
    report ENOKEY, as an encrypted directory without its key does. *)
From Stdlib Require Import ZArith Ascii String.
From S2P Require Import Prelude Paths Domain Resource Store Effects.

Record Node := mkNode { n_ino : N; n_type : FileType; n_size : Z }.

Record MemFs := mkMemFs { device : N; nodes : gmap string Node; locked : list string }.

Definition node_stat (m : MemFs) (n : Node) : Stat :=
  mkStat (device m) (n_ino n) (n_size n) 1000.

Definition open_path (p : string) (m : MemFs) : result Errno string * MemFs :=
  (match nodes m !! p with
   | None => Err NOENT
   | Some n => match n_type n with
               | Directory => Ok p | Symlink => Err LOOP | _ => Err NOTDIR
               end
   end, m).

(** The name of [p] in directory [d], if it is an entry of it. *)
Definition child_name (d p : string) : option string :=
  match str_starts_with p (d +:+ "/") with
  | true => let n := substring (String.length d + 1) (String.length p) p in
            if str_contains_char SLASH n then None else Some n
  | false => None
  end.

Definition entries_of (d : string) (m : MemFs) : list DirEnt :=
  omap (fun '(p, n) => match child_name d p with
                       | Some c => Some (mkDirEnt c (n_type n))
                       | None => None
                       end) (map_to_list (nodes m)).

Definition stat_path (p : string) (m : MemFs) : result Errno Stat :=
  match nodes m !! p with Some n => Ok (node_stat m n) | None => Err NOENT end.

Definition unlink_path (p : string) (removedir : bool) (m : MemFs) : result Errno unit * MemFs :=
  match nodes m !! p with
  | None => (Err NOENT, m)
  | Some n =>
      match n_type n, removedir with
      | Directory, false => (Err (EOther 21), m)
      | Directory, true =>
          match entries_of p m with
          | [] => (Ok tt, mkMemFs (device m) (delete p (nodes m)) (locked m))
          | _ => (Err NOTEMPTY, m)
          end
      | _, true => (Err NOTDIR, m)
      | _, false => (Ok tt, mkMemFs (device m) (delete p (nodes m)) (locked m))
      end
  end.

#[export] Instance memfs_kernel : Kernel MemFs := {
  Fd := string;
  sys_open_dir := open_path;
  sys_openat2_dir fd name := open_path (fd +:+ "/" +:+ name);
  sys_openat_dir fd name := open_path (fd +:+ "/" +:+ name);
  sys_fstat fd m := (stat_path fd m, m);
  sys_statat fd name m := (stat_path (fd +:+ "/" +:+ name) m, m);
  sys_unlinkat fd name rd := unlink_path (fd +:+ "/" +:+ name) rd;
  sys_getdents fd m := (map Ok (entries_of fd m), m);
  fs_read_dir p m :=
    (match nodes m !! p with
     | Some _ => Ok (map (fun d => Ok (d_name d)) (entries_of p m))
     | None => Err NOENT
     end, m);
  fs_exists p m := (bool_decide (is_Some (nodes m !! p)), m);
  fs_is_dir p m :=
    (match nodes m !! p with Some n => bool_decide (n_type n = Directory) | None => false end, m);
  fs_owner p m := (Ok (1000, 1000), m);
  fs_entry_metadata p m :=
    (if existsb (fun d => bool_decide (is_Some (child_name d p))) (locked m)
     then Err (EOther 126) else Ok tt, m);
  fs_canonicalize p m := (Ok p, m);
}.

(** A clock that stands at [now], a store that never refuses, no cancellation. *)
Definition quiet_env (now : N) : Env := {|
  env_now := fun _ => now;
  env_millis := fun _ => 0;
  env_sql := fun _ => None;
  env_stage := fun _ => Begin;
  env_cancelled := fun _ => false;
  env_sql_text := fun _ => "sql error";
  env_strerror := fun _ => "os error";
  env_property := fun _ => None;
|}.

Definition dir (ino : N) : Node := mkNode ino Directory 0.
Definition file (ino : N) (size : Z) : Node := mkNode ino RegularFile size.
Definition mem_fs (l : list (string * Node)) (locked : list string) : MemFs :=
  mkMemFs 5 (list_to_map l) locked.
Definition mem_world (m : MemFs) (s : Store) : World :=
  mkWorld 0 m true ResourceManager_default s [].

(** The second newest event of a history, if it is a removal. *)
Definition second_removal (tr : list (@Event MemFs _))
    : option (string * string * bool * result Errno unit * (Store * ResourceManager)) :=
  match tr with
  | _ :: EvUnlink fd name rd s rm r :: _ => Some (fd, name, rd, r, (s, rm))
  | _ => None
  end.

Lemma second_removal_split tr fd name rd r s rm :
  second_removal tr = Some (fd, name, rd, r, (s, rm)) ->
  tr = take 1 tr ++ EvUnlink fd name rd s rm r :: drop 2 tr.
Proof.
  destruct tr as [|e [|e' tr]]; try done. destruct e'; try done. simpl. intros. by simplify_eq.
Qed.
