(* ===== verification/ExecutorProps.v ===== *)
(** The properties of a run of the executor, for every kernel, clock, refusal of
    SQLite and cancellation, each with an example run on the in-memory file
    system. *)
From Stdlib Require Import ZArith String.
From S2P Require Import Prelude Paths Domain Config Safety Auth Resource Store.
From S2P Require Import Effects Fs MemFs Catalog Verifier Executor.

(** ** An example: a file and its directory *)

Definition example_authorized : AuthorizedPlan :=
  mkAuthorized example_plan
    (mkGrant 1 [CapDeleteFile "android:com.app:cache" "a/b.tmp";
                CapDeleteDirectory "android:com.app:cache" "a"]
       CatalogGeneration_INITIAL ConfigGeneration_INITIAL 1000 1300).

Definition example_catalog : CatalogSnapshot :=
  register_target example_target TargetCatalog_new.

Definition example_args : ExecArgs := mkArgs example_authorized example_catalog 1.

Definition example_fs : MemFs :=
  mem_fs [("/data/user/0/com.app/cache", dir 77); ("/data/user/0/com.app/cache/a", dir 8);
          ("/data/user/0/com.app/cache/a/b.tmp", file 9 4096)] [].

Definition example_world : World := mem_world example_fs example_store.

Definition example_run : result CleanerError JobResult * World :=
  execute_plan (H0 := quiet_env 1100) example_args ConfigGeneration_INITIAL example_world.

Lemma example_catalog_wf : catalog_wf example_catalog.
Proof. by apply map_Forall_insert_2; [|apply map_Forall_empty]. Qed.

(** The run removes both entries and reports the file's bytes. *)
Example example_run_result :
  fst example_run = Ok (mkJobResult 1 1 4096 2 2 0 0 0) /\
  map fst (map_to_list (nodes (w_kernel (snd example_run)))) = ["/data/user/0/com.app/cache"].
Proof. split; vm_compute; reflexivity. Qed.

(** ** Properties *)

(** C3 The write-ahead and least-authority property of the only code that
    deletes.  Whatever the kernel, the clock, SQLite and the cancellation token
    do, every removal issued in a run belongs to an operation of the plan of that
    kind which the grant covers; its target is in the catalog snapshot, of its
    generation, and safe to mutate; the descriptor used was reached from the
    target's root through exactly the parent components of the operation's path
    without following links or leaving the device; the name is the path's last
    component; the last look at the entry before the removal saw exactly the
    identity the plan expects; the target's lock is held by this attempt; and the
    store already holds the operation's intent, naming this entry, in state
    MUTATING, and the intents of all its dependencies in state VERIFIED_SUCCESS. *)
Theorem removals_are_justified `{Kernel K} `{Env} (a : ExecArgs) cfg (w : World)
    newer fd name rd s rm r older :
  catalog_wf (catalog a) -> w_trace w = [] ->
  w_trace (snd (execute_plan a cfg w)) = newer ++ EvUnlink fd name rd s rm r :: older ->
  exists d op t, justified a fd name rd s rm older d op t.
Proof.
  intros Hwf Htr. pose proof (wp_execute_plan a cfg w Hwf (good_trace_nil a w Htr)) as [Hg _].
  by apply good_trace_split.
Qed.

Example example_second_removal :
  option_map fst (second_removal (w_trace (snd example_run))) =
  Some ("/data/user/0/com.app/cache", "a", true, Ok tt).
Proof. vm_compute. reflexivity. Qed.

Lemma removals_are_justified_witness :
  exists s rm older d op t,
    justified example_args "/data/user/0/com.app/cache" "a" true s rm older d op t.
Proof.
  destruct (second_removal (w_trace (snd example_run))) as [[[[[fd name] rd] r] [s rm]]|] eqn:E;
    pose proof example_second_removal as E'; rewrite E in E'; simpl in E'; [|discriminate].
  injection E' as -> -> -> ->.
  destruct (removals_are_justified (H0 := quiet_env 1100) example_args ConfigGeneration_INITIAL
           example_world (take 1 (w_trace (snd example_run))) "/data/user/0/com.app/cache" "a"
           true s rm (Ok tt) (drop 2 (w_trace (snd example_run))) example_catalog_wf eq_refl
           (second_removal_split _ _ _ _ _ _ _ E)) as (d & op & t & Hj).
  exists s, rm, (drop 2 (w_trace (snd example_run))), d, op, t. exact Hj.
Defined.

(** C6 The result of a completed run is the account of what that run did.  The run's
    events, from the first operation of the plan to the last, are those of its operations
    one after another ([steps], what [execute_op] did for each in the state and the world
    that the ones before it left).  Of each operation the result says what its events
    show ([op_report]): its planned size in bytes if and only if the events end with a
    successful unlink of a file and a look that finds nothing in its place, and none
    otherwise; success after every removal so confirmed; a skip only if it did nothing.
    Every operation is counted once, as what its result says, and the bytes reported are
    the saturating sum over the results. *)
Theorem execute_plan_accounts `{Kernel K} `{Env} (a : ExecArgs) cfg (w w' : World) jr :
  catalog_wf (catalog a) -> w_trace w = [] ->
  execute_plan a cfg w = (Ok jr, w') ->
  let ops := operations (plan (authorized a)) in
  exists steps st w1,
    op_runs a ops exec_init (w_tick (w_tick w)) steps st w1 /\
    w_trace w' = concat (rev (map fst steps)) /\ results st = map snd steps /\
    Forall2 (fun op '(evs, r) => op_report op evs r) ops steps /\
    jr_total_operations jr = length ops /\
    jr_successful_operations jr = count_status is_success (results st) /\
    jr_failed_operations jr = count_status is_failure (results st) /\
    jr_skipped_operations jr = count_status is_skip (results st) /\
    (jr_successful_operations jr + jr_failed_operations jr + jr_skipped_operations jr
       = jr_total_operations jr)%nat /\
    jr_total_reclaimed jr = saturating_sum (map r_reclaimed_bytes (results st)).
Proof.
  intros Hwf Htr E. pose proof (wp_execute_plan a cfg w Hwf (good_trace_nil a w Htr)) as Hwp.
  unfold wp in Hwp. rewrite E in Hwp. cbn [fst snd] in Hwp.
  destruct Hwp as (_ & _ & steps & st & w1 & Hruns & Ht & Hf & ->). simpl.
  destruct (op_runs_history _ _ _ _ _ _ _ Hruns) as [Hh Hr]. simpl in Hh, Hr. rewrite Htr, app_nil_r in Hh.
  assert (forall rs, count_status is_success rs + count_status is_failure rs + count_status is_skip rs
          = length rs)%nat as Hcount.
  { clear. unfold count_status. induction rs as [|r rs IH]; simpl; [done|].
    destruct (r_status r); simpl; lia. }
  exists steps, st, w1. rewrite Hr. split; [done|]. split; [by rewrite Ht|]. split; [done|].
  split; [eapply Forall2_impl; [exact Hf|]; by intros op [evs r]|].
  do 4 (split; [done|]). split; [|done]. by rewrite Hcount, length_map, (Forall2_length _ _ _ Hf).
Qed.

(** On the example: the bytes of the one file are counted, those of the directory are
    none. *)
Lemma execute_plan_accounts_witness :
  fst example_run = Ok (mkJobResult 1 1 4096 2 2 0 0 0) /\
  exists steps, Forall2 (fun op '(evs, r) => op_report (K := MemFs) op evs r) (operations example_plan) steps /\
    4096 = saturating_sum (map r_reclaimed_bytes (map snd steps)) /\
    (2 = count_status is_success (map snd steps))%nat.
Proof.
  split; [exact (proj1 example_run_result)|].
  destruct (execute_plan_accounts (H0 := quiet_env 1100) example_args ConfigGeneration_INITIAL
           example_world (snd example_run) (mkJobResult 1 1 4096 2 2 0 0 0)
           example_catalog_wf eq_refl) as (steps & st & w1 & _ & _ & Hrs & Hf & _ & Hs & _ & _ & _ & Ht).
  { rewrite <- (proj1 example_run_result). apply surjective_pairing. }
  exists steps. rewrite <- Hrs. split; [exact Hf|]. split; [exact Ht|exact Hs].
Defined.

(** C7 A run gives back what it takes: however it ends, with a result, with an
    error in the middle of an operation, or rejected at the start, no target,
    storage or mount lock is left or lost and exactly as many descriptor permits
    are taken as before. *)
Theorem execute_plan_releases `{Kernel K} `{Env} (a : ExecArgs) cfg (w : World) :
  catalog_wf (catalog a) -> w_trace w = [] ->
  let rm := w_rm w in let rm' := w_rm (snd (execute_plan a cfg w)) in
  locked_targets rm' = locked_targets rm /\ locked_storages rm' = locked_storages rm /\
  locked_mounts rm' = locked_mounts rm /\ active_fds rm' = active_fds rm.
Proof.
  intros Hwf Htr. pose proof (wp_execute_plan a cfg w Hwf (good_trace_nil a w Htr)) as (_ & [? ? ? _ Hf] & _).
  rewrite N.add_0_r in Hf. done.
Qed.

Lemma execute_plan_releases_witness :
  active_fds (w_rm (snd example_run)) = 0 /\ locked_targets (w_rm (snd example_run)) = ∅.
Proof.
  destruct (execute_plan_releases (H0 := quiet_env 1100) example_args ConfigGeneration_INITIAL
              example_world example_catalog_wf eq_refl) as (H1 & _ & _ & H4).
  split; [exact H4|exact H1].
Defined.

(** An expired grant or a generation that is not current stops the run at its
    start: it returns the rejection and nothing has been opened, written or
    removed. *)
Theorem unauthorized_plan_is_inert `{Kernel K} `{Env} (a : ExecArgs) cfg (w : World) :
  is_authorized_for_execution (authorized a) (env_now (S (w_step w))) (generation (catalog a)) cfg
    = false ->
  let '(r, w') := execute_plan a cfg w in
  r = Err (SafetyViolation
        "Execution rejected: AuthorizedPlan has expired or generation is invalid") /\
  w_kernel w' = w_kernel w /\ w_store w' = w_store w /\ w_rm w' = w_rm w /\
  w_trace w' = w_trace w.
Proof.
  intros Hna. unfold execute_plan, mbind, M_bind, get_millis, get_now. simpl. by rewrite Hna.
Qed.

Lemma unauthorized_plan_is_inert_witness :
  fst (execute_plan (H0 := quiet_env 1301) example_args ConfigGeneration_INITIAL example_world) =
  Err (SafetyViolation
    "Execution rejected: AuthorizedPlan has expired or generation is invalid").
Proof.
  assert (is_authorized_for_execution example_authorized 1301 CatalogGeneration_INITIAL
            ConfigGeneration_INITIAL = false) as Hna by (vm_compute; reflexivity).
  apply (unauthorized_plan_is_inert (H0 := quiet_env 1301) example_args ConfigGeneration_INITIAL
           example_world Hna).
Defined.

(** Cancellation is prompt: from any point between two operations at which the
    token stays cancelled, every remaining operation is recorded as preempted and
    counted as skipped, and nothing more is opened, written or removed. *)
Theorem cancelled_run_is_inert `{Kernel K} `{Env} (a : ExecArgs) ops st (w : World) :
  (forall n, (w_step w <= n)%nat -> env_cancelled n = true) ->
  exists st', fst (execute_ops a ops st w) = Ok st' /\
    let w' := snd (execute_ops a ops st w) in
    w_kernel w' = w_kernel w /\ w_store w' = w_store w /\ w_rm w' = w_rm w /\
    w_trace w' = w_trace w /\
    skipped_count st' = (skipped_count st + length ops)%nat /\
    success_count st' = success_count st /\ total_reclaimed st' = total_reclaimed st.
Proof.
  revert st w. induction ops as [|op ops IH]; intros st w Hc.
  { exists st. repeat split. simpl. lia. }
  simpl. unfold try_bind, mbind, M_bind, execute_op, mbind, M_bind, is_cancelled.
  rewrite (Hc (w_step w)) by lia. simpl.
  set (w1 := w_tick (w_tick w)).
  set (st1 := push_result (count_skipped st) (mkFinal (op_id op) Preempted ByteCount.ZERO
                (env_now (S (w_step w))))).
  destruct (IH st1 w1) as (st' & E & Hk & Hs & Hr & Ht & H1 & H2 & H3).
  { intros n Hn. apply Hc. unfold w1 in Hn. simpl in Hn. lia. }
  exists st'. split; [exact E|]. cbv zeta.
  repeat split; try done. rewrite H1. simpl. lia.
Qed.

Definition cancelled_env : Env := {|
  env_now := fun _ => 1100; env_millis := fun _ => 0; env_sql := fun _ => None;
  env_stage := fun _ => Begin;   env_cancelled := fun _ => true; env_sql_text := fun _ => "sql error";
  env_strerror := fun _ => "os error"; env_property := fun _ => None |}.

Lemma cancelled_run_is_inert_witness :
  w_trace (snd (execute_ops (H0 := cancelled_env) example_args (operations example_plan)
                  exec_init example_world)) = [].
Proof.
  destruct (cancelled_run_is_inert (H0 := cancelled_env) example_args (operations example_plan)
              exec_init example_world (fun _ _ => eq_refl)) as (st' & _ & _ & _ & _ & H & _).
  exact H.
Defined.

(** The history after a removal and its verification. *)
Lemma verdict_history `{Kernel K} d m o h leaf (w w1 w2 : World) evs r :
  moves w w1 (w_rm w) evs -> removal h leaf (d_identity d) (d_is_dir d) w m evs ->
  moves w1 w2 (w_rm w1) [EvStat (h_fd h) leaf r] -> o = outcome_of_stat (d_identity d) r ->
  let v := if d_is_dir d then dir_verdict (H0 := quiet_env 0) m o
           else file_verdict (H0 := quiet_env 0) (d_size d) m o in
  (v_success v = true <-> head (w_trace w2) = Some (EvStat (h_fd h) leaf (Err NOENT))) /\
  (v_reclaimed v <> 0 -> exists s rm older,
     w_trace w2 = EvStat (h_fd h) leaf (Err NOENT) :: EvUnlink (h_fd h) leaf false s rm (Ok tt)
                    :: older).
Proof.
  intros [_ _ T1 _] Hrem [_ _ T2 _] -> v. pose proof (outcome_of_stat_success (d_identity d) r) as Ho.
  assert (v_success v = is_successful_deletion (outcome_of_stat (d_identity d) r)) as Hv.
  { unfold v. destruct (d_is_dir d), m, (outcome_of_stat _ _); reflexivity. }
  split.
  - rewrite Hv, Ho, T2. simpl. split; [by intros ->|]. by intros [= ->].
  - intros Hb. assert (d_is_dir d = false /\ is_ok m = true /\
      is_successful_deletion (outcome_of_stat (d_identity d) r) = true) as (Hd & Hm & Hs).
    { clear -Hb. unfold v in Hb. destruct (d_is_dir d), m, (outcome_of_stat _ _); done. }
    rewrite Hd in Hrem. apply Ho in Hs as ->. rewrite T2, T1.
    destruct Hrem as [e|r' e Hr|r' Hsingle]; try done.
    destruct r' as [[]|e]; [|done]. simpl. eauto.
Qed.

(** C5 A deletion is reported as successful exactly when the look at the entry
    after the removal found it gone, and bytes are credited only if in addition
    the removal just before was a file unlink that succeeded: an error of the
    removal, an entry still there, another file in its place or an unreadable
    directory never count as reclaimed space. *)
Theorem success_means_verified `{Kernel K} `{Env} a d h leaf st (w w' : World) st' :
  single_component leaf -> finish_deletion a d h leaf st w = (Ok st', w') ->
  exists res, results st' = results st ++ [res] /\
    (r_status res = Success <-> head (w_trace w') = Some (EvStat (h_fd h) leaf (Err NOENT))) /\
    (r_reclaimed_bytes res <> 0 -> exists s rm older,
       w_trace w' = EvStat (h_fd h) leaf (Err NOENT)
                      :: EvUnlink (h_fd h) leaf false s rm (Ok tt) :: older).
Proof.
  intros Hleaf E.
  assert (wp (finish_deletion a d h leaf st) (fun r w' => match r with Err _ => True | Ok st' =>
    exists res, results st' = results st ++ [res] /\
    (r_status res = Success <-> head (w_trace w') = Some (EvStat (h_fd h) leaf (Err NOENT))) /\
    (r_reclaimed_bytes res <> 0 -> exists s rm older,
       w_trace w' = EvStat (h_fd h) leaf (Err NOENT)
                      :: EvUnlink (h_fd h) leaf false s rm (Ok tt) :: older) end) w) as Hwp;
    [|unfold wp in Hwp; by rewrite E in Hwp].
  unfold finish_deletion. apply wp_bind.
  apply (wp_mono _ (fun r w' => exists evs, moves w w' (w_rm w) evs /\
           removal h leaf (d_identity d) (d_is_dir d) w r evs)).
  { destruct (d_is_dir d); [apply wp_rmdir_child|apply wp_unlink_child]. }
  intros m w1 (evs & Hm & Hrem). apply wp_bind.
  eapply wp_mono; [apply wp_verify_with_parent|]. intros o w2 (r & evs2 & Ho & Hm2 & Hevs2).
  destruct Hevs2 as [[_ (e & _ & Hbad)]| ->]; [unfold single_component in Hleaf; congruence|].
  pose proof (verdict_history d m o h leaf w w1 w2 evs r Hm Hrem Hm2 Ho) as [Hv1 Hv2].
  apply wp_bind. apply (wp_mono _ (fun st1 w3 => w_trace w3 = w_trace w2 /\
    results st1 = results st)).
  { destruct (d_is_dir d); [|done]. apply wp_bind.
    unfold drop_cache, drop_handle. destruct (active_dir_cache st); by wp_steps. }
  intros st1 w3 [Ht3 Hr3]. unfold set_intent_state. apply wp_bind, wp_with_store.
  intros [u|e] s1 _; [|by apply wp_bind, wp_any]. apply wp_bind, wp_now. intros now.
  cbv zeta. apply wp_bind, wp_with_store. intros u2 s2 _. apply wp_ret. eexists.
  split; [|simpl; rewrite Ht3; split].
  - assert (forall v b, results (apply_verdict d v b st1) = results st) as Hres
      by (intros v b; rewrite <- Hr3; unfold apply_verdict; by repeat case_match).
    simpl. by rewrite Hres.
  - rewrite <- Hv1. pose proof (verdict_shape d m o) as Hs. cbv zeta in Hs.
    destruct (d_is_dir d), m, o; simpl in *; done.
  - intros Hb. apply Hv2. by destruct (d_is_dir d), m, o.
Qed.

Definition example_handle : @SafeDirHandle MemFs _ :=
  @mkHandle MemFs _ "/data/user/0/com.app/cache/a" 5 8 None.

Lemma success_means_verified_witness :
  exists st' w', finish_deletion (H0 := quiet_env 1100) example_args
      (mkDeletion 1 "android:com.app:cache" "a/b.tmp" (mkFileIdentity 5 9) 4096 false)
      example_handle "b.tmp" exec_init example_world
      = (Ok st', w') /\
    exists res, results st' = results exec_init ++ [res] /\
    (r_status res = Success <->
       head (w_trace w') = Some (EvStat (h_fd example_handle) "b.tmp" (Err NOENT))).
Proof.
  destruct (finish_deletion (H0 := quiet_env 1100) example_args
      (mkDeletion 1 "android:com.app:cache" "a/b.tmp" (mkFileIdentity 5 9) 4096 false)
      example_handle "b.tmp" exec_init example_world)
    as [[st'|e] w'] eqn:E.
  - exists st', w'. split; [reflexivity|].
    assert (single_component "b.tmp") as Hb by (vm_compute; reflexivity).
    destruct (success_means_verified (H0 := quiet_env 1100) _ _ _ _ _ _ _ _ Hb E)
      as (res & H1 & H2 & _).
    exists res. split; [exact H1|exact H2].
  - exfalso. apply (f_equal (fun p => is_ok (fst p))) in E. vm_compute in E. discriminate.
Defined.
