(* ===== verification/DaemonConfig.v ===== *)
(** The daemon's configuration file model, src/config.rs: its fields, defaults and
    [validate], and the raw configuration each job derives from it
    (src/pipeline/mod.rs).  The file itself is in ConfigFile and ConfigToml. *)
From Stdlib Require Import Ascii String SpecFloat.
From S2P Require Import Prelude Paths Domain Config Policy.

Record CleaningRulesConfig := mkCleaning {
  cr_clean_app_cache : bool;
  cr_clean_webview_cache : bool;
  cr_clean_image_caches : bool;
  cr_clean_thumbnails : bool;
  cr_clean_code_cache : bool;
  cr_clean_oem_logs : bool;
  cr_clean_crash_dumps : bool;
  cr_keep_recent_crash_files : N;
  cr_clean_temp_apks : bool;
  cr_min_file_age_hours : N;
}.

Record OptimizationConfig := mkOptimization {
  oc_zram_compaction : bool;
  oc_compact_memory : bool;
  oc_cgroup_memory_reclaim : bool;
  oc_cgroup_reclaim_amount_mb : N;
  oc_freezer_aware_cleaning : bool;
  oc_psi_adaptive_monitoring : bool;
  oc_psi_moderate_stall_ms : N;
  oc_psi_critical_stall_ms : N;
  oc_psi_cooldown_secs : N;
  oc_f2fs_gc_urgent : bool;
  oc_fstrim_partitions : bool;
  oc_trim_mount_points : list string;
}.

Inductive SafetyMode := Safe | Balanced | Aggressive.

Record SafetyConfig := mkSafetyConfig {
  sc_mode : SafetyMode;
  sc_whitelist_packages : list string;
  sc_protected_directory_names : list string;
}.

Record DaemonConfig := mkDaemonConfig {
  dc_maintenance_interval_secs : N;
  dc_socket_path : string;
  dc_abstract_socket_name : string;
  dc_require_screen_off : bool;
  dc_require_charging_for_deep_clean : bool;
  dc_min_screen_off_secs : N;
  dc_max_soc_temp_c : f32;
  dc_max_battery_temp_c : f32;
  dc_cleaning : CleaningRulesConfig;
  dc_optimization : OptimizationConfig;
  dc_safety : SafetyConfig;
}.

(** The functions that the attributes of the fields name. *)
Definition default_maintenance_interval_secs : N := 3600 * 6.
Definition default_socket_path : string := "/data/adb/cleaner/run/daemon".
Definition default_abstract_socket_name : string := "cleaner_daemon".
Definition default_true : bool := true.
Definition default_false : bool := false.
Definition default_min_screen_off_secs : N := 180.
Definition default_max_soc_temp : f32 := f32_of_Z 44.
(** 39.5 is 79 halves. *)
Definition default_max_battery_temp : f32 := binary_normalize 24 128 79 (-1) false.
Definition default_keep_crashes : N := 3.
Definition default_min_file_age_hours : N := 24.
Definition default_reclaim_amount_mb : N := 128.
Definition default_psi_moderate_stall_ms : N := 150.
Definition default_psi_critical_stall_ms : N := 250.
Definition default_psi_cooldown_secs : N := 45.
Definition default_trim_mounts : list string := ["/data"; "/cache"; "/metadata"].
Definition default_safety_mode : SafetyMode := Safe.
Definition default_whitelist_packages : list string :=
  ["com.android.systemui"; "com.android.settings"; "com.android.providers.settings";
   "com.android.providers.media"; "com.google.android.gms";
   "com.google.android.googlequicksearchbox"].
Definition default_protected_directory_names : list string :=
  [".nomedia"; "shared_prefs"; "databases"; "lib"; "files"; "keystore"; "fpdata"].

Definition CleaningRulesConfig_default : CleaningRulesConfig :=
  mkCleaning default_true default_true default_true default_false default_false default_false
    default_false default_keep_crashes default_false default_min_file_age_hours.

Definition OptimizationConfig_default : OptimizationConfig :=
  mkOptimization default_false default_false default_false default_reclaim_amount_mb default_true
    default_true default_psi_moderate_stall_ms default_psi_critical_stall_ms
    default_psi_cooldown_secs default_true default_false default_trim_mounts.

Definition SafetyConfig_default : SafetyConfig :=
  mkSafetyConfig default_safety_mode default_whitelist_packages default_protected_directory_names.

Definition DaemonConfig_default : DaemonConfig :=
  mkDaemonConfig default_maintenance_interval_secs default_socket_path default_abstract_socket_name
    default_true default_true default_min_screen_off_secs default_max_soc_temp
    default_max_battery_temp CleaningRulesConfig_default OptimizationConfig_default
    SafetyConfig_default.

Definition validate (c : DaemonConfig) : result CleanerError unit :=
  if dc_maintenance_interval_secs c <? 30 then
    Err (Config "maintenance_interval_secs must be at least 30 seconds")
  else if f32_lt (dc_max_soc_temp_c c) (f32_of_Z 20)
          || f32_gt (dc_max_soc_temp_c c) (f32_of_Z 95) then
    Err (Config "max_soc_temp_c must be between 20.0°C and 95.0°C")
  else if f32_lt (dc_max_battery_temp_c c) (f32_of_Z 20)
          || f32_gt (dc_max_battery_temp_c c) (f32_of_Z 65) then
    Err (Config "max_battery_temp_c must be between 20.0°C and 65.0°C")
  else match sc_protected_directory_names (dc_safety c) with
       | [] => Err (Config "safety.protected_directory_names cannot be empty")
       | _ => Ok tt
       end.

(** The [RawConfig { .., ..Default::default() }] of [run_pipeline_job]. *)
Definition job_raw_config (c : DaemonConfig) (dry_run : bool) : RawConfig := {|
  raw_maintenance_interval_secs := Some (dc_maintenance_interval_secs c);
  raw_min_screen_off_secs := Some (dc_min_screen_off_secs c);
  raw_max_soc_temp_c := Some (dc_max_soc_temp_c c);
  raw_max_battery_temp_c := Some (dc_max_battery_temp_c c);
  raw_min_app_cache_age_days := raw_min_app_cache_age_days RawConfig_default;
  raw_min_file_age_hours := Some (cr_min_file_age_hours (dc_cleaning c));
  raw_app_cache_threshold_mb := raw_app_cache_threshold_mb RawConfig_default;
  raw_dry_run := Some dry_run;
  raw_clean_app_cache := Some (cr_clean_app_cache (dc_cleaning c));
  raw_clean_code_cache := Some (cr_clean_code_cache (dc_cleaning c));
  raw_clean_tombstones := Some (cr_clean_crash_dumps (dc_cleaning c));
  raw_clean_oem_logs := Some (cr_clean_oem_logs (dc_cleaning c));
  raw_clean_temp_apks := Some (cr_clean_temp_apks (dc_cleaning c));
  raw_whitelist_packages := Some (sc_whitelist_packages (dc_safety c));
  raw_protected_paths := Some (sc_protected_directory_names (dc_safety c));
  raw_fstrim_interval_hours := raw_fstrim_interval_hours RawConfig_default;
  raw_vacuum_db_interval_hours := raw_vacuum_db_interval_hours RawConfig_default;
|}.

Definition set_interval (c : DaemonConfig) (secs : N) : DaemonConfig :=
  mkDaemonConfig secs (dc_socket_path c) (dc_abstract_socket_name c) (dc_require_screen_off c)
    (dc_require_charging_for_deep_clean c) (dc_min_screen_off_secs c) (dc_max_soc_temp_c c)
    (dc_max_battery_temp_c c) (dc_cleaning c) (dc_optimization c) (dc_safety c).

Definition set_soc_limit (c : DaemonConfig) (t : f32) : DaemonConfig :=
  mkDaemonConfig (dc_maintenance_interval_secs c) (dc_socket_path c)
    (dc_abstract_socket_name c) (dc_require_screen_off c)
    (dc_require_charging_for_deep_clean c) (dc_min_screen_off_secs c) t
    (dc_max_battery_temp_c c) (dc_cleaning c) (dc_optimization c) (dc_safety c).

(** [c] with other protected paths. *)
Definition set_protected (v : ValidatedConfig) (paths : list string) : ValidatedConfig :=
  mkValidatedConfig (maintenance_interval_secs v) (min_screen_off_secs v) (max_soc_temp_c v)
    (max_battery_temp_c v) (min_app_cache_age_secs v) (app_cache_threshold_bytes v) (dry_run v)
    (clean_app_cache v) (clean_code_cache v) (clean_tombstones v) (clean_oem_logs v)
    (clean_temp_apks v) (whitelist_packages v) paths (fstrim_interval_secs v)
    (vacuum_db_interval_secs v).

(** ** Properties *)

(** The file's validation and the job's disagree.  The defaults pass both.  But
    a maintenance interval of 30 to 59 seconds, or an SoC limit of 91 to 95
    degrees, which [validate] documents as legal, is accepted when the file is
    loaded and then makes the configuration of every job, dry run or not, an
    error. *)
Theorem accepted_config_fails_every_job fmt :
  (forall dry, validate DaemonConfig_default = Ok tt /\
     is_ok (from_raw fmt (job_raw_config DaemonConfig_default dry)) = true) /\
  (forall secs dry, 30 <= secs < 60 ->
     let c := set_interval DaemonConfig_default secs in
     validate c = Ok tt /\ is_ok (from_raw fmt (job_raw_config c dry)) = false) /\
  (forall dry, let c := set_soc_limit DaemonConfig_default (f32_of_Z 92) in
     validate c = Ok tt /\ is_ok (from_raw fmt (job_raw_config c dry)) = false).
Proof.
  split; [|split].
  - intros dry. split; [reflexivity|]. by destruct dry; vm_compute.
  - intros secs dry [H1 H2]. cbv zeta. split.
    + unfold validate. simpl dc_maintenance_interval_secs.
      rewrite (proj2 (N.ltb_ge secs 30) H1). reflexivity.
    + unfold from_raw. simpl. rewrite (proj2 (N.leb_gt 60 secs)) by lia. reflexivity.
  - intros dry. split; reflexivity.
Qed.

(** Protected paths do not reach the policy: two configurations that differ
    only in them decide every candidate alike, and a name such as [databases],
    as the file's [protected_directory_names] has it, is not even a prefix of any
    absolute path, so as a protected path it matches no target. *)
Theorem protected_names_have_no_effect v target g c paths now frozen at_ name path :
  evaluate_candidate_with_freezer v target (mkEffective g (set_protected c paths)) now frozen at_
  = evaluate_candidate_with_freezer v target (mkEffective g c) now frozen at_ /\
  (is_absolute path = true -> is_absolute name = false -> components name <> [] ->
   is_path_protected (mkEffective g (set_protected c [name])) path = false).
Proof.
  split; [reflexivity|]. intros Hp Hn Hne. unfold is_path_protected. simpl.
  assert (exists l, components path = RootDir :: l) as [l Hl].
  { unfold components, lead_component. rewrite Hp. by eexists. }
  assert (forall l, components name <> RootDir :: l) as Hnr.
  { intros l' E. unfold components, lead_component, body_components in E. rewrite Hn in E.
    assert (RootDir ∉ str_split SLASH name ≫= piece_components) as Hroot.
    { intros (piece & Hpc & _)%list_elem_of_bind. unfold piece_components in Hpc.
      repeat case_match; set_solver. }
    destruct (str_split SLASH name) as [|x xs]; [done|].
    destruct (String.eqb x "."); [done|]. apply Hroot. simpl in *. rewrite E. left. }
  destruct (components name) as [|c0 cs] eqn:Ec; [done|]. rewrite Hl. simpl.
  assert (c0 <> RootDir) as Hc0 by (intros ->; by apply (Hnr cs)).
  rewrite bool_decide_eq_false_2 by done. simpl.
  case_match; [|done]. rewrite bool_decide_eq_false_2; [done|]. intros E. simplify_eq.
Qed.

Lemma protected_names_have_no_effect_witness :
  match from_raw (fun _ => EmptyString) (job_raw_config DaemonConfig_default false) with
  | Ok c => is_path_protected (mkEffective ConfigGeneration_INITIAL (set_protected c ["databases"]))
              "/data/user/0/com.app/databases" = false
  | Err _ => False
  end.
Proof.
  destruct (from_raw (fun _ => EmptyString) (job_raw_config DaemonConfig_default false))
    as [c|] eqn:E; [|vm_compute in E; discriminate].
  apply (protected_names_have_no_effect
    (mkValidated (mkCandidate 1 "t" "a" (mkFileIdentity 5 9) 0 0 None false false) 5 77 0)
    (mkTarget "t" AppCache "/c" 5 77 0 0 None StandardCache CatalogGeneration_INITIAL)
    ConfigGeneration_INITIAL c [] 0 false 0 "databases").
  - reflexivity.
  - reflexivity.
  - vm_compute. discriminate.
Defined.
