(* ===== verification/ConfigFile.v ===== *)
(** Loading and saving the daemon's configuration, src/config.rs.

    TOML is a parameter ([toml::from_str] and [toml::to_string_pretty]).  Loading reads a
    map from paths to contents.  Saving is the sequence of its system calls, each of which
    may fail, on a volume that distinguishes what the running system reads from what is on
    the disk: a crash may undo the last changes of directories, and leaves anything in a
    file that was written and not synced. *)
From Stdlib Require Import Ascii String.
From S2P Require Import Prelude Paths Domain DaemonConfig.

(** ** [Path::with_extension] *)

Fixpoint before_last (c : ascii) (s : string) : option string :=
  match s with
  | EmptyString => None
  | String d s' =>
      match before_last c s' with
      | Some r => Some (String d r)
      | None => if Ascii.eqb c d then Some EmptyString else None
      end
  end.

(** [Path::file_stem] of a file name: a leading dot starts no extension. *)
Definition file_stem (name : string) : string :=
  match before_last "."%char name with
  | Some EmptyString | None => name
  | Some stem => stem
  end.

(** The pieces of a path up to its file name. *)
Fixpoint drop_skipped (pieces : list string) : list string :=
  match pieces with
  | [] => []
  | p :: pieces' =>
      if str_is_empty p || String.eqb p "." then drop_skipped pieces' else pieces
  end.

Definition with_extension (path ext : string) : string :=
  match file_name path with
  | None => path
  | Some name =>
      let pieces := reverse (drop_skipped (reverse (str_split SLASH path))) in
      String.concat "/" (removelast pieces ++ [file_stem name +:+ "." +:+ ext])
  end.

(** ** Loading *)

Definition CONFIG_PATH : string := "/data/adb/cleaner/config.toml".

Class TomlCodec := {
  toml_from_str : string -> result string DaemonConfig;
  toml_to_string_pretty : DaemonConfig -> result string string;
}.

(** What reading finds: [fs::read_to_string], and [Path::exists]. *)
Record Disk := mkDisk {
  dk_read : string -> result Errno string;
  dk_exists : string -> bool;
}.

Section config_file.
Context `{TomlCodec}.

Definition load_from_file_strict (d : Disk) (path : string) : result CleanerError DaemonConfig :=
  match dk_read d path with
  | Err e => Err (Io e)
  | Ok content =>
      match toml_from_str content with
      | Err m => Err (Toml m)
      | Ok config => match validate config with Err e => Err e | Ok _ => Ok config end
      end
  end.

(** A candidate file, if it exists and loads. *)
Definition try_path (d : Disk) (path : string) : option (DaemonConfig * option string) :=
  if dk_exists d path then
    match load_from_file_strict d path with
    | Ok cfg => Some (cfg, Some path)
    | Err _ => None
    end
  else None.

Definition builtin_or_found (d : Disk) : DaemonConfig * option string :=
  match try_path d CONFIG_PATH with
  | Some r => r
  | None =>
      match try_path d "config.toml" with
      | Some r => r
      | None => (DaemonConfig_default, None)
      end
  end.

Definition load_or_default_with_path (d : Disk) (path : option string)
    : DaemonConfig * option string :=
  match path with
  | Some p =>
      match load_from_file_strict d p with
      | Ok cfg => (cfg, Some p)
      | Err _ => builtin_or_found d
      end
  | None => builtin_or_found d
  end.

Definition load_or_default (d : Disk) (path : option string) : DaemonConfig :=
  fst (load_or_default_with_path d path).

Definition reload_from_path (d : Disk) (path : option string) : result CleanerError DaemonConfig :=
  match path with
  | Some p => load_from_file_strict d p
  | None =>
      if dk_exists d CONFIG_PATH then load_from_file_strict d CONFIG_PATH
      else Ok (fst (load_or_default_with_path d None))
  end.

(** ** A volume and what a crash leaves of it *)

Abbreviation Files := (gmap string string).

(** Names refer to inodes.  [v_unsynced] are the inodes whose data may not be on the disk
    yet, [v_past] the earlier states of the directories, latest first, that may still be
    the ones on the disk. *)
Record Volume := mkVolume {
  v_names : gmap string nat;
  v_bodies : gmap nat string;
  v_unsynced : gset nat;
  v_past : list (gmap string nat);
  v_next : nat;
}.

Definition v_body (v : Volume) (i : nat) : string := default EmptyString (v_bodies v !! i).

(** What the running system reads. *)
Definition files (v : Volume) : Files := v_body v <$> v_names v.

(** [File::create]: an existing file is emptied. *)
Definition create_file (path : string) (v : Volume) : nat * Volume :=
  match v_names v !! path with
  | Some i =>
      (i, mkVolume (v_names v) (<[i := EmptyString]> (v_bodies v)) ({[i]} ∪ v_unsynced v) (v_past v) (v_next v))
  | None =>
      let i := v_next v in
      (i, mkVolume (<[path := i]> (v_names v)) (<[i := EmptyString]> (v_bodies v)) ({[i]} ∪ v_unsynced v)
            (v_names v :: v_past v) (S i))
  end.

Definition write_file (i : nat) (text : string) (v : Volume) : Volume :=
  mkVolume (v_names v) (<[i := v_body v i +:+ text]> (v_bodies v)) ({[i]} ∪ v_unsynced v) (v_past v) (v_next v).

(** [File::sync_all] *)
Definition sync_file (i : nat) (v : Volume) : Volume :=
  mkVolume (v_names v) (v_bodies v) (v_unsynced v ∖ {[i]}) (v_past v) (v_next v).

Definition rename_file (src dst : string) (v : Volume) : Volume :=
  match v_names v !! src with
  | Some i =>
      mkVolume (<[dst := i]> (delete src (v_names v))) (v_bodies v) (v_unsynced v) (v_names v :: v_past v) (v_next v)
  | None => v
  end.

(** A crash leaves one of the states of the directories, the data of the synced inodes,
    and anything at all for the others. *)
Definition survives (v : Volume) (d : Files) : Prop :=
  exists names, names ∈ v_names v :: v_past v /\
    forall p, match names !! p with
              | None => d !! p = None
              | Some i => exists text, d !! p = Some text /\ (i ∉ v_unsynced v -> text = v_body v i)
              end.

(** Everything so far is on the disk, and no file has two names. *)
Record settled (v : Volume) : Prop := {
  st_past : v_past v = [];
  st_synced : v_unsynced v = ∅;
  st_one_name p q i : v_names v !! p = Some i -> v_names v !! q = Some i -> p = q;
  st_next p i : v_names v !! p = Some i -> (i < v_next v)%nat;
}.

(** ** Saving *)

Inductive SaveCall := CreateDirs | CreateTmp | WriteTmp | SyncTmp | RenameTmp.

(** [target.parent().is_some()] *)
Definition has_parent (path : string) : bool :=
  match last (components path) with Some RootDir | None => false | Some _ => true end.

(** [fault] is which calls fail, [written] how much a failing write got out.  The
    list has the volume after each call, latest first. *)
Definition save_to_file (fault : SaveCall -> option Errno) (written : nat) (self : DaemonConfig)
    (target : string) (v : Volume) : result CleanerError unit * list Volume :=
  match validate self with
  | Err e => (Err e, [v])
  | Ok _ =>
      match toml_to_string_pretty self with
      | Err m => (Err (TomlSer m), [v])
      | Ok content =>
          match (if has_parent target then fault CreateDirs else None) with
          | Some e => (Err (Io e), [v])
          | None =>
              let tmp_path := with_extension target "tmp" in
              match fault CreateTmp with
              | Some e => (Err (Io e), [v])
              | None =>
                  let '(file, v1) := create_file tmp_path v in
                  match fault WriteTmp with
                  | Some e => (Err (Io e), [write_file file (String.substring 0 written content) v1; v1; v])
                  | None =>
                      let v2 := write_file file content v1 in
                      match fault SyncTmp with
                      | Some e => (Err (Io e), [v2; v1; v])
                      | None =>
                          let v3 := sync_file file v2 in
                          match fault RenameTmp with
                          | Some e => (Err (Io e), [v3; v2; v1; v])
                          | None => (Ok tt, [rename_file tmp_path target v3; v3; v2; v1; v])
                          end
                      end
                  end
              end
          end
      end
  end.

(** The disk of a set of files. *)
Definition disk_of (files : Files) : Disk :=
  mkDisk (fun p => match files !! p with Some c => Ok c | None => Err NOENT end)
         (fun p => bool_decide (is_Some (files !! p))).

(** ** Properties *)

Lemma load_strict_valid d p cfg : load_from_file_strict d p = Ok cfg -> validate cfg = Ok tt.
Proof.
  unfold load_from_file_strict. destruct (dk_read d p) as [content|]; [|done].
  destruct (toml_from_str content) as [c|]; [|done]. destruct (validate c) as [[]|] eqn:E; [|done].
  by intros [= <-].
Qed.

Lemma builtin_valid d : validate (fst (builtin_or_found d)) = Ok tt.
Proof.
  unfold builtin_or_found, try_path.
  destruct (dk_exists d CONFIG_PATH);
    [destruct (load_from_file_strict d CONFIG_PATH) eqn:E; [by eapply load_strict_valid|]|];
    (destruct (dk_exists d "config.toml"); [|by vm_compute]);
    (destruct (load_from_file_strict d "config.toml") eqn:E'; [by eapply load_strict_valid|by vm_compute]).
Qed.

(** Whatever the files hold, the daemon runs on a configuration that passed
    validation: at start, and after every reload. *)
Lemma loaded_config_valid d path :
  validate (load_or_default d path) = Ok tt /\
  (forall cfg, reload_from_path d path = Ok cfg -> validate cfg = Ok tt).
Proof.
  split.
  - unfold load_or_default, load_or_default_with_path. destruct path as [p|]; [|apply builtin_valid].
    destruct (load_from_file_strict d p) eqn:E; [by eapply load_strict_valid|apply builtin_valid].
  - intros cfg. unfold reload_from_path, load_or_default_with_path. destruct path as [p|];
      [apply load_strict_valid|]. destruct (dk_exists d CONFIG_PATH); [apply load_strict_valid|].
    intros [= <-]. apply builtin_valid.
Qed.

(** [seen v d]: [d] is what the system reads, or what a crash leaves. *)
Definition seen (v : Volume) (d : Files) : Prop := d = files v \/ survives v d.

(** The file [target] is [old] now and after a crash, and it is not the file [tmp]. *)
Definition guarded (tmp target : string) (old : option string) (v : Volume) : Prop :=
  exists oi, (forall names, names ∈ v_names v :: v_past v -> names !! target = oi) /\
    match oi with
    | None => old = None
    | Some i => old = Some (v_body v i) /\ (i ∉ v_unsynced v) /\ (i < v_next v)%nat /\ v_names v !! tmp <> Some i
    end.

Lemma guarded_seen tmp target old v d : guarded tmp target old v -> seen v d -> d !! target = old.
Proof.
  intros (oi & Hn & Ho) [->|(names & Hin & Hd)].
  - unfold files. rewrite lookup_fmap, (Hn (v_names v)) by left. destruct oi; cbn; [by destruct Ho as [-> _]|done].
  - specialize (Hd target). rewrite (Hn names Hin) in Hd. destruct oi as [i|]; [|congruence].
    destruct Hd as (text & Hd & Hs), Ho as (-> & Hi & _). rewrite Hd. by f_equal; apply Hs.
Qed.

Lemma settled_guarded tmp target v :
  tmp <> target -> settled v -> guarded tmp target (files v !! target) v.
Proof.
  intros Hne [Hp Hu Hone Hnext]. exists (v_names v !! target). split.
  - intros names. rewrite Hp. by intros ->%list_elem_of_singleton.
  - unfold files. rewrite lookup_fmap. destruct (v_names v !! target) as [i|] eqn:Ei; [|done]. cbn.
    split; [done|]. split; [by rewrite Hu|]. split; [by eapply Hnext|]. intros Ht. by apply Hne, (Hone tmp target i).
Qed.

Lemma create_guarded tmp target old v i v' :
  tmp <> target -> guarded tmp target old v -> create_file tmp v = (i, v') ->
  guarded tmp target old v' /\ v_names v' !! tmp = Some i /\ v_body v' i = EmptyString.
Proof.
  intros Hne (oi & Hn & Ho). unfold create_file. destruct (v_names v !! tmp) as [j|] eqn:Ej; intros [= <- <-]; cbn.
  - split; [|split; [done|unfold v_body; cbn; by rewrite lookup_insert_eq]]. exists oi. split; [done|].
    destruct oi as [k|]; [|done]. destruct Ho as (-> & Hk & Hlt & Ht). cbn.
    assert (k <> j) by congruence. unfold v_body. cbn. rewrite lookup_insert_ne by done. rewrite Ej. set_solver.
  - split; [|split; [by rewrite lookup_insert_eq|unfold v_body; cbn; by rewrite lookup_insert_eq]].
    exists oi. split.
    + intros names [->|Hin]%elem_of_cons; [|by apply Hn].
      cbn. rewrite lookup_insert_ne by done. apply Hn. left.
    + destruct oi as [k|]; [|done]. destruct Ho as (-> & Hk & Hlt & Ht). cbn.
      assert (k <> v_next v) by lia. unfold v_body. cbn. rewrite lookup_insert_ne, lookup_insert_eq by done.
      split; [done|]. split; [set_solver|]. split; [lia|congruence].
Qed.

Lemma write_guarded tmp target old v i text :
  guarded tmp target old v -> v_names v !! tmp = Some i -> guarded tmp target old (write_file i text v).
Proof.
  intros (oi & Hn & Ho) Hi. exists oi. split; [done|]. destruct oi as [k|]; [|done].
  destruct Ho as (-> & Hk & Hlt & Ht). cbn. assert (k <> i) by congruence.
  unfold v_body. cbn. rewrite lookup_insert_ne by done. set_solver.
Qed.

Lemma sync_guarded tmp target old v i : guarded tmp target old v -> guarded tmp target old (sync_file i v).
Proof.
  intros (oi & Hn & Ho). exists oi. split; [done|]. destruct oi as [k|]; [|done]. cbn. set_solver.
Qed.

(** Renaming a synced file onto the target: the old file, or all of the new one. *)
Lemma rename_seen tmp target old v i :
  tmp <> target -> guarded tmp target old v -> v_names v !! tmp = Some i -> i ∉ v_unsynced v ->
  let v' := rename_file tmp target v in
  files v' !! target = Some (v_body v i) /\
  forall d, seen v' d -> d !! target = old \/ d !! target = Some (v_body v i).
Proof.
  intros Hne Hg Hi Hs. cbn zeta. unfold rename_file. rewrite Hi.
  set (v' := mkVolume _ _ _ _ _).
  assert (files v' !! target = Some (v_body v i)) as Hf.
  { unfold files. cbn. by rewrite lookup_fmap, lookup_insert_eq. }
  split; [done|]. intros d [->|(names & Hin & Hd)]; [by right|].
  apply elem_of_cons in Hin as [->|Hin].
  - right. specialize (Hd target). cbn in Hd. rewrite lookup_insert_eq in Hd. destruct Hd as (text & -> & Ht).
    by rewrite Ht.
  - left. apply (guarded_seen tmp target old v d Hg). right. by exists names.
Qed.

(** Saving, with the text that the configuration is written as. *)
Lemma save_to_file_seen fault written self target v :
  with_extension target "tmp" <> target -> settled v ->
  let '(r, states) := save_to_file fault written self target v in
  (forall v' d, v' ∈ states -> seen v' d ->
     d !! target = files v !! target \/
     exists content, toml_to_string_pretty self = Ok content /\ r = Ok tt /\ d !! target = Some content) /\
  (r = Ok tt -> validate self = Ok tt /\ exists v' content, head states = Some v' /\
     toml_to_string_pretty self = Ok content /\ files v' !! target = Some content) /\
  ((forall c, fault c = None) -> validate self = Ok tt -> is_ok (toml_to_string_pretty self) = true -> r = Ok tt).
Proof.
  intros Hne Hset. pose proof (settled_guarded _ target v Hne Hset) as Hg.
  set (old := files v !! target) in *.
  assert (forall (r : result CleanerError unit) states,
    Forall (guarded (with_extension target "tmp") target old) states ->
    forall v' d, v' ∈ states -> seen v' d ->
      d !! target = old \/
      exists content, toml_to_string_pretty self = Ok content /\ r = Ok tt /\ d !! target = Some content) as Hold.
  { intros r states Hall v' d Hin Hd. left. rewrite Forall_forall in Hall. by eapply guarded_seen; [apply Hall|]. }
  unfold save_to_file. destruct (validate self) as [[]|e]; [|by split; [apply Hold; repeat constructor|]].
  destruct (toml_to_string_pretty self) as [content|m] eqn:Et; [|by split; [apply Hold; repeat constructor|]].
  destruct (if has_parent target then fault CreateDirs else None) as [e|] eqn:Ed.
  { split; [by apply Hold; repeat constructor|]. split; [done|]. intros Hno. exfalso. revert Ed.
    destruct (has_parent target); [by rewrite Hno|done]. }
  destruct (fault CreateTmp) as [e|] eqn:Ec; [by split; [apply Hold; repeat constructor|split; [|intros Hno; rewrite Hno in Ec]]|].
  destruct (create_file (with_extension target "tmp") v) as [i v1] eqn:Ev1.
  destruct (create_guarded _ target old v i v1 Hne Hg Ev1) as (Hg1 & Hi & Hempty).
  pose proof (fun text => write_guarded _ target old v1 i text Hg1 Hi) as Hg2.
  destruct (fault WriteTmp) as [e|] eqn:Ew; [by split; [apply Hold; repeat constructor|split; [|intros Hno; rewrite Hno in Ew]]|].
  destruct (fault SyncTmp) as [e|] eqn:Es; [by split; [apply Hold; repeat constructor|split; [|intros Hno; rewrite Hno in Es]]|].
  pose proof (sync_guarded _ target old _ i (Hg2 content)) as Hg3.
  destruct (fault RenameTmp) as [e|] eqn:Er; [by split; [apply Hold; repeat constructor|split; [|intros Hno; rewrite Hno in Er]]|].
  assert (v_body (sync_file i (write_file i content v1)) i = content) as Hbody.
  { unfold v_body at 1. cbn. by rewrite lookup_insert_eq, Hempty. }
  destruct (rename_seen _ target old (sync_file i (write_file i content v1)) i Hne Hg3 Hi) as [Hf Hseen];
    [cbn; set_solver|]. rewrite Hbody in *. split; [|split; [|done]].
  - intros v' d [->|Hin]%elem_of_cons Hd.
    + destruct (Hseen d Hd) as [->| ->]; [by left|right; by exists content].
    + eapply (Hold (Ok tt)); [|exact Hin|exact Hd]. by repeat constructor.
  - intros _. split; [done|]. by eexists _, content.
Qed.
End config_file.

(** A target whose extension is tmp is its own temporary file: a failed write
    destroys what was there. *)
#[local] Instance constant_toml : TomlCodec := {
  toml_from_str s := Ok DaemonConfig_default;
  toml_to_string_pretty c := Ok "x = 1"%string;
}.

Lemma save_to_tmp_not_atomic :
  let old := mkVolume {["a.tmp"%string := 0%nat]} {[0%nat := "old"%string]} ∅ [] 1 in
  let '(r, states) := save_to_file (fun c => match c with WriteTmp => Some NOENT | _ => None end)
                        0 DaemonConfig_default "a.tmp" old in
  is_ok r = false /\ match states with v :: _ => files v !! "a.tmp"%string = Some EmptyString | [] => False end.
Proof. vm_compute. done. Qed.
