(* ===== verification/ConfigToml.v ===== *)
(** The configuration files as TOML tables: what the serde attributes of src/config.rs
    and src/config_pipeline/mod.rs say about names, defaults, aliases and unknown keys.

    The TOML library is a parameter: its text layer, and for each type of field how a
    value is read and written.  The laws that the round trip needs are those of the
    library: what it writes of a value or a table it reads back as that.  The struct layer
    is the attributes'; [says_config] states once more, from the documentation, which
    configuration a table means.  On top of it the theorems of ConfigFile hold for real
    files. *)
From Stdlib Require Import Ascii String SpecFloat.
From S2P Require Import Prelude Paths Domain Config DaemonConfig ConfigFile.

(** ** The library *)

Record Codec (V A : Type) := mkCodec { de : V -> result string A; ser : A -> result string V }.
Arguments mkCodec {V A} de ser.
Arguments de {V A} c v.
Arguments ser {V A} c a.

Class Toml (V : Type) := {
  parse : string -> result string (gmap string V);
  print_pretty : gmap string V -> result string string;
  c_u64 : Codec V N;
  c_u32 : Codec V N;
  c_usize : Codec V N;
  c_bool : Codec V bool;
  c_f32 : Codec V f32;
  c_string : Codec V string;
  c_strings : Codec V (list string);
  c_table : Codec V (gmap string V);
  unknown_variant : string -> string;      (** the messages of its errors *)
  unknown_field : string -> string;
  duplicate_field : string -> string;
}.

(** ** The struct layer *)

Section structs.
Context {V : Type} `{Toml V}.
#[local] Abbreviation table := (gmap string V).

(** [#[serde(default = "dflt")]] *)
Definition field {A} (c : Codec V A) (dflt : A) (name : string) (t : table) : result string A :=
  match t !! name with Some v => de c v | None => Ok dflt end.

(** [#[serde(alias = "alias", default = "dflt")]] *)
Definition field_alias {A} (c : Codec V A) (dflt : A) (name alias : string) (t : table) : result string A :=
  match t !! name, t !! alias with
  | Some _, Some _ => Err (duplicate_field name)
  | Some v, None | None, Some v => de c v
  | None, None => Ok dflt
  end.

(** An [Option] field without attributes. *)
Definition field_option {A} (c : Codec V A) (name : string) (t : table) : result string (option A) :=
  match t !! name with Some v => try! a := de c v in Ok (Some a) | None => Ok None end.

Fixpoint ser_fields (l : list (string * result string V)) : result string table :=
  match l with
  | [] => Ok ∅
  | (name, r) :: l' => try! v := r in try! t := ser_fields l' in Ok (<[name := v]> t)
  end.

(** A struct that is a field of another. *)
Definition struct_codec {A} (de_fields : table -> result string A)
    (fields_of : A -> list (string * result string V)) : Codec V A :=
  mkCodec (fun v => try! t := de c_table v in de_fields t)
          (fun a => try! t := ser_fields (fields_of a) in ser c_table t).

(** [#[serde(rename_all = "lowercase")]] *)
Definition SafetyMode_name (m : SafetyMode) : string :=
  match m with Safe => "safe" | Balanced => "balanced" | Aggressive => "aggressive" end.
Definition SafetyMode_of_name (s : string) : result string SafetyMode :=
  if String.eqb s "safe" then Ok Safe
  else if String.eqb s "balanced" then Ok Balanced
  else if String.eqb s "aggressive" then Ok Aggressive
  else Err (unknown_variant s).
Definition c_mode : Codec V SafetyMode :=
  mkCodec (fun v => try! s := de c_string v in SafetyMode_of_name s)
          (fun m => ser c_string (SafetyMode_name m)).

Definition cleaning_de (t : table) : result string CleaningRulesConfig :=
  try! a := field c_bool default_true "clean_app_cache" t in
  try! b := field c_bool default_true "clean_webview_cache" t in
  try! c := field c_bool default_true "clean_image_caches" t in
  try! d := field c_bool default_false "clean_thumbnails" t in
  try! e := field c_bool default_false "clean_code_cache" t in
  try! f := field c_bool default_false "clean_oem_logs" t in
  try! g := field c_bool default_false "clean_crash_dumps" t in
  try! h := field c_usize default_keep_crashes "keep_recent_crash_files" t in
  try! i := field c_bool default_false "clean_temp_apks" t in
  try! j := field c_u32 default_min_file_age_hours "min_file_age_hours" t in
  Ok (mkCleaning a b c d e f g h i j).

Definition cleaning_fields (x : CleaningRulesConfig) : list (string * result string V) :=
  [("clean_app_cache", ser c_bool (cr_clean_app_cache x));
   ("clean_webview_cache", ser c_bool (cr_clean_webview_cache x));
   ("clean_image_caches", ser c_bool (cr_clean_image_caches x));
   ("clean_thumbnails", ser c_bool (cr_clean_thumbnails x));
   ("clean_code_cache", ser c_bool (cr_clean_code_cache x));
   ("clean_oem_logs", ser c_bool (cr_clean_oem_logs x));
   ("clean_crash_dumps", ser c_bool (cr_clean_crash_dumps x));
   ("keep_recent_crash_files", ser c_usize (cr_keep_recent_crash_files x));
   ("clean_temp_apks", ser c_bool (cr_clean_temp_apks x));
   ("min_file_age_hours", ser c_u32 (cr_min_file_age_hours x))].

Definition optimization_de (t : table) : result string OptimizationConfig :=
  try! a := field c_bool default_false "zram_compaction" t in
  try! b := field c_bool default_false "compact_memory" t in
  try! c := field c_bool default_false "cgroup_memory_reclaim" t in
  try! d := field c_u64 default_reclaim_amount_mb "cgroup_reclaim_amount_mb" t in
  try! e := field c_bool default_true "freezer_aware_cleaning" t in
  try! f := field c_bool default_true "psi_adaptive_monitoring" t in
  try! g := field c_u32 default_psi_moderate_stall_ms "psi_moderate_stall_ms" t in
  try! h := field c_u32 default_psi_critical_stall_ms "psi_critical_stall_ms" t in
  try! i := field c_u64 default_psi_cooldown_secs "psi_cooldown_secs" t in
  try! j := field c_bool default_true "f2fs_gc_urgent" t in
  try! k := field c_bool default_false "fstrim_partitions" t in
  try! l := field c_strings default_trim_mounts "trim_mount_points" t in
  Ok (mkOptimization a b c d e f g h i j k l).

Definition optimization_fields (x : OptimizationConfig) : list (string * result string V) :=
  [("zram_compaction", ser c_bool (oc_zram_compaction x));
   ("compact_memory", ser c_bool (oc_compact_memory x));
   ("cgroup_memory_reclaim", ser c_bool (oc_cgroup_memory_reclaim x));
   ("cgroup_reclaim_amount_mb", ser c_u64 (oc_cgroup_reclaim_amount_mb x));
   ("freezer_aware_cleaning", ser c_bool (oc_freezer_aware_cleaning x));
   ("psi_adaptive_monitoring", ser c_bool (oc_psi_adaptive_monitoring x));
   ("psi_moderate_stall_ms", ser c_u32 (oc_psi_moderate_stall_ms x));
   ("psi_critical_stall_ms", ser c_u32 (oc_psi_critical_stall_ms x));
   ("psi_cooldown_secs", ser c_u64 (oc_psi_cooldown_secs x));
   ("f2fs_gc_urgent", ser c_bool (oc_f2fs_gc_urgent x));
   ("fstrim_partitions", ser c_bool (oc_fstrim_partitions x));
   ("trim_mount_points", ser c_strings (oc_trim_mount_points x))].

Definition safety_de (t : table) : result string SafetyConfig :=
  try! a := field c_mode default_safety_mode "mode" t in
  try! b := field c_strings default_whitelist_packages "whitelist_packages" t in
  try! c := field_alias c_strings default_protected_directory_names "protected_directory_names"
              "protected_substrings" t in
  Ok (mkSafetyConfig a b c).

Definition safety_fields (x : SafetyConfig) : list (string * result string V) :=
  [("mode", ser c_mode (sc_mode x));
   ("whitelist_packages", ser c_strings (sc_whitelist_packages x));
   ("protected_directory_names", ser c_strings (sc_protected_directory_names x))].

Definition c_cleaning : Codec V CleaningRulesConfig := struct_codec cleaning_de cleaning_fields.
Definition c_optimization : Codec V OptimizationConfig := struct_codec optimization_de optimization_fields.
Definition c_safety : Codec V SafetyConfig := struct_codec safety_de safety_fields.

Definition config_de (t : table) : result string DaemonConfig :=
  try! a := field c_u64 default_maintenance_interval_secs "maintenance_interval_secs" t in
  try! b := field c_string default_socket_path "socket_path" t in
  try! c := field c_string default_abstract_socket_name "abstract_socket_name" t in
  try! d := field c_bool default_true "require_screen_off" t in
  try! e := field c_bool default_true "require_charging_for_deep_clean" t in
  try! f := field c_u64 default_min_screen_off_secs "min_screen_off_secs" t in
  try! g := field c_f32 default_max_soc_temp "max_soc_temp_c" t in
  try! h := field c_f32 default_max_battery_temp "max_battery_temp_c" t in
  try! i := field c_cleaning CleaningRulesConfig_default "cleaning" t in
  try! j := field c_optimization OptimizationConfig_default "optimization" t in
  try! k := field c_safety SafetyConfig_default "safety" t in
  Ok (mkDaemonConfig a b c d e f g h i j k).

Definition config_fields (x : DaemonConfig) : list (string * result string V) :=
  [("maintenance_interval_secs", ser c_u64 (dc_maintenance_interval_secs x));
   ("socket_path", ser c_string (dc_socket_path x));
   ("abstract_socket_name", ser c_string (dc_abstract_socket_name x));
   ("require_screen_off", ser c_bool (dc_require_screen_off x));
   ("require_charging_for_deep_clean", ser c_bool (dc_require_charging_for_deep_clean x));
   ("min_screen_off_secs", ser c_u64 (dc_min_screen_off_secs x));
   ("max_soc_temp_c", ser c_f32 (dc_max_soc_temp_c x));
   ("max_battery_temp_c", ser c_f32 (dc_max_battery_temp_c x));
   ("cleaning", ser c_cleaning (dc_cleaning x));
   ("optimization", ser c_optimization (dc_optimization x));
   ("safety", ser c_safety (dc_safety x))].

(** [RawConfig], with [#[serde(deny_unknown_fields)]]. *)
Definition raw_names : list string :=
  ["maintenance_interval_secs"; "min_screen_off_secs"; "max_soc_temp_c"; "max_battery_temp_c";
   "min_app_cache_age_days"; "min_file_age_hours"; "app_cache_threshold_mb"; "dry_run";
   "clean_app_cache"; "clean_code_cache"; "clean_tombstones"; "clean_oem_logs"; "clean_temp_apks";
   "whitelist_packages"; "protected_paths"; "fstrim_interval_hours"; "vacuum_db_interval_hours"].

Definition raw_de (t : table) : result string RawConfig :=
  match filter (fun k => k ∉ raw_names) (map fst (map_to_list t)) with
  | k :: _ => Err (unknown_field k)
  | [] =>
      try! a := field_option c_u64 "maintenance_interval_secs" t in
      try! b := field_option c_u64 "min_screen_off_secs" t in
      try! c := field_option c_f32 "max_soc_temp_c" t in
      try! d := field_option c_f32 "max_battery_temp_c" t in
      try! e := field_option c_u64 "min_app_cache_age_days" t in
      try! f := field_option c_u64 "min_file_age_hours" t in
      try! g := field_option c_u64 "app_cache_threshold_mb" t in
      try! h := field_option c_bool "dry_run" t in
      try! i := field_option c_bool "clean_app_cache" t in
      try! j := field_option c_bool "clean_code_cache" t in
      try! k := field_option c_bool "clean_tombstones" t in
      try! l := field_option c_bool "clean_oem_logs" t in
      try! m := field_option c_bool "clean_temp_apks" t in
      try! n := field_option c_strings "whitelist_packages" t in
      try! o := field_option c_strings "protected_paths" t in
      try! p := field_option c_u64 "fstrim_interval_hours" t in
      try! q := field_option c_u64 "vacuum_db_interval_hours" t in
      Ok (mkRaw a b c d e f g h i j k l m n o p q)
  end.

Definition from_toml_str (fmt_f32 : f32 -> string) (toml_str : string) : result fault ValidatedConfig :=
  match (try! t := parse toml_str in raw_de t) with
  | Err e => Err (Error (ConfigError ("Failed to parse config TOML: " +:+ e)))
  | Ok raw => from_raw fmt_f32 raw
  end.

(** The two calls of the library that ConfigFile has as parameters. *)
#[export] Instance toml_codec : TomlCodec := {
  toml_from_str s := try! t := parse s in config_de t;
  toml_to_string_pretty c := try! t := ser_fields (config_fields c) in print_pretty t;
}.
End structs.

(** ** What the files say, independently of the readers

    The documented keys, with the values they have when they are left out. *)
Section documented.
Context {V : Type} `{Toml V}.
#[local] Abbreviation table := (gmap string V).

(** The key [name] has the value [a], or is left out and [a] is [missing]. *)
Definition says {A} (c : Codec V A) (t : table) (name : string) (missing a : A) : Prop :=
  match t !! name with Some v => de c v = Ok a | None => a = missing end.

(** A table within the table; left out, it is as an empty one. *)
Definition says_table (t : table) (name : string) (inner : table -> Prop) : Prop :=
  match t !! name with Some v => exists t', de c_table v = Ok t' /\ inner t' | None => inner ∅ end.

Record says_cleaning (t : table) (x : CleaningRulesConfig) : Prop := {
  s_clean_app_cache : says c_bool t "clean_app_cache" true (cr_clean_app_cache x);
  s_clean_webview_cache : says c_bool t "clean_webview_cache" true (cr_clean_webview_cache x);
  s_clean_image_caches : says c_bool t "clean_image_caches" true (cr_clean_image_caches x);
  s_clean_thumbnails : says c_bool t "clean_thumbnails" false (cr_clean_thumbnails x);
  s_clean_code_cache : says c_bool t "clean_code_cache" false (cr_clean_code_cache x);
  s_clean_oem_logs : says c_bool t "clean_oem_logs" false (cr_clean_oem_logs x);
  s_clean_crash_dumps : says c_bool t "clean_crash_dumps" false (cr_clean_crash_dumps x);
  s_keep_recent_crash_files : says c_usize t "keep_recent_crash_files" 3 (cr_keep_recent_crash_files x);
  s_clean_temp_apks : says c_bool t "clean_temp_apks" false (cr_clean_temp_apks x);
  s_min_file_age_hours : says c_u32 t "min_file_age_hours" 24 (cr_min_file_age_hours x);
}.

Record says_optimization (t : table) (x : OptimizationConfig) : Prop := {
  s_zram_compaction : says c_bool t "zram_compaction" false (oc_zram_compaction x);
  s_compact_memory : says c_bool t "compact_memory" false (oc_compact_memory x);
  s_cgroup_memory_reclaim : says c_bool t "cgroup_memory_reclaim" false (oc_cgroup_memory_reclaim x);
  s_cgroup_reclaim_amount_mb : says c_u64 t "cgroup_reclaim_amount_mb" 128 (oc_cgroup_reclaim_amount_mb x);
  s_freezer_aware_cleaning : says c_bool t "freezer_aware_cleaning" true (oc_freezer_aware_cleaning x);
  s_psi_adaptive_monitoring : says c_bool t "psi_adaptive_monitoring" true (oc_psi_adaptive_monitoring x);
  s_psi_moderate_stall_ms : says c_u32 t "psi_moderate_stall_ms" 150 (oc_psi_moderate_stall_ms x);
  s_psi_critical_stall_ms : says c_u32 t "psi_critical_stall_ms" 250 (oc_psi_critical_stall_ms x);
  s_psi_cooldown_secs : says c_u64 t "psi_cooldown_secs" 45 (oc_psi_cooldown_secs x);
  s_f2fs_gc_urgent : says c_bool t "f2fs_gc_urgent" true (oc_f2fs_gc_urgent x);
  s_fstrim_partitions : says c_bool t "fstrim_partitions" false (oc_fstrim_partitions x);
  s_trim_mount_points :
    says c_strings t "trim_mount_points" ["/data"; "/cache"; "/metadata"]%string (oc_trim_mount_points x);
}.

Inductive mode_word : string -> SafetyMode -> Prop :=
| word_safe : mode_word "safe" Safe
| word_balanced : mode_word "balanced" Balanced
| word_aggressive : mode_word "aggressive" Aggressive.

(** The names of protected directories are under their key or under its older name, never
    under both. *)
Record says_safety (t : table) (x : SafetyConfig) : Prop := {
  s_mode : match t !! "mode"%string with
           | Some v => exists word, de c_string v = Ok word /\ mode_word word (sc_mode x)
           | None => sc_mode x = Safe
           end;
  s_whitelist_packages :
    says c_strings t "whitelist_packages"
      ["com.android.systemui"; "com.android.settings"; "com.android.providers.settings";
       "com.android.providers.media"; "com.google.android.gms";
       "com.google.android.googlequicksearchbox"]%string (sc_whitelist_packages x);
  s_protected_directory_names :
    match t !! "protected_directory_names"%string, t !! "protected_substrings"%string with
    | Some v, None | None, Some v => de c_strings v = Ok (sc_protected_directory_names x)
    | None, None => sc_protected_directory_names x =
        [".nomedia"; "shared_prefs"; "databases"; "lib"; "files"; "keystore"; "fpdata"]%string
    | Some _, Some _ => False
    end;
}.

Record says_config (t : table) (x : DaemonConfig) : Prop := {
  s_maintenance_interval_secs : says c_u64 t "maintenance_interval_secs" 21600 (dc_maintenance_interval_secs x);
  s_socket_path : says c_string t "socket_path" "/data/adb/cleaner/run/daemon"%string (dc_socket_path x);
  s_abstract_socket_name : says c_string t "abstract_socket_name" "cleaner_daemon"%string (dc_abstract_socket_name x);
  s_require_screen_off : says c_bool t "require_screen_off" true (dc_require_screen_off x);
  s_require_charging_for_deep_clean :
    says c_bool t "require_charging_for_deep_clean" true (dc_require_charging_for_deep_clean x);
  s_min_screen_off_secs : says c_u64 t "min_screen_off_secs" 180 (dc_min_screen_off_secs x);
  s_max_soc_temp_c : says c_f32 t "max_soc_temp_c" (f32_of_Z 44) (dc_max_soc_temp_c x);
  s_max_battery_temp_c : says c_f32 t "max_battery_temp_c" (binary_normalize 24 128 79 (-1) false) (dc_max_battery_temp_c x);
  s_cleaning : says_table t "cleaning" (fun t => says_cleaning t (dc_cleaning x));
  s_optimization : says_table t "optimization" (fun t => says_optimization t (dc_optimization x));
  s_safety : says_table t "safety" (fun t => says_safety t (dc_safety x));
}.

(** The readers of the attributes find exactly this. *)
Lemma field_says {A} (c : Codec V A) (t : table) name missing a :
  field c missing name t = Ok a <-> says c t name missing a.
Proof. unfold field, says. destruct (t !! name); [done|]. split; [by intros [= <-]|by intros ->]. Qed.

Lemma struct_says {A} (de_fields : table -> result string A) fields_of (inner : table -> A -> Prop) missing
    (t : table) name a :
  (forall t x, de_fields t = Ok x <-> inner t x) -> de_fields ∅ = Ok missing ->
  field (struct_codec de_fields fields_of) missing name t = Ok a <-> says_table t name (fun t => inner t a).
Proof.
  intros Hd Hm. unfold field, says_table. destruct (t !! name) as [v|]; cbn.
  - rewrite result_bind_ok. by setoid_rewrite Hd.
  - rewrite <- Hd, Hm. done.
Qed.

(** Field by field, both ways. *)
Ltac found :=
  match goal with
  | H : result_bind _ _ = Ok _ |- _ =>
      let a := fresh "a" in let Ha := fresh "Ha" in
      apply result_bind_ok in H as (a & Ha & H); try rewrite field_says in Ha
  end.
Ltac read_field Hs :=
  match goal with
  | |- result_bind (field ?c ?d ?n ?t) _ = _ =>
      let H := fresh in
      pose proof (proj2 (field_says c t n d _) Hs) as H; rewrite H; clear H; cbn [result_bind]
  end.

Lemma cleaning_says t x : cleaning_de t = Ok x <-> says_cleaning t x.
Proof.
  split.
  - unfold cleaning_de. intros Hc. repeat found. injection Hc as <-. by constructor.
  - intros [H1 H2 H3 H4 H5 H6 H7 H8 H9 H10]. unfold cleaning_de.
    read_field H1. read_field H2. read_field H3. read_field H4. read_field H5.
    read_field H6. read_field H7. read_field H8. read_field H9. read_field H10. by destruct x.
Qed.

Lemma optimization_says t x : optimization_de t = Ok x <-> says_optimization t x.
Proof.
  split.
  - unfold optimization_de. intros Hc. repeat found. injection Hc as <-. by constructor.
  - intros [H1 H2 H3 H4 H5 H6 H7 H8 H9 H10 H11 H12]. unfold optimization_de.
    read_field H1. read_field H2. read_field H3. read_field H4. read_field H5. read_field H6.
    read_field H7. read_field H8. read_field H9. read_field H10. read_field H11. read_field H12. by destruct x.
Qed.

Lemma mode_says word m : SafetyMode_of_name word = Ok m <-> mode_word word m.
Proof.
  unfold SafetyMode_of_name. split; [|by intros []].
  destruct (String.eqb_spec word "safe") as [->|_]; [intros [= <-]; constructor|].
  destruct (String.eqb_spec word "balanced") as [->|_]; [intros [= <-]; constructor|].
  destruct (String.eqb_spec word "aggressive") as [->|_]; [intros [= <-]; constructor|done].
Qed.

Lemma safety_says t x : safety_de t = Ok x <-> says_safety t x.
Proof.
  assert (forall m, field c_mode default_safety_mode "mode" t = Ok m <->
    match t !! "mode"%string with
    | Some v => exists word, de c_string v = Ok word /\ mode_word word m
    | None => m = Safe
    end) as Hmode.
  { intros m. unfold field. destruct (t !! "mode"%string) as [v|]; cbn.
    - rewrite result_bind_ok. by setoid_rewrite mode_says.
    - split; [by intros [= <-]|by intros ->]. }
  assert (forall l, field_alias c_strings default_protected_directory_names "protected_directory_names"
      "protected_substrings" t = Ok l <->
    match t !! "protected_directory_names"%string, t !! "protected_substrings"%string with
    | Some v, None | None, Some v => de c_strings v = Ok l
    | None, None => l = default_protected_directory_names
    | Some _, Some _ => False
    end) as Hnames.
  { intros l. unfold field_alias.
    destruct (t !! "protected_directory_names"%string), (t !! "protected_substrings"%string); split;
      by first [intros [= <-]|intros ->|done]. }
  unfold safety_de. split.
  - intros (a & Ha%Hmode & (b & Hb%field_says & (l & Hl%Hnames & [= <-])%result_bind_ok)%result_bind_ok)%result_bind_ok.
    by constructor.
  - intros [Ha%Hmode Hb Hl%Hnames]. rewrite Ha. cbn [result_bind]. read_field Hb. rewrite Hl. by destruct x.
Qed.

Lemma config_says t x : config_de t = Ok x <-> says_config t x.
Proof.
  pose proof (fun name a => struct_says cleaning_de cleaning_fields says_cleaning CleaningRulesConfig_default
                t name a cleaning_says eq_refl) as Hc.
  pose proof (fun name a => struct_says optimization_de optimization_fields says_optimization
                OptimizationConfig_default t name a optimization_says eq_refl) as Ho.
  pose proof (fun name a => struct_says safety_de safety_fields says_safety SafetyConfig_default
                t name a safety_says eq_refl) as Hs.
  unfold config_de. split.
  - intros Hx. do 8 found.
    apply result_bind_ok in Hx as (c & Hc'%Hc & (o & Ho'%Ho & (f & Hs'%Hs & [= <-])%result_bind_ok)%result_bind_ok).
    by constructor.
  - intros [H1 H2 H3 H4 H5 H6 H7 H8 H9%Hc H10%Ho H11%Hs].
    read_field H1. read_field H2. read_field H3. read_field H4. read_field H5. read_field H6.
    read_field H7. read_field H8. unfold c_cleaning, c_optimization, c_safety. rewrite H9. cbn [result_bind].
    rewrite H10. cbn [result_bind]. rewrite H11. by destruct x.
Qed.
End documented.

(** ** Properties *)

Create HintDb toml.

Section laws.
Context {V : Type} `{Toml V}.
#[local] Abbreviation table := (gmap string V).

(** What is written is read back. *)
Definition lawful {A} (c : Codec V A) : Prop := forall a v, ser c a = Ok v -> de c v = Ok a.

Class TomlLaws : Prop := {
  l_u64 : lawful c_u64; l_u32 : lawful c_u32; l_usize : lawful c_usize; l_bool : lawful c_bool;
  l_f32 : lawful c_f32; l_string : lawful c_string; l_strings : lawful c_strings;
  l_table : lawful c_table;
  l_text t text : print_pretty t = Ok text -> parse text = Ok t;
}.

(** The tables that [ser_fields] builds. *)
Lemma ser_fields_lookup l (t : table) name r :
  ser_fields l = Ok t -> NoDup (map fst l) -> (name, r) ∈ l -> exists v, r = Ok v /\ t !! name = Some v.
Proof.
  revert t. induction l as [|[n0 r0] l IH]; intros t; cbn [ser_fields map fst];
    [by intros _ _ ?%not_elem_of_nil|].
  intros (v & -> & (t' & Ht & [= <-])%result_bind_ok)%result_bind_ok [Hn Hnd]%NoDup_cons
    [[= -> ->]|Hin]%elem_of_cons.
  - exists v. by rewrite lookup_insert_eq.
  - destruct (IH t' Ht Hnd Hin) as (v' & -> & Hv). exists v'. split; [done|].
    rewrite lookup_insert_ne; [done|]. intros ->. apply Hn. apply list_elem_of_fmap. by exists (name, Ok v').
Qed.

Lemma ser_fields_absent l (t : table) name :
  ser_fields l = Ok t -> name ∉ map fst l -> t !! name = None.
Proof.
  revert t. induction l as [|[n0 r0] l IH]; intros t; cbn [ser_fields map fst]; [by intros [= <-]|].
  intros (v & -> & (t' & Ht & [= <-])%result_bind_ok)%result_bind_ok [Hne Hn]%not_elem_of_cons.
  rewrite lookup_insert_ne by done. by apply IH.
Qed.

Lemma field_back {A} (c : Codec V A) dflt name a l (t : table) :
  lawful c -> ser_fields l = Ok t -> NoDup (map fst l) -> (name, ser c a) ∈ l ->
  field c dflt name t = Ok a.
Proof.
  intros Hc Ht Hnd Hin. destruct (ser_fields_lookup l t name _ Ht Hnd Hin) as (v & Hv & Hl).
  unfold field. rewrite Hl. by apply Hc.
Qed.

Lemma struct_lawful {A} de_fields (fields_of : A -> list (string * result string V)) :
  lawful c_table -> (forall a t, ser_fields (fields_of a) = Ok t -> de_fields t = Ok a) ->
  lawful (struct_codec de_fields fields_of).
Proof.
  intros Hl Hf a v. cbn. intros (t & Ht & Hv)%result_bind_ok. rewrite (Hl t v Hv). cbn. by apply Hf.
Qed.

Context {laws : TomlLaws}.

Lemma mode_lawful : lawful c_mode.
Proof. intros m v Hv. cbn in *. rewrite (l_string _ _ Hv). by destruct m. Qed.
#[local] Hint Resolve l_u64 l_u32 l_usize l_bool l_f32 l_string l_strings l_table mode_lawful : toml.

(** Reads the fields of a table that [Ht] says was built from them. *)
Ltac in_list :=
  lazymatch goal with
  | |- (?n, _) ∈ (?n, _) :: _ => left
  | |- ?n ∈ ?n :: _ => left
  | |- _ ∈ _ :: _ => right; in_list
  end.
Ltac read_fields Ht Hnd :=
  repeat (erewrite field_back; [cbn [result_bind]|by auto with toml|exact Ht|exact Hnd|cbv [cleaning_fields optimization_fields safety_fields config_fields]; in_list]).
Ltac distinct := apply (bool_decide_unpack _); vm_compute; exact I.

Lemma cleaning_back x t : ser_fields (cleaning_fields x) = Ok t -> cleaning_de t = Ok x.
Proof.
  intros Ht. assert (NoDup (map fst (cleaning_fields x))) as Hnd by distinct.
  unfold cleaning_de. read_fields Ht Hnd. by destruct x.
Qed.

Lemma optimization_back x t : ser_fields (optimization_fields x) = Ok t -> optimization_de t = Ok x.
Proof.
  intros Ht. assert (NoDup (map fst (optimization_fields x))) as Hnd by distinct.
  unfold optimization_de. read_fields Ht Hnd. by destruct x.
Qed.

Lemma safety_back x t : ser_fields (safety_fields x) = Ok t -> safety_de t = Ok x.
Proof.
  intros Ht. assert (NoDup (map fst (safety_fields x))) as Hnd by distinct.
  unfold safety_de. read_fields Ht Hnd.
  destruct (ser_fields_lookup _ t "protected_directory_names" (ser c_strings (sc_protected_directory_names x))
              Ht Hnd) as (v & Hv & Hl); [cbv [safety_fields]; in_list|].
  unfold field_alias. rewrite Hl, (ser_fields_absent _ t "protected_substrings" Ht) by distinct.
  rewrite (l_strings _ _ Hv). by destruct x.
Qed.

Lemma cleaning_lawful : lawful c_cleaning.
Proof. apply struct_lawful; [apply l_table|apply cleaning_back]. Qed.
Lemma optimization_lawful : lawful c_optimization.
Proof. apply struct_lawful; [apply l_table|apply optimization_back]. Qed.
Lemma safety_lawful : lawful c_safety.
Proof. apply struct_lawful; [apply l_table|apply safety_back]. Qed.
#[local] Hint Resolve cleaning_lawful optimization_lawful safety_lawful : toml.

Lemma config_back x t : ser_fields (config_fields x) = Ok t -> config_de t = Ok x.
Proof.
  intros Ht. assert (NoDup (map fst (config_fields x))) as Hnd by distinct.
  unfold config_de. read_fields Ht Hnd. by destruct x.
Qed.


(** The empty file is the built-in configuration. *)
Lemma config_de_empty : config_de ∅ = Ok DaemonConfig_default.
Proof. reflexivity. Qed.

(** A field that the file does not have gets its default, whatever else the file has. *)
Lemma field_missing {A} (k : Codec V A) dflt name (t : table) :
  t !! name = None -> field k dflt name t = Ok dflt.
Proof. unfold field. by intros ->. Qed.

Lemma missing_safety_is_safe (t : table) c :
  t !! "safety" = None -> config_de t = Ok c ->
  sc_mode (dc_safety c) = Safe /\
  sc_protected_directory_names (dc_safety c) = default_protected_directory_names.
Proof.
  intros Hs Hc. unfold config_de in Hc. rewrite (field_missing c_safety) in Hc by done.
  do 10 apply result_bind_ok in Hc as (? & _ & Hc). by injection Hc as <-.
Qed.

(** The configuration of a job has no such tolerance: any other key is an error. *)
Theorem raw_refuses_unknown (t : table) name v :
  t !! name = Some v -> name ∉ raw_names -> exists k, (k ∉ raw_names) /\ raw_de t = Err (unknown_field k).
Proof.
  intros Hn Hk. unfold raw_de.
  assert (name ∈ filter (fun k => k ∉ raw_names) (map fst (map_to_list t))) as Hin.
  { apply list_elem_of_filter. split; [done|]. apply list_elem_of_fmap. exists (name, v).
    split; [done|]. by apply elem_of_map_to_list. }
  destruct (filter _ _) as [|k ks] eqn:E; [by apply elem_of_nil in Hin|]. exists k. split; [|done].
  assert (k ∈ filter (fun k => k ∉ raw_names) (map fst (map_to_list t))) as [? _]%list_elem_of_filter; [|done].
  rewrite E. left.
Qed.

(** The text: what is saved is loaded. *)
Lemma saved_text_loads (c : DaemonConfig) text :
  toml_to_string_pretty c = Ok text -> toml_from_str text = Ok c.
Proof.
  cbn. intros (t & Ht & Hs)%result_bind_ok. rewrite (l_text t text Hs). by apply config_back.
Qed.

(** C25 Saving is atomic and faithful, for a target that is not its own temporary file (one
    whose extension is tmp is, see [save_to_tmp_not_atomic]), on a volume where no file has
    two names and all earlier changes are on the disk.  Whichever system call fails,
    after every call both the file that the running system reads and the file that a
    crash at this moment leaves, where unsynced data may be anything and the last
    changes of directories may be undone, is the old one or the complete new one, which
    loads as the configuration that was saved; if saving fails it is the old one.  When
    saving reports success, loading the file gives the configuration back; and saving a
    valid configuration that the library can write succeeds when no call fails. *)
Theorem config_save_atomic fault written (self : DaemonConfig) target v :
  with_extension target "tmp" <> target -> settled v ->
  let '(r, states) := save_to_file fault written self target v in
  (forall v' d, v' ∈ states -> d = files v' \/ survives v' d ->
     d !! target = files v !! target \/
     r = Ok tt /\ load_from_file_strict (disk_of d) target = Ok self) /\
  (r = Ok tt -> exists v', head states = Some v' /\
     load_from_file_strict (disk_of (files v')) target = Ok self) /\
  ((forall c, fault c = None) -> validate self = Ok tt -> is_ok (toml_to_string_pretty self) = true ->
   r = Ok tt).
Proof.
  intros Hne Hset. pose proof (save_to_file_seen fault written self target v Hne Hset) as Hs.
  destruct (save_to_file fault written self target v) as [r states].
  destruct Hs as (Hseen & Hok & Hgo).
  assert (forall (d : gmap string string) content, validate self = Ok tt -> toml_to_string_pretty self = Ok content ->
    d !! target = Some content -> load_from_file_strict (disk_of d) target = Ok self) as Hload.
  { intros d content Hv Hc Hd. unfold load_from_file_strict. cbn [disk_of dk_read].
    by rewrite Hd, (saved_text_loads self content Hc), Hv. }
  split; [|split; [|done]].
  - intros v' d Hin Hd. destruct (Hseen v' d Hin Hd) as [?|(content & Hc & Hr & Ht)]; [by left|right].
    split; [done|]. destruct (Hok Hr) as [Hv _]. by eapply Hload.
  - intros Hr. destruct (Hok Hr) as (Hv & v' & content & Hh & Hc & Hf). exists v'. split; [done|].
    by eapply Hload.
Qed.
End laws.

(** ** An instance

    Values are trees with typed leaves, and a text is the binary numeral of the number of
    a table. *)

Section example.
Definition Leaf : Type := bool + N + f32 + string + list string.
Abbreviation Value := (gen_tree Leaf).
Abbreviation VBool b := (GenLeaf (inl (inl (inl (inl b))))).
Abbreviation VInt n := (GenLeaf (inl (inl (inl (inr n))))).
Abbreviation VFloat x := (GenLeaf (inl (inl (inr x)))).
Abbreviation VString s := (GenLeaf (inl (inr s))).
Abbreviation VStrings l := (GenLeaf (inr l)).

#[local] Instance f32_eq_dec : EqDecision f32.
Proof. unfold f32. solve_decision. Defined.
#[local] Instance f32_countable : Countable f32.
Proof.
  refine (inj_countable'
    (fun x : f32 => match x with
                    | S754_zero s => inl (inl (inl s))
                    | S754_infinity s => inl (inl (inr s))
                    | S754_nan => inl (inr tt)
                    | S754_finite s m e => inr (s, m, e)
                    end)
    (fun x => match x with
              | inl (inl (inl s)) => S754_zero s
              | inl (inl (inr s)) => S754_infinity s
              | inl (inr _) => S754_nan
              | inr (s, m, e) => S754_finite s m e
              end) _).
  by intros [].
Defined.

Fixpoint numeral (p : positive) : string :=
  match p with
  | xH => EmptyString
  | xO q => String "0" (numeral q)
  | xI q => String "1" (numeral q)
  end.
Fixpoint of_numeral (s : string) : positive :=
  match s with
  | EmptyString => xH
  | String c s' => if Ascii.eqb c "0" then xO (of_numeral s') else xI (of_numeral s')
  end.
Lemma of_numeral_numeral p : of_numeral (numeral p) = p.
Proof. induction p as [p IH|p IH|]; cbn; [| |done]; by rewrite IH. Qed.

(** A table is a node of pairs of a key and a value. *)
Definition pair_node (x : string * Value) : Value := GenNode 1 [VString (fst x); snd x].
Definition node_pair (v : Value) : option (string * Value) :=
  match v with GenNode _ [GenLeaf (inl (inr k)); x] => Some (k, x) | _ => None end.

Lemma node_pairs l : mapM node_pair (map pair_node l) = Some l.
Proof.
  apply mapM_Some. induction l as [|[k v] l IH]; constructor; [done|exact IH].
Qed.

Definition int_codec (limit : N) : Codec Value N :=
  mkCodec (fun v => match v with VInt n => if n <=? limit then Ok n else Err "out of range" | _ => Err "type" end)
          (fun n => if n <=? limit then Ok (VInt n) else Err "out of range").

#[local] Instance example_toml : Toml Value := {
  parse s := match decode (of_numeral s) with Some t => Ok t | None => Err "no table" end;
  print_pretty t := Ok (numeral (encode t));
  c_u64 := int_codec I64_MAX; c_u32 := int_codec 4294967295; c_usize := int_codec I64_MAX;
  c_bool := mkCodec (fun v => match v with VBool b => Ok b | _ => Err "type" end) (fun b => Ok (VBool b));
  c_f32 := mkCodec (fun v => match v with VFloat b => Ok b | _ => Err "type" end) (fun b => Ok (VFloat b));
  c_string := mkCodec (fun v => match v with VString b => Ok b | _ => Err "type" end) (fun b => Ok (VString b));
  c_strings := mkCodec (fun v => match v with VStrings b => Ok b | _ => Err "type" end) (fun b => Ok (VStrings b));
  c_table := mkCodec
    (fun v => match v with
              | GenNode _ l => match mapM node_pair l with
                               | Some l => Ok (list_to_map l)
                               | None => Err "type"
                               end
              | _ => Err "type"
              end)
    (fun t => Ok (GenNode 0 (map pair_node (map_to_list t))));
  unknown_variant s := s; unknown_field s := s; duplicate_field s := s;
}.

Lemma int_lawful limit : lawful (int_codec limit).
Proof. intros n v. cbn. destruct (n <=? limit) eqn:E; [|done]. intros [= <-]. by rewrite E. Qed.

#[local] Instance example_laws : TomlLaws.
Proof.
  constructor; try apply int_lawful; [..|intros t text [= <-]; cbn; by rewrite of_numeral_numeral, decode_encode];
    intros a v [= <-]; cbn; [done..|]. by rewrite node_pairs, list_to_map_to_list.
Qed.

(** A file with the older name of a key, keys that no field has, and little else. *)
Definition sparse : gmap string Value :=
  list_to_map
    [("min_screen_of_secs", VInt 5);
     ("safety", GenNode 0 [pair_node ("protected_substrings", VStrings ["databases"]);
                           pair_node ("modus", VString "aggressive")])]%string.


(** The default configuration, saved on a volume that has an older file. *)
Definition old_volume : Volume :=
  mkVolume {["/etc/cleaner.toml"%string := 0%nat]} {[0%nat := "old"%string]} ∅ [] 1.

Lemma config_save_atomic_witness :
  let '(r, states) := save_to_file (fun _ => None) 0 DaemonConfig_default "/etc/cleaner.toml" old_volume in
  r = Ok tt /\
  exists v', head states = Some v' /\
    load_from_file_strict (disk_of (files v')) "/etc/cleaner.toml" = Ok DaemonConfig_default.
Proof.
  assert (settled old_volume) as Hset.
  { constructor; [reflexivity..| |].
    - cbn [v_names old_volume]. intros p q i [<- _]%lookup_singleton_Some [<- _]%lookup_singleton_Some. reflexivity.
    - cbn [v_names old_volume]. intros p i [_ <-]%lookup_singleton_Some. cbn. lia. }
  pose proof (config_save_atomic (fun _ => None) 0 DaemonConfig_default "/etc/cleaner.toml" old_volume
    ltac:(vm_compute; discriminate) Hset) as Hs.
  destruct (save_to_file _ 0 DaemonConfig_default "/etc/cleaner.toml" old_volume) as [r states].
  destruct Hs as (_ & Hok & Hgo). assert (r = Ok tt) as Hr.
  { apply Hgo; [reflexivity|vm_compute; reflexivity|].
    cbn [toml_to_string_pretty toml_codec]. destruct (ser_fields (config_fields DaemonConfig_default)) eqn:Et;
      [reflexivity|exfalso; revert Et; vm_compute; discriminate]. }
  split; [exact Hr|exact (Hok Hr)].
Defined.
End example.
