(* ===== verification/Recovery.v ===== *)
(** Crash recovery, src/recovery/mod.rs: every attempt left RUNNING by a crash is
    resolved from its durable intents and what the disk says of each entry.  It
    only looks at the disk; the theorems show that it resolves every such
    attempt, never removes anything, reports RECONCILED only if every intent was
    found deleted, and that a second recovery has nothing left to do. *)
From Stdlib Require Import Ascii String.
From S2P Require Import Prelude Paths Domain Resource Store Effects Fs Catalog Verifier.
From S2P Require Import Safety Executor MemFs.

(** The locals of one attempt's loop. *)
Record Tally := mkTally {
  ty_total : ByteCount.t;
  ty_all_succeeded : bool;
  ty_has_unknown : bool;
}.

(** The [match] on the outcome: the intent's new state, the status and bytes of
    the recorded result, and the tally. *)
Definition resolve_outcome (i : OperationIntent) (o : VerificationOutcome) (ty : Tally)
    : string * OperationStatus * ByteCount.t * Tally :=
  match o with
  | ConfirmedDeleted | AlreadyGone =>
      ("VERIFIED_SUCCESS", Success, i_estimated_bytes i,
       mkTally (ByteCount.saturating_add (ty_total ty) (i_estimated_bytes i))
         (ty_all_succeeded ty) (ty_has_unknown ty))
  | StillPresent | IdentityMismatch =>
      ("VERIFIED_FAILED",
       Failed ("Unfinished mutation post-crash: " +:+ VerificationOutcome_debug o),
       ByteCount.ZERO, mkTally (ty_total ty) false (ty_has_unknown ty))
  | ParentUnavailable | TargetUnavailable | Stale | Unknown =>
      ("RESOLVED_UNKNOWN",
       Skipped ("Post-crash verification outcome: " +:+ VerificationOutcome_debug o),
       ByteCount.ZERO, mkTally (ty_total ty) false true)
  end.

(** The states an attempt and its job end in. *)
Definition final_states (ty : Tally) : string * string :=
  if ty_all_succeeded ty then ("RECONCILED", "RECOVERED")
  else if ty_has_unknown ty then ("UNRESOLVED", "PARTIALLY_RECONCILED")
  else ("FAILED", "FAILED").

Section recovery.
Context `{Kernel K} `{Env}.

(** A query: it does not write. *)
Definition query {A} (f : option SqlFault -> Store -> A) : M A :=
  with_store (fun _ fault s => (f fault s, s)).

Definition reconcile_intent (snapshot : CatalogSnapshot) (attempt_id : AttemptId)
    (job_id : JobId) (intent : OperationIntent) (ty : Tally) : M Tally :=
  match catalog_get snapshot (i_target_id intent) with
  | None =>
      _ ← with_store (fun now f => update_intent_state env_sql_text attempt_id
            (i_op_id intent) "RESOLVED_UNKNOWN" now f);
      mret (mkTally (ty_total ty) false true)
  | Some target =>
      outcome ← verify_operation_postcondition (td_base_path target)
                  (RelativePath.as_path (i_rel_path intent)) (i_expected_identity intent);
      let '(state, status, reclaimed, ty') := resolve_outcome intent outcome ty in
      _ ← with_store (fun now f => update_intent_state env_sql_text attempt_id
            (i_op_id intent) state now f);
      now ← get_now;
      _ ← with_store (fun _ f => record_operation_result env_sql_text job_id 1
            (i_target_id intent) (MutationType_display (i_mutation_type intent))
            (RelativePath.as_str (i_rel_path intent)) (i_expected_identity intent)
            (i_estimated_bytes intent) (mkFinal (i_op_id intent) status reclaimed now) f);
      mret ty'
  end.

Fixpoint reconcile_intents (snapshot : CatalogSnapshot) (attempt_id : AttemptId)
    (job_id : JobId) (intents : list OperationIntent) (ty : Tally) : M Tally :=
  match intents with
  | [] => mret ty
  | intent :: intents' =>
      ty' ← reconcile_intent snapshot attempt_id job_id intent ty;
      reconcile_intents snapshot attempt_id job_id intents' ty'
  end.

(** [store.update_attempt_state(..)?; store.update_job_state(..)?] *)
Definition close_attempt (attempt_id : AttemptId) (job_id : JobId) (ty : Tally)
    : M (result fault unit) :=
  let '(attempt_state, job_state) := final_states ty in
  r1 ← with_store (fun now f => update_attempt_state env_sql_text attempt_id attempt_state now f);
  match r1 with
  | Err e => mret (Err (Error e))
  | Ok _ =>
      r2 ← with_store (fun now f => update_job_state env_sql_text job_id job_state (ty_total ty)
             now f);
      match r2 with Err e => mret (Err (Error e)) | Ok _ => mret (Ok tt) end
  end.

Fixpoint reconcile_attempts (snapshot : CatalogSnapshot) (l : list (AttemptId * JobId))
    (fully_recovered_count : nat) : M (result fault nat) :=
  match l with
  | [] => mret (Ok fully_recovered_count)
  | (attempt_id, job_id) :: l' =>
      intents ←? query (get_operation_intents_for_attempt env_sql_text attempt_id);
      ty ← reconcile_intents snapshot attempt_id job_id intents
             (mkTally ByteCount.ZERO true false);
      _ ←? close_attempt attempt_id job_id ty;
      reconcile_attempts snapshot l'
        (if ty_all_succeeded ty then S fully_recovered_count else fully_recovered_count)
  end.

Definition reconcile_startup_crashes (catalog : CatalogSnapshot) : M (result fault nat) :=
  uncompleted ← query (get_uncompleted_attempts env_sql_text);
  match uncompleted with
  | Err e => mret (Err (Error e))
  | Ok [] => mret (Ok 0%nat)
  | Ok uncompleted => reconcile_attempts (take_snapshot catalog) uncompleted 0
  end.
End recovery.

(** ** What recovery does to the world *)

Definition running (s : Store) (a : AttemptId) : Prop :=
  exists r, attempts s !! a = Some r /\ att_state r = "RUNNING".

Lemma get_uncompleted_spec txt f s l a :
  get_uncompleted_attempts txt f s = Ok l -> running s a <-> a ∈ map fst l.
Proof.
  unfold get_uncompleted_attempts. destruct f; [done|]. intros [= <-].
  rewrite sort_by_perm, list_elem_of_fmap. split.
  - intros (r & Hr & Hs). exists (a, att_job_id r). split; [done|].
    apply list_elem_of_omap. exists (a, r). split; [by apply elem_of_map_to_list|].
    by rewrite Hs.
  - intros ([a' j] & -> & Hin). apply list_elem_of_omap in Hin as ([a2 r] & Hr & Heq).
    apply elem_of_map_to_list in Hr. destruct (String.eqb_spec (att_state r) "RUNNING"); [|done].
    simplify_eq. by exists r.
Qed.

Lemma update_intent_attempts txt a o st now f s r s' :
  update_intent_state txt a o st now f s = (r, s') -> attempts s' = attempts s.
Proof.
  destruct r; [|by intros ->%run_stmt_err]. intros [_ [_ E]%bound_ok]%run_stmt_ok.
  by simplify_eq.
Qed.

Lemma record_result_attempts txt j p t ty rp id est res f s r s' :
  record_operation_result txt j p t ty rp id est res f s = (r, s') -> attempts s' = attempts s.
Proof.
  unfold record_operation_result. destruct (status_columns _) as [status msg].
  destruct r as [u|e]; [|by intros ->%run_stmt_err].
  intros [_ [_ E]%bound_ok]%run_stmt_ok. destruct (job_exists s j); by simplify_eq.
Qed.

Lemma update_job_attempts txt j st t now f s r s' :
  update_job_state txt j st t now f s = (r, s') -> attempts s' = attempts s.
Proof.
  destruct r; [|by intros ->%run_stmt_err]. intros [_ [_ E]%bound_ok]%run_stmt_ok.
  by simplify_eq.
Qed.

Lemma update_attempt_running txt a st now f s u s' :
  st <> "RUNNING" -> update_attempt_state txt a st now f s = (Ok u, s') ->
  forall b, running s' b -> running s b /\ b <> a.
Proof.
  intros Hst [_ [_ E]%bound_ok]%run_stmt_ok b (r & Hr & Hs). simplify_eq. simpl in Hr.
  rewrite lookup_alter in Hr. case_decide as Hab.
  - subst b. apply fmap_Some in Hr as (r0 & _ & ->). simpl in Hs. done.
  - split; [by exists r|done].
Qed.

Section world.
Context `{Kernel K} `{Env}.

(** Only looked at the disk, and took or gave no permit. *)
Record looks (w w' : World) : Prop := {
  lk_rm : w_rm w' = w_rm w;
  lk_trace : exists evs, w_trace w' = evs ++ w_trace w /\ Forall (fun e => ~ is_unlink e) evs;
}.
#[global] Instance looks_refl : Reflexive looks.
Proof. intros w. constructor; [done|]. by exists []. Qed.
#[global] Instance looks_trans : Transitive looks.
Proof.
  intros w1 w2 w3 [R1 (e1 & T1 & F1)] [R2 (e2 & T2 & F2)].
  constructor; [congruence|]. exists (e2 ++ e1). rewrite T2, T1, app_assoc.
  split; [done|]. by apply Forall_app.
Qed.

Lemma moves_looks w w' evs :
  moves w w' (w_rm w) evs -> Forall (fun e => ~ is_unlink e) evs ->
  looks w w' /\ w_store w' = w_store w.
Proof. intros [? ? ? _] ?. split; [|done]. constructor; [done|by eexists]. Qed.

Lemma wp_open_parents cur comps w :
  h_permit cur = None ->
  wp (open_parents cur comps) (fun r w' => looks w w' /\ w_store w' = w_store w /\
    match r with Ok h => h_permit h = None | Err _ => True end) w.
Proof.
  revert cur w. induction comps as [|c comps IH]; intros cur w Hp; cbn [open_parents]; [done|].
  apply wp_bind. eapply wp_mono; [apply wp_open_child_errno|]. intros [child|e] w1.
  - intros (_ & _ & Hpc & Hm). apply moves_looks in Hm as [Hl Hs]; [|constructor; [tauto|constructor]].
    unfold drop_handle. rewrite Hp. wp_steps. simpl.
    replace (w_set_rm (w_rm w1) w1) with w1 by by destruct w1.
    eapply wp_mono; [by apply IH|]. intros r w' (Hl' & Hs' & Hr).
    split; [by transitivity w1|]. split; [congruence|done].
  - intros Hm. apply moves_looks in Hm as [Hl Hs]; [|constructor].
    unfold drop_handle. rewrite Hp. wp_steps. simpl.
    replace (w_set_rm (w_rm w1) w1) with w1 by by destruct w1. done.
Qed.

Lemma wp_verify_operation base rel id w :
  wp (verify_operation_postcondition base rel id)
    (fun _ w' => looks w w' /\ w_store w' = w_store w) w.
Proof.
  unfold verify_operation_postcondition, open_root. apply wp_bind.
  eapply wp_mono; [apply wp_open_root|]. intros [root|e] w1.
  2: { intros Hm. by apply (moves_looks _ _ []) in Hm. }
  intros [Hp Hm]. apply moves_looks in Hm as [Hl Hs]; [|constructor; [tauto|constructor]].
  destruct (last (components rel)) as [leaf|].
  2: { unfold drop_handle. rewrite Hp. wp_steps. simpl. split; [|done].
       destruct Hl. by constructor. }
  apply wp_bind. eapply wp_mono; [by apply wp_open_parents|].
  intros [h|o] w2 (Hl2 & Hs2 & Hph).
  2: { apply wp_ret. split; [by transitivity w1|congruence]. }
  apply wp_bind. eapply wp_mono; [apply wp_verify_with_parent|].
  intros o w3 (r & evs & _ & Hm3 & Hevs).
  apply moves_looks in Hm3 as [Hl3 Hs3].
  2: { destruct Hevs as [[-> _]| ->]; repeat constructor; tauto. }
  unfold drop_handle. rewrite Hph. wp_steps. simpl. split; [|congruence].
  assert (looks w w3) as Hl' by (transitivity w1; [done|by transitivity w2]).
  destruct Hl'. by constructor.
Qed.

(** Looked, and left the attempts table alone. *)
Definition settles (w w' : World) : Prop :=
  looks w w' /\ attempts (w_store w') = attempts (w_store w).

Lemma settles_tick w : settles w (w_tick w).
Proof. split; [|done]. constructor; [done|]. by exists []. Qed.

Lemma settles_trans w1 w2 w3 : settles w1 w2 -> settles w2 w3 -> settles w1 w3.
Proof. intros [? ?] [? ?]. split; [by transitivity w2|congruence]. Qed.

Lemma wp_settle_store {A} (f : N -> option SqlFault -> Store -> A * Store) w :
  (forall now fault s a s', f now fault s = (a, s') -> attempts s' = attempts s) ->
  wp (with_store f) (fun _ w' => settles w w') w.
Proof.
  intros Hf. apply wp_with_store. intros a s E. apply Hf in E. split; [|done].
  constructor; [done|]. by exists [].
Qed.

Lemma wp_reconcile_intent snap a j i ty w :
  wp (reconcile_intent snap a j i ty) (fun _ w' => settles w w') w.
Proof.
  unfold reconcile_intent. destruct (catalog_get _ _) as [t|].
  - apply wp_bind. eapply wp_mono; [apply wp_verify_operation|]. intros o w1 [Hl Hs].
    destruct (resolve_outcome i o ty) as [[[state status] bytes] ty'].
    apply wp_bind. eapply wp_mono; [apply wp_settle_store; intros; by eapply update_intent_attempts|].
    intros u2 w2 H2. apply wp_bind, wp_now. intros now. apply wp_bind.
    eapply wp_mono; [apply wp_settle_store; intros; by eapply record_result_attempts|].
    intros u3 w3 H3. apply wp_ret. eapply settles_trans; [|exact H3].
    eapply settles_trans; [|apply settles_tick]. eapply settles_trans; [|exact H2].
    split; [done|by rewrite Hs].
  - apply wp_bind. eapply wp_mono; [apply wp_settle_store; intros; by eapply update_intent_attempts|].
    done.
Qed.

Lemma wp_reconcile_intents snap a j l ty w :
  wp (reconcile_intents snap a j l ty) (fun _ w' => settles w w') w.
Proof.
  revert ty w. induction l as [|i l IH]; intros ty w; simpl; [done|].
  apply wp_bind. eapply wp_mono; [apply wp_reconcile_intent|]. intros ty' w1 H1.
  eapply wp_mono; [apply IH|]. intros u2 w2 H2. exact (settles_trans _ _ _ H1 H2).
Qed.

Lemma wp_close_attempt a j ty w :
  wp (close_attempt a j ty) (fun r w' => looks w w' /\
    (r = Ok tt -> forall b, running (w_store w') b -> running (w_store w) b /\ b <> a)) w.
Proof.
  unfold close_attempt. destruct (final_states ty) as [sa sj] eqn:Ef.
  assert (sa <> "RUNNING") as Hsa.
  { unfold final_states in Ef. repeat case_match; by simplify_eq. }
  apply wp_bind, wp_with_store. intros [u|e] s1 E1.
  2: { apply wp_ret. split; [|done]. constructor; [done|]. by exists []. }
  pose proof (update_attempt_running _ _ _ _ _ _ _ _ Hsa E1) as Hrun.
  apply wp_bind, wp_with_store. intros r2 s2 E2. apply update_job_attempts in E2.
  assert (looks w (w_set_store s2 (w_tick (w_set_store s1 (w_tick w))))) as Hl
    by (constructor; [done|by exists []]).
  destruct r2; apply wp_ret; (split; [done|]); [|done].
  intros _ b (r & Hr & Hs). apply Hrun. exists r. simpl in Hr. by rewrite E2 in Hr.
Qed.

Lemma wp_reconcile_attempts snap l n w :
  (forall a, running (w_store w) a -> a ∈ map fst l) ->
  wp (reconcile_attempts snap l n) (fun r w' => looks w w' /\
    match r with
    | Ok m => (forall a, ~ running (w_store w') a) /\ (m <= n + length l)%nat
    | Err _ => True
    end) w.
Proof.
  revert n w. induction l as [|[a j] l IH]; intros n w Hrun; cbn [reconcile_attempts].
  { apply wp_ret. split; [done|]. split; [|lia]. intros a Ha. by apply Hrun, elem_of_nil in Ha. }
  apply wp_try, wp_with_store. intros r s E. injection E as <- <-.
  assert (settles w (w_set_store (w_store w) (w_tick w))) as H0'
    by (split; [constructor; [done|by exists []]|done]).
  destruct (get_operation_intents_for_attempt _ _ _ _) as [intents|e]; [|split; [apply H0'|done]].
  apply wp_bind. eapply wp_mono; [apply wp_reconcile_intents|]. intros ty w1 H1.
  pose proof (settles_trans _ _ _ H0' H1) as [Hl1 Ha1].
  apply wp_try. eapply wp_mono; [apply wp_close_attempt|]. intros [[]|e] w2 [Hl2 Hr2].
  2: { split; [by transitivity w1|done]. }
  eapply wp_mono; [apply IH|].
  - intros b Hb. apply (Hr2 eq_refl) in Hb as [(r & Hr & Hs) Hne].
    rewrite Ha1 in Hr. assert (running (w_store w) b) as Hb by by exists r.
    apply Hrun, elem_of_cons in Hb as [->|?]; done.
  - intros r w3 [Hl3 Hr3]. split; [transitivity w1; [done|by transitivity w2]|].
    destruct r as [m|]; [|done]. destruct Hr3 as [? ?]. split; [done|].
    destruct (ty_all_succeeded ty); simpl; lia.
Qed.
End world.

(** ** Verdicts *)

(** What recovery found out about an intent: the verifier's answer for its path
    at the moment it was asked, or nothing if the target is gone. *)
Definition looked_up `{Kernel K} `{Env} (snap : CatalogSnapshot) (i : OperationIntent)
    (o : option VerificationOutcome) : Prop :=
  match catalog_get snap (i_target_id i) with
  | Some t => exists w, o = Some (fst (verify_operation_postcondition (td_base_path t)
                (RelativePath.as_path (i_rel_path i)) (i_expected_identity i) w))
  | None => o = None
  end.

Definition found_deleted (o : option VerificationOutcome) : bool :=
  match o with Some o => is_successful_deletion o | None => false end.

Definition bytes_of (i : OperationIntent) (o : option VerificationOutcome) : N :=
  if found_deleted o then i_estimated_bytes i else 0.

Section verdicts.
Context `{Kernel K} `{Env}.

Lemma wp_reconcile_intent_tally snap a j i ty w :
  wp (reconcile_intent snap a j i ty) (fun ty' _ => exists o, looked_up snap i o /\
    ty_all_succeeded ty' = ty_all_succeeded ty && found_deleted o /\
    (u64 (ty_total ty) -> ty_total ty' = saturating_add (ty_total ty) (bytes_of i o))) w.
Proof.
  unfold reconcile_intent, looked_up. destruct (catalog_get _ _) as [t|].
  - apply wp_bind. unfold wp at 1.
    set (o := fst (verify_operation_postcondition _ _ _ w)).
    assert (exists w0, Some o = Some (fst (verify_operation_postcondition (td_base_path t)
      (RelativePath.as_path (i_rel_path i)) (i_expected_identity i) w0))) as Hw by by exists w.
    destruct (resolve_outcome i o ty) as [[[state status] bytes] ty'] eqn:Er.
    do 3 (apply wp_bind, wp_any; intros ? ?). apply wp_ret. exists (Some o).
    split; [done|]. unfold bytes_of, resolve_outcome in *.
    destruct o; simpl in *; simplify_eq; simpl; rewrite ?andb_true_r, ?andb_false_r;
      (split; [done|]); try done; apply saturating_add_0_r.
  - apply wp_bind, wp_any. intros r w1. apply wp_ret. exists None. split; [done|]. simpl.
    rewrite andb_false_r. split; [done|apply saturating_add_0_r].
Qed.

Lemma wp_reconcile_intents_tally snap a j l ty w :
  u64 (ty_total ty) ->
  wp (reconcile_intents snap a j l ty) (fun ty' _ => exists outs, Forall2 (looked_up snap) l outs /\
    ty_all_succeeded ty' = ty_all_succeeded ty && forallb found_deleted outs /\
    ty_total ty' = fold_left saturating_add (zip_with bytes_of l outs) (ty_total ty)) w.
Proof.
  revert ty w. induction l as [|i l IH]; intros ty w Hu; simpl.
  { apply wp_ret. exists []. split; [constructor|]. by rewrite andb_true_r. }
  apply wp_bind. eapply wp_mono; [apply wp_reconcile_intent_tally|].
  intros ty1 w1 (o & Ho & Ha & Ht). specialize (Ht Hu).
  eapply wp_mono; [apply IH|].
  { rewrite Ht. apply saturating_add_u64. }
  intros ty2 w2 (outs & Hf & Ha2 & Ht2). exists (o :: outs).
  split; [by constructor|]. simpl. rewrite Ha2, Ha, Ht2, Ht, andb_assoc. done.
Qed.
End verdicts.

(** ** Progress *)

(** The columns of an intent that decide whether recovery can get through it. *)
Definition intent_columns (r : IntentRow) : N * TargetId * N :=
  (ir_attempt_id r, ir_target_id r, ir_estimated_bytes r).

Definition columns (s : Store) : list (N * TargetId * N) := map intent_columns (operation_intents s).

Definition total_bytes (l : list (N * TargetId * N)) : N := foldr N.add 0 (map snd l).

(** Nothing in the columns stops recovery: every target identifier can be read
    back, and the bytes fit SQLite's integers. *)
Definition readable_columns (l : list (N * TargetId * N)) : Prop :=
  Forall (fun '(_, t, _) => is_Some (TargetId_new t)) l /\ total_bytes l <= I64_MAX.

Lemma update_intent_columns txt a o st now f s r s' :
  update_intent_state txt a o st now f s = (r, s') -> columns s' = columns s.
Proof.
  destruct r; [|by intros ->%run_stmt_err]. intros [_ [_ E]%bound_ok]%run_stmt_ok.
  simplify_eq. unfold columns. simpl. rewrite map_map. apply map_ext. intros row.
  unfold mark_intent. by case_match.
Qed.

Lemma record_result_columns txt j p t ty rp id est res f s r s' :
  record_operation_result txt j p t ty rp id est res f s = (r, s') -> columns s' = columns s.
Proof.
  unfold record_operation_result. destruct (status_columns _) as [status msg].
  destruct r as [u|e]; [|by intros ->%run_stmt_err].
  intros [_ [_ E]%bound_ok]%run_stmt_ok. destruct (job_exists s j); by simplify_eq.
Qed.

Lemma fits_all l : Forall (fun x => x <= I64_MAX) l -> fits l = true.
Proof.
  intros Hl. apply forallb_forall. intros x Hx. apply N.leb_le.
  rewrite Forall_forall in Hl. apply Hl. by apply list_elem_of_In.
Qed.

(** What the intents of an attempt hold is at most what the table holds. *)
Lemma intents_of_readable txt a s :
  readable_columns (columns s) -> a <= I64_MAX ->
  exists l, get_operation_intents_for_attempt txt a None s = Ok l /\
    foldr N.add 0 (map i_estimated_bytes l) <= total_bytes (columns s).
Proof.
  unfold get_operation_intents_for_attempt. intros [Hf _] Ha.
  rewrite fits_all by by constructor. simpl. unfold columns in *.
  induction (operation_intents s) as [|r rows IH]; [by exists []|].
  simpl in Hf. apply Forall_cons in Hf as [[t Ht] Hf]. destruct (IH Hf) as (l & Hl & Hle).
  unfold total_bytes in *. rewrite filter_cons. simpl. case_decide.
  - simpl. unfold intent_of_row. rewrite Ht, Hl. simpl. eexists. split; [done|]. simpl.
    unfold ByteCount.new_unchecked. lia.
  - exists l. split; [done|lia].
Qed.

Section progress.
Context `{Kernel K} `{Env}.
Hypothesis quiet : forall k, env_sql k = None.
Hypothesis clock : forall k, env_now k <= I64_MAX.

Lemma wp_reconcile_intent_columns snap a j i ty w :
  wp (reconcile_intent snap a j i ty) (fun _ w' => columns (w_store w') = columns (w_store w)) w.
Proof.
  unfold reconcile_intent. destruct (catalog_get _ _) as [t|].
  - apply wp_bind. eapply wp_mono; [apply wp_verify_operation|]. intros o w1 [_ Hs].
    destruct (resolve_outcome i o ty) as [[[state status] bytes] ty'].
    apply wp_bind, wp_with_store. intros r2 s2 E2. apply wp_bind, wp_now. intros now.
    apply wp_bind, wp_with_store. intros r3 s3 E3. apply wp_ret. simpl.
    apply record_result_columns in E3. apply update_intent_columns in E2. simpl in *. congruence.
  - apply wp_bind, wp_with_store. intros r s E. apply wp_ret.
    by apply update_intent_columns in E.
Qed.

Lemma wp_reconcile_intents_columns snap a j l ty w :
  wp (reconcile_intents snap a j l ty)
    (fun _ w' => columns (w_store w') = columns (w_store w)) w.
Proof.
  revert ty w. induction l as [|i l IH]; intros ty w; simpl; [done|].
  apply wp_bind. eapply wp_mono; [apply wp_reconcile_intent_columns|]. intros ty' w1 H1.
  eapply wp_mono; [apply IH|]. intros u2 w2 H2. by rewrite H2.
Qed.

(** The bytes credited never exceed the estimates. *)
Lemma credited_le snap l outs :
  Forall2 (looked_up snap) l outs ->
  fold_left saturating_add (zip_with bytes_of l outs) 0
  <= foldr N.add 0 (map i_estimated_bytes l).
Proof.
  intros Hf. rewrite saturating_sum_fold by (unfold u64, U64_MAX; lia).
  enough (foldr N.add 0 (zip_with bytes_of l outs) <= foldr N.add 0 (map i_estimated_bytes l))
    by lia.
  induction Hf as [|i o l outs _ _ IH]; simpl; [lia|].
  unfold bytes_of at 1. destruct (found_deleted o); lia.
Qed.

Lemma wp_close_attempt_ok a j ty w :
  a <= I64_MAX -> j <= I64_MAX -> ty_total ty <= I64_MAX ->
  wp (close_attempt a j ty)
    (fun r w' => r = Ok tt /\ columns (w_store w') = columns (w_store w)) w.
Proof.
  intros Ha Hj Ht. unfold close_attempt. destruct (final_states ty) as [sa sj].
  apply wp_bind, wp_with_store. unfold update_attempt_state, run_stmt, update_attempt, bound.
  rewrite quiet, fits_all by by repeat (constructor; [done || apply clock|]).
  intros r1 s1 [= <- <-]. apply wp_bind, wp_with_store.
  unfold update_job_state, run_stmt, update_job, bound.
  rewrite quiet, fits_all by by repeat (constructor; [done || apply clock|]).
  intros r2 s2 [= <- <-]. by apply wp_ret.
Qed.

Lemma wp_reconcile_attempts_ok snap l n w :
  readable_columns (columns (w_store w)) ->
  Forall (fun '(a, j) => a <= I64_MAX /\ j <= I64_MAX) l ->
  wp (reconcile_attempts snap l n) (fun r _ => exists m, r = Ok m) w.
Proof.
  intros Hc Hl. revert n w Hc. induction Hl as [|[a j] l [Ha Hj] _ IH]; intros n w Hc;
    cbn [reconcile_attempts]; [apply wp_ret; by exists n|].
  destruct (intents_of_readable env_sql_text a (w_store w) Hc Ha) as (intents & Hi & Hle).
  apply wp_try, wp_with_store. rewrite quiet, Hi. intros r s [= <- <-].
  apply wp_bind. eapply wp_mono.
  { apply wp_and; [apply wp_reconcile_intents_columns|apply wp_reconcile_intents_tally].
    unfold u64, U64_MAX. simpl. unfold ByteCount.ZERO. lia. }
  intros ty w1 [Hc1 (outs & Hf & _ & Ht)]. apply credited_le in Hf.
  simpl in Ht, Hc1. unfold ByteCount.ZERO in Ht. rewrite <- Ht in Hf.
  apply wp_try. eapply wp_mono; [apply wp_close_attempt_ok; try done|].
  { destruct Hc as [_ Hc]. lia. }
  intros r w2 [-> Hc2]. apply IH. by rewrite Hc2, Hc1.
Qed.
End progress.

(** ** Properties *)

(** C28 A recovery that returns has resolved every interrupted attempt: none is
    left RUNNING, nothing was removed from the disk, no permit was kept, and a
    second recovery, unless SQLite refuses its query, finds nothing to do and
    changes nothing. *)
Theorem recovery_completes `{Kernel K} `{Env} cat cat' (w w' : World) n :
  reconcile_startup_crashes cat w = (Ok n, w') ->
  (forall a, ~ running (w_store w') a) /\
  (exists evs, w_trace w' = evs ++ w_trace w /\ Forall (fun e => ~ is_unlink e) evs) /\
  w_rm w' = w_rm w /\
  (env_sql (w_step w') = None ->
     let '(r, w'') := reconcile_startup_crashes cat' w' in
     r = Ok 0%nat /\ w_store w'' = w_store w' /\ w_kernel w'' = w_kernel w').
Proof.
  intros E.
  assert (wp (reconcile_startup_crashes cat) (fun r w' => looks w w' /\
    match r with Ok _ => forall a, ~ running (w_store w') a | Err _ => True end) w) as Hwp.
  { unfold reconcile_startup_crashes. apply wp_bind, wp_with_store. intros r s [= <- <-].
    assert (looks w (w_set_store (w_store w) (w_tick w))) as Hl by (constructor; [done|by exists []]).
    destruct (get_uncompleted_attempts _ _ _) as [l|e] eqn:Eg; [|by apply wp_ret].
    destruct l as [|[a j] l].
    - apply wp_ret. split; [done|]. intros a Ha.
      apply (get_uncompleted_spec _ _ _ _ a Eg), elem_of_nil in Ha. done.
    - eapply wp_mono; [apply wp_reconcile_attempts|].
      + intros b. apply (get_uncompleted_spec _ _ _ _ b Eg).
      + intros r w1 [Hl1 Hr]. split; [by etransitivity|]. destruct r; [apply Hr|done]. }
  unfold wp in Hwp. rewrite E in Hwp. destruct Hwp as [[Hrm Htr] Hno].
  split; [exact Hno|]. split; [done|]. split; [done|]. intros Hsql.
  assert (get_uncompleted_attempts env_sql_text None (w_store w') = Ok []) as Hnil.
  { destruct (get_uncompleted_attempts env_sql_text None (w_store w')) as [l|] eqn:Eg; [|done].
    destruct l as [|[a j] l]; [done|]. exfalso. apply (Hno a).
    apply (get_uncompleted_spec _ _ _ _ a Eg). left. }
  unfold reconcile_startup_crashes, mbind, M_bind, query, with_store.
  rewrite Hsql. cbn -[get_uncompleted_attempts]. by rewrite Hnil.
Qed.

(** The state a crash leaves between the unlink and its verification: the intent
    is MUTATING and the file is gone. *)
Definition crashed_store : Store :=
  exec_all (fun _ => "sql")
    [(CmdCommitIntent (OperationIntent_new 1 1 1 "android:com.app:cache" "a/b.tmp"
        (mkFileIdentity 5 9) 4096 MutDeleteFile CatalogGeneration_INITIAL
        ConfigGeneration_INITIAL 1000), 1000, None);
     (CmdUpdateIntent 1 1 "MUTATING", 1000, None)] example_store.

Definition crashed_catalog : CatalogSnapshot :=
  register_target example_target TargetCatalog_new.

Definition crashed_world : World :=
  mem_world (mem_fs [("/data/user/0/com.app/cache", dir 77);
                     ("/data/user/0/com.app/cache/a", dir 8)] []) crashed_store.

Example crashed_run :
  fst (reconcile_startup_crashes (H0 := quiet_env 2000) crashed_catalog crashed_world) = Ok 1%nat.
Proof. vm_compute. reflexivity. Qed.

Lemma recovery_completes_witness :
  let w' := snd (reconcile_startup_crashes (H0 := quiet_env 2000) crashed_catalog crashed_world) in
  (forall a, ~ running (w_store w') a) /\ w_rm w' = w_rm crashed_world.
Proof.
  destruct (recovery_completes (H0 := quiet_env 2000) crashed_catalog crashed_catalog
              crashed_world _ 1%nat
              (eq_trans (surjective_pairing _) (f_equal (fun r => (r, _)) crashed_run)))
    as (Hrun & _ & Hrm & _).
  exact (conj Hrun Hrm).
Defined.

(** An attempt is marked RECONCILED exactly when the disk says that every one
    of its intents is deleted; a single entry that is still there, was replaced,
    cannot be examined or whose target is gone excludes it; and the bytes
    credited to the job are the saturating sum over the deleted ones. *)
Theorem reconciled_iff_all_deleted `{Kernel K} `{Env} snap a j intents (w : World) :
  let ty := fst (reconcile_intents snap a j intents (mkTally ByteCount.ZERO true false) w) in
  exists outs, Forall2 (looked_up snap) intents outs /\
    (fst (final_states ty) = "RECONCILED" <-> forall o, o ∈ outs -> found_deleted o = true) /\
    ty_total ty = saturating_sum (zip_with bytes_of intents outs).
Proof.
  intros ty.
  destruct (wp_reconcile_intents_tally snap a j intents (mkTally ByteCount.ZERO true false) w)
    as (outs & Hf & Ha & Ht).
  { unfold u64, U64_MAX. simpl. unfold ByteCount.ZERO. lia. }
  exists outs. split; [done|]. fold ty in Ha, Ht. split; [|exact Ht].
  unfold final_states. rewrite Ha. simpl. destruct (forallb found_deleted outs) eqn:Ef.
  - split; [|done]. intros _ o Ho. rewrite forallb_forall in Ef.
    by apply Ef, list_elem_of_In.
  - split; [by destruct (ty_has_unknown ty)|]. intros Hall. exfalso.
    apply not_true_iff_false in Ef. apply Ef, forallb_forall. intros o Ho.
    by apply Hall, list_elem_of_In.
Qed.

(** Recovery gets through: if SQLite accepts its statements, the clock and the
    identifiers of the interrupted attempts fit SQLite's integers, every intent's
    target identifier can be read back and the estimates do not add up past the
    integer range, then startup recovery returns, whatever the disk and the
    catalog say, and leaves no attempt RUNNING. *)
Theorem recovery_succeeds `{Kernel K} `{Env} cat (w : World) :
  (forall k, env_sql k = None) -> (forall k, env_now k <= I64_MAX) ->
  readable_columns (columns (w_store w)) ->
  (forall a row, attempts (w_store w) !! a = Some row ->
     a <= I64_MAX /\ att_job_id row <= I64_MAX) ->
  exists n, fst (reconcile_startup_crashes cat w) = Ok n.
Proof.
  intros Hq Hclk Hc Hids.
  enough (wp (reconcile_startup_crashes cat) (fun r _ => exists n, r = Ok n) w) by done.
  unfold reconcile_startup_crashes. apply wp_bind, wp_with_store. rewrite Hq.
  intros r s [= <- <-]. simpl. set (l := sort_by _ _).
  assert (Forall (fun '(a, j) => a <= I64_MAX /\ j <= I64_MAX) l) as Hl.
  { apply Forall_forall. intros [a j] Hin. subst l. rewrite sort_by_perm in Hin.
    apply list_elem_of_omap in Hin as ([a' row] & Hr & E).
    apply elem_of_map_to_list in Hr. case_match; [|done]. simplify_eq. by eapply Hids. }
  destruct l as [|p l]; [apply wp_ret; by exists 0%nat|].
  by apply wp_reconcile_attempts_ok.
Qed.

Lemma recovery_succeeds_witness :
  exists n, fst (reconcile_startup_crashes (H0 := quiet_env 2000) crashed_catalog crashed_world)
            = Ok n.
Proof.
  apply (recovery_succeeds (H0 := quiet_env 2000)).
  - reflexivity.
  - intros k. vm_compute. discriminate.
  - split; [|vm_compute; discriminate]. apply (bool_decide_unpack _). vm_compute. exact I.
  - apply (map_Forall_to_list (fun a row => a <= I64_MAX /\ att_job_id row <= I64_MAX)).
    apply (bool_decide_unpack _). vm_compute. exact I.
Defined.
