(* ===== verification/Scanner.v ===== *)
(** The scanner of src/scanner/mod.rs: the depth-first walk of a target below its
    root, by descriptors, in its collecting and its streaming form.

    The recursion is on the levels left (the code passes [depth] and
    [max_depth = 16]); the body of the loop over a directory's entries takes the
    recursive call as an argument.  [ByteCount::new] panics on a size above its
    bound.  The theorems: what a candidate looks like, that every permit comes
    back, and that the streaming walk delivers exactly what the collecting walk
    collects. *)
From Stdlib Require Import Ascii String.
From S2P Require Import Prelude Paths Domain Resource Store Effects Fs Safety.
From S2P Require Import Catalog Verifier Executor MemFs.

Definition MAX_CANDIDATES_PER_TARGET : nat := N.to_nat 50000.
Definition MAX_SCAN_DEPTH : nat := 16.

Inductive ScanStatus := Complete | Partial | FailedScan.

Record ScanResult := mkScanResult {
  candidates : list Candidate;
  status : ScanStatus;
  errors : list string;
}.

(** The scanner's counter and the [&mut] arguments of the recursion. *)
Record Scan := mkScan {
  sc_next_id : N;
  sc_candidates : list Candidate;
  sc_errors : list string;
  sc_hit_limit : bool;
}.

Definition bytecount_panic : string := "ByteCount exceeds 10GiB hard bound".

(** The candidate of an entry; both forms of the walk build it alike. *)
Definition candidate_of (id : CandidateId) (target : TargetDescriptor) (rel : RelativePath.t)
    (entry : SafeDirEntry) : result fault Candidate :=
  if e_is_dir entry && negb (e_is_symlink entry) then
    Ok (mkCandidate id (td_target_id target) rel (e_identity entry) ByteCount.ZERO
          (e_mtime_secs entry) None true false)
  else
    match ByteCount.new (e_size_bytes entry) with
    | None => Err (Panic bytecount_panic)
    | Some size =>
        Ok (mkCandidate id (td_target_id target) rel (e_identity entry) size
              (e_mtime_secs entry) None false (e_is_symlink entry))
    end.

Definition push_candidate (st : Scan) (c : Candidate) : Scan :=
  mkScan (wrap_add (sc_next_id st) 1) (sc_candidates st ++ [c]) (sc_errors st)
    (sc_hit_limit st).
Definition push_error (st : Scan) (e : string) : Scan :=
  mkScan (sc_next_id st) (sc_candidates st) (sc_errors st ++ [e]) (sc_hit_limit st).
Definition set_hit_limit (st : Scan) : Scan :=
  mkScan (sc_next_id st) (sc_candidates st) (sc_errors st) true.

Definition limit_reached (st : Scan) : bool :=
  (MAX_CANDIDATES_PER_TARGET <=? length (sc_candidates st))%nat.

Section scanner.
Context `{Kernel K} `{Env}.

(** [if let Ok(permit) = .. { if let Ok(child) = open.. { body(child)? } }]: the
    child is dropped after the body. *)
Definition with_child {A} (h : SafeDirHandle) (name : string)
    (otherwise : A) (body : SafeDirHandle -> M (result fault A)) : M (result fault A) :=
  permit ← with_rm acquire_fd_permit;
  match permit with
  | Err _ => mret (Ok otherwise)
  | Ok p =>
      child ← open_child_dir_with_permit h name (Some p);
      match child with
      | Err _ => mret (Ok otherwise)
      | Ok c => r ← body c; _ ← drop_handle c; mret r
      end
  end.

Section collect.
Context (target : TargetDescriptor)
  (rec : SafeDirHandle -> RelativePath.t -> Scan -> M (result fault Scan)).

(** The loop over a directory's entries. *)
Fixpoint scan_entries (h : SafeDirHandle) (rel_prefix : RelativePath.t)
    (entries : list SafeDirEntry) (st : Scan) : M (result fault Scan) :=
  match entries with
  | [] => mret (Ok st)
  | entry :: entries' =>
      if limit_reached st then mret (Ok (set_hit_limit st))
      else
        match RelativePath.join rel_prefix (e_name entry) with
        | None => scan_entries h rel_prefix entries' st
        | Some entry_rel =>
            match candidate_of (sc_next_id st) target entry_rel entry with
            | Err e => mret (Err e)
            | Ok c =>
                let st := push_candidate st c in
                if e_is_dir entry && negb (e_is_symlink entry) then
                  st' ←? with_child h (e_name entry) st (fun child => rec child entry_rel st);
                  scan_entries h rel_prefix entries' st'
                else scan_entries h rel_prefix entries' st
            end
        end
  end.
End collect.

Fixpoint scan_safe_recursive (levels : nat) (target : TargetDescriptor) (h : SafeDirHandle)
    (rel_prefix : RelativePath.t) (st : Scan) : M (result fault Scan) :=
  match levels with
  | O => mret (Ok st)
  | S levels' =>
      if limit_reached st then mret (Ok (set_hit_limit st))
      else
        entries ← read_entries_fd h;
        match entries with
        | Err e => mret (Ok (push_error st ("Failed to read directory "
                     +:+ RelativePath.as_str rel_prefix +:+ ": " +:+ show_error e)))
        | Ok entries =>
            scan_entries target (scan_safe_recursive levels' target) h rel_prefix entries st
        end
  end.

Definition scan_status (st : Scan) : ScanStatus :=
  if sc_hit_limit st then Partial
  else match sc_errors st, sc_candidates st with
       | _ :: _, [] => FailedScan
       | _ :: _, _ :: _ => Partial
       | [], _ => Complete
       end.

(** The result and the scanner's counter. *)
Definition scan_target_with_resource (next_id : N) (target : TargetDescriptor)
    : M (result fault (ScanResult * N)) :=
  permit ← with_rm acquire_fd_permit;
  root ← open_root_with_permit (td_base_path target) (result_ok permit);
  match root with
  | Err e =>
      exists_ ← syscall (fs_exists (td_base_path target));
      if negb exists_ then mret (Ok (mkScanResult [] Complete [], next_id))
      else mret (Ok (mkScanResult [] FailedScan
             ["Failed to open target root " +:+ td_base_path target +:+ ": " +:+ show_error e],
             next_id))
  | Ok root_handle =>
      r ← scan_safe_recursive MAX_SCAN_DEPTH target root_handle RelativePath.empty
            (mkScan next_id [] [] false);
      _ ← drop_handle root_handle;
      match r with
      | Err e => mret (Err e)
      | Ok st => mret (Ok (mkScanResult (sc_candidates st) (scan_status st) (sc_errors st),
                   sc_next_id st))
      end
  end.

(** [scan_target] has a manager of its own, of the default size, for the one scan. *)
Definition scan_target (next_id : N) (target : TargetDescriptor) : M (result fault (ScanResult * N)) :=
  fun w => let '(r, w') := scan_target_with_resource next_id target (w_set_rm ResourceManager_default w) in
           (r, w_set_rm (w_rm w) w').

(** The counter of a new scanner, and an id taken from it. *)
Definition CandidateScanner_new : N := 1.
Definition next_candidate_id (next_id : N) : CandidateId * N := (next_id, wrap_add next_id 1).

(** ** The streaming walk *)

(** The consumer: a function of its own state, [false] to stop. *)
Context {S_ : Type} (on_chunk : list Candidate -> S_ -> result CleanerError bool * S_)
  (chunk_size : nat).

(** The counter, the buffer and the consumer's state. *)
Record Stream := mkStream { s_next_id : N; s_buffer : list Candidate; s_consumer : S_ }.

(** Push a candidate and hand the buffer over when it is full. *)
Definition stream_push (st : Stream) (c : Candidate) : result fault bool * Stream :=
  let next := wrap_add (s_next_id st) 1 in
  let buffer := s_buffer st ++ [c] in
  if (chunk_size <=? length buffer)%nat then
    match on_chunk buffer (s_consumer st) with
    | (Ok go_on, s) => (Ok go_on, mkStream next [] s)
    | (Err e, s) => (Err (Error e), mkStream next [] s)
    end
  else (Ok true, mkStream next buffer (s_consumer st)).

Section streaming.
Context (target : TargetDescriptor)
  (rec : SafeDirHandle -> RelativePath.t -> Stream -> M (result fault (bool * Stream))).

Fixpoint stream_entries (h : SafeDirHandle) (rel_prefix : RelativePath.t)
    (entries : list SafeDirEntry) (st : Stream) : M (result fault (bool * Stream)) :=
  match entries with
  | [] => mret (Ok (true, st))
  | entry :: entries' =>
      match RelativePath.join rel_prefix (e_name entry) with
      | None => stream_entries h rel_prefix entries' st
      | Some entry_rel =>
          match candidate_of (s_next_id st) target entry_rel entry with
          | Err e => mret (Err e)
          | Ok c =>
              match stream_push st c with
              | (Err e, _) => mret (Err e)
              | (Ok false, st) => mret (Ok (false, st))
              | (Ok true, st) =>
                  if e_is_dir entry && negb (e_is_symlink entry) then
                    r ←? with_child h (e_name entry) (true, st)
                           (fun child => rec child entry_rel st);
                    if fst r then stream_entries h rel_prefix entries' (snd r)
                    else mret (Ok (false, snd r))
                  else stream_entries h rel_prefix entries' st
              end
          end
      end
  end.
End streaming.

Fixpoint scan_safe_recursive_streaming (levels : nat) (target : TargetDescriptor)
    (h : SafeDirHandle) (rel_prefix : RelativePath.t) (st : Stream)
    : M (result fault (bool * Stream)) :=
  match levels with
  | O => mret (Ok (true, st))
  | S levels' =>
      entries ← read_entries_fd h;
      match entries with
      | Err _ => mret (Ok (true, st))
      | Ok entries =>
          stream_entries target (scan_safe_recursive_streaming levels' target) h rel_prefix
            entries st
      end
  end.

(** The consumer's final state and the counter; an error of the consumer is
    returned. *)
Definition scan_target_streaming (next_id : N) (target : TargetDescriptor) (s0 : S_)
    : M (result fault (S_ * N)) :=
  permit ← with_rm acquire_fd_permit;
  root ← open_root_with_permit (td_base_path target) (result_ok permit);
  match root with
  | Err _ => mret (Ok (s0, next_id))
  | Ok root_handle =>
      r ← scan_safe_recursive_streaming MAX_SCAN_DEPTH target root_handle RelativePath.empty
            (mkStream next_id [] s0);
      match r with
      | Err e => _ ← drop_handle root_handle; mret (Err e)
      | Ok (_, st) =>
          match s_buffer st with
          | [] => _ ← drop_handle root_handle; mret (Ok (s_consumer st, s_next_id st))
          | buffer =>
              let '(ok, s) := on_chunk buffer (s_consumer st) in
              _ ← drop_handle root_handle;
              match ok with
              | Ok _ => mret (Ok (s, s_next_id st))
              | Err e => mret (Err (Error e))
              end
          end
      end
  end.
End scanner.

(** ** What a scan does *)

(** A candidate as the scanner builds it. *)
Record scanned (t : TargetDescriptor) (c : Candidate) : Prop := {
  scanned_target : c_target_id c = td_target_id t;
  scanned_confined : confined (c_rel_path c);
  scanned_dir : c_is_dir c = true -> c_is_symlink c = false /\ c_size_bytes c = 0;
  scanned_size : c_size_bytes c <= ByteCount.MAX_SAFE;
}.

Lemma candidate_of_scanned id t rel entry c :
  confined rel -> candidate_of id t rel entry = Ok c ->
  scanned t c /\ c_candidate_id c = id /\ c_rel_path c = rel.
Proof.
  intros Hrel. unfold candidate_of.
  destruct (e_is_dir entry && negb (e_is_symlink entry)).
  - intros [= <-]. split; [|done]. constructor; simpl; try done.
  - destruct (ByteCount.new (e_size_bytes entry)) as [size|] eqn:E; [|done]. intros [= <-].
    split; [|done]. constructor; simpl; try done.
    unfold ByteCount.new in E. destruct (_ <=? _) eqn:El in E; [|done]. simplify_eq.
    by apply N.leb_le.
Qed.

Lemma join_confined p sub q : confined p -> RelativePath.join p sub = Some q -> confined q.
Proof.
  intros Hp. unfold RelativePath.join, RelativePath.as_path.
  destruct (RelativePath.parse sub) as [s|] eqn:E; [|done]. intros [= <-].
  apply confined_push; [done|by eapply parse_confined].
Qed.

(** The accumulator: well-formed candidates within the limit, with consecutive
    identifiers from [next0]. *)
Record scan_inv (t : TargetDescriptor) (next0 : N) (st : Scan) : Prop := {
  si_scanned : Forall (scanned t) (sc_candidates st);
  si_limit : (length (sc_candidates st) <= MAX_CANDIDATES_PER_TARGET)%nat;
  si_ids : forall i c, sc_candidates st !! i = Some c ->
    c_candidate_id c = wrap_add next0 (N.of_nat i);
  si_next : sc_next_id st = wrap_add next0 (N.of_nat (length (sc_candidates st)));
}.

Lemma wrap_add_succ a n : wrap_add (wrap_add a n) 1 = wrap_add a (n + 1).
Proof.
  unfold wrap_add. rewrite N.Div0.add_mod_idemp_l. f_equal. lia.
Qed.

Lemma scan_inv_push t next0 st c :
  scan_inv t next0 st -> limit_reached st = false -> scanned t c ->
  c_candidate_id c = sc_next_id st -> scan_inv t next0 (push_candidate st c).
Proof.
  intros [Hs Hl Hi Hn] Hlim Hc Hid. unfold limit_reached in Hlim. apply Nat.leb_gt in Hlim.
  constructor; simpl.
  - apply Forall_app. split; [done|]. by constructor.
  - rewrite length_app. simpl. lia.
  - intros i c'. rewrite lookup_app_Some. intros [Hc'|[Hle Hc']]; [by apply Hi|].
    destruct (i - length (sc_candidates st))%nat eqn:E; [|done]. simpl in Hc'. simplify_eq.
    rewrite Hid, Hn. do 2 f_equal. lia.
  - rewrite Hn, wrap_add_succ, length_app. simpl. do 2 f_equal. lia.
Qed.

Section walk.
Context `{Kernel K} `{Env}.

Lemma wp_read_loop h l acc w :
  wp (read_loop h l acc) (fun _ w' => moves w w' (w_rm w) []) w.
Proof.
  revert acc w. induction l as [|[d|e] l IH]; intros acc w; cbn [read_loop]; [done| |done].
  repeat case_match; try apply IH.
  apply wp_bind, wp_syscall. intros [st|e] k _.
  all: eapply wp_mono; [apply IH|]; intros r w' [? ? ? ?]; by constructor.
Qed.

Lemma wp_read_entries h w :
  wp (read_entries_fd h) (fun _ w' => moves w w' (w_rm w) []) w.
Proof.
  unfold read_entries_fd. apply wp_bind, wp_syscall. intros l k _.
  eapply wp_mono; [apply wp_read_loop|]. intros r w' [? ? ? ?]. by constructor.
Qed.

(** Where a walk started at [w0] with [n] permits of its own is allowed to be. *)
Definition walking (w0 : World) (rm0 : ResourceManager) (n : N) (w : World) : Prop :=
  opens w0 w /\ rm_same rm0 (w_rm w) n.

Lemma wp_with_child {A} w0 rm0 n h name (other : A) body (R : result fault A -> Prop) w :
  walking w0 rm0 n w -> R (Ok other) ->
  (forall c w1 m, walking w0 rm0 m w1 ->
     wp (body c) (fun r w2 => walking w0 rm0 m w2 /\ R r) w1) ->
  wp (with_child h name other body) (fun r w' => walking w0 rm0 n w' /\ R r) w.
Proof.
  intros [Ho Hrm] HR Hbody. unfold with_child. apply wp_bind, wp_with_rm.
  intros permit rm1 Hacq. pose proof (rm_same_acquire _ _ _ _ _ Hrm Hacq) as Hrm1.
  assert (opens w0 (w_set_rm rm1 w)) as Ho1 by by apply opens_rm.
  destruct permit as [p|e].
  2: { apply wp_ret. split; [|done]. split; [done|]. by rewrite N.add_0_r in Hrm1. }
  apply wp_bind. eapply wp_mono; [apply wp_open_child|]. intros [c|e] w1.
  - intros (_ & _ & Hp & Hm). assert (opens w0 w1) as Ho2.
    { etransitivity; [exact Ho1|]. eapply moves_opens; [exact Hm|].
      constructor; [tauto|constructor]. }
    apply wp_bind. eapply wp_mono.
    { apply (Hbody c w1 (n + 1)). split; [done|]. destruct Hm as [_ -> _ _]. exact Hrm1. }
    intros r w2 [[Ho3 Hrm3] Hr]. unfold drop_handle. wp_steps. split; [|done].
    split; [by apply opens_rm|]. simpl. rewrite Hp. by apply rm_same_drop.
  - intros Hm. apply wp_ret. split; [|done]. split.
    + etransitivity; [exact Ho1|]. by eapply moves_opens.
    + destruct Hm as [_ -> _ _]. by apply rm_same_drop.
Qed.

(** The post-condition of every level. *)
Definition scan_ok (t : TargetDescriptor) (next0 : N) (r : result fault Scan) : Prop :=
  match r with Ok st => scan_inv t next0 st | Err _ => True end.

Lemma wp_scan_entries w0 rm0 n t next0 rec h prefix entries st w :
  confined prefix -> scan_inv t next0 st -> walking w0 rm0 n w ->
  (forall c p st1 w1 m, confined p -> scan_inv t next0 st1 -> walking w0 rm0 m w1 ->
     wp (rec c p st1) (fun r w2 => walking w0 rm0 m w2 /\ scan_ok t next0 r) w1) ->
  wp (scan_entries t rec h prefix entries st)
    (fun r w' => walking w0 rm0 n w' /\ scan_ok t next0 r) w.
Proof.
  intros Hp HI Hw Hrec. revert st w HI Hw. induction entries as [|e entries IH];
    intros st w HI Hw; cbn [scan_entries]; [done|].
  destruct (limit_reached st) eqn:Hlim.
  { apply wp_ret. split; [done|]. destruct HI. by constructor. }
  destruct (RelativePath.join prefix (e_name e)) as [rel|] eqn:Hj; [|by apply IH].
  pose proof (join_confined _ _ _ Hp Hj) as Hrel.
  destruct (candidate_of _ _ _ _) as [c|err] eqn:Hc; [|done].
  destruct (candidate_of_scanned _ _ _ _ _ Hrel Hc) as (Hsc & Hid & _).
  pose proof (scan_inv_push t next0 st c HI Hlim Hsc Hid) as HI1. cbv zeta.
  destruct (e_is_dir e && negb (e_is_symlink e)); [|by apply IH].
  apply wp_try. eapply wp_mono.
  { apply (wp_with_child w0 rm0 n _ _ _ _ (scan_ok t next0)); [done|done|].
    intros child w1 m Hw1. by apply Hrec. }
  intros [st'|err] w2 [Hw2 Hst']; [|done]. by apply IH.
Qed.

Lemma wp_scan_recursive w0 rm0 n t next0 levels h prefix st w :
  confined prefix -> scan_inv t next0 st -> walking w0 rm0 n w ->
  wp (scan_safe_recursive levels t h prefix st)
    (fun r w' => walking w0 rm0 n w' /\ scan_ok t next0 r) w.
Proof.
  revert n h prefix st w. induction levels as [|levels IH]; intros n h prefix st w Hp HI Hw;
    cbn [scan_safe_recursive]; [done|].
  destruct (limit_reached st).
  { apply wp_ret. split; [done|]. destruct HI. by constructor. }
  apply wp_bind. eapply wp_mono; [apply wp_read_entries|]. intros r w1 Hm.
  assert (walking w0 rm0 n w1) as Hw1.
  { destruct Hw as [Ho Hrm]. split.
    - etransitivity; [exact Ho|]. eapply moves_opens; [exact Hm|constructor].
    - by destruct Hm as [_ -> _ _]. }
  destruct r as [entries|e].
  - apply wp_scan_entries; try done. intros c p st1 w2 m. apply IH.
  - apply wp_ret. split; [done|]. destruct HI. by constructor.
Qed.
Lemma wp_scan_target next_id t w :
  u64 next_id ->
  wp (scan_target_with_resource next_id t) (fun r w' =>
    walking w (w_rm w) 0 w' /\
    match r with
    | Ok (res, next') => exists st, scan_inv t next_id st /\ candidates res = sc_candidates st /\
        next' = sc_next_id st
    | Err _ => True
    end) w.
Proof.
  intros Hu.
  assert (next_id = wrap_add next_id 0) as Hnext
    by (rewrite wrap_add_exact; unfold u64 in *; lia).
  unfold scan_target_with_resource. apply wp_bind, wp_with_rm. intros permit rm1 Hacq.
  pose proof (rm_same_acquire _ _ _ _ _ (rm_same_refl (w_rm w)) Hacq) as Hrm1.
  assert (scan_inv t next_id (mkScan next_id [] [] false)) as Hinit
    by (constructor; simpl; [constructor|lia|done|done]).
  apply wp_bind. eapply wp_mono; [apply wp_open_root|]. intros [root|e] w1.
  - intros [Hp Hm]. apply wp_bind. eapply wp_mono.
    { apply (wp_scan_recursive w (w_rm w) (0 + permit_fds (result_ok permit)) t next_id);
        [apply empty_confined|exact Hinit|]. split.
      - etransitivity; [|eapply moves_opens; [exact Hm|constructor; [tauto|constructor]]].
        by apply opens_rm.
      - destruct Hm as [_ -> _ _]. exact Hrm1. }
    intros r w2 [[Ho Hrm] Hr]. unfold drop_handle. wp_steps. rewrite Hp.
    assert (walking w (w_rm w) 0 (w_set_rm (drop_permit (result_ok permit) (w_rm w2)) w2)) as Hw
      by (split; [by apply opens_rm|]; simpl; by apply rm_same_drop).
    destruct r as [st|e]; wp_steps; split; try done. by exists st.
  - intros Hm.
    assert (forall k, walking w (w_rm w) 0 (w_set_kernel k w1)) as Hw.
    { intros k. split.
      - etransitivity; [apply opens_rm; reflexivity|].
        apply (moves_opens _ _ _ _) in Hm; [|constructor]. destruct Hm. by constructor.
      - simpl. destruct Hm as [_ -> _ _]. by apply rm_same_drop. }
    apply wp_bind, wp_syscall. intros b k _.
    destruct b; cbn [negb]; apply wp_ret; (split; [apply Hw|]);
      by exists (mkScan next_id [] [] false).
Qed.
End walk.

(** ** Properties *)

(** A scan with its own manager finds what a scan with any other manager would be bound
    by, and the shared manager is not touched. *)
Lemma scan_target_own_manager `{Kernel K} `{Env} next_id t (w w' : World) res next' :
  u64 next_id -> scan_target next_id t w = (Ok (res, next'), w') ->
  Forall (scanned t) (candidates res) /\
  (length (candidates res) <= MAX_CANDIDATES_PER_TARGET)%nat /\
  next' = wrap_add next_id (N.of_nat (length (candidates res))) /\ w_rm w' = w_rm w.
Proof.
  intros Hu E. unfold scan_target in E.
  pose proof (wp_scan_target next_id t (w_set_rm ResourceManager_default w) Hu) as Hwp. unfold wp in Hwp.
  destruct (scan_target_with_resource next_id t _) as [r w1]. injection E as -> <-. cbn [fst snd] in Hwp.
  destruct Hwp as (_ & st & [Hs Hl Hi Hn] & Hc & ->). by rewrite Hc.
Qed.

(** C27 What a scan returns and leaves, whatever the file system answers: every
    candidate belongs to the target and its path has only ordinary components
    below the target's root; directories carry no bytes and are not links, no
    size exceeds the bound; there are at most 50000 candidates, numbered
    consecutively; nothing was removed, the store is untouched, and every
    descriptor permit taken on the way has been returned. *)
Theorem scan_target_spec `{Kernel K} `{Env} next_id t (w w' : World) res next' :
  u64 next_id ->
  scan_target_with_resource next_id t w = (Ok (res, next'), w') ->
  Forall (scanned t) (candidates res) /\
  (length (candidates res) <= MAX_CANDIDATES_PER_TARGET)%nat /\
  (forall i c, candidates res !! i = Some c -> c_candidate_id c = wrap_add next_id (N.of_nat i)) /\
  next' = wrap_add next_id (N.of_nat (length (candidates res))) /\
  opens w w' /\ active_fds (w_rm w') = active_fds (w_rm w) /\
  locked_targets (w_rm w') = locked_targets (w_rm w).
Proof.
  intros Hu E.
  pose proof (wp_scan_target next_id t w Hu) as Hwp.
  unfold wp in Hwp. rewrite E in Hwp. simpl in Hwp.
  destruct Hwp as ([Ho [? ? ? ? Hf]] & st & [Hs Hl Hi Hn] & Hc & ->).
  rewrite Hc. rewrite N.add_0_r in Hf. done.
Qed.

Definition scan_fs : MemFs :=
  mem_fs [("/data/user/0/com.app/cache", dir 77); ("/data/user/0/com.app/cache/a", dir 8);
          ("/data/user/0/com.app/cache/a/b.tmp", file 9 4096)] [].

Definition scan_world : World := mem_world scan_fs empty_store.

Definition scan_example : result fault (ScanResult * N) * World :=
  scan_target_with_resource (H0 := quiet_env 1100) 1 example_target scan_world.

Definition scan_example_result : ScanResult :=
  mkScanResult
    [mkCandidate 1 "android:com.app:cache" "a" (mkFileIdentity 5 8) 0 1000 None true false;
     mkCandidate 2 "android:com.app:cache" "a/b.tmp" (mkFileIdentity 5 9) 4096 1000 None
       false false] Complete [].

Example scan_example_ok : fst scan_example = Ok (scan_example_result, 3).
Proof. vm_compute. reflexivity. Qed.

Lemma scan_target_spec_witness :
  Forall (scanned example_target) (candidates scan_example_result).
Proof.
  apply (scan_target_spec (H0 := quiet_env 1100) 1 example_target scan_world (snd scan_example)
           scan_example_result 3).
  - vm_compute. discriminate.
  - rewrite <- scan_example_ok. apply surjective_pairing.
Defined.

(** ** The two walks agree *)

(** A consumer that keeps everything. *)
Definition keep (chunk acc : list Candidate) : result CleanerError bool * list Candidate :=
  (Ok true, acc ++ chunk).

Definition grows (st : Scan) (r : result fault Scan) : Prop :=
  match r with
  | Ok st' => (length (sc_candidates st) <= length (sc_candidates st'))%nat
  | Err _ => True
  end.

(** The streaming walk has delivered or buffered what the other collected. *)
Definition in_step (st : Scan) (sm : @Stream (list Candidate)) : Prop :=
  s_next_id sm = sc_next_id st /\ s_consumer sm ++ s_buffer sm = sc_candidates st.

Section agree.
Context `{Kernel K} `{Env} (t : TargetDescriptor) (chunk_size : nat).

Lemma with_child_any {A} h name (other : A) body (R : result fault A -> Prop) w :
  R (Ok other) -> (forall c w1, R (fst (body c w1))) ->
  R (fst (with_child h name other body w)).
Proof.
  intros HR Hb. unfold with_child, mbind, M_bind. destruct (with_rm _ w) as [[p|e] w1]; [|done].
  destruct (open_child_dir_with_permit _ _ _ _) as [[c|e] w2]; [|done].
  specialize (Hb c w2). by destruct (body c w2).
Qed.

Lemma scan_entries_grows rec h prefix entries st w :
  (forall c p st1 w1, grows st1 (fst (rec c p st1 w1))) ->
  grows st (fst (scan_entries t rec h prefix entries st w)).
Proof.
  intros Hrec. revert st w. induction entries as [|e entries IH]; intros st w;
    cbn [scan_entries]; [simpl; lia|].
  destruct (limit_reached st); [simpl; lia|].
  destruct (RelativePath.join _ _) as [rel|]; [|apply IH].
  destruct (candidate_of _ _ _ _) as [c|err]; [|done]. cbv zeta.
  assert (length (sc_candidates st) <= length (sc_candidates (push_candidate st c)))%nat as Hle
    by (simpl; rewrite length_app; lia).
  destruct (_ && _).
  - unfold try_bind, mbind, M_bind.
    pose proof (with_child_any h (e_name e) (push_candidate st c)
      (fun child => rec child rel (push_candidate st c)) (grows (push_candidate st c)) w) as Hg.
    destruct (with_child _ _ _ _ _) as [[st1|err] w1]; [|done].
    assert (grows (push_candidate st c) (Ok st1)) as Hg1 by (apply Hg; [simpl; lia|auto]).
    specialize (IH st1 w1). destruct (scan_entries _ _ _ _ _ _ _) as [[st2|err] w2]; [|done].
    simpl in *. lia.
  - specialize (IH (push_candidate st c) w).
    destruct (scan_entries _ _ _ _ _ _ _) as [[st2|err] w2]; [|done]. simpl in *. lia.
Qed.

Lemma scan_recursive_grows levels h prefix st w :
  grows st (fst (scan_safe_recursive levels t h prefix st w)).
Proof.
  revert h prefix st w. induction levels as [|levels IH]; intros h prefix st w;
    cbn [scan_safe_recursive]; [simpl; lia|].
  destruct (limit_reached st); [simpl; lia|]. unfold mbind, M_bind.
  destruct (read_entries_fd h w) as [[entries|e] w1]; [|simpl; lia].
  by apply scan_entries_grows.
Qed.

Lemma stream_push_in_step st sm c :
  in_step st sm ->
  exists sm', stream_push keep chunk_size sm c = (Ok true, sm') /\
    in_step (push_candidate st c) sm'.
Proof.
  intros [Hn Hc]. unfold stream_push, keep, in_step. simpl.
  destruct (chunk_size <=? length (s_buffer sm ++ [c]))%nat; eexists; (split; [done|]); simpl;
    rewrite Hn, <- Hc; [by rewrite app_nil_r, app_assoc|by rewrite app_assoc].
Qed.

(** Both recursions run alike on a child. *)
Definition agrees (levels : nat) : Prop :=
  forall h prefix st w st' w' sm,
    scan_safe_recursive levels t h prefix st w = (Ok st', w') ->
    (length (sc_candidates st') < MAX_CANDIDATES_PER_TARGET)%nat -> in_step st sm ->
    exists sm', scan_safe_recursive_streaming keep chunk_size levels t h prefix sm w
                = (Ok (true, sm'), w') /\ in_step st' sm'.

Lemma with_child_agrees levels h name rel st w st' w' sm :
  agrees levels ->
  with_child h name st (fun child => scan_safe_recursive levels t child rel st) w = (Ok st', w') ->
  (length (sc_candidates st') < MAX_CANDIDATES_PER_TARGET)%nat -> in_step st sm ->
  exists sm', with_child h name (true, sm)
      (fun child => scan_safe_recursive_streaming keep chunk_size levels t child rel sm) w
    = (Ok (true, sm'), w') /\ in_step st' sm'.
Proof.
  intros Hag. unfold with_child, mbind, M_bind.
  destruct (with_rm _ w) as [[p|e] w1].
  2: { intros E _ Hs. unfold mret, M_ret in *. simplify_eq. by exists sm. }
  destruct (open_child_dir_with_permit _ _ _ _) as [[c|e] w2].
  2: { intros E _ Hs. unfold mret, M_ret in *. simplify_eq. by exists sm. }
  destruct (scan_safe_recursive levels t c rel st w2) as [r w3] eqn:Er. intros E Hl Hs.
  unfold mret, M_ret in *. destruct (drop_handle c w3) as [[] w4] eqn:Ed. simplify_eq.
  destruct (Hag _ _ _ _ _ _ _ Er Hl Hs) as (sm' & -> & Hs'). rewrite Ed. by exists sm'.
Qed.

Lemma scan_entries_agree levels h prefix entries st w st' w' sm :
  agrees levels ->
  scan_entries t (scan_safe_recursive levels t) h prefix entries st w = (Ok st', w') ->
  (length (sc_candidates st') < MAX_CANDIDATES_PER_TARGET)%nat -> in_step st sm ->
  exists sm', stream_entries keep chunk_size t
      (scan_safe_recursive_streaming keep chunk_size levels t) h prefix entries sm w
    = (Ok (true, sm'), w') /\ in_step st' sm'.
Proof.
  intros Hag. revert st w sm. induction entries as [|e entries IH]; intros st w sm E Hl Hs.
  { cbn in *. unfold mret, M_ret in *. simplify_eq. by exists sm. }
  assert (limit_reached st = false) as Hlim.
  { pose proof (scan_entries_grows (scan_safe_recursive levels t) h prefix (e :: entries) st w
      (scan_recursive_grows levels)) as Hg. rewrite E in Hg. simpl in Hg.
    unfold limit_reached. apply Nat.leb_gt. lia. }
  cbn [scan_entries stream_entries] in *. rewrite Hlim in E.
  destruct (RelativePath.join _ _) as [rel|]; [|by eapply IH].
  rewrite (proj1 Hs). destruct (candidate_of _ _ _ _) as [c|err]; [|done]. cbv zeta in E.
  destruct (stream_push_in_step _ _ c Hs) as (sm1 & -> & Hs1).
  destruct (_ && _); [|by eapply IH].
  unfold try_bind, mbind, M_bind in *.
  destruct (with_child _ _ _ _ _) as [[st1|err] w1] eqn:Ec in E; [|done].
  assert (length (sc_candidates st1) < MAX_CANDIDATES_PER_TARGET)%nat as Hl1.
  { pose proof (scan_entries_grows (scan_safe_recursive levels t) h prefix entries st1 w1
      (scan_recursive_grows levels)) as Hg. rewrite E in Hg. simpl in Hg. lia. }
  destruct (with_child_agrees _ _ _ _ _ _ _ _ _ Hag Ec Hl1 Hs1) as (sm2 & -> & Hs2).
  simpl. by eapply IH.
Qed.

Lemma scan_agrees levels : agrees levels.
Proof.
  induction levels as [|levels IH]; intros h prefix st w st' w' sm E Hl Hs;
    cbn [scan_safe_recursive scan_safe_recursive_streaming] in *.
  { unfold mret, M_ret in *. simplify_eq. by exists sm. }
  destruct (limit_reached st) eqn:Hlim.
  { unfold mret, M_ret in E. simplify_eq. unfold limit_reached in Hlim.
    apply Nat.leb_le in Hlim. simpl in Hl. lia. }
  unfold mbind, M_bind in *. destruct (read_entries_fd h w) as [[entries|e] w1].
  - by eapply scan_entries_agree.
  - unfold mret, M_ret in *. simplify_eq. by exists sm.
Qed.
End agree.

(** Streaming a target in chunks of any size delivers exactly the candidates,
    in order, that the collecting scan returns from the same state, provided the
    latter stays below its limit: the chunks, flushed at the end, lose and
    duplicate nothing. *)
Theorem streaming_equals_collecting `{Kernel K} `{Env} chunk_size next_id t (w w' : World)
    res next' :
  scan_target_with_resource next_id t w = (Ok (res, next'), w') ->
  (length (candidates res) < MAX_CANDIDATES_PER_TARGET)%nat ->
  fst (scan_target_streaming keep chunk_size next_id t [] w) = Ok (candidates res, next').
Proof.
  intros E Hl. unfold scan_target_with_resource, scan_target_streaming, mbind, M_bind in *.
  destruct (with_rm _ w) as [p w1].
  destruct (open_root_with_permit _ _ w1) as [[root|e] w2].
  - destruct (scan_safe_recursive MAX_SCAN_DEPTH t root _ _ w2) as [[st|err] w3] eqn:Es.
    2: { by destruct (drop_handle root w3). }
    destruct (drop_handle root w3) as [[] w4] eqn:Ed. unfold mret, M_ret in *. simplify_eq.
    simpl in Hl.
    destruct (scan_agrees t chunk_size MAX_SCAN_DEPTH root RelativePath.empty
                (mkScan next_id [] [] false) w2 st w3 (mkStream next_id [] []) Es Hl
                (conj eq_refl eq_refl)) as (sm & -> & Hn & Hc).
    simpl candidates. rewrite <- Hc, <- Hn. destruct (s_buffer sm) as [|c l];
      unfold keep; cbn beta iota; rewrite Ed; cbn beta iota; simpl.
    + by rewrite app_nil_r.
    + done.
  - destruct (syscall _ w2) as [b w3]. destruct b; cbn in E; unfold mret, M_ret in *;
      injection E as <- <- <-; done.
Qed.

Lemma streaming_equals_collecting_witness :
  fst (scan_target_streaming keep 1 1 example_target [] scan_world) =
  Ok (candidates scan_example_result, 3).
Proof.
  apply (streaming_equals_collecting (H0 := quiet_env 1100) 1 1 example_target scan_world
           (snd scan_example)).
  - rewrite <- scan_example_ok. apply surjective_pairing.
  - apply Nat.ltb_lt. vm_compute. reflexivity.
Defined.
