(* ===== verification/Scheduler.v ===== *)
(** Work admission and attempts: src/scheduler/mod.rs and src/worker/mod.rs.

    The queue and the counter of the scheduler and the counters of the worker pool
    are explicit state; each method holds its lock for its whole body.  The
    theorems: the queue has at most one job, a trigger that finds one is merged
    into it, a job admitted into an empty queue has a new identifier, and a
    claimed attempt is durable, RUNNING and leased until it is finished. *)
From Stdlib Require Import Ascii String.
From S2P Require Import Prelude Paths Domain Resource Store Effects MemFs.

Definition MAX_QUEUED_JOBS : nat := 1.

Inductive TriggerSource :=
| ManualIpc | ScreenOff | DeepIdle | MemoryPressurePsi | PeriodicMaintenance.

(** [Debug] *)
Definition TriggerSource_debug (t : TriggerSource) : string :=
  match t with
  | ManualIpc => "ManualIpc" | ScreenOff => "ScreenOff" | DeepIdle => "DeepIdle"
  | MemoryPressurePsi => "MemoryPressurePsi" | PeriodicMaintenance => "PeriodicMaintenance"
  end.

Record JobAdmissionRequest := mkRequest {
  rq_job_id : JobId;
  rq_source : TriggerSource;
  rq_deep : bool;
  rq_trim : bool;
  rq_dry_run : bool;
  rq_catalog_generation : CatalogGeneration;
  rq_config_generation : ConfigGeneration;
  rq_admitted_at : UnixTimestamp;
}.

Record SchedulerService := mkScheduler {
  queue : list JobAdmissionRequest;
  job_counter : N;
}.

Record WorkerPool := mkWorker {
  worker_id : WorkerId;
  attempt_counter : N;
  is_running : bool;
}.

(** The request a trigger is merged into. *)
Definition coalesce (existing : JobAdmissionRequest) (deep trim dry_run : bool)
    : JobAdmissionRequest :=
  mkRequest (rq_job_id existing) (rq_source existing) (rq_deep existing || deep)
    (rq_trim existing || trim) (rq_dry_run existing && dry_run)
    (rq_catalog_generation existing) (rq_config_generation existing)
    (rq_admitted_at existing).

Section scheduler.
Context `{Kernel K} `{Env}.

Definition SchedulerService_new : M SchedulerService :=
  with_store (fun _ f s => (mkScheduler [] (wrap_add (get_max_job_id f s) 1), s)).

Definition admit_job (source : TriggerSource) (deep trim dry_run : bool)
    (cat : CatalogGeneration) (cfg : ConfigGeneration) (sch : SchedulerService)
    : M (result CleanerError JobAdmissionRequest * SchedulerService) :=
  match queue sch with
  | existing :: rest =>
      let merged := coalesce existing deep trim dry_run in
      mret (Ok merged, mkScheduler (merged :: rest) (job_counter sch))
  | [] =>
      let job_id := job_counter sch in
      let sch := mkScheduler [] (wrap_add job_id 1) in
      r ← with_store (fun now f => register_job env_sql_text job_id
            (TriggerSource_debug source) cat cfg now f);
      match r with
      | Err e => mret (Err e, sch)
      | Ok _ =>
          now ← get_now;
          let request := mkRequest job_id source deep trim dry_run cat cfg now in
          mret (Ok request, mkScheduler (queue sch ++ [request]) (job_counter sch))
      end
  end.

Definition pop_next_job (sch : SchedulerService)
    : option JobAdmissionRequest * SchedulerService :=
  match queue sch with
  | [] => (None, sch)
  | request :: rest => (Some request, mkScheduler rest (job_counter sch))
  end.

(** ** Workers *)

Definition WorkerPool_new (id : WorkerId) : M WorkerPool :=
  with_store (fun _ f s => (mkWorker id (wrap_add (get_max_attempt_id f s) 1) false, s)).

Definition claim_attempt (job_id : JobId) (lease_secs : N) (wp : WorkerPool)
    : M (result CleanerError AttemptId * WorkerPool) :=
  let attempt := attempt_counter wp in
  let wp := mkWorker (worker_id wp) (wrap_add attempt 1) (is_running wp) in
  stage ← gets (fun w => env_stage (w_step w));
  acquired ← with_store (fun now f => acquire_lease env_sql_text (ResourceId_for_job job_id)
               (worker_id wp) lease_secs now stage f);
  match acquired with
  | Err e => mret (Err e, wp)
  | Ok false =>
      mret (Err (SafetyViolation ("Failed to acquire execution lease for job "
        +:+ JobId_display job_id +:+ ": already claimed by another worker")), wp)
  | Ok true =>
      r ← with_store (fun now f => create_attempt env_sql_text attempt job_id (worker_id wp)
            lease_secs now f);
      match r with
      | Err e => mret (Err e, wp)
      | Ok _ => mret (Ok attempt, mkWorker (worker_id wp) (attempt_counter wp) true)
      end
  end.

Definition finish_attempt (attempt_id : AttemptId) (job_id : JobId) (state : string)
    (wp : WorkerPool) : M (result CleanerError unit * WorkerPool) :=
  r ← with_store (fun now f => update_attempt_state env_sql_text attempt_id state now f);
  match r with
  | Err e => mret (Err e, wp)
  | Ok _ =>
      _ ← with_store (fun _ f => release_lease env_sql_text (ResourceId_for_job job_id)
            (worker_id wp) f);
      mret (Ok tt, mkWorker (worker_id wp) (attempt_counter wp) false)
  end.

(** ** Sequences of calls *)

Inductive SchedulerCall :=
| CallAdmit (source : TriggerSource) (deep trim dry_run : bool) (cat : CatalogGeneration)
    (cfg : ConfigGeneration)
| CallPop.

Definition scheduler_step (c : SchedulerCall) (sch : SchedulerService) : M SchedulerService :=
  match c with
  | CallAdmit source deep trim dry cat cfg =>
      r ← admit_job source deep trim dry cat cfg sch; mret (snd r)
  | CallPop => mret (snd (pop_next_job sch))
  end.

Fixpoint scheduler_run (l : list SchedulerCall) (sch : SchedulerService) : M SchedulerService :=
  match l with
  | [] => mret sch
  | c :: l' => sch' ← scheduler_step c sch; scheduler_run l' sch'
  end.
End scheduler.

(** ** Properties *)

Section lemmas.
Context `{Kernel K} `{Env}.

Lemma wp_admit source deep trim dry cat cfg sch w :
  (length (queue sch) <= MAX_QUEUED_JOBS)%nat ->
  wp (admit_job source deep trim dry cat cfg sch) (fun r _ =>
    (length (queue (snd r)) <= MAX_QUEUED_JOBS)%nat) w.
Proof.
  unfold MAX_QUEUED_JOBS. intros Hq. unfold admit_job.
  destruct (queue sch) as [|existing rest] eqn:E; simpl in Hq.
  - apply wp_bind, wp_any. intros [u|e] w1; [|by apply wp_ret; simpl; lia].
    apply wp_bind, wp_now. intros now. apply wp_ret. simpl. lia.
  - apply wp_ret. simpl. lia.
Qed.

Lemma wp_scheduler_run l sch w :
  (length (queue sch) <= MAX_QUEUED_JOBS)%nat ->
  wp (scheduler_run l sch) (fun s _ => (length (queue s) <= MAX_QUEUED_JOBS)%nat) w.
Proof.
  revert sch w. induction l as [|c l IH]; intros sch w Hq; simpl; [done|].
  apply wp_bind. apply (wp_mono _ (fun s _ => (length (queue s) <= MAX_QUEUED_JOBS)%nat));
    [|intros s w1 Hs; by apply IH].
  destruct c; simpl.
  - apply wp_bind. eapply wp_mono; [by apply wp_admit|]. intros r w1 Hr. by apply wp_ret.
  - apply wp_ret. unfold pop_next_job. destruct (queue sch) as [|r rest] eqn:E; simpl in *; [|lia].
    by rewrite E.
Qed.
End lemmas.

(** The single slot of the scheduler: after any sequence of triggers and pops
    the queue holds at most one job; and a trigger that finds a job waiting is
    merged into it, as deep and as trimming as either wants and a dry run only if
    both are, without registering a job or changing the store. *)
Theorem scheduler_single_slot `{Kernel K} `{Env} calls (w : World) :
  let sch := fst ((SchedulerService_new ≫= scheduler_run calls) w) in
  (length (queue sch) <= MAX_QUEUED_JOBS)%nat /\
  (forall source deep trim dry cat cfg existing rest w1,
     queue sch = existing :: rest ->
     let '((r, sch'), w2) := admit_job source deep trim dry cat cfg sch w1 in
     w2 = w1 /\ r = Ok (coalesce existing deep trim dry) /\
     queue sch' = coalesce existing deep trim dry :: rest /\ job_counter sch' = job_counter sch).
Proof.
  cbv zeta. set (sch := fst _). split.
  - change (wp (SchedulerService_new ≫= scheduler_run calls)
      (fun s _ => (length (queue s) <= MAX_QUEUED_JOBS)%nat) w).
    apply wp_bind, wp_with_store. intros s st [= <- <-]. apply wp_scheduler_run. simpl.
    unfold MAX_QUEUED_JOBS. lia.
  - intros source deep trim dry cat cfg existing rest w1 Hq. unfold admit_job. by rewrite Hq.
Qed.

Lemma max_key_lookup {V} (m : gmap N V) k : is_Some (m !! k) -> k <= max_key m.
Proof.
  unfold max_key. revert k.
  apply (map_fold_weak_ind (fun r m => forall k, is_Some (m !! k) -> k <= r)).
  - intros k [v Hv]. by rewrite lookup_empty in Hv.
  - intros i x m' r _ IH k. rewrite lookup_insert. case_decide; [subst; lia|].
    intros Hk%IH. lia.
Qed.

Lemma acquire_lease_running txt r w ttl now g f s b s' :
  acquire_lease txt r w ttl now g f s = (Ok b, s') -> attempts s' = attempts s.
Proof.
  intros E%run_stages_ok. apply lease_transaction_ok in E. destruct b.
  - destruct E as (_ & token & ->). done.
  - by destruct E as [_ ->].
Qed.

(** A claimed attempt is durable before any work starts: when [claim_attempt]
    succeeds the store holds the attempt in state RUNNING for the job and the
    worker, so a crash from here on is visible to recovery, and the job's lease
    belongs to the worker. *)
Theorem claim_attempt_durable `{Kernel K} `{Env} job secs pool (w w' : World) a pool' :
  claim_attempt job secs pool w = ((Ok a, pool'), w') ->
  attempts (w_store w) !! attempt_counter pool = None ->
  a = attempt_counter pool /\ is_running pool' = true /\
  (exists row, attempts (w_store w') !! a = Some row /\ att_job_id row = job /\
     att_worker_id row = worker_id pool /\ att_state row = "RUNNING") /\
  (exists lease, leases (w_store w') !! ResourceId_for_job job = Some lease /\
     lease_worker_id lease = worker_id pool).
Proof.
  unfold claim_attempt, mbind, M_bind, gets, with_store. intros E Hfresh.
  destruct (acquire_lease _ _ _ _ _ _ _ _) as [[[]|e] s1] eqn:El; [|done|done]. simpl in E.
  destruct (create_attempt _ _ _ _ _ _ _ _) as [[u|e] s2] eqn:Ec; [|done].
  unfold mret, M_ret in E. simplify_eq. simpl.
  pose proof (acquire_lease_running _ _ _ _ _ _ _ _ _ _ El) as Hatt.
  apply run_stages_ok, lease_transaction_ok in El as (_ & token & ->).
  apply run_stmt_ok in Ec as [_ Ec]. apply bound_ok in Ec as [_ Ec].
  rewrite Hatt, Hfresh in Ec.
  destruct (job_exists _ _); [|done]. simplify_eq.
  split; [done|]. split; [done|]. split; simpl.
  - eexists. rewrite lookup_insert_eq. done.
  - eexists. rewrite lookup_insert_eq. done.
Qed.

Definition claim_example : World :=
  mem_world (mem_fs [] []) (exec_all (fun _ => "sql")
    [(CmdRegisterJob 1 "ManualIpc" CatalogGeneration_INITIAL ConfigGeneration_INITIAL, 1000,
      None)] empty_store).

Example claim_example_ok :
  fst (claim_attempt (H0 := quiet_env 1000) 1 300 (mkWorker 1 1 false) claim_example) =
  (Ok 1, mkWorker 1 2 true).
Proof. vm_compute. reflexivity. Qed.

Lemma claim_attempt_durable_witness :
  exists row, attempts (w_store (snd (claim_attempt (H0 := quiet_env 1000) 1 300
                 (mkWorker 1 1 false) claim_example))) !! 1 = Some row /\
    att_state row = "RUNNING".
Proof.
  destruct (claim_attempt_durable (H0 := quiet_env 1000) 1 300 (mkWorker 1 1 false)
              claim_example
              (snd (claim_attempt (H0 := quiet_env 1000) 1 300 (mkWorker 1 1 false) claim_example))
              1 (mkWorker 1 2 true)) as (_ & _ & (row & H1 & _ & _ & H4) & _).
  - rewrite <- claim_example_ok. apply surjective_pairing.
  - vm_compute. reflexivity.
  - exists row. split; [exact H1|exact H4].
Defined.

(** A job admitted into an empty queue gets an identifier no job of the store
    has, provided the scheduler was seeded from a store SQLite could read and the
    identifiers have not run out: registration never overwrites an older job. *)
Theorem admitted_job_is_new `{Kernel K} `{Env} (w w1 : World) sch j :
  env_sql (w_step w) = None -> max_key (jobs (w_store w)) < U64_MAX ->
  SchedulerService_new w = (sch, w1) ->
  is_Some (jobs (w_store w) !! j) -> j < job_counter sch.
Proof.
  unfold SchedulerService_new, with_store. intros Hsql Hmax [= <- <-] Hj. simpl.
  rewrite Hsql. simpl. apply max_key_lookup in Hj.
  rewrite wrap_add_exact; lia.
Qed.

Lemma admitted_job_is_new_witness :
  1 < job_counter (fst (SchedulerService_new (H0 := quiet_env 1000) claim_example)).
Proof.
  apply (admitted_job_is_new (H0 := quiet_env 1000) claim_example
           (snd (SchedulerService_new (H0 := quiet_env 1000) claim_example))
           (fst (SchedulerService_new (H0 := quiet_env 1000) claim_example)) 1).
  - reflexivity.
  - vm_compute. reflexivity.
  - apply surjective_pairing.
  - eexists. vm_compute. reflexivity.
Defined.
