(* ===== verification/Cancellation.v ===== *)
(** The cancellation token of src/engine/cancellation.rs: a flag and a reason
    code, two atomics shared by the thread that works and the threads that cancel
    it.  A call is the sequence of its atomic accesses, and threads interleave
    access by access.

    The theorems show that when threads only cancel, the first reason stored is
    the one that stays and a token with a reason is always cancelled; and that a
    reset that runs into a cancellation can leave the reason of a cancellation
    that is no longer in effect, which the next cancellation then reports. *)
From Stdlib Require Import Ascii String.
From stdpp Require Import relations.
From S2P Require Import Prelude.

Inductive CancelReason :=
| ScreenOn | UserActivity | ThermalCritical | BatteryLow | Unplugged | Shutdown | Timeout_
| ManualCancel.

#[export] Instance CancelReason_eq_dec : EqDecision CancelReason.
Proof. solve_decision. Defined.

Definition to_code (r : CancelReason) : N :=
  match r with
  | ScreenOn => 1 | UserActivity => 2 | ThermalCritical => 3 | BatteryLow => 4
  | Unplugged => 5 | Shutdown => 6 | Timeout_ => 7 | ManualCancel => 8
  end.

Definition from_code (code : N) : option CancelReason :=
  match code with
  | 1 => Some ScreenOn | 2 => Some UserActivity | 3 => Some ThermalCritical
  | 4 => Some BatteryLow | 5 => Some Unplugged | 6 => Some Shutdown | 7 => Some Timeout_
  | 8 => Some ManualCancel | _ => None
  end.

Definition as_str (r : CancelReason) : string :=
  match r with
  | ScreenOn => "ScreenOn" | UserActivity => "UserActivity"
  | ThermalCritical => "ThermalCritical" | BatteryLow => "BatteryLow"
  | Unplugged => "Unplugged" | Shutdown => "Shutdown" | Timeout_ => "Timeout"
  | ManualCancel => "ManualCancel"
  end.

Record CancellationToken := mkToken { cancelled : bool; reason_code : N }.

Definition CancellationToken_new : CancellationToken := mkToken false 0.

Definition get_cancel_reason (t : CancellationToken) : option CancelReason :=
  from_code (reason_code t).

(** An access to one of the two atomics. *)
Inductive Access :=
| StoreCancelled (b : bool)
| CompareExchangeReason (expected new : N)
| StoreReason (code : N).

Definition access (a : Access) (t : CancellationToken) : CancellationToken :=
  match a with
  | StoreCancelled b => mkToken b (reason_code t)
  | CompareExchangeReason expected new =>
      if reason_code t =? expected then mkToken (cancelled t) new else t
  | StoreReason code => mkToken (cancelled t) code
  end.

(** The writing methods. *)
Definition cancel_with_reason (r : CancelReason) : list Access :=
  [StoreCancelled true; CompareExchangeReason 0 (to_code r)].
Definition cancel : list Access := cancel_with_reason ManualCancel.
Definition reset : list Access := [StoreCancelled false; StoreReason 0].

(** A call that runs alone. *)
Definition run (l : list Access) (t : CancellationToken) : CancellationToken :=
  fold_left (fun t a => access a t) l t.

(** The token and what each thread has left to do. *)
Definition State : Type := CancellationToken * list (list Access).

Inductive step : State -> State -> Prop :=
| step_access t ts1 a rest ts2 :
    step (t, ts1 ++ (a :: rest) :: ts2) (access a t, ts1 ++ rest :: ts2).

(** ** Lemmas *)

Lemma from_to_code r : from_code (to_code r) = Some r.
Proof. by destruct r. Qed.

Lemma to_code_nonzero r : to_code r <> 0.
Proof. by destruct r. Qed.

(** What a thread that cancels for one of [rs] has left: both accesses, the
    second only, or nothing. *)
Inductive cancelling (rs : list CancelReason) : bool -> list Access -> Prop :=
| at_store r : r ∈ rs -> cancelling rs false (cancel_with_reason r)
| at_exchange r : r ∈ rs -> cancelling rs true [CompareExchangeReason 0 (to_code r)]
| at_end : cancelling rs true [].

(** A thread that has stored the flag, or a reason, implies that the flag is
    set; a stored reason is one of those asked for; a finished thread implies
    that there is one. *)
Record cancel_inv (rs : list CancelReason) (s : State) : Prop := {
  ci_threads : Forall (fun th => exists b, cancelling rs b th /\ (b = true -> cancelled (fst s) = true))
                 (snd s);
  ci_reason : reason_code (fst s) = 0 \/
    (cancelled (fst s) = true /\ exists r, r ∈ rs /\ reason_code (fst s) = to_code r);
  ci_done : [] ∈ snd s -> reason_code (fst s) <> 0;
}.

Lemma cancel_inv_init rs :
  cancel_inv rs (CancellationToken_new, map cancel_with_reason rs).
Proof.
  constructor; simpl; [|by left|].
  - apply Forall_forall. intros th (r & -> & Hr)%list_elem_of_fmap.
    exists false. by split; [constructor|].
  - intros ([] & E & _)%list_elem_of_fmap; done.
Qed.

Lemma cancel_inv_step rs s s' : cancel_inv rs s -> step s s' -> cancel_inv rs s'.
Proof.
  intros [Hth Hre Hdn] Hs. destruct Hs as [t ts1 a rest ts2]. simpl in *.
  assert (forall t', (cancelled t = true -> cancelled t' = true) ->
    Forall (fun th => exists b, cancelling rs b th /\ (b = true -> cancelled t' = true)) (ts1 ++ ts2))
    as Hmono.
  { intros t' Ht. apply Forall_app in Hth as [H1 H2]. apply Forall_cons in H2 as [_ H2].
    apply Forall_app. split; [eapply Forall_impl; [exact H1|]|eapply Forall_impl; [exact H2|]];
      intros th (b & ? & ?); exists b; auto. }
  assert (exists b, cancelling rs b (a :: rest) /\ (b = true -> cancelled t = true)) as (b & Hc & Hb).
  { apply Forall_app in Hth as [_ H2]. by apply Forall_cons in H2 as [? _]. }
  assert (forall t' b', cancelling rs b' rest -> (b' = true -> cancelled t' = true) ->
    (cancelled t = true -> cancelled t' = true) ->
    Forall (fun th => exists b, cancelling rs b th /\ (b = true -> cancelled t' = true))
      (ts1 ++ rest :: ts2)) as Hall.
  { intros t' b' ? ? Ht. specialize (Hmono t' Ht). apply Forall_app in Hmono as [? ?].
    apply Forall_app. split; [done|]. constructor; [by exists b'|done]. }
  inversion Hc as [r Hr|r Hr|]; subst; clear Hc.
  - constructor; simpl.
    + apply (Hall (mkToken true (reason_code t)) true); [by constructor|done|done].
    + destruct Hre as [|[_ ?]]; [by left|right]. done.
    + intros Hin. apply Hdn. rewrite elem_of_app, elem_of_cons in *. naive_solver.
  - specialize (Hb eq_refl). assert (access (CompareExchangeReason 0 (to_code r)) t =
      mkToken true (if reason_code t =? 0 then to_code r else reason_code t)) as ->.
    { destruct t as [c code]. simpl in *. subst c. by destruct (code =? 0). }
    destruct (N.eqb_spec (reason_code t) 0) as [E|E]; constructor; simpl; try done.
    all: try (apply (Hall (mkToken true 0) true); [constructor|done|done]).
    + right. split; [done|]. by exists r.
    + intros _. apply to_code_nonzero.
    + destruct Hre as [|[_ ?]]; [done|by right].
Qed.

Lemma cancel_inv_reach rs s s' : cancel_inv rs s -> rtc step s s' -> cancel_inv rs s'.
Proof. intros Hi Hr. induction Hr; [done|]. eauto using cancel_inv_step. Qed.

(** A stored reason is never replaced while threads only cancel. *)
Lemma reason_stable rs s s' :
  cancel_inv rs s -> rtc step s s' -> reason_code (fst s) <> 0 ->
  reason_code (fst s') = reason_code (fst s).
Proof.
  intros Hi Hr. induction Hr as [|s1 s2 s3 Hs Hr IH]; [done|]. intros Hne.
  assert (reason_code (fst s2) = reason_code (fst s1)) as E.
  { destruct Hi as [Hth _ _]. destruct Hs as [t ts1 a rest ts2]. simpl in *.
    apply Forall_app in Hth as [_ H2]. apply Forall_cons in H2 as [(b & Hc & _) _].
    inversion Hc; subst; simpl; [done|]. by destruct (N.eqb_spec (reason_code t) 0). }
  rewrite IH; [done|by eapply cancel_inv_step|by rewrite E].
Qed.

(** ** Properties *)

(** The first reason wins.  However the calls of any number of cancelling
    threads interleave on a new token: a token that reports a reason is cancelled,
    the reason is one a thread asked for, and it is reported for good; and as soon
    as one call has returned, there is a reason and the token is cancelled. *)
Theorem first_reason_wins rs t1 ths1 t2 ths2 :
  rtc step (CancellationToken_new, map cancel_with_reason rs) (t1, ths1) ->
  rtc step (t1, ths1) (t2, ths2) ->
  (forall r, get_cancel_reason t1 = Some r ->
     cancelled t1 = true /\ r ∈ rs /\ get_cancel_reason t2 = Some r) /\
  ([] ∈ ths1 -> is_Some (get_cancel_reason t1)).
Proof.
  intros H1 H2. pose proof (cancel_inv_reach _ _ _ (cancel_inv_init rs) H1) as Hi.
  assert (reason_code t1 <> 0 -> cancelled t1 = true /\
    exists r, r ∈ rs /\ reason_code t1 = to_code r) as Hset
    by (intros Hne; by destruct (ci_reason _ _ Hi) as [|]).
  split.
  - intros r Hr. assert (reason_code t1 <> 0) as Hne
      by (unfold get_cancel_reason in Hr; intros E; by rewrite E in Hr).
    destruct (Hset Hne) as (Hc & r' & Hin & Hcode). pose proof (reason_stable _ _ _ Hi H2 Hne) as Hst.
    unfold get_cancel_reason in *. simpl in Hst. rewrite Hst, Hcode, from_to_code in *.
    by simplify_eq.
  - intros Hd. destruct (Hset (ci_done _ _ Hi Hd)) as (_ & r & _ & Hcode).
    unfold get_cancel_reason. rewrite Hcode, from_to_code. by eexists.
Qed.

(** Two threads, the second one faster. *)
Lemma first_reason_wins_witness :
  get_cancel_reason (mkToken true 6) = Some Shutdown /\
  (forall r, get_cancel_reason (mkToken true 6) = Some r ->
     cancelled (mkToken true 6) = true /\ r ∈ [ScreenOn; Shutdown] /\
     get_cancel_reason (mkToken true 6) = Some r).
Proof.
  split; [reflexivity|].
  apply (first_reason_wins [ScreenOn; Shutdown] (mkToken true 6)
           [[CompareExchangeReason 0 1]; []] (mkToken true 6) [[]; []]).
  - eapply rtc_l; [exact (step_access (mkToken false 0) [] (StoreCancelled true)
      [CompareExchangeReason 0 1] [cancel_with_reason Shutdown])|].
    eapply rtc_l; [exact (step_access (mkToken true 0) [[CompareExchangeReason 0 1]]
      (StoreCancelled true) [CompareExchangeReason 0 6] [])|].
    eapply rtc_l; [exact (step_access (mkToken true 0) [[CompareExchangeReason 0 1]]
      (CompareExchangeReason 0 6) [] [])|].
    apply rtc_refl.
  - eapply rtc_l; [exact (step_access (mkToken true 6) [] (CompareExchangeReason 0 1) [] [[]])|].
    apply rtc_refl.
Defined.

(** A reset that runs alone gives a fresh token.  But a reset may fall between
    the two accesses of a cancellation: then both calls return, the token is not
    cancelled although it was asked to be, it still holds a reason, and the next
    cancellation reports that reason instead of its own. *)
Theorem reset_race r r' :
  (forall t, run reset t = CancellationToken_new) /\
  exists t, rtc step (CancellationToken_new, [cancel_with_reason r; reset]) (t, [[]; []]) /\
    cancelled t = false /\ get_cancel_reason t = Some r /\
    get_cancel_reason (run (cancel_with_reason r') t) = Some r.
Proof.
  split; [done|]. exists (mkToken false (to_code r)).
  assert (get_cancel_reason (mkToken false (to_code r)) = Some r) as Hr by apply from_to_code.
  split; [|split; [done|split; [done|]]].
  - eapply rtc_l; [apply (step_access _ [] _ _ [reset])|].
    eapply rtc_l; [apply (step_access _ [[_]] _ _ [])|].
    eapply rtc_l; [apply (step_access _ [[_]] _ _ [])|].
    eapply rtc_l; [apply (step_access _ [] _ _ [[]])|].
    apply rtc_refl.
  - unfold run, cancel_with_reason. simpl.
    destruct (N.eqb_spec (to_code r) 0) as [E|_]; [by apply to_code_nonzero in E|done].
Qed.
