(* ===== verification/Pipeline.v ===== *)
(** The cleaning pipeline of src/pipeline/mod.rs: discovery, admission, claim,
    scan, safety gate, policy, plan, authorization, execution and the durable end
    of the attempt, composed as [execute] composes them, with the reports of
    src/ipc/protocol.rs it returns.

    What the pipeline takes from parts that are not modelled is a parameter: the
    order in which a [HashMap] yields the targets, the frozen user identifiers the
    cgroup files show, whether trimming succeeded, and how floats are printed.
    The audit log only appends to a file of its own and its result is dropped.

    The theorems are about whole calls of [execute]: every removal is of an entry
    that this call scanned, that both safety gates and the policy let through and
    that was planned, granted and logged; a dry run removes nothing; and a job
    that stays queued decides the mode and the generation of every later call. *)
From Stdlib Require Import Ascii String SpecFloat.
From S2P Require Import Prelude Paths Domain Config Safety Policy Auth Planner Resource Store.
From S2P Require Import Effects Fs Platform Catalog Verifier Executor MemFs DaemonConfig.
From S2P Require Import Recovery Scanner Scheduler Cancellation.

(** ** Requests and reports (src/ipc/protocol.rs) *)

Record CleanParams := mkParams {
  cp_deep : bool;
  cp_trim : bool;
  cp_zram_compact : bool;
  cp_dry_run : bool;
}.

Record StorageReport := mkStorageReport {
  sr_total_freed_bytes : N;
  sr_deleted_files_count : nat;
  sr_skipped_files_count : nat;
  sr_errors_count : nat;
  sr_app_cache_bytes : N;
  sr_oem_logs_bytes : N;
  sr_crash_dumps_bytes : N;
  sr_temp_apks_bytes : N;
  sr_frozen_apps_cleaned : nat;
  sr_active_apps_cleaned : nat;
}.

Record MemoryReport := mkMemoryReport {
  mr_memory_compacted : bool;
  mr_zram_compacted : bool;
  mr_cgroup_memory_reclaimed : bool;
  mr_reclaimed_mb : N;
}.

Record TrimReport := mkTrimReport { tr_fstrim_completed : bool; tr_trimmed_mounts : list string }.

Record OptimizationReport := mkOptimizationReport { or_f2fs_gc_activated : bool }.

Record PlanEntry := mkPlanEntry {
  pe_path : string;
  pe_category : string;
  pe_size_bytes : N;
  pe_reason : string;
}.

(** The flat compatibility fields. *)
Record CompatFields := mkCompat {
  cf_total_freed_bytes : N;
  cf_deleted_files_count : nat;
  cf_app_cache_freed_bytes : N;
  cf_oem_logs_freed_bytes : N;
  cf_crash_dumps_freed_bytes : N;
  cf_temp_apks_freed_bytes : N;
  cf_skipped_files_count : nat;
  cf_errors_count : nat;
  cf_frozen_apps_cleaned : nat;
  cf_active_apps_cleaned : nat;
  cf_memory_compacted : bool;
  cf_zram_compacted : bool;
  cf_cgroup_memory_reclaimed : bool;
  cf_fstrim_completed : bool;
}.

Record CleanReport := mkReport {
  rp_storage : StorageReport;
  rp_memory : MemoryReport;
  rp_trim : TrimReport;
  rp_optimization : OptimizationReport;
  rp_duration_ms : N;
  rp_plan_entries : option (list PlanEntry);
  rp_cancel_reason : option CancelReason;
  rp_compat : CompatFields;
}.

Definition MemoryReport_default : MemoryReport := mkMemoryReport false false false 0.
Definition OptimizationReport_default : OptimizationReport := mkOptimizationReport false.
Definition CompatFields_default : CompatFields :=
  mkCompat 0 0 0 0 0 0 0 0 0 0 false false false false.

Definition sync_compat_fields (r : CleanReport) : CleanReport :=
  let s := rp_storage r in
  let m := rp_memory r in
  mkReport s m (rp_trim r) (rp_optimization r) (rp_duration_ms r) (rp_plan_entries r)
    (rp_cancel_reason r)
    (mkCompat (sr_total_freed_bytes s) (sr_deleted_files_count s) (sr_app_cache_bytes s)
       (sr_oem_logs_bytes s) (sr_crash_dumps_bytes s) (sr_temp_apks_bytes s)
       (sr_skipped_files_count s) (sr_errors_count s) (sr_frozen_apps_cleaned s)
       (sr_active_apps_cleaned s) (mr_memory_compacted m) (mr_zram_compacted m)
       (mr_cgroup_memory_reclaimed m) (tr_fstrim_completed (rp_trim r))).

(** The report of a finished job. *)
Definition report_of (jr : JobResult) (fstrim_completed : bool) : CleanReport :=
  sync_compat_fields
    (mkReport
       (mkStorageReport (jr_total_reclaimed jr) (jr_successful_operations jr)
          (jr_skipped_operations jr) (jr_failed_operations jr) (jr_total_reclaimed jr)
          0 0 0 0 0)
       MemoryReport_default (mkTrimReport fstrim_completed []) OptimizationReport_default
       (jr_duration_ms jr) None None CompatFields_default).

(** ** The pipeline *)

(** Its own state; the store and the resource manager are in the world. *)
Record Pipeline := mkPipeline {
  p_config : DaemonConfig;
  p_catalog : CatalogSnapshot;
  p_candidate_counter : N;
  p_grant_counter : N;
  p_scheduler : SchedulerService;
  p_worker : WorkerPool;
  p_config_generation : ConfigGeneration;
}.

Definition set_counters (p : Pipeline) (candidate grant : N) : Pipeline :=
  mkPipeline (p_config p) (p_catalog p) candidate grant (p_scheduler p) (p_worker p)
    (p_config_generation p).

Definition update_config (config : DaemonConfig) (p : Pipeline) : Pipeline :=
  mkPipeline config (p_catalog p) (p_candidate_counter p) (p_grant_counter p) (p_scheduler p)
    (p_worker p) (ConfigGeneration_next_saturating (p_config_generation p)).

Section pipeline.
Context `{Kernel K} `{Env}.
(** [HashMap::values]; the uids whose cgroup is frozen and the result of
    trimming, as the system shows them at a step; the text of a float. *)
Context (map_values : gmap string TargetDescriptor -> list TargetDescriptor)
  (frozen_uids_at : nat -> list N) (trim_result_at : nat -> bool) (fmt : f32 -> string).

(** The candidates of a target that the safety gate and the policy let through,
    added to the permits. *)
Fixpoint permit_candidates (target : TargetDescriptor) (eff : EffectiveConfig)
    (now : UnixTimestamp) (is_frozen : bool) (cands : list Candidate)
    (permits : list PolicyPermit) : M (list PolicyPermit) :=
  match cands with
  | [] => mret permits
  | cand :: cands' =>
      t0 ← get_now;
      match validate_candidate cand target t0 with
      | Err _ => permit_candidates target eff now is_frozen cands' permits
      | Ok safety_validated =>
          t1 ← get_now;
          match evaluate_candidate_with_freezer safety_validated target eff now is_frozen t1 with
          | Allow permit =>
              permit_candidates target eff now is_frozen cands' (permits ++ [permit])
          | _ => permit_candidates target eff now is_frozen cands' permits
          end
      end
  end.

(** The loop over the targets.  A scan has no error but a panic, which unwinds. *)
Fixpoint scan_targets (eff : EffectiveConfig) (now : UnixTimestamp) (frozen_uids : list N)
    (ts : list TargetDescriptor) (candidate_counter : N) (permits : list PolicyPermit)
    : M (result fault (list PolicyPermit * N)) :=
  match ts with
  | [] => mret (Ok (permits, candidate_counter))
  | target :: ts' =>
      cancelled ← is_cancelled;
      if cancelled : bool then mret (Ok (permits, candidate_counter))
      else
        r ← scan_target_with_resource candidate_counter target;
        match r with
        | Err (Panic msg) => mret (Err (Panic msg))
        | Err (Error _) => scan_targets eff now frozen_uids ts' candidate_counter permits
        | Ok (res, counter') =>
            let is_frozen := (0 <? td_owner_uid target)
                             && existsb (N.eqb (td_owner_uid target)) frozen_uids in
            permits' ← permit_candidates target eff now is_frozen (candidates res) permits;
            scan_targets eff now frozen_uids ts' counter' permits'
        end
  end.

(** Step 9 and 10: the dry run's result, or the executor's. *)
Definition execute_or_dry_run (p : Pipeline) (admission : JobAdmissionRequest)
    (attempt : AttemptId) (snapshot : CatalogSnapshot) (authorized_plan : AuthorizedPlan)
    : M (result CleanerError JobResult) :=
  if rq_dry_run admission then
    let n := length (operations (plan authorized_plan)) in
    mret (Ok (mkJobResult (rq_job_id admission) attempt
                (total_estimated_reclaim (plan authorized_plan)) n 0 0 n 0))
  else execute_plan (mkArgs authorized_plan snapshot attempt) (p_config_generation p).

Definition lift {A} (r : result CleanerError A) : result fault A := result_map_err Error r.

Definition run_pipeline_job (p : Pipeline) (admission : JobAdmissionRequest)
    (attempt : AttemptId) (snapshot : CatalogSnapshot)
    : M (result fault CleanReport * Pipeline) :=
  match from_raw fmt (job_raw_config (p_config p) (rq_dry_run admission)) with
  | Err e => mret (Err e, p)
  | Ok val_cfg =>
      let eff_cfg := mkEffective (p_config_generation p) val_cfg in
      frozen_uids ← gets (fun w => frozen_uids_at (w_step w));
      now ← get_now;
      scanned ← scan_targets eff_cfg now frozen_uids (map_values (targets snapshot))
                  (p_candidate_counter p) [];
      match scanned with
      | Err e => mret (Err e, p)
      | Ok (all_permits, counter) =>
          t0 ← get_now;
          match build_plan (rq_job_id admission) (generation snapshot)
                  (rq_config_generation admission) all_permits t0 with
          | Err e => mret (Err (Error e), set_counters p counter (p_grant_counter p))
          | Ok planned_plan =>
              t1 ← get_now;
              let '(auth, grants) := authorize_plan (p_grant_counter p) planned_plan
                (generation snapshot) 300 (rq_config_generation admission) t1 in
              let p := set_counters p counter grants in
              match auth with
              | Err e => mret (Err (Error e), p)
              | Ok authorized_plan =>
                  job_result ← execute_or_dry_run p admission attempt snapshot authorized_plan;
                  match job_result with
                  | Err e => mret (Err (Error e), p)
                  | Ok job_result =>
                      fstrim ← (if rq_trim admission && negb (rq_dry_run admission)
                                then gets (fun w => trim_result_at (w_step w)) else mret false);
                      mret (Ok (report_of job_result fstrim), p)
                  end
              end
          end
      end
  end.

(** The end of [execute]: the durable states of the job and the attempt.  A panic
    of the job unwinds through here. *)
Definition close_job (admission : JobAdmissionRequest) (attempt : AttemptId)
    (result : result fault CleanReport) (p : Pipeline) : M (Prelude.result fault CleanReport * Pipeline) :=
  let job := rq_job_id admission in
  let with_worker (wp : WorkerPool) :=
    mkPipeline (p_config p) (p_catalog p) (p_candidate_counter p) (p_grant_counter p)
      (p_scheduler p) wp (p_config_generation p) in
  match result with
  | Ok report =>
      match ByteCount.new (sr_total_freed_bytes (rp_storage report)) with
      | None => mret (Err (Panic bytecount_panic), p)
      | Some freed =>
          u ← with_store (fun now f => update_job_state env_sql_text job "COMPLETED" freed now f);
          match u with
          | Err e => mret (Err (Error e), p)
          | Ok _ =>
              f ← finish_attempt attempt job "SUCCESS" (p_worker p);
              match fst f with
              | Err e => mret (Err (Error e), with_worker (snd f))
              | Ok _ => mret (Ok report, with_worker (snd f))
              end
          end
      end
  | Err (Error e) =>
      _ ← with_store (fun now f => update_job_state env_sql_text job "FAILED" ByteCount.ZERO now f);
      f ← finish_attempt attempt job ("FAILED: " +:+ show_error e) (p_worker p);
      mret (Err (Error e), with_worker (snd f))
  | Err (Panic msg) => mret (Err (Panic msg), p)
  end.

Definition execute (params : CleanParams) (p : Pipeline)
    : M (result fault CleanReport * Pipeline) :=
  catalog ← discover_all_targets (p_catalog p);
  let snapshot := take_snapshot catalog in
  let trigger := if cp_deep params then ManualIpc else PeriodicMaintenance in
  adm ← admit_job trigger (cp_deep params) (cp_trim params) (cp_dry_run params)
          (generation snapshot) (p_config_generation p) (p_scheduler p);
  let p := mkPipeline (p_config p) catalog (p_candidate_counter p) (p_grant_counter p) (snd adm)
             (p_worker p) (p_config_generation p) in
  match fst adm with
  | Err e => mret (Err (Error e), p)
  | Ok admission =>
      cl ← claim_attempt (rq_job_id admission) 300 (p_worker p);
      let p := mkPipeline (p_config p) catalog (p_candidate_counter p) (p_grant_counter p)
                 (p_scheduler p) (snd cl) (p_config_generation p) in
      match fst cl with
      | Err e => mret (Err (Error e), p)
      | Ok attempt =>
          r ← run_pipeline_job p admission attempt snapshot;
          close_job admission attempt (fst r) (snd r)
      end
  end.

(** [new], once the store is open: discovery precedes recovery, whose result is
    dropped unless it panics. *)
Definition Pipeline_new (config : DaemonConfig) : M (result fault Pipeline) :=
  catalog ← discover_all_targets TargetCatalog_new;
  rec ← reconcile_startup_crashes catalog;
  match rec with
  | Err (Panic msg) => mret (Err (Panic msg))
  | _ =>
      scheduler ← SchedulerService_new;
      worker ← WorkerPool_new 1;
      _ ← modify_rm (fun _ => ResourceManager_default);
      mret (Ok (mkPipeline config catalog 1 1 scheduler worker ConfigGeneration_INITIAL))
  end.
End pipeline.
