(* ===== verification/PipelineProps.v ===== *)
(** The properties of whole calls of the pipeline's [execute], composed from the
    contracts of its stages: what the scan yields, what the gate and the policy
    let through, what the planner plans and what the executor may remove. *)
From Stdlib Require Import ZArith Ascii String.
From S2P Require Import Prelude Paths Domain Config Safety Policy Auth Planner Resource Store.
From S2P Require Import Effects Fs Platform Catalog Verifier Executor MemFs DaemonConfig.
From S2P Require Import Recovery Scanner Scheduler Cancellation Pipeline.

(** ** Stages that remove nothing *)

Section calm.
Context `{Kernel K} `{Env}.

(** Removed nothing, and gave back every permit and lock. *)
Record calm (w w' : World) : Prop := {
  calm_trace : exists evs, w_trace w' = evs ++ w_trace w /\ Forall (fun e => ~ is_unlink e) evs;
  calm_rm : rm_same (w_rm w) (w_rm w') 0;
}.

Lemma rm_same_trans rm1 rm2 rm3 n :
  rm_same rm1 rm2 0 -> rm_same rm2 rm3 n -> rm_same rm1 rm3 n.
Proof. intros [? ? ? ? Hf] [? ? ? ? Hf']. constructor; try congruence. rewrite Hf', Hf. lia. Qed.

#[global] Instance calm_refl : Reflexive calm.
Proof. intros w. constructor; [by exists []|apply rm_same_refl]. Qed.
#[global] Instance calm_trans : Transitive calm.
Proof.
  intros w1 w2 w3 [(e1 & T1 & F1) R1] [(e2 & T2 & F2) R2].
  constructor; [|by eapply rm_same_trans].
  exists (e2 ++ e1). rewrite T2, T1, app_assoc. split; [done|]. by apply Forall_app.
Qed.

Lemma walking_calm w w' : walking w (w_rm w) 0 w' -> calm w w'.
Proof. intros [[_ _ Ht] Hr]. by constructor. Qed.

Definition calmly {A} (m : M A) : Prop := forall w, wp m (fun _ w' => calm w w') w.

Lemma calm_world w w' : w_trace w' = w_trace w -> w_rm w' = w_rm w -> calm w w'.
Proof. intros Ht Hr. constructor; [exists []; by rewrite Ht|]. rewrite Hr. apply rm_same_refl. Qed.

Lemma calmly_ret {A} (a : A) : calmly (mret a).
Proof. intros w. by apply wp_ret. Qed.
Lemma calmly_bind {A B} (m : M A) (k : A -> M B) :
  calmly m -> (forall a, calmly (k a)) -> calmly (m ≫= k).
Proof.
  intros Hm Hk w. apply wp_bind. eapply wp_mono; [apply Hm|]. intros a w1 H1.
  eapply wp_mono; [apply Hk|]. intros b w2 H2. by transitivity w1.
Qed.
Lemma calmly_syscall {A} (f : K -> A * K) : calmly (syscall f).
Proof. intros w. apply wp_syscall. intros a k _. by apply calm_world. Qed.
Lemma calmly_store {A} (f : N -> option SqlFault -> Store -> A * Store) : calmly (with_store f).
Proof. intros w. apply wp_with_store. intros a s _. by apply calm_world. Qed.
Lemma calmly_now : calmly get_now.
Proof. intros w. apply wp_now. intros n. by apply calm_world. Qed.
Lemma calmly_gets {A} (f : World -> A) : calmly (gets f).
Proof. intros w. by apply wp_gets. Qed.
Lemma calmly_open_root path : calmly (open_root path).
Proof.
  intros w. eapply wp_mono; [apply wp_open_root|]. intros [h|e] w'.
  - intros [_ [? Hrm Ht ?]]. constructor; [|rewrite Hrm; apply rm_same_refl].
    eexists. split; [exact Ht|]. by repeat constructor; intros [].
  - intros [? Hrm Ht ?]. by apply calm_world.
Qed.
End calm.

Create HintDb calm.
#[export] Hint Resolve calmly_ret calmly_syscall calmly_store calmly_now calmly_gets
  calmly_open_root : calm.

(** Calm by the structure of the program. *)
Ltac solve_calm :=
  repeat first
    [ progress auto with calm
    | apply calmly_bind; [|intros ?]
    | match goal with
      | |- calmly (match ?x with _ => _ end) => destruct x
      | |- calmly (let '_ := ?x in _) => destruct x
      end ].

Section discovery.
Context `{Kernel K} `{Env}.

Lemma calmly_users : calmly enumerate_users.
Proof.
  assert (forall ids, calmly (users_of_ids ids)) as Hu.
  { induction ids as [|id ids IH]; cbn [users_of_ids]; [solve_calm|].
    apply calmly_bind; [unfold user_paths; solve_calm|]. intros u.
    apply calmly_bind; [done|]. solve_calm. }
  unfold enumerate_users, ids_in. solve_calm.
Qed.

Lemma calmly_probe dir names b : calmly (probe_entries dir names b).
Proof.
  revert b. induction names as [|n names IH]; intros b; cbn [probe_entries]; [solve_calm|].
  apply calmly_bind; [solve_calm|]. intros [u|e]; [apply IH|]. destruct (locked_errno e); [|apply IH].
  solve_calm.
Qed.

Lemma calmly_encryption id : calmly (check_encryption_state id).
Proof.
  pose proof calmly_probe. unfold check_encryption_state, de_or_unknown. solve_calm.
Qed.

Lemma calmly_subdirs pkg name id gen subs n out :
  calmly (collect_subdirs pkg name id gen subs n out).
Proof.
  revert n out. induction subs as [|s subs IH]; intros n out; cbn [collect_subdirs]; [solve_calm|].
  unfold owner_of. solve_calm.
Qed.

Lemma calmly_user_targets base id gen out : calmly (collect_android_user_targets base id gen out).
Proof.
  apply calmly_bind; [solve_calm|]. intros [entries|e]; [|solve_calm].
  generalize 0%nat. revert out. induction (flatten entries) as [|n names IH]; intros out k;
    cbn [collect_packages]; [solve_calm|].
  apply calmly_bind; [solve_calm|]. intros b. destruct (negb b); [apply IH|].
  destruct (negb (package_name_ok n)); [apply IH|]. destruct (5000 <? size out)%nat; [solve_calm|].
  apply calmly_bind; [apply calmly_subdirs|]. intros r. apply IH.
Qed.

Lemma calmly_external_targets base id gen out :
  calmly (collect_android_external_targets base id gen out).
Proof.
  apply calmly_bind; [solve_calm|]. intros [entries|e]; [|solve_calm].
  generalize 0%nat. revert out. induction (flatten entries) as [|n names IH]; intros out k;
    cbn [collect_external]; unfold owner_of; solve_calm.
Qed.

Lemma calmly_collect_users users gen found staging :
  calmly (collect_users users gen found staging).
Proof.
  revert found staging. induction users as [|u users IH]; intros found staging;
    cbn [collect_users]; [solve_calm|].
  apply calmly_bind; [apply calmly_encryption|]. intros [| | |]; auto.
  all: repeat (apply calmly_bind;
         [apply calmly_user_targets || apply calmly_external_targets|intros ?]); apply IH.
Qed.

Lemma calmly_discover snap : calmly (discover_all_targets snap).
Proof.
  unfold discover_all_targets, collect_system_targets.
  apply calmly_bind; [apply calmly_users|]. intros users.
  apply calmly_bind; [apply calmly_collect_users|]. intros r. apply calmly_bind.
  { destruct (negb (fst r)); [|solve_calm]. unfold collect_fallback.
    do 3 (apply calmly_bind; [apply calmly_user_targets|intros ?]). solve_calm. }
  intros staging. apply calmly_bind; [|intros sys; destruct (_ || _); solve_calm].
  generalize 0%nat. revert staging. induction SYSTEM_JUNK_LOCATIONS as [|[[path class] tier] l IH];
    intros out k; cbn [collect_system_loop]; unfold owner_of; solve_calm.
Qed.

Lemma calmly_admit source deep trim dry cat cfg sch :
  calmly (admit_job source deep trim dry cat cfg sch).
Proof. unfold admit_job. solve_calm. Qed.

Lemma calmly_claim job secs wp : calmly (claim_attempt job secs wp).
Proof. unfold claim_attempt. solve_calm. Qed.

Lemma calmly_finish attempt job state wp : calmly (finish_attempt attempt job state wp).
Proof. unfold finish_attempt. solve_calm. Qed.

Lemma calmly_close_job adm attempt r p : calmly (close_job adm attempt r p).
Proof. pose proof calmly_finish. unfold close_job. solve_calm. Qed.
End discovery.

(** ** From a candidate to a permit *)

Section stages.
Context `{Kernel K} `{Env}.
Context (map_values : gmap string TargetDescriptor -> list TargetDescriptor)
  (frozen_uids_at : nat -> list N) (trim_result_at : nat -> bool) (fmt : f32 -> string).

Definition is_frozen_in (frozen_uids : list N) (t : TargetDescriptor) : bool :=
  (0 <? td_owner_uid t) && existsb (N.eqb (td_owner_uid t)) frozen_uids.

(** The loop over the targets as it ran: the targets that were scanned with what each
    scan returned, and the permits, the counter and the world after it. *)
Inductive scans (eff : EffectiveConfig) (now : UnixTimestamp) (frozen : list N) :
    list TargetDescriptor -> N -> list PolicyPermit -> World ->
    list (TargetDescriptor * ScanResult) -> list PolicyPermit -> N -> World -> Prop :=
| scans_end n permits w : scans eff now frozen [] n permits w [] permits n w
| scans_cancelled t ts n permits w :
    env_cancelled (w_step w) = true ->
    scans eff now frozen (t :: ts) n permits w [] permits n (w_tick w)
| scans_failed t ts n permits w e w1 log permits' n' w' :
    env_cancelled (w_step w) = false ->
    scan_target_with_resource n t (w_tick w) = (Err (Error e), w1) ->
    scans eff now frozen ts n permits w1 log permits' n' w' ->
    scans eff now frozen (t :: ts) n permits w log permits' n' w'
| scans_done t ts n permits w res n1 w1 permits1 w2 log permits' n' w' :
    env_cancelled (w_step w) = false ->
    scan_target_with_resource n t (w_tick w) = (Ok (res, n1), w1) ->
    permit_candidates t eff now (is_frozen_in frozen t) (candidates res) permits w1 = (permits1, w2) ->
    scans eff now frozen ts n1 permits1 w2 log permits' n' w' ->
    scans eff now frozen (t :: ts) n permits w ((t, res) :: log) permits' n' w'.

Lemma wp_scans eff now frozen ts n permits w :
  wp (scan_targets eff now frozen ts n permits) (fun r w' =>
    match r with
    | Ok (permits', n') => exists log, scans eff now frozen ts n permits w log permits' n' w'
    | Err _ => True
    end) w.
Proof.
  revert n permits w. induction ts as [|t ts IH]; intros n permits w; cbn [scan_targets].
  { apply wp_ret. exists []. constructor. }
  apply wp_bind, wp_cancelled. destruct (env_cancelled _) eqn:Ec.
  { apply wp_ret. exists []. by constructor. }
  apply wp_bind. eapply wp_mono; [apply wp_eq|]. intros [[res n1]|e] w1 E1.
  - apply wp_bind. eapply wp_mono; [apply wp_eq|]. intros permits1 w2 E2.
    eapply wp_mono; [apply IH|]. intros [[permits' n']|e] w'; [|done]. intros [log Hl].
    exists ((t, res) :: log).
    eapply scans_done; [exact Ec|exact E1|exact E2|exact Hl].
  - destruct e as [e|m]; [|by apply wp_ret]. eapply wp_mono; [apply IH|].
    intros [[permits' n']|e'] w'; [|done]. intros [log Hl]. exists log.
    eapply scans_failed; [exact Ec|exact E1|exact Hl].
Qed.

(** How the entry of a permit got it, in a job whose clock read [now]: the scan of its
    target found it, the safety gate validated it, the policy allowed it, and no rule of
    the policy keeps it. *)
Record earned (eff : EffectiveConfig) (now : UnixTimestamp) (frozen : list N)
    (t : TargetDescriptor) (res : ScanResult) (pm : PolicyPermit) : Prop := {
  en_scanned : cand pm ∈ candidates res;
  en_validated :
    validate_candidate (cand pm) t (sv_validated_at (pp_candidate pm)) = Ok (pp_candidate pm);
  en_allowed :
    evaluate_candidate_with_freezer (pp_candidate pm) t eff now (is_frozen_in frozen t) (pp_decided_at pm)
    = Allow pm;
  en_kept_by_none : forall reason, ~ keeps (pp_candidate pm) t eff now reason;
}.

Lemma wp_permit_candidates_earned eff now frozen t res cands permits w :
  cands ⊆ candidates res ->
  wp (permit_candidates t eff now (is_frozen_in frozen t) cands permits) (fun r _ =>
    forall pm, pm ∈ r -> pm ∈ permits \/ earned eff now frozen t res pm) w.
Proof.
  revert permits w. induction cands as [|c cands IH]; intros permits w Hsub; cbn [permit_candidates];
    [apply wp_ret; by left|].
  assert (c ∈ candidates res) as Hc by (apply Hsub; left).
  assert (forall permits w0, wp (permit_candidates t eff now (is_frozen_in frozen t) cands permits)
    (fun r _ => forall pm, pm ∈ r -> pm ∈ permits \/ earned eff now frozen t res pm) w0) as Hrest
    by (intros; apply IH; set_solver).
  apply wp_bind, wp_now. intros t0. destruct (validate_candidate c t t0) as [v|e] eqn:Ev; [|apply Hrest].
  apply wp_bind, wp_now. intros t1.
  destruct (evaluate_candidate_with_freezer _ _ _ _ _ _) as [p|d|k] eqn:Ee; [|apply Hrest..].
  pose proof (validate_candidate_inv _ _ _ _ Ev) as (_ & _ & Hv).
  pose proof (evaluate_allowed _ _ _ _ _ _ _ Ee) as [Hp Hkeep].
  eapply wp_mono; [apply Hrest|]. intros r w0 Hr pm Hpm. destruct (Hr pm Hpm) as [Hin|]; [|by right].
  apply elem_of_app in Hin as [?|Hin%list_elem_of_singleton]; [by left|right].
  clear Hr Hrest. subst pm v p. by constructor.
Qed.

Lemma scans_earned eff now frozen ts n permits w log permits' n' w' :
  scans eff now frozen ts n permits w log permits' n' w' ->
  forall pm, pm ∈ permits' -> pm ∈ permits \/
    exists t res, t ∈ ts /\ (t, res) ∈ log /\ earned eff now frozen t res pm.
Proof.
  induction 1 as [| |t ts n permits w e w1 log permits' n' w' _ _ _ IH
                 |t ts n permits w res n1 w1 permits1 w2 log permits' n' w' _ _ Hpc _ IH]; intros pm Hpm.
  - by left.
  - by left.
  - destruct (IH pm Hpm) as [|(t' & res & ? & ? & ?)]; [by left|right]. exists t', res. set_solver.
  - destruct (IH pm Hpm) as [Hin|(t' & res' & ? & ? & ?)]; [|right; exists t', res'; set_solver].
    pose proof (wp_permit_candidates_earned eff now frozen t res (candidates res) permits w1 ltac:(done)) as Hwp.
    unfold wp in Hwp. rewrite Hpc in Hwp. destruct (Hwp pm Hin) as [|He]; [by left|right].
    exists t, res. split; [left|]. split; [left|done].
Qed.

(** Scanning and permitting is calm. *)
Lemma calmly_permit_candidates eff now t frozen cands permits :
  calmly (permit_candidates t eff now frozen cands permits).
Proof.
  revert permits. induction cands as [|c cands IH]; intros permits; cbn [permit_candidates]; [solve_calm|].
  apply calmly_bind; [solve_calm|]. intros t0. destruct (validate_candidate c t t0); [|done].
  apply calmly_bind; [solve_calm|]. intros t1. by destruct (evaluate_candidate_with_freezer _ _ _ _ _ _).
Qed.

Lemma wp_scan_targets_calm eff now frozen ts n permits w :
  u64 n ->
  wp (scan_targets eff now frozen ts n permits) (fun r w' =>
    calm w w' /\ match r with Ok (_, n') => u64 n' | Err _ => True end) w.
Proof.
  revert n permits w. induction ts as [|t ts IH]; intros n permits w Hu; cbn [scan_targets]; [by apply wp_ret|].
  assert (forall w0 n l, calm w w0 -> u64 n ->
    wp (scan_targets eff now frozen ts n l) (fun r w' => calm w w' /\
      match r with Ok (_, n') => u64 n' | Err _ => True end) w0) as Hrest.
  { intros w0 n0 l Hw Hn. eapply wp_mono; [by apply IH|]. intros r w' [? ?]. split; [by transitivity w0|done]. }
  apply wp_bind, wp_cancelled. assert (calm w (w_tick w)) as Hw1 by by apply calm_world.
  destruct (env_cancelled _); [by apply wp_ret|].
  apply wp_bind. eapply wp_mono; [by apply wp_scan_target|]. intros [[res c]|e] w2 [Hw2 Hr].
  - destruct Hr as (st & [_ _ _ Hn] & _ & ->). apply walking_calm in Hw2. apply wp_bind.
    eapply wp_mono; [apply calmly_permit_candidates|]. intros l w3 Hw3.
    apply Hrest; [|rewrite Hn; apply wrap_add_u64]. transitivity w2; [by transitivity (w_tick w)|done].
  - assert (calm w w2) as Hw by (transitivity (w_tick w); [done|by apply walking_calm]).
    destruct e; [by apply Hrest|by apply wp_ret].
Qed.

(** Every operation of a plan is that of a permit. *)
Lemma plan_from_permits job cat cfg permits t0 pl op :
  build_plan job cat cfg permits t0 = Ok pl -> op ∈ operations pl ->
  exists pm, pm ∈ permits /\ op_type op = permit_op pm.
Proof.
  intros (Hb & -> & _)%build_plan_ok Hop.
  assert (op_type op ∈ map permit_op permits) as (p & Hty & Hin)%list_elem_of_fmap; [|eauto].
  rewrite <- (processed_perm permits), <- (inv_types _ _ (plan_permits_inv _ Hb)).
  by apply list_elem_of_fmap_2.
Qed.

(** ** The stages of a job *)

(** What the stages of one job came to. *)
Record Stages := mkStages {
  sg_config : ValidatedConfig;
  sg_scans : list (TargetDescriptor * ScanResult);
  sg_permits : list PolicyPermit;
  sg_counter : N;
  sg_scanned : World;
  sg_plan : PlannedPlan;
  sg_auth : AuthorizedPlan;
  sg_result : result CleanerError JobResult;
  sg_after : World;
}.

(** Where the execution started: the clock was read twice since the scan. *)
Definition sg_before (g : Stages) : World := w_tick (w_tick (sg_scanned g)).
Definition sg_effective (p : Pipeline) (g : Stages) : EffectiveConfig :=
  mkEffective (p_config_generation p) (sg_config g).

(** The job of [adm] and [attempt] on [snap], run from the world [w], went through the
    stages [g]: each is the result of the function of that stage on the results of the
    stages before it, in the world they left. *)
Record job_stages (p : Pipeline) (adm : JobAdmissionRequest) (attempt : AttemptId)
    (snap : CatalogSnapshot) (w : World) (g : Stages) : Prop := {
  js_config : from_raw fmt (job_raw_config (p_config p) (rq_dry_run adm)) = Ok (sg_config g);
  js_scans : scans (sg_effective p g) (env_now (w_step w)) (frozen_uids_at (w_step w))
    (map_values (targets snap)) (p_candidate_counter p) [] (w_tick w)
    (sg_scans g) (sg_permits g) (sg_counter g) (sg_scanned g);
  js_plan : build_plan (rq_job_id adm) (generation snap) (rq_config_generation adm) (sg_permits g)
    (env_now (w_step (sg_scanned g))) = Ok (sg_plan g);
  js_auth : fst (authorize_plan (p_grant_counter p) (sg_plan g) (generation snap) 300
    (rq_config_generation adm) (env_now (S (w_step (sg_scanned g))))) = Ok (sg_auth g);
  js_executed : execute_or_dry_run p adm attempt snap (sg_auth g) (sg_before g) = (sg_result g, sg_after g);
}.

(** The report of a job whose execution ended well. *)
Definition stages_report (adm : JobAdmissionRequest) (g : Stages) (jr : JobResult) : CleanReport :=
  report_of jr (if rq_trim adm && negb (rq_dry_run adm) then trim_result_at (w_step (sg_after g)) else false).

(** What a job leaves: its state otherwise as before, and either nothing was removed and
    it failed before the execution, or it went through the stages. *)
Record job_post (p : Pipeline) (adm : JobAdmissionRequest) (attempt : AttemptId)
    (snap : CatalogSnapshot) (w : World) (r : result fault CleanReport * Pipeline) (w' : World)
    : Prop := {
  jp_kept : p_catalog (snd r) = p_catalog p /\ p_scheduler (snd r) = p_scheduler p /\
    p_config_generation (snd r) = p_config_generation p;
  jp_counter : u64 (p_candidate_counter (snd r));
  jp_ran : (calm w w' /\ is_ok (fst r) = false) \/
    exists g, job_stages p adm attempt snap w g /\ calm w (sg_before g) /\ w' = sg_after g /\
      fst r = match sg_result g with
              | Ok jr => Ok (stages_report adm g jr)
              | Err e => Err (Error e)
              end;
}.

Lemma wp_run_pipeline_job p adm attempt snap w :
  u64 (p_candidate_counter p) ->
  wp (run_pipeline_job map_values frozen_uids_at trim_result_at fmt p adm attempt snap)
    (job_post p adm attempt snap w) w.
Proof.
  intros Hu. unfold run_pipeline_job.
  assert (forall e p' w', calm w w' -> p_catalog p' = p_catalog p -> p_scheduler p' = p_scheduler p ->
    p_config_generation p' = p_config_generation p -> u64 (p_candidate_counter p') ->
    job_post p adm attempt snap w (Err e, p') w') as Hfail by (intros; constructor; auto).
  destruct (from_raw fmt _) as [v|e] eqn:Ecfg; [|by apply wp_ret, Hfail].
  apply wp_bind, wp_gets. apply wp_bind. unfold wp at 1. cbn [get_now fst snd].
  set (eff := mkEffective (p_config_generation p) v). apply wp_bind.
  eapply wp_mono; [apply wp_and; [by apply wp_scan_targets_calm|apply wp_scans]|].
  assert (forall w1, calm (w_tick w) w1 -> calm w w1) as Htick
    by (intros w1 Hw1; transitivity (w_tick w); [by apply calm_world|done]).
  intros [[permits n]|e] w1 [[Hw1%Htick Hn] Hscan]; [|by apply wp_ret, Hfail].
  destruct Hscan as [log Hscan]. apply wp_bind. unfold wp at 1. cbn [get_now fst snd].
  destruct (build_plan _ _ _ _ _) as [pl|e] eqn:Epl.
  2: { apply wp_ret, Hfail; try done. transitivity w1; [done|by apply calm_world]. }
  apply wp_bind. unfold wp at 1. cbn [get_now fst snd].
  assert (calm w (w_tick (w_tick w1))) as Hw2 by by transitivity w1; [|apply calm_world].
  destruct (authorize_plan _ _ _ _ _ _) as [auth grants] eqn:Eau.
  destruct auth as [auth|e]; [|by apply wp_ret, Hfail].
  apply wp_bind. eapply wp_mono; [apply wp_eq|]. intros r w3 Er.
  set (g := mkStages v log permits n w1 pl auth r w3).
  assert (job_stages p adm attempt snap w g) as Hg by (constructor; [done|done|done|exact (f_equal fst Eau)|done]).
  destruct r as [jr|e].
  - apply wp_bind. destruct (rq_trim adm && _) eqn:Et; [apply wp_gets|apply wp_ret]; apply wp_ret;
      (constructor; [done|done|]); right; exists g; unfold stages_report; rewrite Et; done.
  - apply wp_ret. constructor; [done|done|]. right. by exists g.
Qed.

(** ** What the execution did *)

Definition stage_args (attempt : AttemptId) (snap : CatalogSnapshot) (g : Stages) : ExecArgs :=
  mkArgs (sg_auth g) snap attempt.

Lemma stages_plan p adm attempt snap w g :
  job_stages p adm attempt snap w g -> plan (sg_auth g) = sg_plan g /\
    grant_config_generation (grant (sg_auth g)) = rq_config_generation adm.
Proof.
  intros [_ _ _ Hauth _]. destruct (authorize_plan _ _ _ _ _ _) as [auth n] eqn:E. cbn in Hauth. subst auth.
  by apply authorize_plan_ok in E as (_ & _ & ->).
Qed.

Lemma stale_grant a cfg w :
  grant_config_generation (grant (authorized a)) <> cfg ->
  wp (execute_plan a cfg) (fun r w' => is_ok r = false /\ calm w w') w.
Proof.
  intros Hne. unfold execute_plan. apply wp_bind, wp_millis. intros m.
  apply wp_bind, wp_now. intros n.
  assert (is_authorized_for_execution (authorized a) n (generation (catalog a)) cfg = false) as ->.
  { unfold is_authorized_for_execution, is_valid_at.
    rewrite (bool_decide_eq_false_2 (grant_config_generation _ = cfg)) by done.
    rewrite andb_false_r. simpl. by case_match. }
  apply wp_ret. split; [done|]. by apply calm_world.
Qed.

(** A dry run's result: the plan's estimate, and every operation skipped. *)
Definition dry_result (adm : JobAdmissionRequest) (attempt : AttemptId) (pl : PlannedPlan) : JobResult :=
  mkJobResult (rq_job_id adm) attempt (total_estimated_reclaim pl) (length (operations pl)) 0 0
    (length (operations pl)) 0.

(** The execution: none in a dry run; otherwise every removal is justified, permits and
    locks are returned and the result is the account of what was done; and under another
    generation of the configuration it is refused. *)
Record executed (p : Pipeline) (adm : JobAdmissionRequest) (attempt : AttemptId)
    (snap : CatalogSnapshot) (g : Stages) : Prop := {
  ex_dry : rq_dry_run adm = true ->
    sg_after g = sg_before g /\ sg_result g = Ok (dry_result adm attempt (sg_plan g));
  ex_trace : rq_dry_run adm = false -> good_trace (stage_args attempt snap g) (w_trace (sg_after g));
  ex_rm : rm_same (w_rm (sg_before g)) (w_rm (sg_after g)) 0;
  ex_result jr : rq_dry_run adm = false -> sg_result g = Ok jr ->
    run_backed (stage_args attempt snap g) (sg_before g) (sg_after g) jr;
  ex_stale : rq_dry_run adm = false -> rq_config_generation adm <> p_config_generation p ->
    is_ok (sg_result g) = false /\ calm (sg_before g) (sg_after g);
}.

Lemma stages_executed p adm attempt snap w g :
  job_stages p adm attempt snap w g -> catalog_wf snap ->
  Forall (fun e => ~ is_unlink e) (w_trace (sg_before g)) -> executed p adm attempt snap g.
Proof.
  intros Hg Hwf Hclean. destruct (stages_plan _ _ _ _ _ _ Hg) as [Hplan Hgen].
  pose proof (js_executed _ _ _ _ _ _ Hg) as Hex. unfold execute_or_dry_run in Hex.
  destruct (rq_dry_run adm) eqn:Edry.
  - rewrite Hplan in Hex. injection Hex as Hr Ha.
    constructor; try congruence; [by intros|rewrite <- Ha; apply rm_same_refl].
  - pose proof (wp_execute_plan (stage_args attempt snap g) (p_config_generation p) (sg_before g) Hwf) as Hwp.
    pose proof (stale_grant (stage_args attempt snap g) (p_config_generation p) (sg_before g)) as Hst.
    unfold wp in Hwp, Hst. unfold stage_args in Hwp, Hst. rewrite Hex in Hwp, Hst. cbn [fst snd authorized] in *.
    destruct Hwp as (Hgood & Hrm & Hres).
    { rewrite <- app_nil_r. by apply good_trace_app. }
    constructor; try done.
    + congruence.
    + intros jr _ Hjr. by rewrite Hjr in Hres.
    + intros _ Hne. apply Hst. by rewrite Hgen.
Qed.

(** ** The whole call *)

Lemma admit_request source deep trim dry cat cfg sch w adm sch' w' :
  admit_job source deep trim dry cat cfg sch w = ((Ok adm, sch'), w') ->
  match queue sch with
  | [] => queue sch' = [adm] /\ rq_dry_run adm = dry /\ rq_config_generation adm = cfg
  | e :: l => adm = coalesce e deep trim dry /\ queue sch' = adm :: l
  end.
Proof.
  intros E. unfold admit_job in E. destruct (queue sch) as [|e l] eqn:Eq.
  - assert (wp (r ← with_store (fun now f => register_job env_sql_text (job_counter sch)
            (TriggerSource_debug source) cat cfg now f);
      match r with
      | Err e => mret (Err e, mkScheduler [] (wrap_add (job_counter sch) 1))
      | Ok _ =>
          now ← get_now;
          let request := mkRequest (job_counter sch) source deep trim dry cat cfg now in
          mret (Ok request, mkScheduler (queue (mkScheduler [] (wrap_add (job_counter sch) 1)) ++ [request])
                  (job_counter (mkScheduler [] (wrap_add (job_counter sch) 1))))
      end) (fun r _ => forall adm, fst r = Ok adm ->
        queue (snd r) = [adm] /\ rq_dry_run adm = dry /\ rq_config_generation adm = cfg) w) as Hwp.
    { apply wp_bind, wp_with_store. intros [u|e] s _; [|by apply wp_ret].
      apply wp_bind, wp_now. intros n. apply wp_ret. by intros adm' [= <-]. }
    unfold wp in Hwp. change (list JobAdmissionRequest) with (list JobAdmissionRequest) in *.
    rewrite E in Hwp. by apply Hwp.
  - injection E as <- <- _. done.
Qed.

Lemma wp_close_job adm attempt r p w :
  wp (close_job adm attempt r p) (fun r' _ =>
    (forall report, fst r' = Ok report -> r = Ok report) /\ p_catalog (snd r') = p_catalog p /\
    p_candidate_counter (snd r') = p_candidate_counter p /\
    p_scheduler (snd r') = p_scheduler p) w.
Proof.
  unfold close_job. destruct r as [rep|[e|msg]]; [|by do 2 (apply wp_bind, wp_any; intros ? ?)|done].
  destruct (ByteCount.new _); [|done]. apply wp_bind, wp_any. intros [u|e] w1; [|done].
  apply wp_bind, wp_any. intros [[u'|e] wp'] w2; done.
Qed.

(** What a call came to: the catalog it discovered, the request it was admitted as, its
    attempt, the world in which its job started, and the stages of the job. *)
Record CallStages := mkCallStages {
  cs_catalog : CatalogSnapshot;
  cs_admission : JobAdmissionRequest;
  cs_attempt : AttemptId;
  cs_start : World;
  cs_job : Stages;
}.

(** The call of [execute] on [p] in the world [w] went through the stages [c]. *)
Definition call_stages (params : CleanParams) (p : Pipeline) (w : World) (c : CallStages) : Prop :=
  exists w1 sch w2 wp,
    discover_all_targets (p_catalog p) w = (cs_catalog c, w1) /\
    admit_job (if cp_deep params then ManualIpc else PeriodicMaintenance) (cp_deep params)
      (cp_trim params) (cp_dry_run params) (generation (cs_catalog c)) (p_config_generation p)
      (p_scheduler p) w1 = ((Ok (cs_admission c), sch), w2) /\
    claim_attempt (rq_job_id (cs_admission c)) 300 (p_worker p) w2 = ((Ok (cs_attempt c), wp), cs_start c) /\
    job_stages p (cs_admission c) (cs_attempt c) (cs_catalog c) (cs_start c) (cs_job c).

Definition cs_args (c : CallStages) : ExecArgs := stage_args (cs_attempt c) (cs_catalog c) (cs_job c).

(** What [execute] leaves: no removal and a failure, or the stages. *)
Record call_post (params : CleanParams) (p : Pipeline) (w : World)
    (r : result fault CleanReport * Pipeline) (w' : World) : Prop := {
  cl_rm : rm_same (w_rm w) (w_rm w') 0;
  cl_catalog : catalog_wf (p_catalog (snd r));
  cl_counter : u64 (p_candidate_counter (snd r));
  cl_ran : (Forall (fun e => ~ is_unlink e) (w_trace w') /\ is_ok (fst r) = false) \/
    exists c, call_stages params p w c /\ catalog_wf (cs_catalog c) /\
      executed p (cs_admission c) (cs_attempt c) (cs_catalog c) (cs_job c) /\
      Forall (fun e => ~ is_unlink e) (w_trace (sg_before (cs_job c))) /\
      (exists evs, w_trace w' = evs ++ w_trace (sg_after (cs_job c)) /\ Forall (fun e => ~ is_unlink e) evs) /\
      forall report, fst r = Ok report -> exists jr, sg_result (cs_job c) = Ok jr /\
        report = stages_report (cs_admission c) (cs_job c) jr;
}.

Lemma wp_execute params p w :
  w_trace w = [] -> catalog_wf (p_catalog p) -> u64 (p_candidate_counter p) ->
  wp (execute map_values frozen_uids_at trim_result_at fmt params p) (call_post params p w) w.
Proof.
  intros Htr Hwf Hu. unfold execute. apply wp_bind.
  eapply wp_mono; [apply wp_and; [apply wp_and; [apply calmly_discover|apply wp_discover_all]|apply wp_eq]|].
  intros cat w1 [[Hw1 Hcat] Edisc].
  assert (catalog_wf cat) as Hwf'.
  { destruct Hcat as [[-> _]|[_ Hd]]; [done|]. eapply map_Forall_impl; [exact Hd|].
    intros k t Ht. by apply disc_key in Ht. }
  clear Hcat.
  assert (forall e p' w', calm w w' -> p_catalog p' = cat -> u64 (p_candidate_counter p') ->
    call_post params p w (Err e, p') w') as Hfail.
  { intros e p' w' [(evs & Ht & Hf) Hr] Hc Hn. rewrite Htr, app_nil_r in Ht.
    constructor; simpl; [done|by rewrite Hc|done|]. left. by rewrite Ht. }
  apply wp_bind. eapply wp_mono; [apply wp_and; [apply calmly_admit|apply wp_eq]|].
  intros [[adm|e] sch] w2 [Hw2 Eadm]; cbn [fst snd].
  2: { apply wp_ret, Hfail; [by transitivity w1|done..]. }
  apply wp_bind. eapply wp_mono; [apply wp_and; [apply calmly_claim|apply wp_eq]|].
  intros [[attempt|e] wp'] w3 [Hw3 Ecl]; cbn [fst snd].
  all: assert (calm w w3) as Hw by (transitivity w1; [done|by transitivity w2]).
  2: { by apply wp_ret, Hfail. }
  apply wp_bind. eapply wp_mono; [by apply wp_run_pipeline_job|].
  intros [r p'] w4 [(Hc & Hs & Hg) Hcount Hran]. cbn [fst snd] in *.
  eapply wp_mono; [apply wp_and; [apply calmly_close_job|apply wp_close_job]|].
  intros [r5 p5] w5 [Hw5 (Hok & Hcat & Hnum & _)]. cbn [fst snd] in *.
  assert (forall r0, r = Err r0 -> is_ok r5 = false) as Hno.
  { intros r0 ->. destruct r5 as [report|]; [|done]. by discriminate (Hok report eq_refl). }
  destruct Hran as [[Hw4 Hbad]|(g & Hst & Hcg & -> & Hr)].
  { assert (calm w w5) as [(evs & Ht & Hf) Hr] by (transitivity w3; [done|by transitivity w4]).
    rewrite Htr, app_nil_r in Ht. constructor; simpl; [done|by rewrite Hcat, Hc|by rewrite Hnum|].
    left. split; [by rewrite Ht|]. destruct r; [done|by eapply Hno]. }
  assert (calm w (sg_before g)) as [(evs & Ht & Hf) Hrm] by by transitivity w3.
  rewrite Htr, app_nil_r in Ht.
  set (c := mkCallStages cat adm attempt w3 g).
  assert (job_stages p adm attempt cat w3 g) as Hst' by (destruct Hst; by constructor).
  assert (executed p adm attempt cat g) as Hex by (eapply stages_executed; [done|done|by rewrite Ht]).
  rewrite <- Ht in Hf. destruct Hw5 as [Ht5 Hrm5]. constructor; cbn [fst snd].
  - eapply rm_same_trans; [|exact Hrm5]. eapply rm_same_trans; [exact Hrm|apply Hex].
  - by rewrite Hcat, Hc.
  - by rewrite Hnum.
  - right. exists c. split; [by exists w1, sch, w2, wp'|]. split; [done|]. split; [done|].
    split; [exact Hf|]. split; [exact Ht5|]. intros report Hrep. specialize (Hok report Hrep). subst r.
    destruct (sg_result g) as [jr|e] eqn:Eg; [|done]. exists jr. split; [exact Eg|]. by simplify_eq.
Qed.

(** The request of a call, from the parameters and the queue. *)
Lemma call_request params p w c :
  call_stages params p w c ->
  match queue (p_scheduler p) with
  | [] => rq_dry_run (cs_admission c) = cp_dry_run params /\
          rq_config_generation (cs_admission c) = p_config_generation p
  | e :: _ => cs_admission c = coalesce e (cp_deep params) (cp_trim params) (cp_dry_run params)
  end.
Proof.
  intros (w1 & sch & w2 & wp & _ & E & _). apply admit_request in E.
  destruct (queue (p_scheduler p)); [by destruct E as (_ & ? & ?)|by destruct E].
Qed.
End stages.

(** ** An example: a file in an application's cache, older than a day *)

Definition values (m : gmap string TargetDescriptor) : list TargetDescriptor :=
  map snd (map_to_list m).

Lemma values_ok m t : t ∈ values m -> exists k, m !! k = Some t.
Proof. intros ([k t'] & -> & Hin)%list_elem_of_fmap. exists k. by apply elem_of_map_to_list. Qed.

Definition cache_dirs : list (string * Node) :=
  [("/data/data", dir 2); ("/data/data/com.app", dir 3); ("/data/data/com.app/cache", dir 4)].
Definition cache_file : string := "/data/data/com.app/cache/b.tmp".
Definition cache_fs : MemFs := mem_fs ((cache_file, file 6 4096) :: cache_dirs) [].

Definition run_execute (dry : bool) (p : Pipeline) (w : World)
    : (result fault CleanReport * Pipeline) * World :=
  execute (H0 := quiet_env 100000) values (fun _ => []) (fun _ => true) (fun _ => "f")
    (mkParams false false false dry) p w.

Definition fresh_pipeline : Pipeline :=
  mkPipeline DaemonConfig_default TargetCatalog_new 1 1 (mkScheduler [] 1) (mkWorker 1 1 false)
    ConfigGeneration_INITIAL.

Definition cache_world : World := mem_world cache_fs empty_store.

Definition is_removed (path : string) (w : @World MemFs _) : bool :=
  bool_decide (nodes (w_kernel w) !! path = None).

(** ** Properties *)

Section properties.
Context `{Kernel K} `{Env}.
Context (map_values : gmap string TargetDescriptor -> list TargetDescriptor)
  (frozen_uids_at : nat -> list N) (trim_result_at : nat -> bool) (fmt : f32 -> string).

(** Everything behind one removal of the call of [execute] on [p] in the world [w], whose
    stages are [c]: it was issued by the execution of this call's plan under this call's
    grant, catalog and attempt, for an operation [op] that is the one of a permit [pm]
    that this call gave, to an entry that this call's scan of its target [t] returned
    ([res]); at the time this call read from the clock, and under the configuration it
    validated, the gate and the policy let the entry through and no rule keeps it. *)
Record removal_story (params : CleanParams) (p : Pipeline) (w : World) (c : CallStages)
    (fd : Fd) (name : string) (rd : bool) (s : Store) (rm : ResourceManager) (older : list Event)
    (d : Deletion) (op : PlannedOperation) (t : TargetDescriptor) (res : ScanResult)
    (pm : PolicyPermit) : Prop := {
  rs_stages : call_stages map_values frozen_uids_at fmt params p w c;
  rs_real : rq_dry_run (cs_admission c) = false;
  rs_justified : justified (cs_args c) fd name rd s rm older d op t;
  rs_planned : op ∈ operations (sg_plan (cs_job c)) /\ plan (sg_auth (cs_job c)) = sg_plan (cs_job c);
  rs_permit : pm ∈ sg_permits (cs_job c) /\ op_type op = permit_op pm;
  rs_scanned : (t, res) ∈ sg_scans (cs_job c);
  rs_target : targets (cs_catalog c) !! td_target_id t = Some t;
  rs_earned : earned (sg_effective p (cs_job c)) (env_now (w_step (cs_start c)))
    (frozen_uids_at (w_step (cs_start c))) t res pm;
}.

(** Every removal of the history [tr] has its story. *)
Definition accounted (params : CleanParams) (p : Pipeline) (w : World) (tr : list Event) : Prop :=
  forall newer fd name rd s rm r older,
    tr = newer ++ EvUnlink fd name rd s rm r :: older ->
    exists c d op t res pm, removal_story params p w c fd name rd s rm older d op t res pm.

Lemma calm_accounted params p w tr :
  Forall (fun e => ~ is_unlink e) tr -> accounted params p w tr.
Proof.
  intros Hno newer fd name rd s rm r older ->.
  apply Forall_app in Hno as [_ Hno]. apply Forall_cons in Hno as [Hno _]. by destruct Hno.
Qed.

(** A removal is of the entry of some permit of the call. *)
Lemma justified_story params p w c fd name rd s rm older d op t :
  (forall m t, t ∈ map_values m -> exists k : string, m !! k = Some t) ->
  call_stages map_values frozen_uids_at fmt params p w c -> catalog_wf (cs_catalog c) ->
  rq_dry_run (cs_admission c) = false -> justified (cs_args c) fd name rd s rm older d op t ->
  exists res pm, removal_story params p w c fd name rd s rm older d op t res pm.
Proof.
  intros Hv Hc Hwf Hreal Hj. pose proof Hc as (_ & _ & _ & _ & _ & _ & _ & Hg).
  destruct (stages_plan _ _ _ _ _ _ _ _ _ Hg) as [Hplan _].
  pose proof (j_planned _ _ _ _ _ _ _ _ _ _ Hj) as Hin. simpl in Hin. rewrite Hplan in Hin.
  destruct (plan_from_permits _ _ _ _ _ _ _ (js_plan _ _ _ _ _ _ _ _ _ Hg) Hin) as (pm & Hpm & Hty).
  destruct (scans_earned _ _ _ _ _ _ _ _ _ _ _ (js_scans _ _ _ _ _ _ _ _ _ Hg) pm Hpm)
    as [[]%elem_of_nil|(t' & res & Ht' & Hlog & He)].
  destruct (Hv _ _ Ht') as [k Hk].
  destruct (validate_candidate_inv _ _ _ _ (en_validated _ _ _ _ _ _ He)) as (_ & Hown & _).
  assert (t = t') as <-.
  { destruct (j_op _ _ _ _ _ _ _ _ _ _ Hj) as [_ Hdel]. rewrite Hty in Hdel.
    assert (d_target_id d = c_target_id (cand pm)) as E1
      by (unfold permit_op in Hdel; destruct (c_is_dir (cand pm)), (d_is_dir d); by simplify_eq).
    pose proof (j_catalog _ _ _ _ _ _ _ _ _ _ Hj) as Hget. unfold catalog_get in Hget. simpl in Hget.
    rewrite E1, Hown, (Hwf _ _ Hk), Hk in Hget. by simplify_eq. }
  exists res, pm. constructor; try done. by rewrite (Hwf _ _ Hk).
Qed.

(** A whole call. *)
Lemma execute_accounted params p (w : World) r p' w' :
  (forall m t, t ∈ map_values m -> exists k : string, m !! k = Some t) ->
  w_trace w = [] -> catalog_wf (p_catalog p) -> u64 (p_candidate_counter p) ->
  execute map_values frozen_uids_at trim_result_at fmt params p w = ((r, p'), w') ->
  accounted params p w (w_trace w') /\ catalog_wf (p_catalog p') /\ u64 (p_candidate_counter p').
Proof.
  intros Hv Htr Hwf Hu E.
  pose proof (wp_execute map_values frozen_uids_at trim_result_at fmt params p w Htr Hwf Hu) as Hwp.
  unfold wp in Hwp. rewrite E in Hwp. destruct Hwp as [_ Hwf' Hu' Hran]. cbn [fst snd] in *.
  split; [|done]. destruct Hran as [[Hno _]|(c & Hc & Hcwf & Hex & Hbefore & (evs & Ht & Hf) & _)];
    [by apply calm_accounted|].
  destruct (rq_dry_run (cs_admission c)) eqn:Edry.
  { destruct (ex_dry _ _ _ _ _ Hex Edry) as [Ha _]. apply calm_accounted. rewrite Ht, Ha. by apply Forall_app. }
  pose proof (ex_trace _ _ _ _ _ Hex Edry) as Hgood.
  intros newer fd name rd s rm r0 older Hw'.
  assert (good_trace (cs_args c) (w_trace w')) as Hgood' by (rewrite Ht; by apply good_trace_app).
  destruct (good_trace_split _ _ _ _ _ _ _ _ _ _ Hgood' Hw') as (d & op & t & Hj).
  destruct (justified_story params p w c fd name rd s rm older d op t Hv Hc Hcwf Edry Hj) as (res & pm & Hst).
  by exists c, d, op, t, res, pm.
Qed.

(** What stands behind the report of the call: the result of its execution.  Of a dry run
    that is the estimate of the plan the call made, with every operation skipped; of a
    real run it is the account of what the execution did, operation by operation. *)
Definition report_backed (params : CleanParams) (p : Pipeline) (w : World) (report : CleanReport) : Prop :=
  exists c jr, call_stages map_values frozen_uids_at fmt params p w c /\
    sg_result (cs_job c) = Ok jr /\
    report = stages_report trim_result_at (cs_admission c) (cs_job c) jr /\
    if rq_dry_run (cs_admission c) then
      jr = dry_result (cs_admission c) (cs_attempt c) (sg_plan (cs_job c)) /\
      sg_after (cs_job c) = sg_before (cs_job c)
    else run_backed (cs_args c) (sg_before (cs_job c)) (sg_after (cs_job c)) jr.

Lemma execute_backed params p (w : World) report p' w' :
  w_trace w = [] -> catalog_wf (p_catalog p) -> u64 (p_candidate_counter p) ->
  execute map_values frozen_uids_at trim_result_at fmt params p w = ((Ok report, p'), w') ->
  report_backed params p w report.
Proof.
  intros Htr Hwf Hu E.
  pose proof (wp_execute map_values frozen_uids_at trim_result_at fmt params p w Htr Hwf Hu) as Hwp.
  unfold wp in Hwp. rewrite E in Hwp. destruct Hwp as [_ _ _ Hran]. cbn [fst snd] in *.
  destruct Hran as [[_ Hno]|(c & Hc & _ & Hex & _ & _ & Hrep)]; [done|].
  destruct (Hrep report eq_refl) as (jr & Hjr & ->). exists c, jr. do 3 (split; [done|]).
  destruct (rq_dry_run (cs_admission c)) eqn:Edry; [|by apply Hex].
  destruct (ex_dry _ _ _ _ _ Hex Edry) as [Ha Hr]. split; [congruence|done].
Qed.

(** C2 End to end: whatever the file system, the clock, SQLite, the frozen processes and
    the order of hash maps do, every removal a call of [execute] issues was issued by the
    execution of the plan of this very call.  The stages [c] are those this call went
    through, each computed by the function of that stage on what the stages before it
    returned ([call_stages]).  The removal is for an operation of the plan that this call
    built, under the grant it authorized for it, of an entry that its own scan of a
    target of the catalog it discovered returned; the safety gate validated that entry
    and the policy allowed it, at the time the call read from the clock and under the
    configuration it validated, so that no rule of the policy keeps it: its category is
    on, its package is not whitelisted, it is no compiled code and, if a file, it is old
    enough.  And it was granted, safe, locked, checked, reached without links and logged
    beforehand as [justified] says. *)
Theorem pipeline_removals_justified params p (w : World) newer fd name rd s rm r older :
  (forall m t, t ∈ map_values m -> exists k : string, m !! k = Some t) ->
  w_trace w = [] -> catalog_wf (p_catalog p) -> u64 (p_candidate_counter p) ->
  let '(_, w') := execute map_values frozen_uids_at trim_result_at fmt params p w in
  w_trace w' = newer ++ EvUnlink fd name rd s rm r :: older ->
  exists c d op t res pm, removal_story params p w c fd name rd s rm older d op t res pm.
Proof.
  intros Hv Htr Hwf Hu.
  destruct (execute _ _ _ _ _ _ _) as [[res p'] w'] eqn:E.
  destruct (execute_accounted params p w res p' w' Hv Htr Hwf Hu E) as [Hacc _].
  apply Hacc.
Qed.

(** C14 A dry run is one: when no job is queued, a call asking for a dry run
    removes nothing, whatever happens, and returns every permit and lock. *)
Theorem dry_run_removes_nothing params p (w : World) :
  w_trace w = [] -> catalog_wf (p_catalog p) -> u64 (p_candidate_counter p) ->
  queue (p_scheduler p) = [] -> cp_dry_run params = true ->
  let '(_, w') := execute map_values frozen_uids_at trim_result_at fmt params p w in
  Forall (fun e => ~ is_unlink e) (w_trace w') /\ rm_same (w_rm w) (w_rm w') 0.
Proof.
  intros Htr Hwf Hu Hq Hd.
  pose proof (wp_execute map_values frozen_uids_at trim_result_at fmt params p w Htr Hwf Hu) as Hwp.
  unfold wp in Hwp. destruct (execute _ _ _ _ _ _ _) as [[res p'] w'].
  destruct Hwp as [Hrm _ _ Hran]. cbn [fst snd] in *. split; [|done].
  destruct Hran as [[? _]|(c & Hc & _ & Hex & Hbefore & (evs & Ht & Hf) & _)]; [done|].
  apply call_request in Hc. rewrite Hq, Hd in Hc. destruct (ex_dry _ _ _ _ _ Hex (proj1 Hc)) as [Ha _].
  rewrite Ht, Ha. by apply Forall_app.
Qed.

(** A job left in the queue decides for later calls: if the queued request was
    admitted under another configuration generation, as after [update_config],
    then a call that is not a dry run (because either request is not) fails and
    removes nothing. *)
Theorem stale_queued_job_blocks params p (w : World) e rest :
  w_trace w = [] -> catalog_wf (p_catalog p) -> u64 (p_candidate_counter p) ->
  queue (p_scheduler p) = e :: rest ->
  rq_config_generation e <> p_config_generation p ->
  rq_dry_run e && cp_dry_run params = false ->
  let '((r, _), w') := execute map_values frozen_uids_at trim_result_at fmt params p w in
  is_ok r = false /\ Forall (fun e => ~ is_unlink e) (w_trace w').
Proof.
  intros Htr Hwf Hu Hq Hg Hd.
  pose proof (wp_execute map_values frozen_uids_at trim_result_at fmt params p w Htr Hwf Hu) as Hwp.
  unfold wp in Hwp. destruct (execute _ _ _ _ _ _ _) as [[res p'] w'].
  destruct Hwp as [_ _ _ Hran]. cbn [fst snd] in *.
  destruct Hran as [[? ?]|(c & Hc & _ & Hex & Hbefore & (evs & Ht & Hf) & Hrep)]; [done|].
  apply call_request in Hc. rewrite Hq in Hc.
  destruct (ex_stale _ _ _ _ _ Hex) as [Hno [(evs' & Ht' & Hf') _]]; [by rewrite Hc..|]. split.
  - destruct res as [report|]; [|done]. destruct (Hrep report eq_refl) as (jr & Hjr & _).
    by rewrite Hjr in Hno.
  - rewrite Ht, Ht'. by rewrite !Forall_app.
Qed.
End properties.

(** ** The queue

    [execute] never takes its job out of the queue, so the first request decides what all
    later ones do. *)

(** A request of a real run is queued. *)
Definition real_run_queued (p : Pipeline) : Prop :=
  exists e rest, queue (p_scheduler p) = e :: rest /\ rq_dry_run e = false.

Definition with_dry_run (dry : bool) (params : CleanParams) : CleanParams :=
  mkParams (cp_deep params) (cp_trim params) (cp_zram_compact params) dry.

Section queue.
Context `{Kernel K} `{Env}.
Context (map_values : gmap string TargetDescriptor -> list TargetDescriptor)
  (frozen_uids_at : nat -> list N) (trim_result_at : nat -> bool) (fmt : f32 -> string).

Lemma run_pipeline_job_scheduler p adm attempt snap w :
  wp (run_pipeline_job map_values frozen_uids_at trim_result_at fmt p adm attempt snap)
    (fun r _ => p_scheduler (snd r) = p_scheduler p) w.
Proof.
  unfold run_pipeline_job. destruct (from_raw fmt _); [|by apply wp_ret].
  do 3 (apply wp_bind, wp_any; intros ? ?). case_match; [|by apply wp_ret]. case_match.
  apply wp_bind, wp_any. intros ? ?. destruct (build_plan _ _ _ _ _); [|by apply wp_ret].
  apply wp_bind, wp_any. intros ? ?. destruct (authorize_plan _ _ _ _ _ _) as [[auth|e] grants]; [|by apply wp_ret].
  apply wp_bind, wp_any. intros [jr|e] ?; [|by apply wp_ret]. by apply wp_bind, wp_any.
Qed.

(** What a call leaves in the queue. *)
Lemma execute_queue params p w :
  wp (execute map_values frozen_uids_at trim_result_at fmt params p) (fun r _ =>
    match queue (p_scheduler p) with
    | [] => is_ok (fst r) = true ->
        exists adm, queue (p_scheduler (snd r)) = [adm] /\ rq_dry_run adm = cp_dry_run params
    | e :: rest => queue (p_scheduler (snd r))
        = coalesce e (cp_deep params) (cp_trim params) (cp_dry_run params) :: rest
    end) w.
Proof.
  unfold execute. apply wp_bind, wp_any. intros cat w1. apply wp_bind.
  eapply wp_mono; [apply wp_eq|]. intros [[adm|e] sch] w2 Eadm; cbn [fst snd].
  2: { apply wp_ret. unfold admit_job in Eadm. destruct (queue (p_scheduler p)); [done|]. by injection Eadm. }
  apply admit_request in Eadm.
  assert (forall r p', p_scheduler p' = sch -> match queue (p_scheduler p) with
    | [] => is_ok (fst (r : result fault CleanReport, p')) = true ->
        exists adm, queue (p_scheduler (snd (r, p'))) = [adm] /\ rq_dry_run adm = cp_dry_run params
    | e :: rest => queue (p_scheduler (snd (r, p')))
        = coalesce e (cp_deep params) (cp_trim params) (cp_dry_run params) :: rest
    end) as Hdone.
  { intros r p' Hs. cbn [fst snd]. rewrite Hs. destruct (queue (p_scheduler p)).
    - destruct Eadm as (? & ? & _). intros _. by exists adm.
    - by destruct Eadm as [-> ->]. }
  apply wp_bind, wp_any. intros [[attempt|e] wp'] w3; cbn [fst snd]; [|by apply wp_ret, Hdone].
  apply wp_bind. eapply wp_mono; [apply run_pipeline_job_scheduler|]. intros [r p1] w4 Hs1. cbn [fst snd] in *.
  eapply wp_mono; [apply wp_close_job|]. intros [r2 p2] w5 (_ & _ & _ & Hs2). cbn [fst snd] in *.
  apply Hdone. by rewrite Hs2, Hs1.
Qed.

Lemma real_run_stays_queued params p w :
  real_run_queued p ->
  real_run_queued (snd (fst (execute map_values frozen_uids_at trim_result_at fmt params p w))).
Proof.
  intros (e & rest & Hq & He). pose proof (execute_queue params p w) as Hwp. unfold wp in Hwp.
  rewrite Hq in Hwp. eexists _, _. split; [exact Hwp|]. cbn. by rewrite He.
Qed.
End queue.

(** What may happen to a pipeline: a new configuration, or a call, whatever it meets. *)
Inductive later `{Kernel K} (fmt : f32 -> string) : Pipeline -> Pipeline -> Prop :=
| later_config cfg p : later fmt p (update_config cfg p)
| later_call `{Env} map_values frozen_uids_at trim_result_at params p w :
    later fmt p (snd (fst (execute map_values frozen_uids_at trim_result_at fmt params p w))).

(** C40 A dry run that is asked for after a real run deletes as a real run does:
    [execute] leaves its request in the queue and merges every later one into it.  Once
    a call that was no dry run has succeeded, then after any further calls and changes of
    the configuration, a call that asks for a dry run does exactly what the same call
    without that wish does: the same removals, the same report, the same state. *)
Theorem dry_run_after_a_run_deletes `{Kernel K} (fmt : f32 -> string)
    (E1 : Env) values1 frozen1 trim1 params1 p (w : World) report p1 w1
    p2 (E2 : Env) values2 frozen2 trim2 params2 (w2 : World) :
  cp_dry_run params1 = false ->
  execute (H0 := E1) values1 frozen1 trim1 fmt params1 p w = ((Ok report, p1), w1) ->
  rtc (later fmt) p1 p2 ->
  execute (H0 := E2) values2 frozen2 trim2 fmt (with_dry_run true params2) p2 w2 =
  execute (H0 := E2) values2 frozen2 trim2 fmt (with_dry_run false params2) p2 w2.
Proof.
  intros Hd E Hl.
  assert (real_run_queued p1) as Hq1.
  { pose proof (execute_queue (H0 := E1) values1 frozen1 trim1 fmt params1 p w) as Hwp.
    unfold wp in Hwp. rewrite E in Hwp. cbn [fst snd] in Hwp. destruct (queue (p_scheduler p)) as [|e rest].
    - destruct (Hwp eq_refl) as (adm & Hq & Ha). exists adm, []. by rewrite Ha.
    - eexists _, _. split; [exact Hwp|]. cbn. by rewrite Hd, andb_false_r. }
  assert (real_run_queued p2) as (e & rest & Hq & He).
  { clear -Hl Hq1. induction Hl as [|p p' p'' Hs _ IH]; [done|]. apply IH.
    destruct Hs; [done|by apply real_run_stays_queued]. }
  unfold execute, admit_job. cbn [cp_deep cp_trim cp_dry_run with_dry_run]. rewrite Hq.
  unfold coalesce. by rewrite He.
Qed.

Lemma empty_catalog_wf : catalog_wf TargetCatalog_new.
Proof. apply map_Forall_empty. Qed.

Lemma one_u64 : u64 1.
Proof. vm_compute. discriminate. Qed.

Example cache_run_removes :
  option_map fst (second_removal (w_trace (snd (run_execute false fresh_pipeline cache_world)))) =
  Some ("/data/data/com.app/cache", "b.tmp", false, Ok tt).
Proof. vm_compute. reflexivity. Qed.

(** The file's removal has its story. *)
Lemma pipeline_removals_justified_witness :
  exists s rm older c d op t res pm,
    removal_story (K := MemFs) (H0 := quiet_env 100000) values (fun _ => []) (fun _ => "f")
      (mkParams false false false false) fresh_pipeline cache_world c
      "/data/data/com.app/cache" "b.tmp" false s rm older d op t res pm.
Proof.
  destruct (second_removal (w_trace (snd (run_execute false fresh_pipeline cache_world))))
    as [[[[[fd name] rd] r] [s rm]]|] eqn:E;
    pose proof cache_run_removes as E'; rewrite E in E'; simpl in E'; [|discriminate].
  injection E' as -> -> -> ->. apply second_removal_split in E.
  pose proof (fun newer older => pipeline_removals_justified (H0 := quiet_env 100000) values
    (fun _ => []) (fun _ => true) (fun _ => "f") (mkParams false false false false)
    fresh_pipeline cache_world newer "/data/data/com.app/cache" "b.tmp" false s rm (Ok tt) older
    values_ok eq_refl empty_catalog_wf one_u64) as Hj.
  fold (run_execute false fresh_pipeline cache_world) in Hj. revert E Hj.
  generalize (run_execute false fresh_pipeline cache_world). intros [[res p'] w'] E Hj.
  eexists s, rm, _. exact (Hj _ _ E).
Defined.

Lemma dry_run_removes_nothing_witness :
  Forall (fun e => ~ is_unlink e) (w_trace (snd (run_execute true fresh_pipeline cache_world))) /\
  is_removed cache_file (snd (run_execute true fresh_pipeline cache_world)) = false.
Proof.
  split; [|vm_compute; reflexivity].
  pose proof (dry_run_removes_nothing (H0 := quiet_env 100000) values (fun _ => [])
    (fun _ => true) (fun _ => "f") (mkParams false false false true) fresh_pipeline cache_world
    eq_refl empty_catalog_wf one_u64 eq_refl eq_refl) as Hd.
  fold (run_execute true fresh_pipeline cache_world) in Hd. revert Hd.
  generalize (run_execute true fresh_pipeline cache_world). intros [r w'] Hd. apply Hd.
Defined.

(** After a first call and a change of the configuration. *)
Definition updated_pipeline : Pipeline :=
  update_config DaemonConfig_default
    (snd (fst (run_execute false fresh_pipeline (mem_world (mem_fs cache_dirs []) empty_store)))).

Lemma stale_queued_job_blocks_witness :
  is_ok (fst (fst (run_execute false updated_pipeline cache_world))) = false.
Proof.
  destruct (queue (p_scheduler updated_pipeline)) as [|e rest] eqn:Eq;
    [vm_compute in Eq; discriminate Eq|].
  assert (rq_config_generation e = ConfigGeneration_INITIAL /\ rq_dry_run e = false) as [Hg Hd].
  { vm_compute in Eq. injection Eq as <- _. split; reflexivity. }
  pose proof (stale_queued_job_blocks (H0 := quiet_env 100000) values (fun _ => [])
    (fun _ => true) (fun _ => "f") (mkParams false false false false) updated_pipeline cache_world
    e rest eq_refl) as Hs.
  fold (run_execute false updated_pipeline cache_world) in Hs. revert Hs.
  generalize (run_execute false updated_pipeline cache_world). intros [[r p'] w'] Hs.
  apply Hs; clear Hs r p' w'.
  - apply (bool_decide_unpack _). vm_compute. exact I.
  - apply (bool_decide_unpack _). vm_compute. exact I.
  - exact Eq.
  - rewrite Hg. vm_compute. discriminate.
  - rewrite Hd. reflexivity.
Defined.

(** The first call, not a dry run, succeeds and finds nothing to clean; then a file old
    enough appears in the cache, and the next call, which asks for a dry run, removes the
    file and reports its bytes as freed. *)
Definition empty_cache_run : (result fault CleanReport * Pipeline) * World :=
  run_execute false fresh_pipeline (mem_world (mem_fs cache_dirs []) empty_store).

Example dry_run_removes_file :
  let '((r1, p1), w1) := empty_cache_run in
  let '((r2, _), w2) := run_execute true p1 (w_set_kernel cache_fs w1) in
  is_ok r1 = true /\ is_removed cache_file w2 = true /\
  match r2 with
  | Ok rep => sr_deleted_files_count (rp_storage rep) = 1%nat /\
              sr_total_freed_bytes (rp_storage rep) = 4096
  | Err _ => False
  end.
Proof. vm_compute. repeat split. Qed.

Lemma dry_run_after_a_run_deletes_witness :
  let '((_, p1), w1) := empty_cache_run in
  run_execute true p1 (w_set_kernel cache_fs w1) = run_execute false p1 (w_set_kernel cache_fs w1).
Proof.
  pose proof dry_run_removes_file as Hf. destruct empty_cache_run as [[[rep|e] p1] w1] eqn:E.
  - exact (dry_run_after_a_run_deletes (fun _ => "f") (quiet_env 100000) values (fun _ => []) (fun _ => true)
      (mkParams false false false false) fresh_pipeline (mem_world (mem_fs cache_dirs []) empty_store)
      rep p1 w1 p1 (quiet_env 100000) values (fun _ => []) (fun _ => true)
      (mkParams false false false false) (w_set_kernel cache_fs w1) eq_refl E (rtc_refl _ _)).
  - exfalso. destruct (run_execute true p1 (w_set_kernel cache_fs w1)) as [[r2 ?] w2].
    destruct Hf as [Hf _]. discriminate Hf.
Defined.
