(* ===== verification/Idle.v ===== *)
(** Idle detection, src/system/idle/: the thermal state machine (state.rs), the
    sensor context (sensors.rs), the policy that turns a context into an assessment
    (policy.rs, assessment.rs) and the manager that keeps the screen-off time and
    the thermal state between events (mod.rs).  Instants and durations are
    nanoseconds of the monotonic clock.

    The theorems give the exact conditions of both kinds of maintenance, the
    meaning of the score, and that over any history of events maintenance waits
    for the grace period after the screen went off. *)
From Stdlib Require Import Ascii String SpecFloat.
From S2P Require Import Prelude Domain.

(** ** States (state.rs, hardware/uevent.rs) *)

Module ScreenState.
Inductive t := On | Off | Unknown.
End ScreenState.

Module IdleState.
Inductive t := Active | IdleCandidate | Idle | DeepIdle.
#[global] Instance eq_dec : EqDecision t.
Proof. solve_decision. Defined.

Definition as_str (s : t) : string :=
  match s with
  | Active => "ACTIVE" | IdleCandidate => "IDLE_CANDIDATE" | Idle => "IDLE"
  | DeepIdle => "DEEP_IDLE"
  end.
End IdleState.

Module Thermal.
Inductive t := Normal | Warm | Hot | Critical.
#[global] Instance eq_dec : EqDecision t.
Proof. solve_decision. Defined.

Definition next_state (current : t) (temp_c : f32) : t :=
  if f32_ge temp_c (f32_of_Z 50) then Critical
  else if f32_ge temp_c (f32_of_Z 45) then Hot
  else if f32_gt temp_c (f32_of_Z 40) then
    match current with Hot => Hot | _ => Warm end
  else Normal.
End Thermal.

Module Eligibility.
Inductive t := Allowed | Blocked | Paused.
#[global] Instance eq_dec : EqDecision t.
Proof. solve_decision. Defined.

Definition is_allowed (e : t) : bool := match e with Allowed => true | _ => false end.

Definition as_str (e : t) : string :=
  match e with Allowed => "ELIGIBLE" | Blocked => "BLOCKED" | Paused => "PAUSED" end.
End Eligibility.

(** ** The sensors (sensors.rs) *)

Inductive SensorStatus := Available | TemporarilyUnavailable | Unsupported.
#[export] Instance SensorStatus_eq_dec : EqDecision SensorStatus.
Proof. solve_decision. Defined.

Record SensorReading := mkReading { value : option f32; status : SensorStatus }.

Definition available (v : f32) : SensorReading := mkReading (Some v) Available.
Definition unavailable : SensorReading := mkReading None TemporarilyUnavailable.
Definition unsupported : SensorReading := mkReading None Unsupported.

Record IdleContext := mkContext {
  screen : ScreenState.t;
  screen_off_duration : option N;
  charging : bool;
  battery_percent : N;
  cpu_psi_pct : SensorReading;
  io_psi_pct : SensorReading;
  mem_psi_pct : SensorReading;
  thermal_celsius : SensorReading;
  thermal_source : option string;
  stationary : bool;
  user_active : bool;
}.

Definition IdleContext_default : IdleContext :=
  mkContext ScreenState.Unknown None false 50 unsupported unsupported unsupported unsupported
    None true false.

(** ** The assessment (assessment.rs) *)

Module Blocker.
Inductive t :=
| ScreenOn | GracePeriodRemaining | NotCharging | BatteryTooLow | BatteryBelowDeepThreshold
| ThermalHot | ThermalCritical | CpuPressureHigh | IoPressureHigh | RecentActivity
| SensorUnavailable.
#[global] Instance eq_dec : EqDecision t.
Proof. solve_decision. Defined.

Definition description (b : t) : string :=
  match b with
  | ScreenOn => "Screen is ON"
  | GracePeriodRemaining => "Screen-off grace period active"
  | NotCharging => "Device is not charging"
  | BatteryTooLow => "Battery is below 20%"
  | BatteryBelowDeepThreshold => "Battery is below 70% for deep maintenance"
  | ThermalHot => "Thermal zone is hot (>=45°C, paused)"
  | ThermalCritical => "Thermal zone is critical (>=50°C)"
  | CpuPressureHigh => "CPU pressure exceeds threshold"
  | IoPressureHigh => "I/O pressure exceeds threshold"
  | RecentActivity => "Recent user activity detected"
  | SensorUnavailable => "Critical system sensor unavailable"
  end.
End Blocker.

Module Positive.
Inductive t :=
| ScreenOff | GraceElapsed | Charging | HighBattery | CpuIdle | IoIdle | ThermalSafe | Stationary.

Definition description (p : t) : string :=
  match p with
  | ScreenOff => "+25 Screen OFF"
  | GraceElapsed => "+10 Grace period satisfied"
  | Charging => "+15 Connected to charger"
  | HighBattery => "+10 Battery level >= 70%"
  | CpuIdle => "+10 CPU PSI is low (<5%)"
  | IoIdle => "+10 I/O PSI is low (<3%)"
  | ThermalSafe => "+10 Device temperature is cool (<38°C)"
  | Stationary => "+10 Device is stationary with no wakeups"
  end.
End Positive.

Record IdleAssessment := mkAssessment {
  score : N;
  state : IdleState.t;
  thermal_state : Thermal.t;
  standard_maintenance : Eligibility.t;
  heavy_maintenance : Eligibility.t;
  blockers : list Blocker.t;
  positives : list Positive.t;
  rate_limit_ops_per_sec : N;
  time_until_next_transition : option N;
}.

(** ** The policy (policy.rs) *)

(** What a numbered section of [evaluate] does to the locals: adds points and
    pushes a positive, or pushes a blocker. *)
Inductive Item := Award (points : N) (p : Positive.t) | Block (b : Blocker.t).

Definition item_blocker (i : Item) : option Blocker.t :=
  match i with Block b => Some b | Award _ _ => None end.
Definition item_positive (i : Item) : option Positive.t :=
  match i with Award _ p => Some p | Block _ => None end.

(** [score.saturating_add(points)] of a [u8] *)
Definition item_score (score : N) (i : Item) : N :=
  match i with Award points _ => N.min (score + points) 255 | Block _ => score end.

Definition is_off (s : ScreenState.t) : bool :=
  match s with ScreenState.Off => true | _ => false end.

Definition screen_items (is_screen_off grace_elapsed : bool) : list Item :=
  if is_screen_off then
    Award 25 Positive.ScreenOff ::
    (if grace_elapsed then [Award 10 Positive.GraceElapsed]
     else [Block Blocker.GracePeriodRemaining])
  else [Block Blocker.ScreenOn].

Definition charging_items (charging : bool) : list Item :=
  if charging then [Award 15 Positive.Charging] else [Block Blocker.NotCharging].

Definition battery_items (battery_percent : N) : list Item :=
  if 70 <=? battery_percent then [Award 10 Positive.HighBattery]
  else if battery_percent <? 20 then [Block Blocker.BatteryTooLow]
  else [Block Blocker.BatteryBelowDeepThreshold].

(** Sections 3 and 4: below [low] is idle, from [high] on is pressure; the second
    component is [cpu_low] or [io_low]. *)
Definition pressure_items (r : SensorReading) (low high : Z) (idle : Positive.t)
    (pressure : Blocker.t) : list Item * bool :=
  match value r with
  | Some pct =>
      if f32_lt pct (f32_of_Z low) then ([Award 10 idle], true)
      else ((if f32_ge pct (f32_of_Z high) then [Block pressure] else []), false)
  | None =>
      ((if decide (status r = TemporarilyUnavailable) then [Block Blocker.SensorUnavailable]
        else []), true)
  end.

Definition thermal_items (r : SensorReading) : list Item * bool :=
  match value r with
  | Some temp =>
      ((if f32_lt temp (f32_of_Z 38) then [Award 10 Positive.ThermalSafe] else []),
       f32_lt temp (f32_of_Z 40))
  | None => ([], true)
  end.

Definition thermal_blockers (t : Thermal.t) : list Item :=
  match t with
  | Thermal.Hot => [Block Blocker.ThermalHot]
  | Thermal.Critical => [Block Blocker.ThermalCritical]
  | _ => []
  end.

Definition activity_items (stationary user_active : bool) : list Item :=
  (if stationary && negb user_active then [Award 10 Positive.Stationary] else []) ++
  (if user_active then [Block Blocker.RecentActivity] else []).

Definition heavy_eligibility (ctx : IdleContext) (thermal : Thermal.t) (next_state : IdleState.t)
    (standard : Eligibility.t) : Eligibility.t :=
  if bool_decide (thermal = Thermal.Hot) then Eligibility.Paused
  else if bool_decide (next_state = IdleState.DeepIdle)
          && bool_decide (standard = Eligibility.Allowed) && charging ctx
          && (70 <=? battery_percent ctx) && bool_decide (thermal = Thermal.Normal)
  then Eligibility.Allowed else Eligibility.Blocked.

Definition rate_limit (thermal : Thermal.t) (blockers : list Blocker.t) : N :=
  match thermal with
  | Thermal.Critical | Thermal.Hot => 0
  | Thermal.Warm => 300
  | Thermal.Normal =>
      if bool_decide (Blocker.IoPressureHigh ∈ blockers) then 50
      else if bool_decide (Blocker.CpuPressureHigh ∈ blockers) then 150 else 500
  end.

Definition evaluate (ctx : IdleContext) (current_state : IdleState.t) (thermal : Thermal.t)
    (grace_period : N) : IdleAssessment :=
  let is_screen_off := is_off (screen ctx) in
  let screen_off_dur := default 0 (screen_off_duration ctx) in
  let grace_elapsed := is_screen_off && (grace_period <=? screen_off_dur) in
  let '(cpu, cpu_low) := pressure_items (cpu_psi_pct ctx) 5 10 Positive.CpuIdle
                           Blocker.CpuPressureHigh in
  let '(io, io_low) := pressure_items (io_psi_pct ctx) 3 8 Positive.IoIdle
                         Blocker.IoPressureHigh in
  let '(therm, thermal_safe) := thermal_items (thermal_celsius ctx) in
  let items := screen_items is_screen_off grace_elapsed ++ charging_items (charging ctx)
    ++ battery_items (battery_percent ctx) ++ cpu ++ io ++ therm ++ thermal_blockers thermal
    ++ activity_items (stationary ctx) (user_active ctx) in
  let blockers := omap item_blocker items in
  let final_score := N.min (fold_left item_score items 0) 100 in
  let next_state :=
    if negb is_screen_off || user_active ctx || bool_decide (thermal = Thermal.Critical)
    then IdleState.Active
    else if negb grace_elapsed then IdleState.IdleCandidate
    else if charging ctx && (70 <=? battery_percent ctx)
            && bool_decide (thermal = Thermal.Normal) && thermal_safe && cpu_low && io_low
            && negb (user_active ctx)
    then IdleState.DeepIdle else IdleState.Idle in
  let standard :=
    if bool_decide (thermal = Thermal.Hot) then Eligibility.Paused
    else if bool_decide (thermal = Thermal.Critical) || negb is_screen_off || negb grace_elapsed
            || user_active ctx || (battery_percent ctx <? 20)
            || bool_decide (Blocker.CpuPressureHigh ∈ blockers)
            || bool_decide (Blocker.IoPressureHigh ∈ blockers)
    then Eligibility.Blocked
    else if bool_decide (next_state = IdleState.Idle) || bool_decide (next_state = IdleState.DeepIdle)
    then Eligibility.Allowed else Eligibility.Blocked in
  let heavy := heavy_eligibility ctx thermal next_state standard in
  let rate := rate_limit thermal blockers in
  let wait := if decide (next_state = IdleState.IdleCandidate)
              then Some (saturating_sub grace_period screen_off_dur) else None in
  mkAssessment final_score next_state thermal standard heavy blockers (omap item_positive items)
    rate wait.

(** ** The manager (mod.rs) *)

Record IdleManager := mkManager {
  im_state : IdleState.t;
  candidate_since : option N;
  last_activity : option N;
  im_thermal : Thermal.t;
  grace : N;
}.

Definition IdleManager_new (grace_period : N) : IdleManager :=
  mkManager IdleState.Active None None Thermal.Normal grace_period.

(** The screen-off time after a report of the screen. *)
Definition track_screen (s : ScreenState.t) (now : N) (since : option N) : option N :=
  match s with
  | ScreenState.Off => match since with None => Some now | Some t => Some t end
  | ScreenState.On => None
  | ScreenState.Unknown => since
  end.

(** The context is updated too. *)
Definition update (ctx : IdleContext) (now : N) (m : IdleManager)
    : IdleAssessment * IdleContext * IdleManager :=
  let since := track_screen (screen ctx) now (candidate_since m) in
  let off := match since with
             | Some t => Some (saturating_sub now t)
             | None => screen_off_duration ctx
             end in
  let ctx' := mkContext (screen ctx) off (charging ctx) (battery_percent ctx) (cpu_psi_pct ctx)
    (io_psi_pct ctx) (mem_psi_pct ctx) (thermal_celsius ctx) (thermal_source ctx)
    (stationary ctx) (user_active ctx) in
  let thermal := match value (thermal_celsius ctx) with
                 | Some temp => Thermal.next_state (im_thermal m) temp
                 | None => im_thermal m
                 end in
  let assessment := evaluate ctx' (im_state m) thermal (grace m) in
  (assessment, ctx', mkManager (state assessment) since (last_activity m) thermal (grace m)).

Definition get_assessment (ctx : IdleContext) (m : IdleManager) : IdleAssessment :=
  evaluate ctx (im_state m) (im_thermal m) (grace m).

Definition on_screen_state_change (s : ScreenState.t) (now : N) (m : IdleManager) : IdleManager :=
  mkManager (match s with ScreenState.On => IdleState.Active | _ => im_state m end)
    (track_screen s now (candidate_since m)) (last_activity m) (im_thermal m) (grace m).

Definition on_thermal_update (temp_c : f32) (m : IdleManager) : Thermal.t * IdleManager :=
  let next := Thermal.next_state (im_thermal m) temp_c in
  (next, mkManager (im_state m) (candidate_since m) (last_activity m) next (grace m)).

Definition on_user_activity (now : N) (m : IdleManager) : IdleManager :=
  mkManager IdleState.Active (candidate_since m) (Some now) (im_thermal m) (grace m).

(** ** What the policy promises *)

(** A reading at or above [high] (and not below [low]: the two tests are separate
    in the code and a NaN fails both). *)
Definition pressed (r : SensorReading) (low high : Z) : Prop :=
  exists pct, value r = Some pct /\ f32_lt pct (f32_of_Z low) = false /\
    f32_ge pct (f32_of_Z high) = true.

(** Unknown, or below [low]. *)
Definition below (r : SensorReading) (low : Z) : Prop :=
  forall pct, value r = Some pct -> f32_lt pct (f32_of_Z low) = true.

Record standard_conditions (ctx : IdleContext) (thermal : Thermal.t) (grace_period : N) : Prop := {
  sc_screen : screen ctx = ScreenState.Off;
  sc_grace : grace_period <= default 0 (screen_off_duration ctx);
  sc_user : user_active ctx = false;
  sc_battery : 20 <= battery_percent ctx;
  sc_thermal : thermal = Thermal.Normal \/ thermal = Thermal.Warm;
  sc_cpu : ~ pressed (cpu_psi_pct ctx) 5 10;
  sc_io : ~ pressed (io_psi_pct ctx) 3 8;
}.

Record heavy_conditions (ctx : IdleContext) (thermal : Thermal.t) (grace_period : N) : Prop := {
  hc_standard : standard_conditions ctx thermal grace_period;
  hc_charging : charging ctx = true;
  hc_battery : 70 <= battery_percent ctx;
  hc_thermal : thermal = Thermal.Normal;
  hc_cool : below (thermal_celsius ctx) 40;
  hc_cpu : below (cpu_psi_pct ctx) 5;
  hc_io : below (io_psi_pct ctx) 3;
}.

Definition points (p : Positive.t) : N :=
  match p with Positive.ScreenOff => 25 | Positive.Charging => 15 | _ => 10 end.

(** ** Lemmas *)

Lemma pressure_pressed r low high idle b :
  b <> Blocker.SensorUnavailable ->
  b ∈ omap item_blocker (fst (pressure_items r low high idle b)) <-> pressed r low high.
Proof.
  unfold pressure_items, pressed. intros Hb. destruct (value r) as [pct|].
  - destruct (f32_lt pct (f32_of_Z low)) eqn:E1; simpl.
    + split; [by intros ?%elem_of_nil|]. intros (? & [= <-] & ? & _). congruence.
    + destruct (f32_ge pct (f32_of_Z high)) eqn:E2; simpl.
      * split; [by exists pct|]. intros _. by apply list_elem_of_singleton.
      * split; [by intros ?%elem_of_nil|]. intros (? & [= <-] & _ & ?). congruence.
  - split; [|by intros (? & [=] & _)]. case_decide; simpl; [|by intros ?%elem_of_nil].
    by intros ?%list_elem_of_singleton.
Qed.

Lemma pressure_other r low high idle b b' :
  b' <> Blocker.SensorUnavailable -> b' <> b ->
  b' ∉ omap item_blocker (fst (pressure_items r low high idle b)).
Proof.
  unfold pressure_items. intros H1 H2. repeat case_match; simpl;
    rewrite ?list_elem_of_singleton, ?elem_of_nil; naive_solver.
Qed.

Lemma pressure_low r low high idle b :
  snd (pressure_items r low high idle b) = true <-> below r low.
Proof.
  unfold pressure_items, below. destruct (value r) as [pct|]; [|naive_solver].
  destruct (f32_lt pct (f32_of_Z low)) eqn:E; simpl; naive_solver.
Qed.

Lemma thermal_cool r : snd (thermal_items r) = true <-> below r 40.
Proof. unfold thermal_items, below. destruct (value r); naive_solver. Qed.

(** A section that pushes neither of the two pressure blockers. *)
Definition unpressed (l : list Item) : Prop :=
  Forall (fun i => item_blocker i <> Some Blocker.CpuPressureHigh /\
                   item_blocker i <> Some Blocker.IoPressureHigh) l.

Lemma unpressed_not_in l b :
  unpressed l -> b = Blocker.CpuPressureHigh \/ b = Blocker.IoPressureHigh ->
  b ∉ omap item_blocker l.
Proof.
  intros Hl Hb (i & Hi & E)%list_elem_of_omap. unfold unpressed in Hl.
  rewrite Forall_forall in Hl. destruct (Hl i Hi). naive_solver.
Qed.

Ltac unpressed :=
  unfold unpressed, screen_items, charging_items, battery_items, thermal_items, thermal_blockers,
    activity_items; repeat case_match; repeat (constructor; simpl; try done).

Lemma sections_unpressed ctx thermal off elapsed :
  unpressed (screen_items off elapsed) /\ unpressed (charging_items (charging ctx)) /\
  unpressed (battery_items (battery_percent ctx)) /\
  unpressed (fst (thermal_items (thermal_celsius ctx))) /\ unpressed (thermal_blockers thermal) /\
  unpressed (activity_items (stationary ctx) (user_active ctx)).
Proof. repeat split; unpressed. Qed.

(** The two pressure blockers come from their own sections only. *)
Lemma pressure_blockers ctx thermal off elapsed cpu io b :
  b = Blocker.CpuPressureHigh \/ b = Blocker.IoPressureHigh ->
  b ∈ omap item_blocker (screen_items off elapsed ++ charging_items (charging ctx)
    ++ battery_items (battery_percent ctx) ++ cpu ++ io
    ++ fst (thermal_items (thermal_celsius ctx)) ++ thermal_blockers thermal
    ++ activity_items (stationary ctx) (user_active ctx)) <->
  b ∈ omap item_blocker cpu \/ b ∈ omap item_blocker io.
Proof.
  intros Hb. rewrite !omap_app, !elem_of_app.
  destruct (sections_unpressed ctx thermal off elapsed) as (H1 & H2 & H3 & H4 & H5 & H6).
  apply (unpressed_not_in _ b) in H1, H2, H3, H4, H5, H6; try done. tauto.
Qed.

Lemma is_off_spec s : is_off s = true <-> s = ScreenState.Off.
Proof. by destruct s. Qed.

Definition worth (l : list Positive.t) : N := foldr N.add 0 (map points l).

Lemma worth_app l l' : worth (l ++ l') = worth l + worth l'.
Proof. unfold worth. induction l as [|p l IH]; simpl; [done|]. rewrite IH. lia. Qed.

(** The points of an award are those of its positive. *)
Definition priced (i : Item) : Prop :=
  match i with Award n p => n = points p | Block _ => True end.

Ltac priced :=
  unfold screen_items, charging_items, battery_items, pressure_items, thermal_items,
    thermal_blockers, activity_items; repeat case_match; repeat constructor.

(** What each section can add. *)
Lemma section_worth ctx thermal elapsed :
  worth (omap item_positive (screen_items (is_off (screen ctx)) elapsed)) <= 35 /\
  worth (omap item_positive (charging_items (charging ctx))) <= 15 /\
  worth (omap item_positive (battery_items (battery_percent ctx))) <= 10 /\
  worth (omap item_positive (fst (pressure_items (cpu_psi_pct ctx) 5 10 Positive.CpuIdle
    Blocker.CpuPressureHigh))) <= 10 /\
  worth (omap item_positive (fst (pressure_items (io_psi_pct ctx) 3 8 Positive.IoIdle
    Blocker.IoPressureHigh))) <= 10 /\
  worth (omap item_positive (fst (thermal_items (thermal_celsius ctx)))) <= 10 /\
  worth (omap item_positive (thermal_blockers thermal)) <= 0 /\
  worth (omap item_positive (activity_items (stationary ctx) (user_active ctx))) <= 10.
Proof.
  unfold screen_items, charging_items, battery_items, pressure_items, thermal_items,
    thermal_blockers, activity_items.
  repeat split; repeat case_match; vm_compute; discriminate.
Qed.

(** The score is the sum of the points as long as they fit. *)
Lemma score_sum items acc :
  Forall priced items ->
  acc + foldr N.add 0 (map points (omap item_positive items)) <= 255 ->
  fold_left item_score items acc = acc + foldr N.add 0 (map points (omap item_positive items)).
Proof.
  revert acc. induction items as [|i items IH]; intros acc Hf; csimpl; [lia|].
  apply Forall_cons in Hf as [Hi Hf]. destruct i as [n p|b]; csimpl.
  - simpl in Hi. subst n. intros Hle. rewrite N.min_l by lia. rewrite IH; [lia|done|lia].
  - intros Hle. by apply IH.
Qed.

(** The value of [evaluate] field by field, with the pairs taken apart. *)
Section evaluate.
Context (ctx : IdleContext) (cur : IdleState.t) (thermal : Thermal.t) (gp : N).

Abbreviation cpu := (pressure_items (cpu_psi_pct ctx) 5 10 Positive.CpuIdle
                       Blocker.CpuPressureHigh).
Abbreviation io := (pressure_items (io_psi_pct ctx) 3 8 Positive.IoIdle Blocker.IoPressureHigh).
Abbreviation elapsed := (is_off (screen ctx) && (gp <=? default 0 (screen_off_duration ctx))).
Abbreviation items := (screen_items (is_off (screen ctx)) elapsed ++ charging_items (charging ctx)
  ++ battery_items (battery_percent ctx) ++ fst cpu ++ fst io
  ++ fst (thermal_items (thermal_celsius ctx)) ++ thermal_blockers thermal
  ++ activity_items (stationary ctx) (user_active ctx)).

Lemma evaluate_lists :
  blockers (evaluate ctx cur thermal gp) = omap item_blocker items /\
  positives (evaluate ctx cur thermal gp) = omap item_positive items /\
  score (evaluate ctx cur thermal gp) = N.min (fold_left item_score items 0) 100.
Proof. unfold evaluate, heavy_eligibility, rate_limit. destruct cpu, io, (thermal_items _). done. Qed.

Lemma cpu_blocker : Blocker.CpuPressureHigh ∈ omap item_blocker items <->
  pressed (cpu_psi_pct ctx) 5 10.
Proof.
  rewrite pressure_blockers by tauto. rewrite pressure_pressed by done.
  pose proof (pressure_other (io_psi_pct ctx) 3 8 Positive.IoIdle Blocker.IoPressureHigh
    Blocker.CpuPressureHigh). naive_solver.
Qed.

Lemma io_blocker : Blocker.IoPressureHigh ∈ omap item_blocker items <->
  pressed (io_psi_pct ctx) 3 8.
Proof.
  rewrite pressure_blockers by tauto. rewrite pressure_pressed by done.
  pose proof (pressure_other (cpu_psi_pct ctx) 5 10 Positive.CpuIdle Blocker.CpuPressureHigh
    Blocker.IoPressureHigh). naive_solver.
Qed.

(** The decision behind the three maintenance states. *)
Definition standard_ok : bool :=
  elapsed && negb (user_active ctx) && (20 <=? battery_percent ctx)
  && bool_decide (thermal = Thermal.Normal \/ thermal = Thermal.Warm)
  && negb (bool_decide (Blocker.CpuPressureHigh ∈ omap item_blocker items))
  && negb (bool_decide (Blocker.IoPressureHigh ∈ omap item_blocker items)).

Definition deep_ok : bool :=
  charging ctx && (70 <=? battery_percent ctx) && bool_decide (thermal = Thermal.Normal)
  && snd (thermal_items (thermal_celsius ctx)) && snd cpu && snd io.

Lemma evaluate_maintenance :
  standard_maintenance (evaluate ctx cur thermal gp) =
    (if decide (thermal = Thermal.Hot) then Eligibility.Paused
     else if standard_ok then Eligibility.Allowed else Eligibility.Blocked) /\
  heavy_maintenance (evaluate ctx cur thermal gp) =
    (if decide (thermal = Thermal.Hot) then Eligibility.Paused
     else if standard_ok && deep_ok then Eligibility.Allowed else Eligibility.Blocked).
Proof.
  unfold evaluate, heavy_eligibility, rate_limit, standard_ok, deep_ok. rewrite N.ltb_antisym.
  destruct cpu as [cpu_items cpu_low], io as [io_items io_low],
    (thermal_items _) as [therm safe]. cbn [fst snd standard_maintenance heavy_maintenance].
  generalize (bool_decide (Blocker.CpuPressureHigh ∈ omap item_blocker
    (screen_items (is_off (screen ctx)) elapsed ++ charging_items (charging ctx)
     ++ battery_items (battery_percent ctx) ++ cpu_items ++ io_items ++ therm
     ++ thermal_blockers thermal ++ activity_items (stationary ctx) (user_active ctx)))).
  generalize (bool_decide (Blocker.IoPressureHigh ∈ omap item_blocker
    (screen_items (is_off (screen ctx)) elapsed ++ charging_items (charging ctx)
     ++ battery_items (battery_percent ctx) ++ cpu_items ++ io_items ++ therm
     ++ thermal_blockers thermal ++ activity_items (stationary ctx) (user_active ctx)))).
  intros b1 b2. destruct thermal; simpl; try done.
  all: destruct (is_off (screen ctx)), (gp <=? _), (user_active ctx), (20 <=? _), b1, b2; try done.
  all: simpl; destruct (charging ctx), (70 <=? _), safe, cpu_low, io_low; done.
Qed.

Lemma standard_ok_spec : standard_ok = true <-> standard_conditions ctx thermal gp.
Proof.
  unfold standard_ok. rewrite !andb_true_iff, !negb_true_iff, bool_decide_eq_true,
    !bool_decide_eq_false, cpu_blocker, io_blocker, !N.leb_le, is_off_spec.
  split; [intros; constructor; tauto|]. intros [? ? ? ? ? ? ?]. tauto.
Qed.

Lemma deep_ok_spec :
  standard_ok && deep_ok = true <-> heavy_conditions ctx thermal gp.
Proof.
  rewrite andb_true_iff, standard_ok_spec. unfold deep_ok.
  rewrite !andb_true_iff, bool_decide_eq_true, N.leb_le, thermal_cool, !pressure_low.
  split; [intros; constructor; tauto|]. intros [? ? ? ? ? ? ?]. tauto.
Qed.

Lemma evaluate_score :
  score (evaluate ctx cur thermal gp) = worth (positives (evaluate ctx cur thermal gp)) /\
  score (evaluate ctx cur thermal gp) <= 100.
Proof.
  destruct evaluate_lists as (_ & -> & ->).
  assert (Forall priced items) as Hf by (rewrite !Forall_app; repeat split; priced).
  destruct (section_worth ctx thermal elapsed) as (H1 & H2 & H3 & H4 & H5 & H6 & H7 & H8).
  assert (worth (omap item_positive items) <= 100) as Hle
    by (rewrite !omap_app, !worth_app; lia).
  rewrite score_sum by (try done; fold (worth (omap item_positive items)); lia).
  fold (worth (omap item_positive items)). rewrite N.add_0_l, N.min_l by done. done.
Qed.
End evaluate.

(** ** Histories *)

Inductive IdleEvent :=
| EvUpdate (ctx : IdleContext)
| EvScreenChange (s : ScreenState.t)
| EvThermalUpdate (temp_c : f32)
| EvUserActivity.

(** An event handled at an instant of the clock. *)
Definition handle (m : IdleManager) (e : N * IdleEvent) : IdleManager :=
  match e with
  | (now, EvUpdate ctx) => snd (update ctx now m)
  | (now, EvScreenChange s) => on_screen_state_change s now m
  | (_, EvThermalUpdate t) => snd (on_thermal_update t m)
  | (now, EvUserActivity) => on_user_activity now m
  end.

(** What an event says of the screen. *)
Definition reported (e : N * IdleEvent) : option ScreenState.t :=
  match snd e with
  | EvUpdate ctx => Some (screen ctx)
  | EvScreenChange s => Some s
  | _ => None
  end.

Definition says (s : ScreenState.t) (e : N * IdleEvent) : Prop := reported e = Some s.

(** The screen was reported off at [t] and not on since. *)
Definition off_since (hist : list (N * IdleEvent)) (t : N) : Prop :=
  exists before e after, hist = before ++ (t, e) :: after /\
    says ScreenState.Off (t, e) /\ Forall (fun e => ~ says ScreenState.On e) after.

Lemma handle_candidate m e :
  candidate_since (handle m e) =
  match reported e with
  | Some s => track_screen s (fst e) (candidate_since m)
  | None => candidate_since m
  end.
Proof. destruct e as [now []]; done. Qed.

Lemma handle_grace m e : grace (handle m e) = grace m.
Proof. destruct e as [now []]; done. Qed.

Lemma off_since_snoc hist t e :
  off_since hist t -> ~ says ScreenState.On e -> off_since (hist ++ [e]) t.
Proof.
  intros (b & e0 & a & -> & Hoff & Hon) He. exists b, e0, (a ++ [e]).
  split; [by rewrite <- app_assoc|]. split; [done|]. apply Forall_app. by repeat constructor.
Qed.

(** The manager's time is the first report of the current screen-off period. *)
Lemma candidate_off_since gp hist t :
  candidate_since (fold_left handle hist (IdleManager_new gp)) = Some t -> off_since hist t.
Proof.
  revert t. induction hist as [|e hist IH] using rev_ind; intros t; [done|].
  rewrite fold_left_app. simpl. rewrite handle_candidate.
  destruct (reported e) as [[| |]|] eqn:Er; simpl; [done| | |].
  - destruct (candidate_since _) as [t0|]; intros [= <-].
    + apply off_since_snoc; [by apply IH|]. unfold says. by rewrite Er.
    + exists hist, (snd e), []. destruct e as [now ev]. done.
  - intros Hc. apply off_since_snoc; [by apply IH|]. unfold says. by rewrite Er.
  - intros Hc. apply off_since_snoc; [by apply IH|]. unfold says. by rewrite Er.
Qed.

Lemma fold_grace gp hist : grace (fold_left handle hist (IdleManager_new gp)) = gp.
Proof.
  induction hist as [|e hist IH] using rev_ind; [done|].
  rewrite fold_left_app. simpl. by rewrite handle_grace.
Qed.

(** ** Properties *)

(** The exact conditions of maintenance.  Standard maintenance is allowed if and
    only if the screen is off for the grace period, the user is not active, the
    battery has at least 20 percent, the device is neither hot nor critical and
    neither CPU nor I/O is under pressure; heavy maintenance if and only if
    moreover the device charges, the battery has at least 70 percent, the thermal
    state is normal, and temperature, CPU and I/O, where known, are low; so heavy
    implies standard.  Maintenance is paused exactly when hot; the rate is zero
    exactly when hot or critical; and the score is the sum of the points of the
    positives it lists, at most 100. *)
Theorem idle_policy_spec ctx cur thermal gp :
  let a := evaluate ctx cur thermal gp in
  (standard_maintenance a = Eligibility.Allowed <-> standard_conditions ctx thermal gp) /\
  (heavy_maintenance a = Eligibility.Allowed <-> heavy_conditions ctx thermal gp) /\
  (standard_maintenance a = Eligibility.Paused <-> thermal = Thermal.Hot) /\
  (rate_limit_ops_per_sec a = 0 <-> thermal = Thermal.Hot \/ thermal = Thermal.Critical) /\
  score a = worth (positives a) /\ score a <= 100.
Proof.
  intros a. destruct (evaluate_maintenance ctx cur thermal gp) as [Hs Hh].
  fold a in Hs, Hh. rewrite Hs, Hh, <- standard_ok_spec, <- deep_ok_spec.
  assert (thermal = Thermal.Hot -> standard_ok ctx thermal gp = false) as Hhot
    by (intros ->; unfold standard_ok; by rewrite !andb_false_r).
  split; [|split; [|split; [|split; [|apply evaluate_score]]]].
  - case_decide as Hd; [rewrite Hhot by done; done|]. by destruct (standard_ok _ _ _).
  - case_decide as Hd; [rewrite Hhot by done; done|]. by destruct (_ && _).
  - case_decide as Hd; [done|]. by destruct (standard_ok _ _ _).
  - subst a. unfold evaluate, heavy_eligibility, rate_limit. destruct (pressure_items (cpu_psi_pct ctx) _ _ _ _),
      (pressure_items (io_psi_pct ctx) _ _ _ _), (thermal_items _). cbn [rate_limit_ops_per_sec].
    destruct thermal; [|naive_solver..]. split; [|naive_solver]. repeat case_match; done.
Qed.

(** Standard maintenance, allowed by an update after any history. *)
Lemma standard_needs_grace gp hist now ctx :
  let m := fold_left handle hist (IdleManager_new gp) in
  standard_maintenance (fst (fst (update ctx now m))) = Eligibility.Allowed ->
  exists t, off_since (hist ++ [(now, EvUpdate ctx)]) t /\ gp <= now - t.
Proof.
  intros m. unfold update. cbv zeta. cbn [fst].
  rewrite (proj1 (evaluate_maintenance _ _ _ _)). case_decide; [done|].
  destruct (standard_ok _ _ _) eqn:Eok; [|done]. intros _.
  apply standard_ok_spec in Eok as [Hscr Hgrace _ _ _ _ _]. simpl in Hscr, Hgrace.
  assert (grace m = gp) as Hg by apply fold_grace. rewrite Hg, Hscr in Hgrace. simpl in Hgrace.
  destruct (candidate_since (fold_left handle (hist ++ [(now, EvUpdate ctx)])
    (IdleManager_new gp))) as [t|] eqn:Ec.
  - exists t. split; [by apply (candidate_off_since gp)|].
    rewrite fold_left_app in Ec. simpl in Ec. fold m in Ec. rewrite Hscr in Ec. simpl in Ec.
    destruct (candidate_since m); simplify_eq; simpl in Hgrace; unfold saturating_sub in Hgrace;
      lia.
  - rewrite fold_left_app in Ec. simpl in Ec. fold m in Ec. rewrite Hscr in Ec. simpl in Ec.
    by destruct (candidate_since m).
Qed.

(** C35 The grace period is respected over every history of updates, screen, thermal
    and activity events, at whatever instants: when an update allows standard
    maintenance, some event at least the grace period ago reported the screen off
    and no event since, this update included, reported it on. *)
Theorem grace_period_respected gp hist now ctx :
  let m := fold_left handle hist (IdleManager_new gp) in
  standard_maintenance (fst (fst (update ctx now m))) = Eligibility.Allowed ->
  exists t, off_since (hist ++ [(now, EvUpdate ctx)]) t /\ gp <= now - t.
Proof. apply standard_needs_grace. Qed.

(** The screen goes off at 0, an update comes five minutes later. *)
Lemma grace_period_respected_witness :
  let ctx := mkContext ScreenState.Off None false 50 unsupported unsupported unsupported
               unsupported None true false in
  exists t, off_since ([(0, EvScreenChange ScreenState.Off)] ++ [(300000000000, EvUpdate ctx)]) t
    /\ 300000000000 <= 300000000000 - t.
Proof.
  intros ctx. apply (grace_period_respected 300000000000
    [(0, EvScreenChange ScreenState.Off)] 300000000000 ctx).
  vm_compute. reflexivity.
Defined.

(** The thermal state machine.  Cooling from hot, the state stays hot or worse
    at every reading above 40 degrees, and any reading from 50 on is critical and
    from 45 on at least hot; but from critical a reading between 40 and 45 leads to
    warm, not to hot, so a device that was hotter resumes work earlier. *)
Theorem thermal_hysteresis cur temp :
  (f32_gt temp (f32_of_Z 40) = true ->
     Thermal.next_state Thermal.Hot temp = Thermal.Hot \/
     Thermal.next_state Thermal.Hot temp = Thermal.Critical) /\
  (f32_ge temp (f32_of_Z 50) = true -> Thermal.next_state cur temp = Thermal.Critical) /\
  (f32_ge temp (f32_of_Z 45) = true -> Thermal.next_state cur temp = Thermal.Hot \/
     Thermal.next_state cur temp = Thermal.Critical) /\
  (f32_gt temp (f32_of_Z 40) = true -> f32_ge temp (f32_of_Z 45) = false ->
     f32_ge temp (f32_of_Z 50) = false ->
     Thermal.next_state Thermal.Critical temp = Thermal.Warm /\
     Thermal.next_state Thermal.Hot temp = Thermal.Hot).
Proof.
  unfold Thermal.next_state.
  destruct (f32_ge temp (f32_of_Z 50)), (f32_ge temp (f32_of_Z 45)), (f32_gt temp (f32_of_Z 40));
    naive_solver.
Qed.

Lemma thermal_hysteresis_witness :
  Thermal.next_state Thermal.Critical (f32_of_Z 42) = Thermal.Warm /\
  Thermal.next_state Thermal.Hot (f32_of_Z 42) = Thermal.Hot.
Proof.
  apply (thermal_hysteresis Thermal.Normal (f32_of_Z 42)); vm_compute; reflexivity.
Defined.

(** [on_user_activity] is forgotten: the next update neither reads the state it
    set nor the instant it stored. *)
Lemma user_activity_is_forgotten ctx t now m :
  fst (update ctx now (on_user_activity t m)) = fst (update ctx now m).
Proof. done. Qed.
