(* ===== verification/Clock.v ===== *)
(** Clocks, src/util/time.rs: the trait, the clock of the operating system, and the clock
    of the tests, which is advanced by hand, with the idle manager (src/system/idle/mod.rs)
    on top of it.

    An instant is a number of nanoseconds, a system time one relative to the epoch; adding
    a duration to either panics above the range of its 64-bit seconds.  The copies of a
    test clock share one counter ([Arc<AtomicU64>]), so the counters are cells of a world. *)
From Stdlib Require Import Ascii String.
From S2P Require Import Prelude Domain Idle.

(** ** The clocks *)

(** The readings of the operating system, and the counters in memory. *)
Record Clocks := mkClocks {
  os_instant : N;
  os_system_time : Z;
  counters : gmap N N;
}.

Class Clock (C : Type) := {
  now : C -> Clocks -> option N;             (** [None]: a panic *)
  system_time : C -> Clocks -> option Z;
}.

Inductive RealClock := mkRealClock.
#[export] Instance RealClock_clock : Clock RealClock := {
  now _ w := Some (os_instant w);
  system_time _ w := Some (os_system_time w);
}.

Record FakeClock := mkFakeClock {
  base_instant : N;
  offset_nanos : N;                          (** where its counter is *)
  base_system_time : Z;
}.

Definition NANOS_PER_SEC : N := 1000000000.
Definition TIME_LIMIT : N := (I64_MAX + 1) * NANOS_PER_SEC.

(** [Instant + Duration] and [SystemTime + Duration]. *)
Definition instant_add (t d : N) : option N := if t + d <? TIME_LIMIT then Some (t + d) else None.
Definition system_add (t : Z) (d : N) : option Z :=
  if (t + Z.of_N d <? Z.of_N TIME_LIMIT)%Z then Some (t + Z.of_N d)%Z else None.

Definition with_system_time (sys_time : Z) (w : Clocks) : FakeClock * Clocks :=
  let l := fresh (dom (counters w)) in
  (mkFakeClock (os_instant w) l sys_time,
   mkClocks (os_instant w) (os_system_time w) (<[l := 0]> (counters w))).

Definition FakeClock_new (w : Clocks) : FakeClock * Clocks :=
  with_system_time (Z.of_N (1700000000 * NANOS_PER_SEC)) w.

(** [offset_nanos.load] and [fetch_add]; [as u64] drops the high bits. *)
Definition load (c : FakeClock) (w : Clocks) : N := counters w !!! offset_nanos c.
Definition advance (duration : N) (c : FakeClock) (w : Clocks) : Clocks :=
  let nanos := duration mod U64_MOD in
  mkClocks (os_instant w) (os_system_time w)
    (<[offset_nanos c := wrap_add (load c w) nanos]> (counters w)).

#[export] Instance FakeClock_clock : Clock FakeClock := {
  now c w := instant_add (base_instant c) (load c w);
  system_time c w := system_add (base_system_time c) (load c w);
}.

(** ** What a test clock shows *)

Lemma load_advance d c w : load c (advance d c w) = (load c w + d) mod U64_MOD.
Proof.
  unfold load at 1, advance. cbn. rewrite lookup_total_insert_eq.
  unfold wrap_add. by rewrite N.Div0.add_mod_idemp_r.
Qed.

(** Another counter is not touched, a copy of the clock follows. *)
Lemma load_advance_other d c c' w :
  offset_nanos c' <> offset_nanos c -> load c' (advance d c w) = load c' w.
Proof. intros Hne. unfold load, advance. cbn. by rewrite lookup_total_insert_ne. Qed.

Lemma load_advance_all c ds w :
  load c w < U64_MOD ->
  load c (foldl (fun w d => advance d c w) w ds) = (load c w + foldr N.add 0 ds) mod U64_MOD.
Proof.
  revert w. induction ds as [|d ds IH]; intros w Hw; cbn.
  - by rewrite N.add_0_r, N.mod_small.
  - rewrite IH, load_advance by (rewrite load_advance; by apply N.mod_lt).
    rewrite N.Div0.add_mod_idemp_l. f_equal. lia.
Qed.

Lemma load_advance_all_other c c' ds w :
  offset_nanos c' <> offset_nanos c -> load c' (foldl (fun w d => advance d c w) w ds) = load c' w.
Proof.
  intros Hne. revert w. induction ds as [|d ds IH]; intros w; [done|]. cbn. rewrite IH.
  by apply load_advance_other.
Qed.

(** Both times move by what was advanced, through whichever copy, as long as the sum fits
    the counter; and two clocks made one after the other are independent. *)
Theorem fake_clock_tracks sys ds w :
  let '(c, w0) := with_system_time sys w in
  let '(c', w1) := FakeClock_new w0 in
  let w2 := foldl (fun w d => advance d c w) w1 ds in
  let total := foldr N.add 0 ds in
  total < U64_MOD -> os_instant w + total < TIME_LIMIT -> (sys + Z.of_N total < Z.of_N TIME_LIMIT)%Z ->
  now c w2 = Some (os_instant w + total) /\ system_time c w2 = Some (sys + Z.of_N total)%Z /\
  now c' w2 = now c' w1.
Proof.
  cbn [with_system_time FakeClock_new]. cbv zeta. intros Hm Hi Hs. cbn [now system_time FakeClock_clock].
  set (l := fresh (dom (counters w))). cbn [counters os_instant os_system_time].
  set (l' := fresh (dom (<[l := 0]> (counters w)))).
  assert (l' <> l) as Hne.
  { intros E. pose proof (is_fresh (dom (<[l := 0]> (counters w)))) as Hf. fold l' in Hf. rewrite E in Hf.
    apply Hf, elem_of_dom. by rewrite lookup_insert_eq. }
  set (c := mkFakeClock _ l _). set (w1 := mkClocks _ _ (<[l' := 0]> _)).
  assert (load c w1 = 0) as H0.
  { unfold load. cbn. rewrite lookup_total_insert_ne by done. by rewrite lookup_total_insert_eq. }
  set (c' := mkFakeClock _ l' _). rewrite (load_advance_all_other c c') by exact Hne.
  rewrite load_advance_all by (rewrite H0; done). rewrite H0, N.add_0_l, N.mod_small by done.
  unfold instant_add, system_add. cbn [base_instant base_system_time c].
  rewrite (proj2 (N.ltb_lt _ _)) by done. rewrite (proj2 (Z.ltb_lt _ _)) by done.
  done.
Qed.

(** The counter wraps: advanced by 2^64 nanoseconds, some 584 years, it shows no
    change, and by one less it has gone back. *)
Lemma fake_clock_wraps c w :
  0 < load c w < U64_MOD ->
  load c (advance U64_MOD c w) = load c w /\ load c (advance U64_MAX c w) = load c w - 1.
Proof.
  intros Hl. rewrite !load_advance. split.
  - rewrite <- N.Div0.add_mod_idemp_r, N.Div0.mod_same, N.add_0_r. apply N.mod_small, Hl.
  - replace (load c w + U64_MAX) with (load c w - 1 + 1 * U64_MOD) by (unfold U64_MAX, U64_MOD in *; lia).
    rewrite N.Div0.mod_add. apply N.mod_small. lia.
Qed.

(** ** The idle manager on a test clock *)

Inductive ClockedStep :=
| StepAdvance (d : N)
| StepEvent (e : IdleEvent).

(** Each method reads the clock when it needs the time. *)
Definition clocked_step (c : FakeClock) (x : IdleManager * Clocks) (st : ClockedStep)
    : option (IdleManager * Clocks) :=
  let '(m, w) := x in
  match st with
  | StepAdvance d => Some (m, advance d c w)
  | StepEvent e => t ← now c w; Some (handle m (t, e), w)
  end.

Fixpoint clocked_run (c : FakeClock) (steps : list ClockedStep) (x : IdleManager * Clocks)
    : option (IdleManager * Clocks) :=
  match steps with
  | [] => Some x
  | st :: steps' => x' ← clocked_step c x st; clocked_run c steps' x'
  end.

Definition advanced (st : ClockedStep) : N := match st with StepAdvance d => d | _ => 0 end.
Definition total_advanced (steps : list ClockedStep) : N := foldr N.add 0 (map advanced steps).

(** The events of a run with their instants. *)
Fixpoint stamped (c : FakeClock) (steps : list ClockedStep) (w : Clocks) : list (N * IdleEvent) :=
  match steps with
  | [] => []
  | StepAdvance d :: steps' => stamped c steps' (advance d c w)
  | StepEvent e :: steps' => (base_instant c + load c w, e) :: stamped c steps' w
  end.

Lemma clocked_run_stamped c steps m w m' w' :
  clocked_run c steps (m, w) = Some (m', w') -> m' = fold_left handle (stamped c steps w) m.
Proof.
  revert m w. induction steps as [|[d|e] steps IH]; intros m w; cbn; [by intros [= <- <-]|apply IH|].
  unfold instant_add. destruct (_ <? _); [|done]. cbn. apply IH.
Qed.

(** No more time passes on the clock than was advanced. *)
Lemma load_after c steps m w m' w' :
  clocked_run c steps (m, w) = Some (m', w') -> load c w' <= load c w + total_advanced steps.
Proof.
  revert m w. induction steps as [|[d|e] steps IH]; intros m w; cbn.
  - intros [= <- <-]. unfold total_advanced. cbn. lia.
  - intros Hr%IH. rewrite load_advance in Hr. unfold total_advanced in *. cbn.
    pose proof (N.Div0.mod_le (load c w + d) U64_MOD). lia.
  - unfold instant_add. destruct (_ <? _); [|done]. cbn. intros Hr%IH. unfold total_advanced in *. cbn. lia.
Qed.

Definition says_on (st : ClockedStep) : Prop :=
  exists e, st = StepEvent e /\ says ScreenState.On (0, e).

(** An event of the history, found in the run. *)
Lemma stamped_split c steps m w m' w' before t e after :
  clocked_run c steps (m, w) = Some (m', w') -> stamped c steps w = before ++ (t, e) :: after ->
  Forall (fun e => ~ says ScreenState.On e) after ->
  exists pre mid m1 w1, steps = pre ++ StepEvent e :: mid /\ t = base_instant c + load c w1 /\
    clocked_run c mid (m1, w1) = Some (m', w') /\ Forall (fun st => ~ says_on st) mid.
Proof.
  revert m w before. induction steps as [|[d|e0] steps IH]; intros m w before; cbn; [by destruct before| |].
  - intros Hr Hs Ha. destruct (IH _ _ _ Hr Hs Ha) as (pre & mid & m1 & w1 & -> & H).
    by exists (StepAdvance d :: pre), mid, m1, w1.
  - unfold instant_add. destruct (_ <? _); [|done]. cbn. intros Hr Hs Ha. destruct before as [|x before].
    + injection Hs as <- <- <-. eexists [], steps, _, w. split; [done|]. split; [done|]. split; [exact Hr|].
      clear -Ha. revert w Ha. induction steps as [|[d|e1] steps IHs]; intros w; cbn; [done| |].
      * intros Ha. constructor; [by intros (? & ? & _)|]. by eapply IHs.
      * rewrite Forall_cons. intros [He Ha]. constructor; [by intros (? & [= <-] & ?)|]. by eapply IHs.
    + injection Hs as _ Hs. destruct (IH _ _ _ Hr Hs Ha) as (pre & mid & m1 & w1 & -> & H).
      by exists (StepEvent e0 :: pre), mid, m1, w1.
Qed.

(** The grace period holds on a test clock, however it is advanced, wrapped or copied:
    when an update allows standard maintenance, the clock was advanced by at least the
    grace period after some report that the screen is off, with none that it is on
    since. *)
Theorem grace_by_advancing gp sys w0 steps ctx m w t :
  let c := fst (with_system_time sys w0) in
  clocked_run c steps (IdleManager_new gp, snd (with_system_time sys w0)) = Some (m, w) ->
  now c w = Some t ->
  standard_maintenance (fst (fst (update ctx t m))) = Eligibility.Allowed ->
  gp = 0 \/ exists pre e mid, steps = pre ++ StepEvent e :: mid /\
    says ScreenState.Off (0, e) /\ Forall (fun st => ~ says_on st) mid /\ gp <= total_advanced mid.
Proof.
  cbv zeta. set (c := fst _). set (w1 := snd _). intros Hr Ht Hstd.
  pose proof (clocked_run_stamped c steps _ w1 m w Hr) as Hm. rewrite Hm in Hstd.
  apply standard_needs_grace in Hstd as (t0 & (before & e & after & Hh & Hoff & Hon) & Hgp).
  change (instant_add (base_instant c) (load c w) = Some t) in Ht.
  unfold instant_add in Ht. destruct (_ <? _); [|done]. injection Ht as Ht.
  destruct after as [|last after] using rev_ind.
  - apply app_inj_tail in Hh as [_ [= Hlast _]]. left. lia.
  - rewrite app_comm_cons, app_assoc in Hh. apply app_inj_tail in Hh as [Hh _].
    apply Forall_app in Hon as [Hon _].
    destruct (stamped_split _ _ _ _ _ _ _ _ _ _ Hr Hh Hon) as (pre & mid & m1 & w2 & -> & -> & Hr2 & Hmid).
    right. exists pre, e, mid. split; [done|]. split; [done|]. split; [done|].
    pose proof (load_after c mid m1 w2 m w Hr2). change (os_instant w0) with (base_instant c) in Ht. lia.
Qed.
