(* ===== verification/Ipc.v ===== *)
(** The daemon's control socket: the length-prefixed frames of src/ipc/protocol.rs
    and the access control and worker limit of src/ipc/server.rs.

    A stream is the list of its bytes; socket errors other than the end of the
    stream are not modelled.  The JSON encoding is a parameter ([to_vec] and
    [from_slice] of serde_json).  The worker limit is a step relation over the
    accesses to the shared counter.

    The theorems: frames written one after another are read back one by one, a
    reader never accepts more than the limit, the handler runs only for the
    commands a caller's role allows, and no interleaving exceeds the limit of four
    workers. *)
From Stdlib Require Import Ascii String.
From stdpp Require Import relations.
From S2P Require Import Prelude Domain Pipeline.

Inductive Command :=
| Ping
| TriggerClean (params : CleanParams)
| GetStatus
| GetStats
| GetIdleAssessment
| GetJobStatus (job : N)
| Cancel
| ReloadConfig
| StopDaemon.

(** ** Frames (protocol.rs) *)

Definition MAX_IPC_FRAME_SIZE : N := 2 * 1024 * 1024.

(** [u32::to_be_bytes] and [u32::from_be_bytes] *)
Definition to_be_bytes (n : N) : list N :=
  [n / 16777216 mod 256; n / 65536 mod 256; n / 256 mod 256; n mod 256].
Definition from_be_bytes (l : list N) : N := fold_left (fun acc b => acc * 256 + b) l 0.

(** [Read::read_exact] on the rest of a stream. *)
Definition read_exact (n : nat) (stream : list N) : result CleanerError (list N) * list N :=
  if (length stream <? n)%nat then (Err (Io UnexpectedEof), [])
  else (Ok (take n stream), drop n stream).

Section frames.
Context {T : Type} (to_vec : T -> result string (list N)) (from_slice : list N -> result string T).

(** The bytes put on the stream. *)
Definition send_message (message : T) : result CleanerError (list N) :=
  match to_vec message with
  | Err e => Err (Json e)
  | Ok payload =>
      let len := N.of_nat (length payload) in
      if MAX_IPC_FRAME_SIZE <? len then
        Err (Ipc ("Outgoing message size " +:+ pretty len +:+ " exceeded 64KB safety limit"))
      else Ok (to_be_bytes (len mod 4294967296) ++ payload)
  end.

(** The message and the rest of the stream. *)
Definition read_message (stream : list N) : result CleanerError T * list N :=
  let '(hdr, rest) := read_exact 4 stream in
  match hdr with
  | Err e => (Err e, rest)
  | Ok len_buf =>
      let len := from_be_bytes len_buf in
      if MAX_IPC_FRAME_SIZE <? len then
        (Err (Ipc ("Payload size " +:+ pretty len +:+ " exceeded 64KB safety limit")), rest)
      else
        let '(body, rest) := read_exact (N.to_nat len) rest in
        match body with
        | Err e => (Err e, rest)
        | Ok payload =>
            match from_slice payload with
            | Err e => (Err (Json e), rest)
            | Ok obj => (Ok obj, rest)
            end
        end
  end.
End frames.

(** ** Access control (server.rs) *)

Definition is_uid_allowed (current_uid uid : N) : bool :=
  (uid =? current_uid) || (uid =? 0) || (uid =? 1000) || (uid =? 2000).

Definition is_command_authorized (caller_uid : N) (cmd : Command) : bool :=
  if caller_uid =? 0 then true
  else match cmd with
       | GetStatus | GetStats | GetIdleAssessment | GetJobStatus _ | Ping =>
           (caller_uid =? 1000) || (caller_uid =? 2000)
       | TriggerClean params =>
           if negb (cp_deep params) && negb (cp_trim params) then caller_uid =? 1000 else false
       | _ => false
       end.

(** What a connection gets: [accept_and_handle] up to the answer. *)
Inductive Answer :=
| Rejected (msg : string)
| Dropped
| Handled (cmd : Command).

(** [peer] is [get_peer_uid], [acquired] the outcome of the worker limiter. *)
Definition handle_connection (from_slice : list N -> result string Command) (current_uid : N)
    (peer : option N) (acquired : bool) (stream : list N) : Answer :=
  match peer with
  | Some uid =>
      if is_uid_allowed current_uid uid then
        if negb acquired then Rejected "Daemon IPC busy, please retry shortly"
        else match fst (read_message from_slice stream) with
             | Ok cmd =>
                 if negb (is_command_authorized uid cmd) then
                   Rejected "Permission denied: Insufficient privileges for this command"
                 else Handled cmd
             | Err _ => Dropped
             end
      else Rejected "Unauthorized caller UID"
  | None => Rejected "Unauthorized caller UID"
  end.

(** ** The worker limit (server.rs) *)

Definition MAX_CONCURRENT_IPC_WORKERS : N := 4.

(** Where a connection is in the limiter: before the load, in the loop with the
    value it last saw, with its guard, or without one. *)
Inductive Limiter := Loading | Trying (current : N) | Guarded_ | Refused | Released.

#[export] Instance Limiter_eq_dec : EqDecision Limiter.
Proof. solve_decision. Defined.

(** One access of one connection to [active_workers]; the weak exchange may fail
    spuriously. *)
Inductive limiter_access : N -> Limiter -> N -> Limiter -> Prop :=
| access_load n : limiter_access n Loading n (Trying n)
| access_full n current :
    MAX_CONCURRENT_IPC_WORKERS <= current -> limiter_access n (Trying current) n Refused
| access_exchange n :
    n < MAX_CONCURRENT_IPC_WORKERS -> limiter_access n (Trying n) (n + 1) Guarded_
| access_exchange_fails n current :
    current < MAX_CONCURRENT_IPC_WORKERS -> limiter_access n (Trying current) n (Trying n)
| access_drop n : limiter_access n Guarded_ (wrap_sub n 1) Released.

Inductive limiter_step : N * list Limiter -> N * list Limiter -> Prop :=
| limiter_step_one n n' l l' before after :
    limiter_access n l n' l' ->
    limiter_step (n, before ++ l :: after) (n', before ++ l' :: after).

(** ** Lemmas *)

Lemma be_bytes_round_trip n : n < 4294967296 -> from_be_bytes (to_be_bytes n) = n.
Proof.
  intros Hn. unfold from_be_bytes, to_be_bytes. cbn [fold_left].
  pose proof (N.div_mod n 256 ltac:(lia)) as E0.
  pose proof (N.div_mod (n / 256) 256 ltac:(lia)) as E1.
  pose proof (N.div_mod (n / 256 / 256) 256 ltac:(lia)) as E2.
  rewrite N.Div0.div_div in E1, E2. rewrite N.Div0.div_div in E2.
  change (256 * 256) with 65536 in *. change (65536 * 256) with 16777216 in *.
  change (256 * 65536) with 16777216 in *.
  assert (n / 16777216 < 256) as Hs by (apply N.Div0.div_lt_upper_bound; lia).
  rewrite (N.mod_small (n / 16777216)) by done. lia.
Qed.

Lemma read_exact_app n l rest : length l = n -> read_exact n (l ++ rest) = (Ok l, rest).
Proof.
  intros <-. unfold read_exact. rewrite length_app.
  rewrite (proj2 (Nat.ltb_ge _ _)) by lia. by rewrite take_app_length, drop_app_length.
Qed.

Section read_back.
Context {T : Type} (to_vec : T -> result string (list N)) (from_slice : list N -> result string T).

Lemma read_sent m bytes rest :
  send_message to_vec m = Ok bytes ->
  (forall p, to_vec m = Ok p -> from_slice p = Ok m) ->
  read_message from_slice (bytes ++ rest) = (Ok m, rest).
Proof.
  unfold send_message. destruct (to_vec m) as [p|]; [|done].
  destruct (MAX_IPC_FRAME_SIZE <? N.of_nat (length p)) eqn:El; [done|]. intros Hb Hrt.
  assert (bytes = to_be_bytes (N.of_nat (length p) mod 4294967296) ++ p) as -> by congruence.
  apply N.ltb_ge in El. unfold MAX_IPC_FRAME_SIZE in El.
  rewrite (N.mod_small (N.of_nat (length p))) by lia.
  unfold read_message. rewrite <- app_assoc, (read_exact_app 4) by done.
  rewrite be_bytes_round_trip by lia.
  rewrite (proj2 (N.ltb_ge MAX_IPC_FRAME_SIZE _)) by (unfold MAX_IPC_FRAME_SIZE; lia).
  rewrite read_exact_app by lia. by rewrite Hrt.
Qed.

(** A message that was cut off is never read. *)
Lemma read_cut m bytes n :
  send_message to_vec m = Ok bytes -> (n < length bytes)%nat ->
  exists e, fst (read_message from_slice (take n bytes)) = Err e.
Proof.
  unfold send_message. destruct (to_vec m) as [p|]; [|done].
  destruct (MAX_IPC_FRAME_SIZE <? N.of_nat (length p)) eqn:El; [done|]. intros Hb Hn.
  assert (bytes = to_be_bytes (N.of_nat (length p) mod 4294967296) ++ p) as -> by congruence.
  apply N.ltb_ge in El. unfold MAX_IPC_FRAME_SIZE in El.
  rewrite (N.mod_small (N.of_nat (length p))) in * by lia.
  rewrite length_app in Hn. change (length (to_be_bytes _)) with 4%nat in Hn.
  unfold read_message. destruct (Nat.ltb_spec n 4) as [Hlt|Hge].
  - unfold read_exact at 1. rewrite length_take, length_app. change (length (to_be_bytes _)) with 4%nat.
    rewrite (proj2 (Nat.ltb_lt _ _)) by lia. by eexists.
  - rewrite take_app_ge by done. change (length (to_be_bytes _)) with 4%nat.
    rewrite (read_exact_app 4) by done. rewrite be_bytes_round_trip by lia.
    rewrite (proj2 (N.ltb_ge MAX_IPC_FRAME_SIZE _)) by (unfold MAX_IPC_FRAME_SIZE; lia).
    unfold read_exact. rewrite length_take, Nat2N.id, (proj2 (Nat.ltb_lt _ _)) by lia. by eexists.
Qed.
End read_back.

(** Sending several messages, reading as many. *)
Fixpoint send_all {T} (to_vec : T -> result string (list N)) (l : list T)
    : result CleanerError (list N) :=
  match l with
  | [] => Ok []
  | m :: l' => try! a := send_message to_vec m in try! b := send_all to_vec l' in Ok (a ++ b)
  end.

Fixpoint read_all {T} (from_slice : list N -> result string T) (n : nat) (stream : list N)
    : result CleanerError (list T) * list N :=
  match n with
  | O => (Ok [], stream)
  | S n' =>
      let '(r, rest) := read_message from_slice stream in
      match r with
      | Err e => (Err e, rest)
      | Ok m => let '(ms, rest) := read_all from_slice n' rest in
                ((try! ms := ms in Ok (m :: ms)), rest)
      end
  end.

(** The guards in existence. *)
Definition guards (l : list Limiter) : N := N.of_nat (length (filter (fun c => c = Guarded_) l)).

Lemma guards_split before c after :
  guards (before ++ c :: after) =
  guards before + guards after + (if decide (c = Guarded_) then 1 else 0).
Proof.
  unfold guards. rewrite filter_app, filter_cons, length_app. case_decide; simpl; lia.
Qed.

Definition limiter_inv (s : N * list Limiter) : Prop :=
  fst s = guards (snd s) /\ fst s <= MAX_CONCURRENT_IPC_WORKERS.

Lemma limiter_inv_step s s' : limiter_inv s -> limiter_step s s' -> limiter_inv s'.
Proof.
  intros [Hc Hm] Hs. destruct Hs as [n n' l l' before after Ha]. unfold limiter_inv in *.
  simpl in *. rewrite guards_split in *. unfold MAX_CONCURRENT_IPC_WORKERS in *.
  destruct Ha; repeat case_decide; try done; unfold MAX_CONCURRENT_IPC_WORKERS in *; try lia.
  unfold wrap_sub. change (1 mod U64_MOD) with 1.
  assert ((n + (U64_MOD - 1)) mod U64_MOD = n - 1) as ->; [|lia].
  replace (n + (U64_MOD - 1)) with ((n - 1) + 1 * U64_MOD) by (unfold U64_MOD, U64_MAX; lia).
  rewrite N.Div0.mod_add. apply N.mod_small. unfold U64_MOD, U64_MAX. lia.
Qed.

(** ** Properties *)

(** C36 Frames round trip: messages that were sent one after another are read back
    one by one, each exactly, and the reader stops where the last frame ends;
    serde_json is assumed to decode what it encoded, message by message. *)
Theorem frames_round_trip {T} to_vec from_slice (l : list T) bytes rest :
  (forall m p, m ∈ l -> to_vec m = Ok p -> from_slice p = Ok m) ->
  send_all to_vec l = Ok bytes ->
  read_all from_slice (length l) (bytes ++ rest) = (Ok l, rest).
Proof.
  revert bytes. induction l as [|m l IH]; intros bytes Hrt; simpl; [by intros [= <-]|].
  destruct (send_message to_vec m) as [a|] eqn:Ea; simpl; [|done].
  destruct (send_all to_vec l) as [b|] eqn:Eb; simpl; [|done]. intros [= <-].
  rewrite <- app_assoc, (read_sent to_vec _ m); [|done|].
  - rewrite IH; [done| |done]. intros m' p Hm'. apply Hrt. by right.
  - intros p. apply Hrt. left.
Qed.

(** One byte per message. *)
Lemma frames_round_trip_witness :
  let enc (n : N) : result string (list N) := Ok [n] in
  let dec (l : list N) : result string N :=
    match l with [n] => Ok n | _ => Err "trailing characters" end in
  read_all dec 2 ([0; 0; 0; 1; 7] ++ [0; 0; 0; 1; 9] ++ [1; 2]) = (Ok [7; 9], [1; 2]).
Proof.
  intros enc dec.
  apply (frames_round_trip enc dec [7; 9] ([0; 0; 0; 1; 7] ++ [0; 0; 0; 1; 9]) [1; 2]).
  - intros m p _ [= <-]. reflexivity.
  - vm_compute. reflexivity.
Defined.

(** Whatever bytes a peer sends, a message is accepted only from a complete
    frame within the limit: the reader has consumed the four length bytes and
    exactly the announced payload, at most 2 MiB, and an announced length above
    that is refused before any of the payload is read. *)
Theorem read_message_bounded {T} (from_slice : list N -> result string T) stream :
  match read_message from_slice stream with
  | (Ok m, rest) => exists hdr payload, stream = hdr ++ payload ++ rest /\ length hdr = 4%nat /\
      from_be_bytes hdr = N.of_nat (length payload) /\
      N.of_nat (length payload) <= MAX_IPC_FRAME_SIZE /\ from_slice payload = Ok m
  | (Err e, rest) =>
      (4 <= length stream)%nat -> MAX_IPC_FRAME_SIZE < from_be_bytes (take 4 stream) ->
      (exists msg, e = Ipc msg) /\ rest = drop 4 stream
  end.
Proof.
  unfold read_message, read_exact at 1.
  destruct (length stream <? 4)%nat eqn:E4; [apply Nat.ltb_lt in E4; intros; lia|].
  apply Nat.ltb_ge in E4. destruct (MAX_IPC_FRAME_SIZE <? _) eqn:El.
  { intros _ _. split; [by eexists|done]. }
  apply N.ltb_ge in El. unfold read_exact.
  destruct (length (drop 4 stream) <? _)%nat eqn:Ep; [intros; lia|].
  apply Nat.ltb_ge in Ep. set (len := from_be_bytes (take 4 stream)) in *.
  destruct (from_slice (take (N.to_nat len) (drop 4 stream))) as [m|] eqn:Ej; [|intros; lia].
  exists (take 4 stream), (take (N.to_nat len) (drop 4 stream)).
  assert (length (take (N.to_nat len) (drop 4 stream)) = N.to_nat len) as Hl
    by (rewrite length_take; lia).
  rewrite Hl, N2Nat.id. split; [by rewrite !take_drop|]. split; [rewrite length_take; lia|]. done.
Qed.

Lemma read_message_bounded_witness :
  (exists msg, fst (read_message (fun _ => Ok tt) [255; 255; 255; 255; 1]) = Err (Ipc msg)) /\
  snd (read_message (fun _ => Ok tt) [255; 255; 255; 255; 1]) = [1].
Proof.
  pose proof (read_message_bounded (fun _ => Ok tt) [255; 255; 255; 255; 1]) as Hb.
  destruct (read_message (fun _ => Ok tt) [255; 255; 255; 255; 1]) as [[u|e] rest] eqn:E;
    [vm_compute in E; discriminate E|].
  destruct (Hb ltac:(simpl; lia) ltac:(vm_compute; reflexivity)) as [[msg ->] ->].
  split; [by exists msg|reflexivity].
Defined.

(** Least privilege: whatever a peer sends, the handler gets a command only if
    the kernel named the peer's uid and that uid is root, or it is system or shell
    asking for a read-only query, or it is system asking for a clean that is
    neither deep nor trimming.  Stopping, reloading, cancelling, deep cleans and
    trims are root's alone. *)
Theorem handler_needs_privilege from_slice current peer acquired stream cmd :
  handle_connection from_slice current peer acquired stream = Handled cmd ->
  acquired = true /\ fst (read_message from_slice stream) = Ok cmd /\
  exists uid, peer = Some uid /\
    (uid = 0 \/
     (uid = 1000 /\ exists p, cmd = TriggerClean p /\ cp_deep p = false /\ cp_trim p = false) \/
     ((uid = 1000 \/ uid = 2000) /\
      (cmd ∉ [Cancel; ReloadConfig; StopDaemon]) /\ forall p, cmd <> TriggerClean p)).
Proof.
  unfold handle_connection. destruct peer as [uid|]; [|done].
  destruct (is_uid_allowed current uid); [|done]. destruct acquired; [simpl|done].
  destruct (fst (read_message from_slice stream)) as [c|]; [|done].
  destruct (is_command_authorized uid c) eqn:Ea; [|done]. intros [= <-].
  split; [done|]. split; [done|]. exists uid. split; [done|]. revert Ea.
  unfold is_command_authorized. destruct (N.eqb_spec uid 0) as [|_]; [by left|].
  rewrite !elem_of_cons, elem_of_nil.
  destruct c as [|p| | | |j| | |]; rewrite ?orb_true_iff, ?N.eqb_eq; try done;
    try (intros Hu; right; right; naive_solver).
  destruct (cp_deep p) eqn:E1, (cp_trim p) eqn:E2; simpl; try done.
  rewrite N.eqb_eq. intros ->. right. left. naive_solver.
Qed.

Lemma handler_needs_privilege_witness :
  exists uid, Some 2000 = Some uid /\
    (uid = 0 \/
     (uid = 1000 /\ exists p, Ping = TriggerClean p /\ cp_deep p = false /\ cp_trim p = false) \/
     ((uid = 1000 \/ uid = 2000) /\
      (Ping ∉ [Cancel; ReloadConfig; StopDaemon]) /\ forall p, Ping <> TriggerClean p)).
Proof.
  apply (handler_needs_privilege (fun _ => Ok Ping) 0 (Some 2000) true [0; 0; 0; 0] Ping).
  vm_compute. reflexivity.
Defined.

(** The worker limit: in every state any number of connections can reach, however
    their accesses to the counter and the drops of their guards interleave and
    whichever weak exchanges fail, the counter equals the number of workers and is
    at most four. *)
Theorem worker_limit connections n l :
  rtc limiter_step (0, replicate connections Loading) (n, l) ->
  n = guards l /\ guards l <= MAX_CONCURRENT_IPC_WORKERS.
Proof.
  intros Hr.
  assert (limiter_inv (0, replicate connections Loading)) as Hi.
  { split; simpl; [|vm_compute; discriminate]. unfold guards.
    clear Hr. induction connections as [|k IH]; [done|]. simpl. rewrite filter_cons_False by done. exact IH. }
  assert (limiter_inv (n, l)) as [Hc Hm].
  { remember (n, l) as s' eqn:Es. clear Es. revert Hi.
    induction Hr as [|s1 s2 s3 Hs _ IH]; [done|]. eauto using limiter_inv_step. }
  simpl in *. subst n. done.
Qed.

Lemma worker_limit_witness : 1 = guards [Guarded_; Trying 0] /\ guards [Guarded_; Trying 0] <= 4.
Proof.
  apply (worker_limit 2 1 [Guarded_; Trying 0]).
  eapply rtc_l; [apply (limiter_step_one 0 0 Loading (Trying 0) [] [Loading]); constructor|].
  eapply rtc_l; [apply (limiter_step_one 0 0 Loading (Trying 0) [Trying 0] []); constructor|].
  eapply rtc_l; [apply (limiter_step_one 0 1 (Trying 0) Guarded_ [] [Trying 0]);
                 apply (access_exchange 0); vm_compute; reflexivity|].
  apply rtc_refl.
Defined.
