(* ===== verification/Psi.v ===== *)
(** Pressure stall information, src/system/psi.rs: the parser of /proc/pressure,
    the pressure level, and the watcher that registers two kernel triggers, names
    the level of a ready descriptor and limits how often the daemon responds.

    System calls are given by their outcomes: opening a trigger consumes the
    results of the writes, draining one the results of the reads. *)
From Stdlib Require Import Ascii String SpecFloat.
From S2P Require Import Prelude Domain Text.

Record PsiMetricSample := mkSample {
  avg10 : f32;
  avg60 : f32;
  avg300 : f32;
  total_us : N;
}.

Definition PsiMetricSample_default : PsiMetricSample := mkSample F32_ZERO F32_ZERO F32_ZERO 0.

Record PsiMetrics := mkMetrics { some : PsiMetricSample; full : option PsiMetricSample }.

Module Level.
Inductive t := Normal | Moderate | Critical.

#[global] Instance eq_dec : EqDecision t.
Proof. solve_decision. Defined.

(** The derived order is that of the declaration. *)
Definition rank (l : t) : N := match l with Normal => 0 | Moderate => 1 | Critical => 2 end.
Definition ge (a b : t) : bool := rank b <=? rank a.

Definition display (l : t) : string :=
  match l with
  | Normal => "Normal (Low Stall)"
  | Moderate => "Moderate (Elevated Stall)"
  | Critical => "Critical (Severe Stall / Thrashing)"
  end.
End Level.

(** ** Parsing *)

(** One [key=value] token; the flag is [parsed_any]. *)
Definition psi_token (st : PsiMetricSample * bool) (token : string) : PsiMetricSample * bool :=
  let '(s, parsed) := st in
  match str_split_once "="%char token with
  | None => st
  | Some (key, val) =>
      if String.eqb key "avg10" then
        match parse_f32 val with
        | Some v => (mkSample v (avg60 s) (avg300 s) (total_us s), true)
        | None => st
        end
      else if String.eqb key "avg60" then
        match parse_f32 val with
        | Some v => (mkSample (avg10 s) v (avg300 s) (total_us s), true)
        | None => st
        end
      else if String.eqb key "avg300" then
        match parse_f32 val with
        | Some v => (mkSample (avg10 s) (avg60 s) v (total_us s), true)
        | None => st
        end
      else if String.eqb key "total" then
        match parse_u64 val with
        | Some v => (mkSample (avg10 s) (avg60 s) (avg300 s) v, true)
        | None => st
        end
      else st
  end.

Definition parse_psi_line (line : string) : option PsiMetricSample :=
  let '(sample, parsed_any) :=
    fold_left psi_token (split_whitespace line) (PsiMetricSample_default, false) in
  if parsed_any : bool then Some sample else None.

(** A later line of the same kind replaces the sample of an earlier one. *)
Definition psi_content_line (st : option PsiMetricSample * option PsiMetricSample)
    (line : string) : option PsiMetricSample * option PsiMetricSample :=
  let trimmed := trim line in
  match strip_prefix trimmed "some " with
  | Some rest => (parse_psi_line rest, snd st)
  | None =>
      match strip_prefix trimmed "full " with
      | Some rest => (fst st, parse_psi_line rest)
      | None => st
      end
  end.

Definition parse_psi_content (content : string) : option PsiMetrics :=
  let '(some_sample, full_sample) := fold_left psi_content_line (lines content) (None, None) in
  match some_sample with
  | Some s => Some (mkMetrics s full_sample)
  | None => None
  end.

Definition parse_psi_file (sys : Sys) (path : string) : option PsiMetrics :=
  if negb (sy_exists sys path) then None
  else match read_to_string sys path with
       | Some content => parse_psi_content content
       | None => None
       end.

Definition is_psi_supported (sys : Sys) : bool := sy_exists sys "/proc/pressure/memory".
Definition read_memory_pressure (sys : Sys) : option PsiMetrics :=
  parse_psi_file sys "/proc/pressure/memory".
Definition read_io_pressure (sys : Sys) : option PsiMetrics :=
  parse_psi_file sys "/proc/pressure/io".
Definition read_cpu_pressure (sys : Sys) : option PsiMetrics :=
  parse_psi_file sys "/proc/pressure/cpu".

Definition evaluate_current_pressure_level (sys : Sys) : Level.t :=
  match read_memory_pressure sys with
  | Some mem =>
      if match full mem with Some f => f32_ge (avg10 f) (f32_of_Z 5) | None => false end
      then Level.Critical
      else if f32_ge (avg10 (some mem)) (f32_of_Z 10) then Level.Moderate
      else Level.Normal
  | None => Level.Normal
  end.

Record PsiDiagnostics := mkPsiDiagnostics {
  pd_is_supported : bool;
  pd_memory_metrics : option PsiMetrics;
  pd_io_metrics : option PsiMetrics;
  pd_cpu_metrics : option PsiMetrics;
  pd_current_level : string;
}.

Definition get_psi_diagnostics (sys : Sys) : PsiDiagnostics :=
  mkPsiDiagnostics (is_psi_supported sys) (read_memory_pressure sys) (read_io_pressure sys)
    (read_cpu_pressure sys) (Level.display (evaluate_current_pressure_level sys)).

(** ** The watcher *)

(** Instants are nanoseconds of the monotonic clock; that of an hour before boot
    is negative. *)
Record PsiWatcher := mkWatcher {
  moderate_fd : option Z;
  critical_fd : option Z;
  last_response : Z;
}.

(** A [write] or [read] that returned a count, or failed. *)
Inductive IoOutcome := Moved (n : N) | Failed (e : Errno).

(** Number 4, not one of the named errors. *)
Definition EINTR : Errno := EOther 4.

Inductive LoopEnd := Complete | Abandoned.

(** The loop of [open_psi_trigger]: [left] bytes are still to be written.  [None]
    when the outcomes given do not take it to its end. *)
Fixpoint write_trigger (left : N) (outcomes : list IoOutcome) : option LoopEnd :=
  if left =? 0 then Some Complete
  else match outcomes with
       | [] => None
       | Failed e :: l => if decide (e = EINTR) then write_trigger left l else Some Abandoned
       | Moved 0 :: _ => Some Abandoned
       | Moved n :: l => write_trigger (left - n) l
       end.

Definition trigger_spec (trigger_type : string) (stall_us window_us : N) : string :=
  trigger_type +:+ " " +:+ pretty stall_us +:+ " " +:+ pretty window_us +:+ String LF EmptyString.

(** The descriptor returned and the one closed. *)
Definition open_psi_trigger (sys : Sys) (path trigger_type : string) (stall_us window_us : N)
    (opened : option Z) (outcomes : list IoOutcome) : option (option Z * option Z) :=
  if negb (sy_exists sys path) then Some (None, None)
  else match opened with
       | None => Some (None, None)
       | Some fd =>
           match write_trigger (str_len (trigger_spec trigger_type stall_us window_us)) outcomes with
           | Some Complete => Some (Some fd, None)
           | Some Abandoned => Some (None, Some fd)
           | None => None
           end
       end.

(** [stall_ms] is a [u32], so the products fit. *)
Definition PsiWatcher_create (sys : Sys) (moderate_stall_ms critical_stall_ms : N)
    (open1 open2 : option Z) (outcomes1 outcomes2 : list IoOutcome) (now : Z)
    : option PsiWatcher :=
  match open_psi_trigger sys "/proc/pressure/memory" "some" (moderate_stall_ms * 1000) 1000000
          open1 outcomes1,
        open_psi_trigger sys "/proc/pressure/memory" "full" (critical_stall_ms * 1000) 1000000
          open2 outcomes2 with
  | Some (m, _), Some (c, _) => Some (mkWatcher m c (now - 3600 * 1000000000))
  | _, _ => None
  end.

Definition get_raw_fds (w : PsiWatcher) : list Z :=
  option_list (moderate_fd w) ++ option_list (critical_fd w).

Definition identify_fd (w : PsiWatcher) (fd : Z) : option Level.t :=
  if decide (Some fd = critical_fd w) then Some Level.Critical
  else if decide (Some fd = moderate_fd w) then Some Level.Moderate
  else None.

(** [Instant::elapsed] is zero when the instant is in the future. *)
Definition can_respond (w : PsiWatcher) (cooldown_secs : N) (now : Z) : bool :=
  cooldown_secs * 1000000000 <=? Z.to_N (now - last_response w).

Definition record_response (w : PsiWatcher) (now : Z) : PsiWatcher :=
  mkWatcher (moderate_fd w) (critical_fd w) now.

Definition drain_fd (w : PsiWatcher) (level : Level.t) : option Z :=
  match level with
  | Level.Critical => critical_fd w
  | Level.Moderate => moderate_fd w
  | Level.Normal => None
  end.

(** The reads of [drain_level]: what is left of the outcomes when it stops, [None]
    if it does not stop within them. *)
Fixpoint drain_reads (outcomes : list IoOutcome) : option (list IoOutcome) :=
  match outcomes with
  | [] => None
  | Failed e :: l => if decide (e = EINTR) then drain_reads l else Some l
  | Moved 0 :: l => Some l
  | Moved _ :: l => drain_reads l
  end.

Definition drain_level (w : PsiWatcher) (level : Level.t) (outcomes : list IoOutcome)
    : option (list IoOutcome) :=
  match drain_fd w level with
  | Some _ => drain_reads outcomes
  | None => Some outcomes
  end.

Definition PsiWatcher_drop (w : PsiWatcher) : list Z := get_raw_fds w.

(** ** Lemmas *)

(** What the kernel prints for one average: hundredths, at least two digits after
    the point. *)
Definition two_digits (n : N) : string := pretty (n / 10) +:+ pretty (n mod 10).
Definition show_avg (hundredths : N) : string :=
  pretty (hundredths / 100) +:+ "." +:+ two_digits (hundredths mod 100).

(** A line of /proc/pressure, without its terminator. *)
Record RawSample := mkRaw { r10 : N; r60 : N; r300 : N; rtotal : N }.
Definition show_sample (kind : string) (r : RawSample) : string :=
  kind +:+ " " +:+ ("avg10=" +:+ show_avg (r10 r)) +:+ " " +:+ ("avg60=" +:+ show_avg (r60 r))
    +:+ " " +:+ ("avg300=" +:+ show_avg (r300 r)) +:+ " " +:+ ("total=" +:+ pretty (rtotal r)).

(** The nearest [f32] to each average. *)
Definition of_hundredths (h : N) : f32 := f32_of_decimal false h (-2).
Definition sample_of (r : RawSample) : PsiMetricSample :=
  mkSample (of_hundredths (r10 r)) (of_hundredths (r60 r)) (of_hundredths (r300 r)) (rtotal r).

Lemma digits_head_sign s :
  digits s = true -> s <> EmptyString -> forall t, parse_sign (s +:+ t) = (false, s +:+ t).
Proof.
  destruct s as [|c s]; [done|]. cbn [str_all String.append parse_sign]. rewrite andb_true_iff.
  intros [Hc _] _ t. destruct (Ascii.eqb c "-"%char) eqn:E1.
  { apply Ascii.eqb_eq in E1. by subst c. }
  destruct (Ascii.eqb c "+"%char) eqn:E2; [|done]. apply Ascii.eqb_eq in E2. by subst c.
Qed.

Lemma digits_not_word s d w :
  digits s = true -> s <> EmptyString -> is_digit (ascii_lower d) = false ->
  forall t, eq_ignore_ascii_case (s +:+ t) (String d w) = false.
Proof.
  destruct s as [|c s]; [done|]. cbn [str_all String.append eq_ignore_ascii_case].
  rewrite andb_true_iff. intros [Hc _] _ Hd t.
  destruct (Ascii.eqb (ascii_lower c) (ascii_lower d)) eqn:E; [|done]. apply Ascii.eqb_eq in E.
  rewrite <- E in Hd. unfold ascii_lower in Hd.
  assert ((65 <=? byte_at c) && (byte_at c <=? 90) = false) as Eu.
  { unfold is_digit, digit_value in Hc.
    destruct ((48 <=? byte_at c) && (byte_at c <=? 57)) eqn:E2; [|done].
    rewrite andb_true_iff, andb_false_iff, !N.leb_le, !N.leb_gt in *. lia. }
  rewrite Eu in Hd. congruence.
Qed.

Lemma parse_show_avg h : parse_f32 (show_avg h) = Some (of_hundredths h).
Proof.
  destruct (pretty_spec (h / 100)) as (Hd & Hv & Hne).
  destruct (pretty_spec (h mod 100 / 10)) as (Hd1 & Hv1 & _).
  destruct (pretty_spec (h mod 100 mod 10)) as (Hd2 & Hv2 & _).
  pose proof (N.mod_lt (h mod 100) 10 ltac:(lia)) as Hb2.
  assert (h mod 100 / 10 < 10) as Hb1 by (apply N.Div0.div_lt_upper_bound, N.mod_lt; lia).
  pose proof (pretty_digit_length _ Hb1) as Hl1. pose proof (pretty_digit_length _ Hb2) as Hl2.
  assert (String.length (two_digits (h mod 100)) = 2%nat) as Hl
    by (unfold two_digits; by rewrite string_length_app, Hl1, Hl2).
  unfold parse_f32, show_avg. rewrite digits_head_sign by done.
  rewrite !digits_not_word by done. cbv beta iota zeta. cbn [orb].
  rewrite take_digits_app, Hv by done. cbn [String.append take_digits].
  change (digit_value ".") with (@None N). cbv iota beta.
  change (Ascii.eqb "." ".") with true. cbv iota.
  rewrite <- (string_app_nil_r (two_digits _)) at 1.
  rewrite take_digits_app; cycle 1.
  { unfold two_digits. by rewrite str_all_app, Hd1, Hd2. }
  rewrite Hl. cbn [take_digits]. cbv iota beta zeta.
  destruct (String.length (pretty (h / 100))) as [|k] eqn:Ek; [by destruct (pretty (h / 100))|].
  cbn [Nat.add parse_exponent]. unfold of_hundredths. f_equal. f_equal.
  unfold two_digits. rewrite dec_app, dec_shift, (dec_shift _ (pretty (_ / _))), Hl1, Hl2, Hv1, Hv2.
  pose proof (N.div_mod h 100 ltac:(lia)). pose proof (N.div_mod (h mod 100) 10 ltac:(lia)).
  cbn [N.of_nat Pos.of_succ_nat]. change (10 ^ 1) with 10. lia.
Qed.

Lemma show_avg_plain h : plain (show_avg h) = true.
Proof.
  unfold show_avg, two_digits. by rewrite !str_all_app, !pretty_plain.
Qed.

Lemma show_avg_printable h : printable (show_avg h) = true.
Proof. eapply str_all_impl; [apply plain_printable|apply show_avg_plain]. Qed.

Lemma parse_show_sample r :
  rtotal r <= U64_MAX ->
  parse_psi_line (("avg10=" +:+ show_avg (r10 r)) +:+ " " +:+ ("avg60=" +:+ show_avg (r60 r))
    +:+ " " +:+ ("avg300=" +:+ show_avg (r300 r)) +:+ " " +:+ ("total=" +:+ pretty (rtotal r)))
  = Some (sample_of r).
Proof.
  intros Ht. unfold parse_psi_line.
  rewrite !split_whitespace_cons by (rewrite ?str_all_app, ?show_avg_plain; done).
  rewrite split_whitespace_one by (rewrite ?str_all_app, ?pretty_plain; done).
  cbn [fold_left]. unfold psi_token. cbn [str_split_once String.append Ascii.eqb eqb].
  cbn [String.eqb Ascii.eqb eqb]. rewrite !parse_show_avg.
  unfold parse_u64. by rewrite parse_uint_pretty.
Qed.

Lemma show_sample_line kind c r :
  kind = String c "ome" \/ kind = String c "ull" -> is_plain c = true ->
  printable (show_sample kind r) = true /\ trim (show_sample kind r) = show_sample kind r.
Proof.
  intros Hk Hc.
  assert (exists s d, show_sample kind r = String c s +:+ String d EmptyString /\
    printable (String c s) = true /\ is_plain d = true) as (s & d & E & Hs & Hd).
  { destruct (pretty_spec (rtotal r)) as (Hd & _ & Hne).
    assert (exists s d, pretty (rtotal r) = s +:+ String d EmptyString /\ digits s = true
            /\ is_digit d = true) as (s & d & E & Hs & Hdd).
    { clear Hk. revert Hd Hne. induction (pretty (rtotal r)) as [|x l IH]; [done|].
      cbn [str_all]. rewrite andb_true_iff. intros [Hx Hl] _. destruct l as [|y l].
      - by exists EmptyString, x.
      - destruct (IH Hl ltac:(done)) as (s & d & E & ? & ?). exists (String x s), d.
        rewrite E. split; [done|]. split; [|done]. cbn [str_all]. by rewrite Hx. }
    pose proof (digit_plain _ Hdd). pose proof (str_all_impl _ _ _ digit_plain Hs) as Hs'.
    pose proof (plain_printable _ Hc) as Hcp.
    exists ((match kind with EmptyString => EmptyString | String _ t => t end) +:+ " " +:+
      ("avg10=" +:+ show_avg (r10 r)) +:+ " " +:+ ("avg60=" +:+ show_avg (r60 r)) +:+ " " +:+
      ("avg300=" +:+ show_avg (r300 r)) +:+ " " +:+ ("total=" +:+ s)), d.
    unfold show_sample. rewrite E. split.
    - destruct Hk as [-> | ->]; cbn [String.append];
        repeat (rewrite <- string_app_assoc; cbn [String.append]); reflexivity.
    - split; [|done]. cbn [str_all].
      rewrite Hcp, !str_all_app, !show_avg_printable, (str_all_impl _ _ s plain_printable) by done.
      by destruct Hk as [-> | ->]. }
  rewrite E. rewrite str_all_app, Hs. cbn [str_all]. rewrite (plain_printable _ Hd).
  split; [done|]. by apply trim_line.
Qed.

(** ** Properties *)

(** The parser reads what the kernel writes: from the two lines of
    /proc/pressure/memory, whatever their averages (in hundredths) and totals, it
    gets every field, each average as the nearest single-precision number. *)
Theorem psi_round_trip a b :
  rtotal a <= U64_MAX -> rtotal b <= U64_MAX ->
  parse_psi_content (unlines [show_sample "some" a; show_sample "full" b])
  = Some (mkMetrics (sample_of a) (Some (sample_of b))).
Proof.
  intros Ha Hb. unfold parse_psi_content.
  destruct (show_sample_line "some" "s" a ltac:(by left) ltac:(done)) as [Pa Ta].
  destruct (show_sample_line "full" "f" b ltac:(by right) ltac:(done)) as [Pb Tb].
  rewrite lines_unlines by (by repeat constructor). cbn [fold_left]. unfold psi_content_line.
  rewrite Ta, Tb. unfold show_sample at 1.
  cbn [strip_prefix String.append Ascii.eqb eqb]. unfold show_sample.
  cbn [strip_prefix String.append Ascii.eqb eqb fst snd].
  pose proof (parse_show_sample a Ha) as Ea. pose proof (parse_show_sample b Hb) as Eb.
  cbn [String.append] in Ea, Eb. by rewrite Ea, Eb.
Qed.

Lemma psi_round_trip_witness :
  let text := unlines ["some avg10=0.22 avg60=12.17 avg300=1.11 total=58761459"%string;
                       "full avg10=0.00 avg60=0.13 avg300=0.96 total=57979441"%string] in
  parse_psi_content text =
  Some (mkMetrics (sample_of (mkRaw 22 1217 111 58761459))
          (Some (sample_of (mkRaw 0 13 96 57979441)))).
Proof.
  apply (psi_round_trip (mkRaw 22 1217 111 58761459) (mkRaw 0 13 96 57979441)).
  - vm_compute. discriminate.
  - vm_compute. discriminate.
Defined.
