(* ===== verification/Hardware.v ===== *)
(** The hardware the daemon watches, src/hardware/: kernel uevents, the charger,
    battery and screen as /sys shows them (uevent.rs), and temperatures
    (thermal.rs).  Each query reads one [Sys].

    The theorems: a uevent datagram is parsed back into the message it was made
    from; an online power source always counts as charging; a temperature that is
    reported is within its range, but a reading in tenths of a degree below fifteen
    degrees is taken for whole degrees. *)
From Stdlib Require Import Ascii String SpecFloat.
From S2P Require Import Prelude Domain Text Idle.

(** ** Uevents (uevent.rs) *)

Record UeventMessage := mkUevent {
  action : string;
  devpath : string;
  subsystem : string;
  properties : gmap string string;
}.

Definition uevent_line (m : UeventMessage) (line : string) : UeventMessage :=
  match str_split_once "="%char line with
  | Some (k, v) =>
      if String.eqb k "ACTION" then mkUevent v (devpath m) (subsystem m) (properties m)
      else if String.eqb k "DEVPATH" then mkUevent (action m) v (subsystem m) (properties m)
      else if String.eqb k "SUBSYSTEM" then mkUevent (action m) (devpath m) v (properties m)
      else mkUevent (action m) (devpath m) (subsystem m) (<[k := v]> (properties m))
  | None => m
  end.

Definition UeventMessage_parse (buffer : string) : option UeventMessage :=
  if negb (is_utf8 buffer) then None
  else match filter (fun s => str_is_empty s = false) (str_split NUL buffer) with
       | [] => None
       | first_line :: rest =>
           let '(act, path) :=
             default (EmptyString, EmptyString) (str_split_once "@"%char first_line) in
           let m := fold_left uevent_line rest (mkUevent act path EmptyString ∅) in
           if str_is_empty (action m) && str_is_empty (subsystem m) && str_is_empty (devpath m)
           then None else Some m
       end.

(** [read_event]: one datagram, or nothing to read, an error or an empty one. *)
Definition read_event (datagram : option string) : option UeventMessage :=
  match datagram with
  | Some d => if str_is_empty d then None else UeventMessage_parse (String.substring 0 4096 d)
  | None => None
  end.

(** [read_events]: the datagrams queued, what was read and what is left. *)
Fixpoint read_events (queue : list string) : list UeventMessage * list string :=
  match queue with
  | [] => ([], [])
  | d :: queue' =>
      match read_event (Some d) with
      | Some ev => let '(evs, unread) := read_events queue' in (ev :: evs, unread)
      | None => ([], queue')
      end
  end.

(** ** The charger *)

Module Charger.
Inductive t := Charging | Discharging | Full | Unknown.
#[global] Instance eq_dec : EqDecision t.
Proof. solve_decision. Defined.

Definition is_charging (c : t) : bool := match c with Charging | Full => true | _ => false end.
End Charger.

Definition POWER_SUPPLY : string := "/sys/class/power_supply".

Section sensors.
Context `{UnicodeCase} (sys : Sys).

Definition is_power_source (type_upper : string) : bool :=
  str_contains type_upper "USB" || str_contains type_upper "AC"
  || str_contains type_upper "MAINS" || str_contains type_upper "WIRELESS"
  || str_contains type_upper "WIPOWER".

Definition is_battery (type_upper : string) : bool :=
  str_contains type_upper "BATTERY" || str_contains type_upper "BMS".

(** The status of a battery, folded into the status so far. *)
Definition battery_status (st : string) (so_far : Charger.t) : Charger.t :=
  if eq_ignore_ascii_case st "Charging" then Charger.Charging
  else if eq_ignore_ascii_case st "Full" then Charger.Full
  else if (eq_ignore_ascii_case st "Discharging" || eq_ignore_ascii_case st "Not charging")
          && bool_decide (so_far = Charger.Unknown) then Charger.Discharging
  else so_far.

(** The same for a device without a type. *)
Definition untyped_status (st : string) (so_far : Charger.t) : Charger.t :=
  if eq_ignore_ascii_case st "Charging" || String.eqb st "1" then Charger.Charging
  else if eq_ignore_ascii_case st "Full" then Charger.Full
  else if eq_ignore_ascii_case st "Discharging" && bool_decide (so_far = Charger.Unknown)
  then Charger.Discharging
  else so_far.

(** One entry of the directory: (is_online_power_source, battery_status). *)
Definition charger_entry (st : bool * Charger.t) (name : string) : bool * Charger.t :=
  let '(online, status) := st in
  let path := path_join POWER_SUPPLY name in
  if negb (sy_is_dir sys path) then st
  else match read_file_to_buf sys (path_join path "type") 64 with
       | Some supply_type =>
           let type_upper := to_uppercase (trim supply_type) in
           if is_power_source type_upper then
             match read_file_to_buf sys (path_join path "online") 16 with
             | Some v => ((if String.eqb (trim v) "1" then true else online), status)
             | None => st
             end
           else if is_battery type_upper then
             match read_file_to_buf sys (path_join path "status") 32 with
             | Some s => (online, battery_status (trim s) status)
             | None => st
             end
           else st
       | None =>
           match read_file_to_buf sys (path_join path "status") 32 with
           | Some s => (online, untyped_status (trim s) status)
           | None => st
           end
       end.

Definition fallback_status (path : string) : option Charger.t :=
  match read_file_to_buf sys path 32 with
  | Some content =>
      let t := trim content in
      if eq_ignore_ascii_case t "Charging" || String.eqb t "1" then Some Charger.Charging
      else if eq_ignore_ascii_case t "Discharging" || String.eqb t "0" then Some Charger.Discharging
      else if eq_ignore_ascii_case t "Full" then Some Charger.Full
      else None
  | None => None
  end.

Definition get_charger_state_fallback : Charger.t :=
  default Charger.Unknown (find_map fallback_status
    ["/sys/class/power_supply/battery/status"; "/sys/class/power_supply/bms/status";
     "/sys/class/power_supply/usb/online"; "/sys/class/power_supply/ac/online";
     "/sys/class/power_supply/main/online"]).

Definition get_charger_state : Charger.t :=
  if negb (sy_exists sys POWER_SUPPLY) then get_charger_state_fallback
  else
    let '(online, status) :=
      fold_left charger_entry (read_entries sys POWER_SUPPLY) (false, Charger.Unknown) in
    if online then
      (if decide (status = Charger.Full) then Charger.Full else Charger.Charging)
    else if decide (status = Charger.Unknown) then get_charger_state_fallback
    else status.

(** ** The battery *)

Definition read_capacity (path : string) : option N :=
  match read_file_to_buf sys path 16 with
  | Some content =>
      match parse_u8 (trim content) with
      | Some pct => if pct <=? 100 then Some pct else None
      | None => None
      end
  | None => None
  end.

Definition get_battery_percent : option N :=
  match find_map read_capacity
          ["/sys/class/power_supply/battery/capacity"; "/sys/class/power_supply/bms/capacity";
           "/sys/class/power_supply/qcom-battery/capacity"] with
  | Some pct => Some pct
  | None =>
      find_map (fun name => read_capacity (path_join (path_join POWER_SUPPLY name) "capacity"))
        (read_entries sys POWER_SUPPLY)
  end.

(** ** The screen *)

Definition on_if_positive (content : string) : option ScreenState.t :=
  match parse_u32 (trim content) with
  | Some v => Some (if 0 <? v then ScreenState.On else ScreenState.Off)
  | None => None
  end.

Definition backlight_state (name : string) : option ScreenState.t :=
  let p := path_join "/sys/class/backlight" name in
  let content := match read_file_to_buf sys (path_join p "actual_brightness") 32 with
                 | Some c => Some c
                 | None => read_file_to_buf sys (path_join p "brightness") 32
                 end in
  match content with Some c => on_if_positive c | None => None end.

Definition led_state (name : string) : option ScreenState.t :=
  if str_contains name "backlight" || str_contains name "lcd" || str_contains name "wled" then
    match read_file_to_buf sys (path_join (path_join "/sys/class/leds" name) "brightness") 32 with
    | Some c => on_if_positive c
    | None => None
    end
  else None.

Definition blank_state (path : string) : option ScreenState.t :=
  match read_file_to_buf sys path 32 with
  | Some c =>
      match parse_u32 (trim c) with
      | Some v => Some (if v =? 0 then ScreenState.On else ScreenState.Off)
      | None => None
      end
  | None => None
  end.

Definition dpms_state (name : string) : option ScreenState.t :=
  match read_file_to_buf sys (path_join (path_join "/sys/class/drm" name) "dpms") 32 with
  | Some c =>
      let t := trim c in
      if String.eqb t "0" || eq_ignore_ascii_case t "On" then Some ScreenState.On
      else if String.eqb t "3" || eq_ignore_ascii_case t "Off" then Some ScreenState.Off
      else None
  | None => None
  end.

(** [String::from_utf8_lossy] keeps the ASCII that is looked for. *)
Definition dumpsys_state : option ScreenState.t :=
  match sy_command sys "dumpsys" ["display"] with
  | Some text =>
      if str_contains text "mScreenState=ON" || str_contains text "state=ON"
         || str_contains text "Display State: ON" || str_contains text "Display Power: state=ON"
      then Some ScreenState.On
      else if str_contains text "mScreenState=OFF" || str_contains text "state=OFF"
              || str_contains text "Display State: OFF"
              || str_contains text "Display Power: state=OFF"
      then Some ScreenState.Off
      else None
  | None => None
  end.

Definition or_else {A} (a b : option A) : option A :=
  match a with Some x => Some x | None => b end.

Definition get_screen_state : ScreenState.t :=
  default ScreenState.Unknown
    (or_else (find_map backlight_state (read_entries sys "/sys/class/backlight"))
    (or_else (find_map led_state (read_entries sys "/sys/class/leds"))
    (or_else (find_map blank_state ["/sys/class/graphics/fb0/blank";
                                    "/sys/class/graphics/fb1/blank"])
    (or_else (find_map dpms_state (read_entries sys "/sys/class/drm"))
     dumpsys_state)))).

(** ** Temperatures (thermal.rs) *)

Record ThermalReport := mkThermal { max_soc_temp_c : f32; battery_temp_c : f32 }.

Definition normalize_temp (raw : f32) : f32 :=
  if f32_gt raw (f32_of_Z 1000) then f32_div raw (f32_of_Z 1000)
  else if f32_gt raw (f32_of_Z 150) then f32_div raw (f32_of_Z 10)
  else raw.

(** [val_str.trim().parse::<f32>()], normalized, if positive and below [limit]. *)
Definition read_temp (path : string) (limit : Z) : option f32 :=
  match read_file_to_buf sys path 64 with
  | Some val_str =>
      match parse_f32 (trim val_str) with
      | Some raw =>
          let temp_c := normalize_temp raw in
          if f32_gt temp_c F32_ZERO && f32_lt temp_c (f32_of_Z limit) then Some temp_c else None
      | None => None
      end
  | None => None
  end.

Definition battery_temp : f32 :=
  default F32_ZERO
    (or_else
      (find_map (fun name => read_temp (path_join (path_join POWER_SUPPLY name) "temp") 100)
         (read_entries sys POWER_SUPPLY))
      (find_map (fun path => read_temp path 100)
         ["/sys/class/power_supply/battery/temp"; "/sys/class/power_supply/bms/temp";
          "/sys/class/power_supply/main/temp"])).

Definition is_soc_zone (type_name : string) : bool :=
  existsb (str_contains type_name)
    ["cpu"; "soc"; "tsens"; "mtktscpu"; "cluster"; "ap-therm"; "exynos"; "tensor"; "gpu"].

(** One zone: (max_soc, fallback_max_temp). *)
Definition thermal_zone (st : f32 * f32) (name : string) : f32 * f32 :=
  if is_utf8 name && str_starts_with name "thermal_zone" then
    let path := path_join "/sys/class/thermal" name in
    let type_name :=
      to_lowercase (default EmptyString (read_file_to_buf sys (path_join path "type") 64)) in
    match read_temp (path_join path "temp") 120 with
    | Some temp_c =>
        if is_soc_zone type_name then
          (if f32_gt temp_c (fst st) then (temp_c, snd st) else st)
        else if f32_gt temp_c (snd st) then (fst st, temp_c) else st
    | None => st
    end
  else st.

Definition read_thermal : ThermalReport :=
  let '(max_soc, fallback_max_temp) :=
    fold_left thermal_zone (read_entries sys "/sys/class/thermal") (F32_ZERO, F32_ZERO) in
  mkThermal (if SFeqb max_soc F32_ZERO && f32_gt fallback_max_temp F32_ZERO
             then fallback_max_temp else max_soc)
    battery_temp.

(** ** A snapshot (telemetry.rs) *)

Record DeviceEnvironmentSnapshot := mkSnapshot {
  ds_screen : ScreenState.t;
  ds_charger : Charger.t;
  ds_soc_temp_c : f32;
  ds_battery_temp_c : f32;
  ds_is_charging : bool;
  ds_is_screen_off : bool;
}.

Definition capture : DeviceEnvironmentSnapshot :=
  let screen := get_screen_state in
  let charger := get_charger_state in
  let thermal := read_thermal in
  mkSnapshot screen charger (max_soc_temp_c thermal) (battery_temp_c thermal)
    (Charger.is_charging charger) (is_off screen).
End sensors.

(** ** Lemmas *)

Lemma find_map_spec {A B} (f : A -> option B) l b :
  find_map f l = Some b -> exists a, a ∈ l /\ f a = Some b.
Proof.
  induction l as [|x l IH]; simpl; [done|]. destruct (f x) as [y|] eqn:E.
  - intros [= <-]. exists x. split; [left|done].
  - intros Hb. destruct (IH Hb) as (a & ? & ?). exists a. split; [by right|done].
Qed.

(** A datagram: the header, then the assignments, each ended by a NUL. *)
Definition assignment (k v : string) : string := k +:+ "=" +:+ v.
Definition datagram (m : UeventMessage) (props : list (string * string)) : string :=
  foldr (fun s t => s +:+ String NUL t) EmptyString
    ((action m +:+ "@" +:+ devpath m) :: assignment "ACTION" (action m)
     :: assignment "DEVPATH" (devpath m) :: assignment "SUBSYSTEM" (subsystem m)
     :: map (fun kv => assignment (fst kv) (snd kv)) props).

Lemma str_contains_char_app c a b :
  str_contains_char c (a +:+ b) = str_contains_char c a || str_contains_char c b.
Proof. induction a as [|d a IH]; cbn [String.append str_contains_char]; [done|]. by rewrite IH, orb_assoc. Qed.

Lemma split_once_first c a b :
  str_contains_char c a = false -> str_split_once c (a +:+ String c b) = Some (a, b).
Proof.
  induction a as [|d a IH]; cbn [String.append str_contains_char str_split_once].
  - by rewrite Ascii.eqb_refl.
  - rewrite orb_false_iff. intros [-> Ha]. by rewrite IH.
Qed.

(** The pieces between NULs. *)
Lemma split_nul l :
  Forall (fun s => str_contains_char NUL s = false) l ->
  str_split NUL (foldr (fun s t => s +:+ String NUL t) EmptyString l) = l ++ [EmptyString].
Proof.
  induction 1 as [|s l Hs Hl IH]; [done|]. cbn [foldr]. by rewrite str_split_line, IH.
Qed.

(** Names that are not one of the three fields, and free of separators. *)
Definition is_property (kv : string * string) : Prop :=
  str_contains_char NUL (fst kv) = false /\ str_contains_char NUL (snd kv) = false /\
  str_contains_char "="%char (fst kv) = false /\
  fst kv ∉ ["ACTION"; "DEVPATH"; "SUBSYSTEM"]%string.

Lemma uevent_line_field m k v :
  str_contains_char "="%char k = false -> k ∉ ["ACTION"; "DEVPATH"; "SUBSYSTEM"]%string ->
  uevent_line m (assignment k v)
  = mkUevent (action m) (devpath m) (subsystem m) (<[k := v]> (properties m)).
Proof.
  intros Hk Hn. unfold uevent_line, assignment.
  change ("=" +:+ v) with (String "=" v). rewrite split_once_first by done.
  rewrite !not_elem_of_cons in Hn. destruct Hn as (H1 & H2 & H3 & _).
  by rewrite !(proj2 (String.eqb_neq _ _)).
Qed.

Lemma uevent_line_action m v :
  uevent_line m (assignment "ACTION" v) = mkUevent v (devpath m) (subsystem m) (properties m).
Proof. reflexivity. Qed.
Lemma uevent_line_devpath m v :
  uevent_line m (assignment "DEVPATH" v) = mkUevent (action m) v (subsystem m) (properties m).
Proof. reflexivity. Qed.
Lemma uevent_line_subsystem m v :
  uevent_line m (assignment "SUBSYSTEM" v) = mkUevent (action m) (devpath m) v (properties m).
Proof. reflexivity. Qed.

Lemma uevent_lines_properties props m :
  Forall is_property props ->
  fold_left uevent_line (map (fun kv => assignment (fst kv) (snd kv)) props) m
  = mkUevent (action m) (devpath m) (subsystem m)
      (fold_left (fun acc kv => <[fst kv := snd kv]> acc) props (properties m)).
Proof.
  intros Hp. revert m. induction Hp as [|kv props Hkv Hp IH]; intros m; [by destruct m|].
  destruct Hkv as (_ & _ & He & Hn). cbn [map fold_left]. by rewrite uevent_line_field, IH.
Qed.

Lemma fold_insert_map props (acc : gmap string string) :
  NoDup (map fst props) ->
  fold_left (fun acc kv => <[fst kv := snd kv]> acc) props acc = list_to_map props ∪ acc.
Proof.
  revert acc. induction props as [|[k v] props IH]; intros acc Hn; [by rewrite list_to_map_nil, (left_id_L ∅ (∪))|].
  cbn [map fst] in Hn. apply NoDup_cons in Hn as [Hk Hn]. cbn [fold_left fst snd].
  rewrite IH, list_to_map_cons by done. rewrite <- insert_union_r, insert_union_l; [done|].
  by apply not_elem_of_list_to_map.
Qed.

Lemma read_temp_range sys path limit t :
  read_temp sys path limit = Some t ->
  f32_gt t F32_ZERO = true /\ f32_lt t (f32_of_Z limit) = true.
Proof.
  unfold read_temp. destruct (read_file_to_buf sys path 64); [|done].
  destruct (parse_f32 _) as [raw|]; [|done].
  destruct (f32_gt (normalize_temp raw) F32_ZERO) eqn:E1; [|done].
  destruct (f32_lt (normalize_temp raw) (f32_of_Z limit)) eqn:E2; [|done]. by intros [= <-].
Qed.

(** Nothing was found, or a value within the range. *)
Definition in_range (limit : Z) (t : f32) : Prop :=
  t = F32_ZERO \/ (f32_gt t F32_ZERO = true /\ f32_lt t (f32_of_Z limit) = true).

Lemma thermal_zones_range `{UnicodeCase} sys l st :
  in_range 120 (fst st) -> in_range 120 (snd st) ->
  in_range 120 (fst (fold_left (thermal_zone sys) l st)) /\
  in_range 120 (snd (fold_left (thermal_zone sys) l st)).
Proof.
  revert st. induction l as [|name l IH]; intros st H1 H2; [done|]. cbn [fold_left].
  apply IH; unfold thermal_zone; destruct (is_utf8 name && _); try done;
    (destruct (read_temp sys _ 120) as [t|] eqn:E; [|done]);
    apply read_temp_range in E; (destruct (is_soc_zone _); case_match; try done; by right).
Qed.

Lemma charger_online_mono `{UnicodeCase} sys l st :
  fst st = true -> fst (fold_left (charger_entry sys) l st) = true.
Proof.
  revert st. induction l as [|name l IH]; intros [online status] Ho; [done|].
  cbn [fold_left]. apply IH. simpl in Ho. subst online. cbn.
  repeat (case_match; try done).
Qed.

(** ** Properties *)

(** A uevent is parsed back into the message its datagram was made from: the
    three fields and the map of its other properties, whatever they are, as long as
    the names are distinct, are not the three reserved ones, and nothing contains a
    separator. *)
Theorem uevent_round_trip m props :
  action m <> EmptyString ->
  str_contains_char NUL (action m) = false -> str_contains_char "@"%char (action m) = false ->
  str_contains_char NUL (devpath m) = false -> str_contains_char NUL (subsystem m) = false ->
  Forall is_property props -> NoDup (map fst props) -> properties m = list_to_map props ->
  is_utf8 (datagram m props) = true ->
  UeventMessage_parse (datagram m props) = Some m.
Proof.
  intros Ha Hna Hat Hnd Hns Hp Hnodup Hm Hu. unfold UeventMessage_parse. rewrite Hu. cbn [negb].
  unfold datagram. rewrite split_nul.
  2: { repeat (constructor; [unfold assignment;
         rewrite ?str_contains_char_app, ?Hna, ?Hnd, ?Hns; done|]).
       apply Forall_map. eapply Forall_impl; [exact Hp|]. intros kv (H1 & H2 & _).
       unfold compose, assignment. rewrite !str_contains_char_app. by rewrite H1, H2. }
  rewrite filter_app. change (filter _ [EmptyString]) with (@nil string). rewrite app_nil_r.
  rewrite filter_all.
  2: { apply Forall_forall. intros s Hi. rewrite !elem_of_cons in Hi.
       destruct Hi as [->|[->|[->|[->|Hi]]]]; try done; [by destruct (action m)|].
       apply list_elem_of_fmap in Hi as ([k v] & -> & _). unfold assignment. by destruct k. }
  change ("@" +:+ devpath m) with (String "@" (devpath m)). rewrite split_once_first by done.
  cbn [default fold_left from_option id]. cbv beta iota zeta. cbn [fold_left].
  rewrite uevent_line_action, uevent_line_devpath, uevent_line_subsystem.
  cbn [action devpath subsystem properties].
  rewrite uevent_lines_properties by done. cbn [action devpath subsystem properties].
  rewrite fold_insert_map by done. rewrite (right_id_L ∅ (∪)), <- Hm.
  destruct (action m) as [|c a] eqn:Ea; [done|]. cbn [str_is_empty andb]. rewrite <- Ea.
  by destruct m.
Qed.

Lemma uevent_round_trip_witness :
  let m := mkUevent "change" "/devices/battery" "power_supply"
             (list_to_map [("POWER_SUPPLY_ONLINE", "1"); ("SEQNUM", "42")])%string in
  UeventMessage_parse (datagram m [("POWER_SUPPLY_ONLINE", "1"); ("SEQNUM", "42")]%string) = Some m.
Proof.
  intros m. apply (uevent_round_trip m); try reflexivity.
  - discriminate.
  - repeat constructor; set_solver.
  - apply (bool_decide_unpack _). vm_compute. exact I.
Defined.

(** A power source that reports itself online counts as charging, whatever the
    batteries and the other supplies report and in whatever order they are listed. *)
Theorem online_source_is_charging `{UnicodeCase} sys name supply_type online :
  sy_exists sys POWER_SUPPLY = true -> name ∈ read_entries sys POWER_SUPPLY ->
  sy_is_dir sys (path_join POWER_SUPPLY name) = true ->
  read_file_to_buf sys (path_join (path_join POWER_SUPPLY name) "type") 64 = Some supply_type ->
  is_power_source (to_uppercase (trim supply_type)) = true ->
  read_file_to_buf sys (path_join (path_join POWER_SUPPLY name) "online") 16 = Some online ->
  trim online = "1"%string ->
  Charger.is_charging (get_charger_state sys) = true.
Proof.
  intros He Hn Hd Ht Hp Ho H1. unfold get_charger_state. rewrite He. cbn [negb].
  assert (fst (fold_left (charger_entry sys) (read_entries sys POWER_SUPPLY)
                 (false, Charger.Unknown)) = true) as Hon.
  { apply list_elem_of_split in Hn as (l1 & l2 & ->). rewrite fold_left_app.
    cbn [fold_left]. apply charger_online_mono.
    destruct (fold_left (charger_entry sys) l1 _) as [o s]. cbn [charger_entry].
    rewrite Hd, Ht, Hp, Ho, H1. done. }
  destruct (fold_left _ _ _) as [o s]. cbn in Hon. subst o. by case_decide.
Qed.

(** The temperatures reported are bounded: each is zero, when nothing usable was
    read, or above zero and below 120 degrees for the processor, 100 for the
    battery; no contents of the files, not even infinities and NaN, give another. *)
Theorem thermal_bounded `{UnicodeCase} sys :
  in_range 120 (max_soc_temp_c (read_thermal sys)) /\
  in_range 100 (battery_temp_c (read_thermal sys)).
Proof.
  unfold read_thermal.
  destruct (thermal_zones_range sys (read_entries sys "/sys/class/thermal") (F32_ZERO, F32_ZERO)
              ltac:(by left) ltac:(by left)) as [Hm Hf].
  destruct (fold_left _ _ _) as [m f]. cbn [fst snd max_soc_temp_c battery_temp_c] in *.
  split; [destruct (SFeqb m F32_ZERO); [destruct (f32_gt f F32_ZERO)|]; done|]. unfold battery_temp, or_else.
  destruct (find_map _ _) as [t|] eqn:E1.
  { apply find_map_spec in E1 as (n & _ & E1). right. by apply read_temp_range in E1. }
  clear E1. destruct (find_map _ _) as [t|] eqn:E2; [|by left].
  apply find_map_spec in E2 as (n & _ & E2). right. by apply read_temp_range in E2.
Qed.

(** The battery's temperature file holds tenths of a degree.  From 0.1 to 15 degrees
    the number is small enough to be taken for whole degrees: a battery at 3.9
    degrees reads hotter than one at 38, and from 10 to 15 degrees nothing is read. *)
Theorem cold_battery_reads_hot :
  let tenths n := normalize_temp (f32_of_Z n) in
  f32_gt (tenths 39%Z) (tenths 380%Z) = true /\ f32_gt (tenths 50%Z) (f32_of_Z 40) = true /\
  f32_lt (tenths 120%Z) (f32_of_Z 100) = false.
Proof. vm_compute. done. Qed.
