(* ===== verification/Metrics.v ===== *)
(** The daemon's own resource usage, src/system/proc_metrics.rs: the memory fields of
    /proc/<pid>/status and smaps_rollup, the processor ticks of /proc/<pid>/stat, and
    the tracker that turns ticks into a percentage. *)
From Stdlib Require Import Ascii String SpecFloat.
From S2P Require Import Prelude Domain Text.

Record ProcessMetrics := mkMetrics {
  cpu_usage_pct : f32;
  vm_size_bytes : N;
  rss_bytes : N;
  pss_bytes : N;
}.

(** The path in the 64-byte buffer, which every pid fits. *)
Definition proc_path (pid : option N) (file : string) : string :=
  match pid with
  | Some p => "/proc/" +:+ pretty p +:+ "/" +:+ file
  | None => "/proc/self/" +:+ file
  end.

Definition parse_kb_value (line : string) : N :=
  match split_ascii_whitespace line with
  | v :: _ => default 0 (parse_u64 v)
  | [] => 0
  end.

(** [parse_kb_value(..) * 1024] *)
Definition kb_to_bytes (kb : N) : N := (kb * 1024) mod U64_MOD.

Definition status_line (st : N * N) (line : string) : N * N :=
  match strip_prefix line "VmSize:" with
  | Some rest => (kb_to_bytes (parse_kb_value rest), snd st)
  | None =>
      match strip_prefix line "VmRSS:" with
      | Some rest => (fst st, kb_to_bytes (parse_kb_value rest))
      | None => st
      end
  end.

Definition read_proc_status_memory (sys : Sys) (pid : option N) : N * N :=
  match read_file_to_buf sys (proc_path pid "status") 2048 with
  | Some content => fold_left status_line (lines content) (0, 0)
  | None => (0, 0)
  end.

(** The state is [pss] and [rss_out]. *)
Definition smaps_line (st : N * N) (line : string) : N * N :=
  match strip_prefix line "Pss:" with
  | Some rest => (kb_to_bytes (parse_kb_value rest), snd st)
  | None =>
      match strip_prefix line "Rss:" with
      | Some rest =>
          let r := kb_to_bytes (parse_kb_value rest) in
          if 0 <? r then (fst st, r) else st
      | None => st
      end
  end.

(** The PSS, and the RSS that the caller goes on with. *)
Definition read_proc_smaps_rollup_pss (sys : Sys) (pid : option N) (rss : N) : N * N :=
  match read_file_to_buf sys (proc_path pid "smaps_rollup") 2048 with
  | Some content =>
      let '(pss, rss') := fold_left smaps_line (lines content) (0, rss) in
      if 0 <? pss then (pss, rss') else (rss', rss')
  | None => (rss, rss)
  end.

(** [rfind] and the fields after it: the 12th and the 13th. *)
Definition stat_ticks (content : string) : N :=
  match after_last ")"%char content with
  | Some rest =>
      let fields := split_ascii_whitespace rest in
      match fields !! 11%nat, fields !! 12%nat with
      | Some u, Some s => wrap_add (default 0 (parse_u64 u)) (default 0 (parse_u64 s))
      | _, _ => 0
      end
  | None => 0
  end.

Definition read_cpu_ticks (sys : Sys) (pid : option N) : N :=
  match read_file_to_buf sys (proc_path pid "stat") 2048 with
  | Some content => stat_ticks content
  | None => 0
  end.

(** ** The percentage *)

(** [f32::max(0.0)]: zero for a NaN. *)
Definition f32_max0 (a : f32) : f32 := if f32_gt a F32_ZERO then a else F32_ZERO.

(** [Duration::as_secs_f32] *)
Definition as_secs_f32 (nanos : N) : f32 :=
  f32_add (f32_of_Z (Z.of_N (nanos / 1000000000)))
    (f32_div (f32_of_Z (Z.of_N (nanos mod 1000000000))) (f32_of_Z 1000000000)).

Record CpuTracker := mkTracker {
  last_ticks : N;
  last_sample : N;
  clk_tck : f32;
}.

(** [sysconf] is what sysconf(_SC_CLK_TCK) returns. *)
Definition CpuTracker_new (sys : Sys) (sysconf : Z) (now : N) : CpuTracker :=
  mkTracker (read_cpu_ticks sys None) now
    (if (0 <? sysconf)%Z then f32_of_Z sysconf else f32_of_Z 100).

(** 0.05 *)
Definition MIN_ELAPSED : f32 := f32_div (f32_of_Z 5) (f32_of_Z 100).

(** [now] is when the elapsed time is measured, [now'] when the sample is dated. *)
Definition sample_cpu_pct (sys : Sys) (now now' : N) (t : CpuTracker) : f32 * CpuTracker :=
  let current_ticks := read_cpu_ticks sys None in
  let elapsed := as_secs_f32 (now - last_sample t) in
  if f32_lt elapsed MIN_ELAPSED then (F32_ZERO, t)
  else
    let delta_ticks := current_ticks - last_ticks t in
    let cpu_pct := f32_mul (f32_div (f32_div (f32_of_Z (Z.of_N delta_ticks)) (clk_tck t)) elapsed)
                     (f32_of_Z 100) in
    (f32_max0 cpu_pct, mkTracker current_ticks now' (clk_tck t)).

(** The global tracker is created at the first query. *)
Definition get_process_metrics (sys : Sys) (sysconf : Z) (now0 now now' : N)
    (tracker : option CpuTracker) : ProcessMetrics * option CpuTracker :=
  let '(cpu_pct, t) :=
    sample_cpu_pct sys now now' (default (CpuTracker_new sys sysconf now0) tracker) in
  let '(vm_size, rss) := read_proc_status_memory sys None in
  let '(pss, rss') := read_proc_smaps_rollup_pss sys None rss in
  (mkMetrics cpu_pct vm_size rss' pss, Some t).

Definition get_process_metrics_for_pid (sys : Sys) (pid : N) : ProcessMetrics :=
  let '(vm_size, rss) := read_proc_status_memory sys (Some pid) in
  let '(pss, rss') := read_proc_smaps_rollup_pss sys (Some pid) rss in
  mkMetrics F32_ZERO vm_size rss' pss.

(** ** Lemmas *)

Lemma split_ascii_plain a w s :
  plain a = true -> split_ascii_ws w (a +:+ s) = split_ascii_ws (string_rev_app a w) s.
Proof.
  revert w. induction a as [|c a IH]; intros w; cbn [str_all String.append split_ascii_ws]; [done|].
  rewrite andb_true_iff. intros [Hc Ha].
  assert (is_ascii_space c = false) as ->.
  { unfold is_plain, is_ascii_space in *. rewrite andb_true_iff, !N.leb_le in Hc.
    rewrite !orb_false_iff, !N.eqb_neq. lia. }
  by rewrite IH.
Qed.

(** Words with a space before each, and a line feed at the end. *)
Fixpoint words_line (l : list string) : string :=
  match l with
  | [] => String LF EmptyString
  | a :: l' => " " +:+ a +:+ words_line l'
  end.

Definition is_word (a : string) : Prop := plain a = true /\ a <> EmptyString.

Lemma split_words_after w l :
  is_word w -> Forall is_word l ->
  split_ascii_ws (string_rev_app w EmptyString) (words_line l) = w :: l.
Proof.
  intros Hw Hl. revert w Hw. induction Hl as [|a l [Ha Hne] Hl IH]; intros w [Hw Hn]; cbn [words_line].
  - change (split_ascii_ws (string_rev_app w EmptyString) (String LF EmptyString))
      with (push_word (string_rev_app w EmptyString) []). by rewrite push_word_rev.
  - change (" " +:+ a +:+ words_line l)%string with (String " " (a +:+ words_line l)).
    cbn [split_ascii_ws]. change (is_ascii_space " ") with true. cbv iota.
    rewrite split_ascii_plain, IH by done. by rewrite push_word_rev.
Qed.

Lemma split_words_line l : Forall is_word l -> split_ascii_whitespace (words_line l) = l.
Proof.
  intros Hl. destruct Hl as [|a l Ha Hl]; [done|].
  change (split_ascii_ws EmptyString (a +:+ words_line l) = a :: l).
  destruct Ha as [Ha Hne]. rewrite split_ascii_plain by done. by apply split_words_after.
Qed.

Definition without (c : ascii) : string -> bool := str_all (fun d => negb (Ascii.eqb c d)).

Lemma after_last_none c s : without c s = true -> after_last c s = None.
Proof.
  induction s as [|d s IH]; [done|]. cbn. rewrite andb_true_iff, negb_true_iff.
  intros [-> Hs]. by rewrite IH.
Qed.

Lemma after_last_app c a b : without c b = true -> after_last c (a +:+ String c b) = Some b.
Proof.
  intros Hb. induction a as [|d a IH]; cbn [String.append after_last].
  - by rewrite after_last_none, Ascii.eqb_refl.
  - by rewrite IH.
Qed.

Lemma without_words c l :
  c <> " "%char -> c <> LF -> Forall (fun a => without c a = true) l ->
  without c (words_line l) = true.
Proof.
  intros Hs Hl. induction 1 as [|a l Ha _ IH]; cbn [words_line].
  - unfold without. cbn [str_all]. destruct (Ascii.eqb_spec c LF); done.
  - change (" " +:+ a +:+ words_line l)%string with (String " " (a +:+ words_line l)).
    unfold without in *. cbn [str_all]. rewrite str_all_app, Ha, IH.
    by destruct (Ascii.eqb_spec c " ").
Qed.

Lemma pretty_without (n : N) : without ")" (pretty n) = true.
Proof.
  destruct (pretty_spec n) as [Hd _]. eapply str_all_impl; [|exact Hd].
  intros c Hc. destruct (Ascii.eqb_spec ")" c) as [<-|]; [|done]. vm_compute in Hc. discriminate.
Qed.

Lemma pretty_word (n : N) : is_word (pretty n).
Proof. split; [apply pretty_plain|]. by destruct (pretty_spec n) as (_ & _ & Hn). Qed.

Lemma substring_whole s n : (String.length s <= n)%nat -> String.substring 0 n s = s.
Proof.
  revert n. induction s as [|c s IH]; intros [|n] Hn; cbn in *; try done; [lia|].
  rewrite IH by lia. done.
Qed.

(** ** Properties *)

(** A field of the line after the command's name. *)
Definition is_field (a : string) : Prop := is_word a /\ without ")" a = true.

(** The ticks are read from the right fields whatever the process is called: the
    name in /proc/<pid>/stat may itself contain spaces, parentheses and digits, and
    the sum of utime and stime is found all the same. *)
Theorem cpu_ticks_exact sys pid head comm fields utime stime rest content :
  content = head +:+ "(" +:+ comm +:+ ")"
            +:+ words_line (fields ++ pretty utime :: pretty stime :: rest) ->
  sy_bytes sys (proc_path pid "stat") = Some content -> is_utf8 content = true ->
  (String.length content <= 2048)%nat -> length fields = 11%nat -> Forall is_field (fields ++ rest) ->
  utime <= U64_MAX -> stime <= U64_MAX ->
  read_cpu_ticks sys pid = wrap_add utime stime.
Proof.
  intros Hc Hb Hutf Hlen Hf Hall Hu Hs. unfold read_cpu_ticks, read_file_to_buf.
  rewrite Hb, substring_whole, Hutf by done. unfold stat_ticks.
  set (l := fields ++ pretty utime :: pretty stime :: rest) in *.
  assert (Forall is_field l) as Hl.
  { apply Forall_app in Hall as [H1 H2]. apply Forall_app. split; [done|].
    do 2 (constructor; [split; [apply pretty_word|apply pretty_without]|]). done. }
  assert (content = (head +:+ "(" +:+ comm) +:+ String ")" (words_line l))%string as ->.
  { rewrite Hc, !string_app_assoc, <- string_app_assoc. done. }
  rewrite after_last_app.
  2: { apply without_words; [done|done|]. eapply Forall_impl; [exact Hl|]. by intros a [_ ?]. }
  rewrite split_words_line by (eapply Forall_impl; [exact Hl|]; by intros a [? _]).
  unfold l. rewrite !lookup_app_r by lia. rewrite Hf. cbn.
  unfold parse_u64. by rewrite !parse_uint_pretty.
Qed.

Definition one_stat (content : string) : Sys :=
  mkSys (fun _ => true) (fun _ => false) (fun _ => Some content) (fun _ => None) (fun _ _ => false)
    (fun _ _ => None).

Definition odd_stat : string :=
  "42 (a) R 7 (b)) S 1 42 42 0 -1 4194560 100 0 0 0 250 31 0 0 20 0" +:+ String LF EmptyString.

Lemma cpu_ticks_exact_witness : read_cpu_ticks (one_stat odd_stat) None = 281.
Proof.
  apply (cpu_ticks_exact (one_stat odd_stat) None "42 " "a) R 7 (b)"
           ["S"; "1"; "42"; "42"; "0"; "-1"; "4194560"; "100"; "0"; "0"; "0"]%string 250 31
           ["0"; "0"; "20"; "0"]%string odd_stat).
  - vm_compute. reflexivity.
  - reflexivity.
  - vm_compute. reflexivity.
  - vm_compute. lia.
  - reflexivity.
  - repeat (constructor; [split; [split; [reflexivity|discriminate]|reflexivity]|]). constructor.
  - vm_compute. discriminate.
  - vm_compute. discriminate.
Defined.
