(* ===== verification/Freezer.v ===== *)
(** Frozen applications, src/system/freezer.rs, and the system properties
    (src/platform/android_prop.rs) that say whether freezing is on.

    The pipeline gives the files of frozen applications priority.  The theorems: on
    the unified hierarchy the set it uses and the state reported for one
    application agree; on the legacy one they need not, since the state of the root
    group is reported for every application. *)
From Stdlib Require Import Ascii String.
From S2P Require Import Prelude Domain Text.

Module FreezerState.
Inductive t := Frozen | Thawed | Freezing | Unsupported.
#[global] Instance eq_dec : EqDecision t.
Proof. solve_decision. Defined.

Definition display (s : t) : string :=
  match s with
  | Frozen => "Frozen" | Thawed => "Thawed / Active" | Freezing => "Freezing"
  | Unsupported => "Unsupported / Unknown"
  end.
End FreezerState.

(** ** System properties (android_prop.rs) *)

(** One line of a property file. *)
Definition prop_line (key line : string) : option string :=
  let trimmed := trim line in
  if str_starts_with trimmed "#" || str_is_empty trimmed then None
  else match str_split_once "="%char trimmed with
       | Some (k, v) => if String.eqb (trim k) key then Some (trim v) else None
       | None => None
       end.

Definition prop_file (sys : Sys) (key file : string) : option string :=
  match read_to_string sys file with
  | Some content => find_map (prop_line key) (lines content)
  | None => None
  end.

(** [bionic] is the property as the C library returns it, if it is not empty. *)
Definition get_property (sys : Sys) (bionic : string -> option string) (key : string)
    : option string :=
  match bionic key with
  | Some v => Some (trim v)
  | None =>
      match find_map (prop_file sys key)
              ["/system/build.prop"; "/vendor/build.prop"; "/product/build.prop";
               "/system_ext/build.prop"; "/default.prop"]%string with
      | Some v => Some v
      | None =>
          match sy_command sys "getprop" [key] with
          | Some out => let val := trim out in
                        if str_is_empty val then None else Some val
          | None => None
          end
      end
  end.

(** ** The freezer (freezer.rs) *)

Inductive FreezerVersion := V2 | V1 | NoFreezer.
#[export] Instance FreezerVersion_eq_dec : EqDecision FreezerVersion.
Proof. solve_decision. Defined.

Definition version_str (v : FreezerVersion) : string :=
  match v with V2 => "v2" | V1 => "v1" | NoFreezer => "none" end.

Definition CGROUP : string := "/sys/fs/cgroup".

Definition detect_freezer_version (sys : Sys) : FreezerVersion :=
  if sy_exists sys "/sys/fs/cgroup/cgroup.freeze" then V2
  else if existsb (fun name => str_starts_with name "uid_"
                    && sy_exists sys (path_join (path_join CGROUP name) "cgroup.freeze"))
            (read_entries sys CGROUP) then V2
  else if sy_exists sys "/dev/freezer" then V1
  else NoFreezer.

Definition is_freezer_supported (sys : Sys) : bool :=
  negb (bool_decide (detect_freezer_version sys = NoFreezer)).

Definition read_pids_from_file (sys : Sys) (path : string) : option (list N) :=
  if negb (sy_exists sys path) then None
  else match read_to_string sys path with
       | Some content => Some (omap (fun line => parse_u32 (trim line)) (lines content))
       | None => None
       end.

(** The first line that starts with [Uid:] and has a word decides. *)
Fixpoint uid_of_lines (l : list string) : option N :=
  match l with
  | [] => None
  | line :: l' =>
      match strip_prefix line "Uid:" with
      | Some rest =>
          match split_ascii_whitespace rest with
          | uid_str :: _ => parse_u32 uid_str
          | [] => uid_of_lines l'
          end
      | None => uid_of_lines l'
      end
  end.

Definition get_uid_of_pid (sys : Sys) (pid : N) : option N :=
  match read_to_string sys ("/proc/" +:+ pretty pid +:+ "/status") with
  | Some content => uid_of_lines (lines content)
  | None => None
  end.

(** The processes of the frozen group of the legacy hierarchy. *)
Definition v1_frozen_pids (sys : Sys) : list N :=
  default [] match read_pids_from_file sys "/dev/freezer/frozen/cgroup.procs" with
             | Some pids => Some pids
             | None => read_pids_from_file sys "/dev/freezer/frozen/tasks"
             end.

Definition uid_dir (name : string) : string := path_join CGROUP name.

Definition events_line (line : string) : option FreezerState.t :=
  let trimmed := trim line in
  if String.eqb trimmed "frozen 1" then Some FreezerState.Frozen
  else if String.eqb trimmed "frozen 0" then Some FreezerState.Thawed else None.

(** The events file, if it decides, then the freeze file. *)
Definition v2_state (sys : Sys) (uid : N) : FreezerState.t :=
  let uid_cgroup := uid_dir ("uid_" +:+ pretty uid) in
  let events_file := path_join uid_cgroup "cgroup.events" in
  let freeze_file := path_join uid_cgroup "cgroup.freeze" in
  let by_events :=
    if sy_exists sys events_file then
      match read_to_string sys events_file with
      | Some content => find_map events_line (lines content)
      | None => None
      end
    else None in
  match by_events with
  | Some s => s
  | None =>
      if sy_exists sys freeze_file then
        match read_to_string sys freeze_file with
        | Some content =>
            if String.eqb (trim content) "1" then FreezerState.Frozen
            else if String.eqb (trim content) "0" then FreezerState.Thawed
            else FreezerState.Unsupported
        | None => FreezerState.Unsupported
        end
      else FreezerState.Unsupported
  end.

(** The state of the root group, if readable, then the frozen group. *)
Definition v1_state (sys : Sys) (uid : N) : FreezerState.t :=
  let by_root :=
    if sy_exists sys "/dev/freezer/freezer.state" then
      match read_to_string sys "/dev/freezer/freezer.state" with
      | Some content =>
          let state_str := trim content in
          if String.eqb state_str "FROZEN" then Some FreezerState.Frozen
          else if String.eqb state_str "FREEZING" then Some FreezerState.Freezing
          else if String.eqb state_str "THAWED" then Some FreezerState.Thawed
          else None
      | None => None
      end
    else None in
  match by_root with
  | Some s => s
  | None =>
      if (sy_exists sys "/dev/freezer/frozen/cgroup.procs"
          || sy_exists sys "/dev/freezer/frozen/tasks")
         && existsb (fun pid => bool_decide (get_uid_of_pid sys pid = Some uid))
              (v1_frozen_pids sys)
      then FreezerState.Frozen else FreezerState.Unsupported
  end.

Definition get_uid_freezer_state (sys : Sys) (uid : N) : FreezerState.t :=
  match detect_freezer_version sys with
  | V2 => v2_state sys uid
  | V1 => v1_state sys uid
  | NoFreezer => FreezerState.Unsupported
  end.

Definition get_pid_freezer_state (sys : Sys) (pid : N) : FreezerState.t :=
  let by_uid := match get_uid_of_pid sys pid with
                | Some uid => get_uid_freezer_state sys uid
                | None => FreezerState.Unsupported
                end in
  match detect_freezer_version sys with
  | V2 =>
      let pid_events := path_join (uid_dir ("pid_" +:+ pretty pid)) "cgroup.events" in
      if sy_exists sys pid_events then
        match read_to_string sys pid_events with
        | Some content =>
            if str_contains content "frozen 1" then FreezerState.Frozen
            else if str_contains content "frozen 0" then FreezerState.Thawed
            else by_uid
        | None => by_uid
        end
      else by_uid
  | V1 => by_uid
  | NoFreezer => FreezerState.Unsupported
  end.

(** Whether the group in a directory is frozen, as the enumeration sees it. *)
Definition dir_is_frozen (sys : Sys) (name : string) : bool :=
  let events := path_join (uid_dir name) "cgroup.events" in
  let freeze := path_join (uid_dir name) "cgroup.freeze" in
  if sy_exists sys events then
    match read_file_to_buf sys events 64 with
    | Some content => str_contains content "frozen 1"
    | None => false
    end
  else if sy_exists sys freeze then
    match read_file_to_buf sys freeze 64 with
    | Some content => String.eqb (trim content) "1"
    | None => false
    end
  else false.

Definition entry_uid (name : string) : option N :=
  match strip_prefix name "uid_" with Some uid_str => parse_u32 uid_str | None => None end.

Definition enumerate_frozen_uids (sys : Sys) : gset N :=
  match detect_freezer_version sys with
  | V2 =>
      list_to_set (omap (fun name =>
        match entry_uid name with
        | Some uid => if dir_is_frozen sys name then Some uid else None
        | None => None
        end) (read_entries sys CGROUP))
  | V1 => list_to_set (omap (get_uid_of_pid sys) (v1_frozen_pids sys))
  | NoFreezer => ∅
  end.

Definition is_cached_apps_freezer_enabled `{UnicodeCase} (sys : Sys)
    (bionic : string -> option string) : bool :=
  let freezer_prop :=
    match get_property sys bionic "persist.sys.cached_apps_freezer" with
    | Some v => Some v
    | None => get_property sys bionic "ro.config.cached_apps_freezer"
    end in
  let fallback := negb (bool_decide (enumerate_frozen_uids sys = ∅)) in
  match freezer_prop with
  | Some val =>
      let v := to_lowercase val in
      if existsb (String.eqb v) ["true"; "1"; "device_default"; "force_frozen"]%string then true
      else if existsb (String.eqb v) ["false"; "0"; "disabled"]%string then false
      else fallback
  | None => fallback
  end.

Record FreezerDiagnostics := mkFreezerDiagnostics {
  fz_is_cached_apps_freezer_enabled : bool;
  fz_freezer_cgroup_version : string;
  fz_total_frozen_uids_count : nat;
  fz_frozen_uids : list N;
}.

Definition get_freezer_diagnostics `{UnicodeCase} (sys : Sys) (bionic : string -> option string)
    : FreezerDiagnostics :=
  let frozen_uids := sort_by N.compare (elements (enumerate_frozen_uids sys)) in
  mkFreezerDiagnostics (is_cached_apps_freezer_enabled sys bionic)
    (version_str (detect_freezer_version sys)) (length frozen_uids) frozen_uids.

(** ** Lemmas *)

Lemma strip_prefix_app p s : strip_prefix (p +:+ s) p = Some s.
Proof.
  induction p as [|c p IH]; cbn [strip_prefix String.append]; [by destruct s|].
  by rewrite Ascii.eqb_refl.
Qed.

(** What the kernel writes into cgroup.events. *)
Definition kernel_events (populated frozen : bool) : string :=
  unlines [if populated then "populated 1" else "populated 0";
           if frozen then "frozen 1" else "frozen 0"]%string.

Lemma elem_of_enumerate_v2 sys uid :
  detect_freezer_version sys = V2 ->
  uid ∈ enumerate_frozen_uids sys <->
  exists name, name ∈ read_entries sys CGROUP /\ entry_uid name = Some uid /\
    dir_is_frozen sys name = true.
Proof.
  intros Hv. unfold enumerate_frozen_uids. rewrite Hv, elem_of_list_to_set, list_elem_of_omap.
  split.
  - intros (name & Hn & E). destruct (entry_uid name) as [u|] eqn:Eu; [|done].
    destruct (dir_is_frozen sys name) eqn:Ef; [|done]. simplify_eq. by exists name.
  - intros (name & Hn & Eu & Ef). exists name. by rewrite Eu, Ef.
Qed.

(** ** Properties *)

(** On the unified hierarchy the two ways to ask agree: for an application whose
    group the directory lists and whose events file holds what the kernel writes,
    the set of frozen applications contains it exactly if its own state is Frozen. *)
Theorem frozen_views_agree sys uid populated frozen :
  detect_freezer_version sys = V2 -> uid < 4294967296 ->
  let name := "uid_" +:+ pretty uid in
  name ∈ read_entries sys CGROUP ->
  (forall name', name' ∈ read_entries sys CGROUP -> entry_uid name' = Some uid -> name' = name) ->
  sy_exists sys (path_join (uid_dir name) "cgroup.events") = true ->
  sy_bytes sys (path_join (uid_dir name) "cgroup.events") = Some (kernel_events populated frozen) ->
  get_uid_freezer_state sys uid = (if frozen then FreezerState.Frozen else FreezerState.Thawed) /\
  (uid ∈ enumerate_frozen_uids sys <-> get_uid_freezer_state sys uid = FreezerState.Frozen).
Proof.
  intros Hv Hu name Hin Huniq He Hb.
  assert (entry_uid name = Some uid) as Eu.
  { unfold entry_uid, name. rewrite strip_prefix_app. apply parse_uint_pretty. lia. }
  assert (get_uid_freezer_state sys uid
          = if frozen then FreezerState.Frozen else FreezerState.Thawed) as Es.
  { unfold get_uid_freezer_state, v2_state. rewrite Hv. fold name. rewrite He.
    unfold read_to_string. rewrite Hb. by destruct populated, frozen. }
  assert (dir_is_frozen sys name = frozen) as Ef.
  { unfold dir_is_frozen. rewrite He. unfold read_file_to_buf. rewrite Hb.
    by destruct populated, frozen. }
  split; [done|]. rewrite elem_of_enumerate_v2, Es by done. split.
  - intros (name' & Hn' & Eu' & Ef'). pose proof (Huniq _ Hn' Eu'). subst name'.
    by replace frozen with true by congruence.
  - intros Hs. exists name. split; [done|]. split; [done|]. by destruct frozen.
Qed.

(** A phone with one frozen application. *)
Definition one_frozen_app : Sys := mkSys
  (fun p => existsb (String.eqb p) ["/sys/fs/cgroup/cgroup.freeze";
                                    "/sys/fs/cgroup/uid_10123/cgroup.events"]%string)
  (fun _ => true)
  (fun p => if String.eqb p "/sys/fs/cgroup/uid_10123/cgroup.events"
            then Some (kernel_events true true) else None)
  (fun p => if String.eqb p CGROUP then Some ["uid_1000"; "uid_10123"]%string else None)
  (fun _ _ => false) (fun _ _ => None).

Lemma frozen_views_agree_witness :
  get_uid_freezer_state one_frozen_app 10123 = FreezerState.Frozen /\
  (10123 ∈ enumerate_frozen_uids one_frozen_app <->
   get_uid_freezer_state one_frozen_app 10123 = FreezerState.Frozen).
Proof.
  apply (frozen_views_agree one_frozen_app 10123 true true).
  - reflexivity.
  - lia.
  - right. left.
  - intros name' Hn E. assert (name' = "uid_1000" \/ name' = "uid_10123")%string as [-> | ->].
    { revert Hn. change (read_entries one_frozen_app CGROUP) with ["uid_1000"; "uid_10123"]%string.
      rewrite !elem_of_cons, elem_of_nil. intuition. }
    + discriminate E.
    + reflexivity.
  - reflexivity.
  - reflexivity.
Defined.

(** On the legacy hierarchy the state of the root group, which is THAWED while the
    system runs, answers for every application, frozen or not. *)
Theorem v1_root_state_answers_for_all sys uid content :
  detect_freezer_version sys = V1 -> sy_exists sys "/dev/freezer/freezer.state" = true ->
  read_to_string sys "/dev/freezer/freezer.state" = Some content ->
  trim content = "THAWED"%string ->
  get_uid_freezer_state sys uid = FreezerState.Thawed.
Proof.
  intros Hv He Hr Ht. unfold get_uid_freezer_state, v1_state. by rewrite Hv, He, Hr, Ht.
Qed.
