(* ===== verification/Tuning.v ===== *)
(** What the daemon finds out about the device and asks of it at start: F2FS garbage
    collection (src/hardware/f2fs.rs), SELinux (src/platform/selinux.rs), the privilege
    platforms (src/platform/privilege.rs and their choice in src/pipeline/mod.rs), the
    properties of the system (src/platform/android_prop.rs) and the priorities
    (src/system/governor.rs).

    Reading is from a [Sys]; the files that F2FS tuning writes are a map from path to
    contents, with the writes that fail.

    The theorems: the guard gives every device its mode back; the kernel's word on
    SELinux is final; the first platform found is chosen, but only Magisk's probe looks
    at SELinux. *)
From Stdlib Require Import Ascii String.
From S2P Require Import Prelude Domain Text Freezer.

(** ** F2FS (f2fs.rs) *)

Section f2fs.
#[local] Open Scope string_scope.

(** The directories of the devices. *)
Definition discover (sys : Sys) : list string :=
  let root := "/sys/fs/f2fs" in
  if sy_exists sys root then
    List.filter (fun path => sy_is_dir sys path && sy_exists sys (path_join path "gc_urgent"))
      (map (path_join root) (read_entries sys root))
  else [].

Definition is_available (devices : list string) : bool :=
  match devices with [] => false | _ => true end.

Abbreviation Files := (gmap string string).

(** [fs::write], which fails where [refused] says so. *)
Definition fs_write (refused : string -> bool) (path content : string) (files : Files) : Files :=
  if refused path then files else <[path := content]> files.

Definition gc_file (dev : string) : string := path_join dev "gc_urgent".
Definition mode_str (mode : N) : string := pretty mode +:+ String LF EmptyString.

Definition set_gc_urgent (refused : string -> bool) (devices : list string) (mode : N) (files : Files)
    : Files :=
  fold_left (fun fs dev => fs_write refused (gc_file dev) (mode_str mode) fs) devices files.

(** [read_to_string(..).ok().and_then(|s| s.trim().parse::<u8>().ok()).unwrap_or(0)] *)
Definition mode_at (files : Files) (file : string) : N :=
  default 0 (content ← files !! file; parse_u8 (trim content)).

(** The guard's previous modes, and the files. *)
Definition enter_gc_urgent_scoped (refused : string -> bool) (devices : list string) (mode : N)
    (files : Files) : option (list (string * N)) * Files :=
  if is_available devices then
    (Some (map (fun dev => (gc_file dev, mode_at files (gc_file dev))) devices),
     set_gc_urgent refused devices mode files)
  else (None, files).

(** [Drop for F2fsUrgentGuard] *)
Definition drop_guard (refused : string -> bool) (previous_modes : list (string * N)) (files : Files)
    : Files :=
  fold_left (fun fs '(file, prev) => fs_write refused file (mode_str prev) fs) previous_modes files.

(** Garbage collection in the scope of the guard. *)
Definition with_gc_urgent (refused : string -> bool) (devices : list string) (mode : N)
    (body : Files -> Files) (files : Files) : Files :=
  let '(guard, files1) := enter_gc_urgent_scoped refused devices mode files in
  let files2 := body files1 in
  match guard with Some previous => drop_guard refused previous files2 | None => files2 end.
End f2fs.

(** ** SELinux (selinux.rs) *)

Inductive SelinuxMode := Enforcing | Permissive | SelinuxDisabled | SelinuxUnknown.

#[export] Instance SelinuxMode_eq_dec : EqDecision SelinuxMode.
Proof. solve_decision. Defined.

(** The command's answer; invalid UTF-8 in it is replaced, which no word below contains. *)
Definition selinux_command `{UnicodeCase} (sys : Sys) : SelinuxMode :=
  match sy_command sys "getenforce" [] with
  | Some out =>
      let str_out := to_lowercase out in
      if str_contains str_out "enforcing" then Enforcing
      else if str_contains str_out "permissive" then Permissive
      else if str_contains str_out "disabled" then SelinuxDisabled
      else SelinuxUnknown
  | None => SelinuxUnknown
  end.

Definition get_selinux_mode `{UnicodeCase} (sys : Sys) : SelinuxMode :=
  match read_to_string sys "/sys/fs/selinux/enforce" with
  | Some status =>
      let s := trim status in
      if String.eqb s "1" then Enforcing
      else if String.eqb s "0" then Permissive
      else selinux_command sys
  | None => selinux_command sys
  end.

(** ** Privilege platforms (privilege.rs) *)

Record CallerIdentity := mkCaller { caller_uid : N; caller_pid : N; caller_gid : N }.

Definition CallerIdentity_display (c : CallerIdentity) : string :=
  "uid:" +:+ pretty (caller_uid c) +:+ " pid:" +:+ pretty (caller_pid c) +:+ " gid:" +:+
  pretty (caller_gid c).

Record PlatformCapabilities := mkCapabilities {
  has_openat2 : bool;
  has_statx : bool;
  supports_magisk : bool;
  supports_kernelsu : bool;
  supports_apatch : bool;
  selinux_enforcing : bool;
  detected_at : N;
}.

(** The trait; [discover_capabilities] and [is_available] look at the device. *)
Class PrivilegePlatform (T : Type) := {
  pf_name : T -> string;
  identify_caller : T -> N -> N -> N -> CallerIdentity;
  discover_capabilities : T -> Sys -> N -> PlatformCapabilities;
  pf_is_available : T -> Sys -> bool;
}.

Inductive MagiskPlatform := Magisk.
Inductive KernelSUPlatform := KernelSU.
Inductive APatchPlatform := APatch.

Definition probe_openat2 : bool := true.

Section platforms.
Context `{UnicodeCase}.

#[global] Instance magisk_platform : PrivilegePlatform MagiskPlatform := {
  pf_name _ := "magisk"%string;
  identify_caller _ := mkCaller;
  discover_capabilities _ sys now :=
    mkCapabilities probe_openat2 false (sy_exists sys "/sbin/magisk" || sy_exists sys "/data/adb/magisk")
      false false (bool_decide (get_selinux_mode sys = Enforcing)) now;
  pf_is_available _ sys := sy_exists sys "/sbin/magisk" || sy_exists sys "/data/adb/magisk";
}.

#[global] Instance kernelsu_platform : PrivilegePlatform KernelSUPlatform := {
  pf_name _ := "kernelsu"%string;
  identify_caller _ := mkCaller;
  discover_capabilities _ sys now :=
    mkCapabilities probe_openat2 false false (sy_exists sys "/data/adb/ksu") false false now;
  pf_is_available _ sys := sy_exists sys "/data/adb/ksu";
}.

#[global] Instance apatch_platform : PrivilegePlatform APatchPlatform := {
  pf_name _ := "apatch"%string;
  identify_caller _ := mkCaller;
  discover_capabilities _ sys now :=
    mkCapabilities probe_openat2 false false false (sy_exists sys "/data/adb/ap") false now;
  pf_is_available _ sys := sy_exists sys "/data/adb/ap";
}.

Definition select_privilege_platform (sys : Sys) (now : N) : string * PlatformCapabilities :=
  if pf_is_available Magisk sys then (pf_name Magisk, discover_capabilities Magisk sys now)
  else if pf_is_available KernelSU sys then (pf_name KernelSU, discover_capabilities KernelSU sys now)
  else if pf_is_available APatch sys then (pf_name APatch, discover_capabilities APatch sys now)
  else (pf_name Magisk, discover_capabilities Magisk sys now).

(** ** System information (android_prop.rs) *)

Record AndroidSystemInfo := mkSystemInfo {
  api_level : N;
  release_version : string;
  manufacturer : string;
  brand : string;
  model : string;
  is_encrypted : bool;
}.

Definition detect (sys : Sys) (bionic : string -> option string) : AndroidSystemInfo :=
  let prop := get_property sys bionic in
  mkSystemInfo
    (default 28 (prop "ro.build.version.sdk"%string ≫= parse_u32))
    (default "9.0"%string (prop "ro.build.version.release"%string))
    (to_lowercase (default "unknown"%string (prop "ro.product.manufacturer"%string)))
    (to_lowercase (default "unknown"%string (prop "ro.product.brand"%string)))
    (default "Generic Android"%string (prop "ro.product.model"%string))
    (String.eqb (default "unencrypted"%string (prop "ro.crypto.state"%string)) "encrypted").
End platforms.

(** ** Priorities (governor.rs) *)

Inductive PriorityCall := SetPriority (nice : N) | SetScheduler (policy : N) | IoprioSet (value : N).

(** The calls made, of which [failed] fail. *)
Definition set_idle_priorities (failed : PriorityCall -> bool) : list PriorityCall :=
  [SetPriority 19; SetScheduler 5]
  ++ (if failed (SetScheduler 5) then [SetScheduler 3] else [])
  ++ [IoprioSet (N.lor (N.shiftl 3 13) 7)].

(** ** Lemmas *)

(** A mode that was written is read back. *)
Lemma mode_str_read n : n < 256 -> parse_u8 (trim (mode_str n)) = Some n.
Proof.
  intros Hn. assert (Forall (fun k => parse_u8 (trim (mode_str (N.of_nat k))) = Some (N.of_nat k)) (seq 0 256)) as Hall.
  { apply (Forall_impl (fun k => bool_decide (parse_u8 (trim (mode_str (N.of_nat k))) = Some (N.of_nat k)) = true)).
    - apply List.Forall_forall, forallb_forall. vm_compute. reflexivity.
    - intros k. apply bool_decide_eq_true. }
  rewrite Forall_forall in Hall. rewrite <- (N2Nat.id n). apply Hall, elem_of_seq. lia.
Qed.

Lemma mode_at_small files file : mode_at files file < 256.
Proof.
  unfold mode_at. destruct (files !! file) as [c|]; simpl; [|lia].
  unfold parse_u8. destruct (parse_uint 255 (trim c)) as [n|] eqn:E; simpl; [|lia].
  apply parse_uint_max in E. lia.
Qed.

(** Writing the same function of the path to a list of files. *)
Lemma write_all_lookup refused (f : string -> string) l files p :
  fold_left (fun fs file => fs_write refused file (f file) fs) l files !! p =
  if bool_decide (p ∈ l) && negb (refused p) then Some (f p) else files !! p.
Proof.
  revert files. induction l as [|x l IH]; intros files; cbn [fold_left]; [done|].
  rewrite IH. unfold fs_write. destruct (refused p) eqn:Er; rewrite ?andb_true_r, ?andb_false_r.
  - destruct (decide (x = p)) as [->|Hx]; [by rewrite Er|].
    destruct (refused x); [done|]. by rewrite lookup_insert_ne.
  - destruct (decide (x = p)) as [->|Hx].
    + rewrite Er, lookup_insert_eq, (bool_decide_eq_true_2 (p ∈ p :: l)) by (by left).
      by destruct (bool_decide (p ∈ l)).
    + rewrite (bool_decide_ext (p ∈ x :: l) (p ∈ l)) by (rewrite elem_of_cons; naive_solver).
      destruct (refused x); [done|]. by rewrite lookup_insert_ne.
Qed.

Lemma set_gc_urgent_lookup refused devices mode files p :
  set_gc_urgent refused devices mode files !! p =
  if bool_decide (p ∈ map gc_file devices) && negb (refused p) then Some (mode_str mode) else files !! p.
Proof.
  unfold set_gc_urgent. rewrite <- (write_all_lookup refused (fun _ => mode_str mode)).
  revert files. induction devices as [|d devices IH]; intros files; cbn; [done|]. apply IH.
Qed.

Lemma drop_guard_lookup refused devices old files p :
  drop_guard refused (map (fun dev => (gc_file dev, mode_at old (gc_file dev))) devices) files !! p =
  if bool_decide (p ∈ map gc_file devices) && negb (refused p) then Some (mode_str (mode_at old p)) else files !! p.
Proof.
  unfold drop_guard. rewrite <- (write_all_lookup refused (fun f => mode_str (mode_at old f))).
  revert files. induction devices as [|d devices IH]; intros files; cbn; [done|]. apply IH.
Qed.

(** ** Properties *)

(** The guard restores: however urgent the mode was set in between and whichever
    writes are refused, when the guard is gone every device has the mode it had
    before, and no other file was written. *)
Theorem f2fs_guard_restores refused devices mode body files :
  (forall fs dev, dev ∈ devices -> body fs !! gc_file dev = fs !! gc_file dev) ->
  let files' := with_gc_urgent refused devices mode body files in
  (forall dev, dev ∈ devices -> mode_at files' (gc_file dev) = mode_at files (gc_file dev)) /\
  (forall p, p ∉ map gc_file devices ->
     exists fs, (forall q, q ∉ map gc_file devices -> fs !! q = files !! q) /\ files' !! p = body fs !! p).
Proof.
  intros Hbody. unfold with_gc_urgent, enter_gc_urgent_scoped. destruct (is_available devices) eqn:Ea.
  - split.
    + intros dev Hdev. unfold mode_at at 1. rewrite drop_guard_lookup.
      rewrite bool_decide_eq_true_2 by (by apply list_elem_of_fmap_2). cbn [andb].
      destruct (refused (gc_file dev)) eqn:Er; cbn [negb].
      * rewrite Hbody, set_gc_urgent_lookup, Er by done. by rewrite andb_false_r.
      * cbn. by rewrite mode_str_read by apply mode_at_small.
    + intros p Hp. exists (set_gc_urgent refused devices mode files). split.
      * intros q Hq. by rewrite set_gc_urgent_lookup, bool_decide_eq_false_2.
      * by rewrite drop_guard_lookup, bool_decide_eq_false_2.
  - destruct devices; [|done]. split; [intros dev Hd; by apply elem_of_nil in Hd|]. intros p _. eauto.
Qed.

Lemma f2fs_guard_restores_witness :
  let files := {["/sys/fs/f2fs/dm-0/gc_urgent"%string := mode_str 2]} in
  mode_at (with_gc_urgent (fun _ => false) ["/sys/fs/f2fs/dm-0"%string] 1 (fun fs => fs) files)
    (gc_file "/sys/fs/f2fs/dm-0") = 2.
Proof.
  intros files.
  destruct (f2fs_guard_restores (fun _ => false) ["/sys/fs/f2fs/dm-0"%string] 1 (fun fs => fs) files
    (fun _ _ _ => eq_refl)) as [Hm _].
  rewrite (Hm "/sys/fs/f2fs/dm-0"%string); [vm_compute; reflexivity|]. left.
Defined.

(** Discovery finds the devices that have the file the guard writes. *)
Lemma discover_spec sys dev :
  dev ∈ discover sys <->
  sy_exists sys "/sys/fs/f2fs" = true /\ sy_is_dir sys dev = true /\ sy_exists sys (gc_file dev) = true /\
  exists name, dev = path_join "/sys/fs/f2fs" name /\ name ∈ read_entries sys "/sys/fs/f2fs".
Proof.
  unfold discover. destruct (sy_exists sys "/sys/fs/f2fs").
  - rewrite list_elem_of_In, filter_In, in_map_iff, andb_true_iff. setoid_rewrite list_elem_of_In.
    unfold gc_file. naive_solver.
  - split; [intros Hd; by apply elem_of_nil in Hd|]. by intros [? _].
Qed.

(** If the kernel's file can be read as 1 or 0, the command is not asked. *)
Lemma selinux_kernel_first `{UnicodeCase} sys status :
  read_to_string sys "/sys/fs/selinux/enforce" = Some status ->
  (trim status = "1"%string -> get_selinux_mode sys = Enforcing) /\
  (trim status = "0"%string -> get_selinux_mode sys = Permissive).
Proof. intros Hr. unfold get_selinux_mode. rewrite Hr. by split; intros ->. Qed.

(** The choice follows the priorities, and falls back to Magisk's name when no platform
    is there; what it reports as available is so. *)
Lemma select_spec `{UnicodeCase} sys now :
  let '(name, caps) := select_privilege_platform sys now in
  name = (if supports_kernelsu caps then "kernelsu" else if supports_apatch caps then "apatch" else "magisk")%string /\
  (supports_magisk caps = pf_is_available Magisk sys) /\
  (supports_kernelsu caps = negb (pf_is_available Magisk sys) && pf_is_available KernelSU sys) /\
  (supports_apatch caps = negb (pf_is_available Magisk sys) && negb (pf_is_available KernelSU sys)
                          && pf_is_available APatch sys).
Proof.
  unfold select_privilege_platform. cbn.
  destruct (sy_exists sys "/sbin/magisk" || sy_exists sys "/data/adb/magisk") eqn:E1; cbn; [done|].
  destruct (sy_exists sys "/data/adb/ksu") eqn:E2; cbn; [done|].
  destruct (sy_exists sys "/data/adb/ap") eqn:E3; cbn; done.
Qed.

(** With KernelSU or APatch the capabilities say that SELinux does not enforce,
    whatever the kernel says. *)
Lemma kernelsu_hides_selinux `{UnicodeCase} sys now :
  pf_is_available Magisk sys = false ->
  pf_is_available KernelSU sys = true \/ pf_is_available APatch sys = true ->
  selinux_enforcing (snd (select_privilege_platform sys now)) = false.
Proof.
  unfold select_privilege_platform. intros -> Hor.
  destruct (pf_is_available KernelSU sys); [done|]. by destruct Hor as [| ->].
Qed.

Lemma idle_priorities_io failed : last (set_idle_priorities failed) = Some (IoprioSet 24583).
Proof. unfold set_idle_priorities. by destruct (failed _). Qed.
