(* ===== verification/Cgroup.v ===== *)
(** Control groups, src/system/cgroup.rs, and the memory optimizer that writes to
    them, src/engine/memory.rs.  A function that writes returns the writes that
    succeeded, in order.

    The theorems: which group a migration enters and how its summary reads; that a
    reclaim never asks the kernel for more than the amount requested, capped at two
    gigabytes, over all the groups it writes to. *)
From Stdlib Require Import Ascii String.
From S2P Require Import Prelude Domain Text.

Module CgroupVersion.
Inductive t := V1 | V2 | Hybrid | None_.
#[global] Instance eq_dec : EqDecision t.
Proof. solve_decision. Defined.

Definition display (v : t) : string :=
  match v with
  | V1 => "Cgroup v1 (Legacy Multi-Mount)"
  | V2 => "Cgroup v2 (Unified Hierarchy)"
  | Hybrid => "Hybrid (v1 + v2)"
  | None_ => "None / Unsupported"
  end.
End CgroupVersion.

Record ControllerMigration := mkMigration {
  controller : string;
  cm_path : string;
  success : bool;
}.

Record CgroupMigrationSummary := mkSummary {
  version : option CgroupVersion.t;
  migrations : list ControllerMigration;
  fully_migrated : bool;
}.

Definition CgroupMigrationSummary_default : CgroupMigrationSummary := mkSummary None [] false.

Definition detect_cgroup_version (sys : Sys) : CgroupVersion.t :=
  let has_v2 := sy_exists sys "/sys/fs/cgroup/cgroup.controllers"
                || sy_exists sys "/sys/fs/cgroup/cgroup.procs" in
  let has_v1 := existsb (sy_exists sys)
    ["/dev/cpuset"; "/dev/cpuctl"; "/dev/stune"; "/dev/blkio"; "/dev/memcg"]%string in
  match has_v2, has_v1 with
  | true, true => CgroupVersion.Hybrid
  | true, false => CgroupVersion.V2
  | false, true => CgroupVersion.V1
  | false, false => CgroupVersion.None_
  end.

Definition RECLAIM_ROOT : string := "/sys/fs/cgroup/memory.reclaim".

Definition discover_memory_reclaim_paths (sys : Sys) : list string :=
  filter (fun p => sy_exists sys p = true)
    [RECLAIM_ROOT; "/sys/fs/cgroup/background/memory.reclaim";
     "/sys/fs/cgroup/system-background/memory.reclaim";
     "/sys/fs/cgroup/apps/memory.reclaim"]%string ++
  omap (fun name =>
    if str_starts_with name "uid_" then
      let uid_reclaim := path_join (path_join "/sys/fs/cgroup" name) "memory.reclaim" in
      if sy_exists sys uid_reclaim then Some uid_reclaim else None
    else None) (read_entries sys "/sys/fs/cgroup").

Definition is_memory_reclaim_supported (sys : Sys) : bool :=
  match discover_memory_reclaim_paths sys with [] => false | _ => true end.

Definition read_current_process_cgroups (sys : Sys) : list string :=
  match read_to_string sys "/proc/self/cgroup" with
  | Some content =>
      map trim (filter (fun line => trim_is_empty line = false) (lines content))
  | None => []
  end.

Record CgroupDiagnostics := mkCgroupDiagnostics {
  cd_detected_version : string;
  cd_controllers_available : list string;
  cd_current_process_cgroups : list string;
  cd_supports_memory_reclaim : bool;
  cd_active_reclaim_paths : list string;
}.

Definition get_cgroup_diagnostics (sys : Sys) : CgroupDiagnostics :=
  let v2 := match read_to_string sys "/sys/fs/cgroup/cgroup.controllers" with
            | Some content => map (fun c => "v2:" +:+ c) (split_whitespace content)
            | None => []
            end in
  let v1 := omap (fun np => if sy_exists sys (snd np) then Some ("v1:" +:+ fst np) else None)
    [("cpuset", "/dev/cpuset"); ("cpuctl", "/dev/cpuctl"); ("stune", "/dev/stune");
     ("blkio", "/dev/blkio"); ("memcg", "/dev/memcg")]%string in
  mkCgroupDiagnostics (CgroupVersion.display (detect_cgroup_version sys)) (v2 ++ v1)
    (read_current_process_cgroups sys) (is_memory_reclaim_supported sys)
    (discover_memory_reclaim_paths sys).

(** ** Migration *)

(** [Path::new(path).exists() && fs::write(path, &pid_str).is_ok()]: the first of
    the candidates that takes the process. *)
Definition enters (sys : Sys) (pid_str path : string) : bool :=
  sy_exists sys path && sy_write sys path pid_str.

Definition first_entered (sys : Sys) (pid_str : string) (candidates : list string) : option string :=
  find_map (fun path => if enters sys pid_str path then Some path else None) candidates.

Definition controller_groups : list (string * list string) :=
  [("cpuset", ["/dev/cpuset/background/tasks"; "/dev/cpuset/system-background/tasks";
               "/dev/cpuset/restricted/tasks"]);
   ("cpuctl", ["/dev/cpuctl/background/tasks"; "/dev/cpuctl/system-background/tasks"]);
   ("stune", ["/dev/stune/background/tasks"]);
   ("blkio", ["/dev/blkio/background/tasks"; "/dev/blkio/system-background/tasks"]);
   ("memcg", ["/dev/memcg/apps/tasks"; "/dev/memcg/tasks"])]%string.

Definition migrate_controller (sys : Sys) (pid_str : string) (group : string * list string)
    : ControllerMigration :=
  match first_entered sys pid_str (snd group) with
  | Some path => mkMigration (fst group) path true
  | None => mkMigration (fst group) "none_found" false
  end.

Definition migrate_to_background_cgroup (sys : Sys) (pid : Z) : CgroupMigrationSummary :=
  let pid_str := pretty pid +:+ String LF EmptyString in
  let version := detect_cgroup_version sys in
  match version with
  | CgroupVersion.V2 =>
      match first_entered sys pid_str
              ["/sys/fs/cgroup/background/cgroup.procs";
               "/sys/fs/cgroup/system-background/cgroup.procs";
               "/sys/fs/cgroup/restricted/cgroup.procs"]%string with
      | Some path => mkSummary (Some version) [mkMigration "unified_v2" path true] true
      | None => mkSummary (Some version) [] false
      end
  | CgroupVersion.V1 | CgroupVersion.Hybrid =>
      let controllers := map (migrate_controller sys pid_str) controller_groups in
      let hybrid :=
        if decide (version = CgroupVersion.Hybrid) then
          match first_entered sys pid_str
                  ["/sys/fs/cgroup/background/cgroup.procs";
                   "/sys/fs/cgroup/system-background/cgroup.procs";
                   "/sys/fs/cgroup/cgroup.procs"]%string with
          | Some path => [mkMigration "hybrid_v2" path true]
          | None => []
          end
        else [] in
      let migrations := controllers ++ hybrid in
      mkSummary (Some version) migrations
        (match migrations with [] => false | _ => forallb success migrations end)
  | CgroupVersion.None_ => mkSummary (Some version) [] false
  end.

(** ** The memory optimizer (engine/memory.rs) *)

Definition compact_zram (sys : Sys) : bool * list string :=
  let try_paths paths :=
    filter (fun p => sy_exists sys p && sy_write sys p ("all" +:+ String LF EmptyString) = true)
      paths in
  let dynamic := try_paths (map (fun name => path_join (path_join "/sys/block" name) "compact")
    (filter (fun name => str_starts_with name "zram" = true) (read_entries sys "/sys/block"))) in
  match dynamic with
  | [] =>
      let static := try_paths ["/sys/block/zram0/compact"; "/sys/block/zram1/compact"]%string in
      (match static with [] => false | _ => true end, static)
  | _ => (true, dynamic)
  end.

Definition compact_memory (sys : Sys) : bool :=
  sy_exists sys "/proc/sys/vm/compact_memory"
  && sy_write sys "/proc/sys/vm/compact_memory" ("1" +:+ String LF EmptyString).

(** The text written is the number and a line feed. *)
Definition write_bytes (sys : Sys) (path : string) (bytes : N) : bool :=
  sy_write sys path (pretty bytes +:+ String LF EmptyString).

Definition reclaim_cgroup_memory (sys : Sys) (target_mb : N) : bool * list (string * N) :=
  let paths := discover_memory_reclaim_paths sys in
  match paths with
  | [] => (false, [])
  | _ =>
      let capped_mb := N.min target_mb 2048 in
      let target_bytes := saturating_mul capped_mb (1024 * 1024) in
      if sy_exists sys RECLAIM_ROOT && write_bytes sys RECLAIM_ROOT target_bytes then
        (true, [(RECLAIM_ROOT, target_bytes)])
      else
        let share := target_bytes / N.of_nat (length paths) in
        let written := filter (fun p => write_bytes sys p share = true) paths in
        (match written with [] => false | _ => true end, map (fun p => (p, share)) written)
  end.

(** ** Properties *)

Definition requested (writes : list (string * N)) : N := foldr N.add 0 (map snd writes).

Lemma requested_shares share (l : list string) :
  requested (map (fun p => (p, share)) l) = N.of_nat (length l) * share.
Proof. induction l as [|p l IH]; [done|]. unfold requested in *. cbn [map foldr snd length]. lia. Qed.

(** A reclaim asks for no more than it was told to: over all the groups it
    writes to, the bytes requested from the kernel are at most the target, and at
    most two gigabytes; it reports success exactly if something was requested, and
    writes only to interfaces that exist. *)
Theorem reclaim_bounded sys target_mb :
  let '(ok, writes) := reclaim_cgroup_memory sys target_mb in
  requested writes <= target_mb * 1048576 /\ requested writes <= 2147483648 /\
  (ok = true <-> writes <> []) /\
  forall p n, (p, n) ∈ writes -> p ∈ discover_memory_reclaim_paths sys.
Proof.
  unfold reclaim_cgroup_memory.
  destruct (discover_memory_reclaim_paths sys) as [|p0 ps] eqn:Ep.
  { cbn. split; [lia|]. split; [lia|]. split; [done|]. intros p n []%not_elem_of_nil. }
  set (paths := p0 :: ps) in *.
  assert (saturating_mul (N.min target_mb 2048) (1024 * 1024) <= N.min target_mb 2048 * 1048576) as Hb
    by (unfold saturating_mul; lia).
  set (bytes := saturating_mul _ _) in *.
  destruct (sy_exists sys RECLAIM_ROOT && write_bytes sys RECLAIM_ROOT bytes) eqn:Er.
  { apply andb_true_iff in Er as [Er _]. unfold requested. cbn [map foldr snd].
    split; [lia|]. split; [lia|]. split; [done|].
    intros p n [= -> ->]%list_elem_of_singleton. rewrite <- Ep.
    unfold discover_memory_reclaim_paths. rewrite filter_cons_True by done. left. }
  set (share := bytes / _). set (written := filter _ paths). cbv beta iota zeta.
  assert (length written <= length paths)%nat as Hl by apply length_filter.
  pose proof (N.Div0.mul_div_le bytes (N.of_nat (length paths))) as Hd. fold share in Hd.
  rewrite requested_shares.
  assert (N.of_nat (length written) * share <= bytes) as Hs by nia.
  split; [lia|]. split; [lia|]. split.
  - by destruct written.
  - intros p n (q & [= -> ->] & Hq)%list_elem_of_fmap. by apply list_elem_of_filter in Hq as [_ Hq].
Qed.

(** What a migration does on a legacy or hybrid system: for each of the five
    controllers the summary has one entry, in order, naming the first candidate
    group that exists and takes the process, or none; and it is complete only if
    every controller has one. *)
Theorem migration_summary_exact sys pid :
  let pid_str := pretty pid +:+ String LF EmptyString in
  detect_cgroup_version sys = CgroupVersion.V1 \/ detect_cgroup_version sys = CgroupVersion.Hybrid ->
  let summary := migrate_to_background_cgroup sys pid in
  take 5 (migrations summary) = map (migrate_controller sys pid_str) controller_groups /\
  (fully_migrated summary = true <->
   forall group, group ∈ controller_groups ->
     exists path, path ∈ snd group /\ enters sys pid_str path = true).
Proof.
  intros pid_str Hv summary.
  assert (exists hybrid, migrations summary
            = map (migrate_controller sys pid_str) controller_groups ++ hybrid /\
          forallb success hybrid = true /\
          fully_migrated summary = forallb success (migrations summary)) as (hy & Em & Eh & Ef).
  { unfold summary, migrate_to_background_cgroup. fold pid_str.
    destruct Hv as [-> | ->]; cbn [decide].
    - exists []. done.
    - rewrite decide_True by done.
      destruct (first_entered sys pid_str _) as [path|]; [exists [mkMigration "hybrid_v2" path true]|exists []];
        done. }
  split; [by rewrite Em|]. rewrite Ef, Em, forallb_app, Eh, andb_true_r.
  assert (forall group, success (migrate_controller sys pid_str group) = true <->
    exists path, path ∈ snd group /\ enters sys pid_str path = true) as Hone.
  { intros [name cands]. unfold migrate_controller, first_entered. cbn [fst snd].
    induction cands as [|c cands IH]; cbn [find_map].
    - split; [done|]. by intros (p & []%not_elem_of_nil & _).
    - destruct (enters sys pid_str c) eqn:Ec.
      + split; [|done]. intros _. exists c. split; [left|done].
      + rewrite IH. split.
        * intros (p & Hp & ?). exists p. split; [by right|done].
        * intros (p & [->|Hp]%elem_of_cons & ?); [congruence|by exists p]. }
  rewrite forallb_forall. split.
  - intros H group Hg. apply Hone, H. apply list_elem_of_In, list_elem_of_fmap. by exists group.
  - intros H m (group & -> & Hg)%list_elem_of_In%list_elem_of_fmap. apply Hone. by apply H.
Qed.

(** A device without the stune and memcg controllers, where every group that exists
    takes the process. *)
Definition no_stune : Sys := mkSys
  (fun p => existsb (str_starts_with p) ["/dev/cpuset"; "/dev/cpuctl"; "/dev/blkio"]%string)
  (fun _ => false) (fun _ => None) (fun _ => None) (fun _ _ => true) (fun _ _ => None).

Lemma migration_summary_exact_witness :
  let summary := migrate_to_background_cgroup no_stune 42 in
  take 5 (migrations summary)
  = map (migrate_controller no_stune (pretty 42%Z +:+ String LF EmptyString)) controller_groups.
Proof. apply (migration_summary_exact no_stune 42). left. reflexivity. Defined.

(** The summary is documented as complete when the process entered a group of every
    controller present; on this device it did, and the summary says otherwise. *)
Theorem absent_controllers_count_as_failed :
  (forall group path, group ∈ controller_groups -> path ∈ snd group ->
     sy_exists no_stune path = true ->
     success (migrate_controller no_stune "42" group) = true) /\
  fully_migrated (migrate_to_background_cgroup no_stune 42) = false.
Proof.
  split; [|vm_compute; done].
  assert (forallb (fun group => implb (existsb (sy_exists no_stune) (snd group))
            (success (migrate_controller no_stune "42" group))) controller_groups = true) as H
    by (vm_compute; done).
  intros group path Hg Hp He. rewrite forallb_forall in H.
  specialize (H group (proj1 (list_elem_of_In _ _) Hg)).
  assert (existsb (sy_exists no_stune) (snd group) = true) as Hx.
  { apply existsb_exists. exists path. split; [by apply list_elem_of_In|done]. }
  by rewrite Hx in H.
Qed.
