(* ===== verification/Storage.v ===== *)
(** The storage optimizer, src/engine/storage.rs: which mounts are trimmed, the
    attempts of trimming one, and the cooldown between trims with its state file.

    The state is three atomics and a file; the encoding of the file is a parameter
    ([serde_json]), with the round trip as its law. *)
From Stdlib Require Import Ascii String.
From S2P Require Import Prelude Domain Text.

(** ** The cooldown *)

Record FstrimPersistedState := mkPersisted {
  last_trim_unix_secs : N;
  bytes_deleted_since_trim : N;
}.

Class StateCodec := {
  to_string_pretty : FstrimPersistedState -> string;
  from_str : string -> option FstrimPersistedState;
}.

(** The statics of the process, and the file. *)
Record TrimWorld := mkTrim {
  LAST_TRIM_UNIX_SECS : N;
  BYTES_DELETED_SINCE_LAST_TRIM : N;
  STATE_INITIALIZED : bool;
  state_file : option string;
}.

(** A new process over the file that the last one left. *)
Definition restart (w : TrimWorld) : TrimWorld := mkTrim 0 0 false (state_file w).

Section cooldown.
Context `{StateCodec}.

Definition ensure_initialized (w : TrimWorld) : TrimWorld :=
  if STATE_INITIALIZED w then w
  else
    let '(last, bytes) :=
      match state_file w with
      | Some content =>
          match from_str content with
          | Some st => (last_trim_unix_secs st, bytes_deleted_since_trim st)
          | None => (LAST_TRIM_UNIX_SECS w, BYTES_DELETED_SINCE_LAST_TRIM w)
          end
      | None => (LAST_TRIM_UNIX_SECS w, BYTES_DELETED_SINCE_LAST_TRIM w)
      end in
    mkTrim last bytes true (state_file w).

(** The temporary file and the rename: the state file changes if both succeed. *)
Definition persist_state (saved : bool) (w : TrimWorld) : TrimWorld :=
  if saved then
    mkTrim (LAST_TRIM_UNIX_SECS w) (BYTES_DELETED_SINCE_LAST_TRIM w) (STATE_INITIALIZED w)
      (Some (to_string_pretty
               (mkPersisted (LAST_TRIM_UNIX_SECS w) (BYTES_DELETED_SINCE_LAST_TRIM w))))
  else w.

Definition record_freed_bytes_for_trim (freed_bytes : N) (saved : bool) (w : TrimWorld) : TrimWorld :=
  let w := ensure_initialized w in
  persist_state saved
    (mkTrim (LAST_TRIM_UNIX_SECS w) (wrap_add (BYTES_DELETED_SINCE_LAST_TRIM w) freed_bytes)
       (STATE_INITIALIZED w) (state_file w)).

Definition DAY : N := 86400.
Definition DELTA : N := 500000000.

Definition should_run_fstrim (manual_request : bool) (now_secs : N) (w : TrimWorld)
    : bool * TrimWorld :=
  let w := ensure_initialized w in
  if manual_request then (true, w)
  else
    let last := LAST_TRIM_UNIX_SECS w in
    let delta_bytes := BYTES_DELETED_SINCE_LAST_TRIM w in
    let time_eligible := (last =? 0) || (DAY <=? now_secs - last) in
    let delta_eligible := DELTA <=? delta_bytes in
    (time_eligible || delta_eligible, w).

Definition mark_fstrim_completed (now_secs : N) (saved : bool) (w : TrimWorld) : TrimWorld :=
  let w := ensure_initialized w in
  persist_state saved (mkTrim now_secs 0 (STATE_INITIALIZED w) (state_file w)).
End cooldown.

(** ** Mounts *)

Definition is_trimmable_fs (fs_type : string) : bool :=
  bool_decide (fs_type = "f2fs"%string) || bool_decide (fs_type = "ext4"%string).

Definition is_block_dev (dev : string) : bool :=
  str_starts_with dev "/dev/block/" || str_starts_with dev "/dev/root".

Definition is_runtime_mount (mount_point : string) : bool :=
  str_starts_with mount_point "/apex" || str_starts_with mount_point "/mnt/runtime"
  || str_starts_with mount_point "/mnt/pass_through".

Definition has_rw (options : string) : bool :=
  existsb (fun o => bool_decide (o = "rw"%string)) (str_split "," options).

(** The mount point of a line, if it is to be trimmed. *)
Definition mount_line (line : string) : option string :=
  match split_whitespace line with
  | dev :: mount_point :: fs_type :: options :: _ =>
      if has_rw options && is_trimmable_fs fs_type && is_block_dev dev
         && negb (is_runtime_mount mount_point)
      then Some mount_point else None
  | _ => None
  end.

Definition discover_trimmable_mounts (sys : Sys) : list string :=
  match read_to_string sys "/proc/mounts" with
  | Some content => omap mount_line (lines content)
  | None => []
  end.

(** What a trim of a mount calls. *)
Inductive TrimCall :=
| Fitrim (mount : string) (start len minlen : N)
| RunCommand (cmd : string) (args : list string).

Section trim.
Context (sys : Sys) (fitrim_result : string -> option bool).

Definition fallback_cmds (mount_path : string) : list (string * list string) :=
  [("fstrim"%string, ["-v"%string; mount_path]);
   ("/system/bin/fstrim"%string, ["-v"%string; mount_path]);
   ("sm"%string, ["fstrim"%string])].

(** The commands up to the first that succeeds. *)
Fixpoint run_fallbacks (cmds : list (string * list string)) : bool * list TrimCall :=
  match cmds with
  | [] => (false, [])
  | (cmd, args) :: cmds' =>
      match sy_command sys cmd args with
      | Some _ => (true, [RunCommand cmd args])
      | None => let '(ok, calls) := run_fallbacks cmds' in (ok, RunCommand cmd args :: calls)
      end
  end.

(** [fitrim_result] is whether the ioctl succeeds, [None] if the mount cannot be
    opened. *)
Definition trim_single_mount (mount_path : string) : bool * list TrimCall :=
  let fitrim := Fitrim mount_path 0 U64_MAX (512 * 1024) in
  match fitrim_result mount_path with
  | Some true => (true, [fitrim])
  | Some false =>
      let '(ok, calls) := run_fallbacks (fallback_cmds mount_path) in (ok, fitrim :: calls)
  | None => run_fallbacks (fallback_cmds mount_path)
  end.

Fixpoint trim_all (mounts : list string) : bool * list TrimCall :=
  match mounts with
  | [] => (false, [])
  | mount :: mounts' =>
      let '(ok, calls) := if sy_exists sys mount then trim_single_mount mount else (false, []) in
      let '(ok', calls') := trim_all mounts' in
      (ok || ok', calls ++ calls')
  end.

Definition trim_mounts (configured_mounts : list string) : bool * list TrimCall :=
  trim_all (match configured_mounts with
            | [] => discover_trimmable_mounts sys
            | _ => configured_mounts
            end).
End trim.

(** ** Properties *)

Inductive TrimOp :=
| Freed (bytes : N)
| Asked (manual : bool) (now : N)
| Restarted.

Definition freed (o : TrimOp) : N := match o with Freed b => b | _ => 0 end.
Definition freed_total (ops : list TrimOp) : N := foldr N.add 0 (map freed ops).

Section properties.
Context `{StateCodec}.

Definition trim_op (w : TrimWorld) (o : TrimOp) : TrimWorld :=
  match o with
  | Freed b => record_freed_bytes_for_trim b true w
  | Asked manual now => snd (should_run_fstrim manual now w)
  | Restarted => restart w
  end.

Hypothesis round_trip : forall last bytes, u64 last -> u64 bytes ->
  from_str (to_string_pretty (mkPersisted last bytes)) = Some (mkPersisted last bytes).

(** The file holds the state, and so does an initialized process. *)
Definition trim_state (last bytes : N) (w : TrimWorld) : Prop :=
  state_file w = Some (to_string_pretty (mkPersisted last bytes)) /\
  (STATE_INITIALIZED w = true ->
     LAST_TRIM_UNIX_SECS w = last /\ BYTES_DELETED_SINCE_LAST_TRIM w = bytes).

Lemma initialized_state last bytes w :
  u64 last -> u64 bytes -> trim_state last bytes w ->
  ensure_initialized w = mkTrim last bytes true (state_file w).
Proof.
  intros Hl Hb [Hf Hi]. unfold ensure_initialized. destruct w as [l b [] f]; cbn in *.
  - destruct (Hi eq_refl) as [-> ->]. done.
  - by rewrite Hf, round_trip.
Qed.

Lemma trim_op_state last bytes o w :
  u64 last -> bytes + freed o <= U64_MAX -> trim_state last bytes w ->
  trim_state last (bytes + freed o) (trim_op w o).
Proof.
  intros Hl Hb Hw. assert (u64 bytes) as Hu by (unfold u64; lia).
  pose proof (initialized_state last bytes w Hl Hu Hw) as E. destruct Hw as [Hf Hi].
  destruct o as [b|manual now|]; cbn [trim_op freed] in *; rewrite ?N.add_0_r.
  - unfold record_freed_bytes_for_trim. rewrite E. cbn. rewrite wrap_add_exact by done. done.
  - unfold should_run_fstrim. rewrite E. destruct manual; done.
  - done.
Qed.

(** The trim cooldown, over every history: after a trim completed at [t], however
    the daemon then frees bytes, asks and restarts, an automatic trim is due exactly
    when a day has passed, or 500 MB were freed, or the clock read zero. *)
Theorem trim_cooldown_exact ops t now w :
  u64 t -> freed_total ops <= U64_MAX ->
  fst (should_run_fstrim false now (fold_left trim_op ops (mark_fstrim_completed t true w)))
  = ((t =? 0) || (DAY <=? now - t) || (DELTA <=? freed_total ops)).
Proof.
  intros Ht Hops.
  assert (forall bytes w0, bytes + freed_total ops <= U64_MAX -> trim_state t bytes w0 ->
            trim_state t (bytes + freed_total ops) (fold_left trim_op ops w0)) as Hall.
  { clear Hops. unfold freed_total. induction ops as [|o ops IH]; intros bytes w0 Hb Hw; cbn in *.
    - by rewrite N.add_0_r.
    - rewrite N.add_assoc. apply IH; [lia|]. apply trim_op_state; [done|lia|done]. }
  assert (trim_state t 0 (mark_fstrim_completed t true w)) as H0 by done.
  specialize (Hall 0 _ ltac:(lia) H0). rewrite N.add_0_l in Hall.
  unfold should_run_fstrim. by rewrite (initialized_state _ _ _ Ht Hops Hall).
Qed.
End properties.

(** A codec with the round trip. *)
#[local] Instance plain_codec : StateCodec := {
  to_string_pretty st := pretty (last_trim_unix_secs st) +:+ " " +:+ pretty (bytes_deleted_since_trim st);
  from_str s :=
    match map parse_u64 (split_whitespace s) with
    | [Some last; Some bytes] => Some (mkPersisted last bytes)
    | _ => None
    end;
}.

Lemma plain_codec_round_trip last bytes :
  u64 last -> u64 bytes ->
  from_str (to_string_pretty (mkPersisted last bytes)) = Some (mkPersisted last bytes).
Proof.
  intros Hl Hb. unfold from_str, to_string_pretty, plain_codec.
  cbn [last_trim_unix_secs bytes_deleted_since_trim]. rewrite split_whitespace_cons, split_whitespace_one
    by first [apply pretty_plain|apply pretty_spec]. cbn. unfold parse_u64.
  by rewrite !parse_uint_pretty.
Qed.

Lemma trim_cooldown_exact_witness :
  let w := fold_left trim_op [Freed 300000000; Restarted; Asked false 2000; Freed 200000000]
             (mark_fstrim_completed 1000 true (mkTrim 0 0 false None)) in
  fst (should_run_fstrim false 3000 w) = true.
Proof.
  cbv zeta. rewrite (trim_cooldown_exact plain_codec_round_trip
    [Freed 300000000; Restarted; Asked false 2000; Freed 200000000] 1000 3000).
  - reflexivity.
  - vm_compute. discriminate.
  - vm_compute. discriminate.
Defined.

(** Without configured mounts, only discovered mounts that exist are trimmed. *)
Lemma trim_all_safe sys fitrim mounts m start len minlen :
  Fitrim m start len minlen ∈ snd (trim_all sys fitrim mounts) ->
  m ∈ mounts /\ sy_exists sys m = true /\ start = 0 /\ len = U64_MAX.
Proof.
  assert (forall cmds, Fitrim m start len minlen ∉ snd (run_fallbacks sys cmds)) as Hno.
  { induction cmds as [|[cmd args] cmds IH]; cbn; [apply not_elem_of_nil|].
    destruct (sy_command sys cmd args); cbn.
    - intros ?%list_elem_of_singleton. done.
    - destruct (run_fallbacks sys cmds) as [ok calls]. cbn in *.
      intros [?|?]%elem_of_cons; done. }
  induction mounts as [|a mounts IH]; cbn [trim_all snd]; [by intros ?%not_elem_of_nil|].
  destruct (trim_all sys fitrim mounts) as [ok' calls']. cbn [snd] in IH.
  destruct (sy_exists sys a) eqn:Ea.
  - destruct (trim_single_mount sys fitrim a) as [ok calls] eqn:Es. cbn [snd].
    intros [Hin|Hin]%elem_of_app.
    + assert (calls = snd (trim_single_mount sys fitrim a)) as Ec by (by rewrite Es).
      rewrite Ec in Hin. unfold trim_single_mount in Hin. specialize (Hno (fallback_cmds a)).
      destruct (fitrim a) as [[]|]; cbn [snd] in Hin.
      * apply list_elem_of_singleton in Hin as [= -> -> -> _]. split; [left|done].
      * destruct (run_fallbacks sys (fallback_cmds a)) as [? ?]. cbn [snd] in *.
        apply elem_of_cons in Hin as [[= -> -> -> _]|]; [split; [left|done]|done].
      * done.
    + destruct (IH Hin) as [? ?]. split; [by right|done].
  - cbn [snd app]. intros Hin. destruct (IH Hin) as [? ?]. split; [by right|done].
Qed.

(** What is trimmed when no mount is configured: only mounts that exist and that a
    line of /proc/mounts shows as a writable f2fs or ext4 block device outside the
    runtime directories. *)
Theorem trimmed_mounts_qualify sys fitrim m start len minlen :
  Fitrim m start len minlen ∈ snd (trim_mounts sys fitrim []) ->
  sy_exists sys m = true /\
  exists content line dev fs_type options rest,
    read_to_string sys "/proc/mounts" = Some content /\ line ∈ lines content /\
    split_whitespace line = dev :: m :: fs_type :: options :: rest /\
    has_rw options = true /\ is_trimmable_fs fs_type = true /\ is_block_dev dev = true /\
    is_runtime_mount m = false.
Proof.
  intros (Hin & Hex & _)%trim_all_safe. split; [done|]. unfold discover_trimmable_mounts in Hin.
  destruct (read_to_string sys "/proc/mounts") as [content|] eqn:Ec; [|by apply not_elem_of_nil in Hin].
  apply list_elem_of_omap in Hin as (line & Hl & Hm). unfold mount_line in Hm.
  destruct (split_whitespace line) as [|dev [|mp [|fs_type [|options rest]]]] eqn:Es; try done.
  destruct (has_rw options && _ && _ && _) eqn:Eb; [|done]. injection Hm as ->.
  rewrite !andb_true_iff, negb_true_iff in Eb. destruct Eb as [[[? ?] ?] ?].
  by exists content, line, dev, fs_type, options, rest.
Qed.
