(* ===== verification/Pidfile.v ===== *)
(** The single-instance lock, src/system/pidfile.rs.

    [PidLock::acquire], its [Drop], [get_running_pid] and [clean_stale_pid_files] are the
    sequences of their system calls; processes interleave call by call.  The state is the name of
    the lock file, the process-id file and, per inode, which descriptor holds the
    advisory lock.  A root daemon uses the primary path only, so one path is
    modelled here; [get_running_pid] walks both.

    The theorems: an inode has at most one holder; as long as no instance shuts
    down and nothing cleans up, at most one daemon runs; but because the lock is
    given up before its file is removed, a start that overlaps a shutdown or a
    clean-up lets two daemons run; because a query takes the lock to test it, a start
    that overlaps one is refused although no daemon runs; and a leftover process-id
    file is believed without the lock. *)
From Stdlib Require Import Ascii String.
From stdpp Require Import relations.
From S2P Require Import Prelude Domain Text.

(** ** The calls *)

Record LockFs := mkLockFs {
  lock_inode : option N;        (** the inode the lock path names *)
  pid_file : option N;          (** the number in the process-id file *)
  holders : gmap N nat;         (** inode -> the process that holds its lock *)
  next_inode : N;
}.

Definition LockFs_empty : LockFs := mkLockFs None None ∅ 1.

(** Where a process is: a daemon on its way to its event loop and out of it, a [stop]
    that cleans up, or a command that asks for the running daemon. *)
Inductive Phase :=
| Starting                      (** before the open of the lock file *)
| Opened (i : N)                (** has opened inode [i], about to lock it *)
| Locked (i : N)                (** holds the lock, about to write its id *)
| Running (i : N)
| Unlocked                      (** in [Drop]: lock given up *)
| PidRemoved                    (** in [Drop]: id file removed *)
| Refused (pid : N)             (** DaemonAlreadyRunning *)
| Cleaning                      (** a [stop]: before opening the lock file *)
| CleanOpened (i : N)
| CleanLocked (i : N)
| CleanUnlocked
| CleanLockRemoved
| Querying                      (** [get_running_pid]: before opening the lock file *)
| QueryOpened (i : N)
| QueryLocked (i : N)           (** the lock was free: the test holds it *)
| Gone.

#[export] Instance Phase_eq_dec : EqDecision Phase.
Proof. solve_decision. Defined.

(** [open] with O_CREAT: the inode the name refers to, a new one if it does not. *)
Definition open_create (fs : LockFs) : N * LockFs :=
  match lock_inode fs with
  | Some i => (i, fs)
  | None => (next_inode fs,
             mkLockFs (Some (next_inode fs)) (pid_file fs) (holders fs) (next_inode fs + 1))
  end.

Definition set_holders (h : gmap N nat) (fs : LockFs) : LockFs :=
  mkLockFs (lock_inode fs) (pid_file fs) h (next_inode fs).
Definition set_pid_file (p : option N) (fs : LockFs) : LockFs :=
  mkLockFs (lock_inode fs) p (holders fs) (next_inode fs).
Definition unlink_lock (fs : LockFs) : LockFs :=
  mkLockFs None (pid_file fs) (holders fs) (next_inode fs).

(** [flock(fd, LOCK_EX | LOCK_NB)] by process [me]. *)
Definition try_flock (me : nat) (i : N) (fs : LockFs) : option LockFs :=
  match holders fs !! i with
  | Some _ => None
  | None => Some (set_holders (<[i := me]> (holders fs)) fs)
  end.

Definition unlock (i : N) (fs : LockFs) : LockFs := set_holders (delete i (holders fs)) fs.

(** The calls of each operation, by process [me]; [None] for a phase that is not one of
    the operation's.  Taking the lock, with [os_pid] the process's id: *)
Definition acquire_call (me : nat) (os_pid : N) (ph : Phase) (fs : LockFs) : option (Phase * LockFs) :=
  match ph with
  | Starting => let '(i, fs') := open_create fs in Some (Opened i, fs')
  | Opened i =>
      match try_flock me i fs with
      | Some fs' => Some (Locked i, fs')
      | None => Some (Refused (default 0 (pid_file fs)), fs)
      end
  | Locked i => Some (Running i, set_pid_file (Some os_pid) fs)
  | _ => None
  end.

(** Giving it back, when the daemon ends. *)
Definition drop_call (ph : Phase) (fs : LockFs) : option (Phase * LockFs) :=
  match ph with
  | Running i => Some (Unlocked, unlock i fs)
  | Unlocked => Some (PidRemoved, set_pid_file None fs)
  | PidRemoved => Some (Gone, unlink_lock fs)
  | _ => None
  end.

(** Removing the files nobody holds. *)
Definition clean_stale_call (me : nat) (ph : Phase) (fs : LockFs) : option (Phase * LockFs) :=
  match ph with
  | Cleaning =>
      match lock_inode fs with
      | Some i => Some (CleanOpened i, fs)
      | None => Some (Gone, fs)
      end
  | CleanOpened i =>
      match try_flock me i fs with
      | Some fs' => Some (CleanLocked i, fs')
      | None => Some (Gone, fs)
      end
  | CleanLocked i => Some (CleanUnlocked, unlock i fs)
  | CleanUnlocked => Some (CleanLockRemoved, unlink_lock fs)
  | CleanLockRemoved => Some (Gone, set_pid_file None fs)
  | _ => None
  end.

(** Asking who runs: the lock is tested by taking it. *)
Definition query_call (me : nat) (ph : Phase) (fs : LockFs) : option (Phase * LockFs) :=
  match ph with
  | Querying =>
      match lock_inode fs with
      | Some i => Some (QueryOpened i, fs)
      | None => Some (Gone, fs)
      end
  | QueryOpened i =>
      match try_flock me i fs with
      | Some fs' => Some (QueryLocked i, fs')
      | None => Some (Gone, fs)
      end
  | QueryLocked i => Some (Gone, unlock i fs)
  | _ => None
  end.

(** The next call of process [me], whose process id is [os_pid]. *)
Definition next_call (me : nat) (os_pid : N) (ph : Phase) (fs : LockFs) : option (Phase * LockFs) :=
  match ph with
  | Starting | Opened _ | Locked _ => acquire_call me os_pid ph fs
  | Running _ | Unlocked | PidRemoved => drop_call ph fs
  | Cleaning | CleanOpened _ | CleanLocked _ | CleanUnlocked | CleanLockRemoved =>
      clean_stale_call me ph fs
  | Querying | QueryOpened _ | QueryLocked _ => query_call me ph fs
  | Refused _ | Gone => None
  end.

(** The inode whose lock a process in this phase holds. *)
Definition held (ph : Phase) : option N :=
  match ph with Locked i | Running i | CleanLocked i | QueryLocked i => Some i | _ => None end.

(** A kill: the kernel closes the descriptors, which releases the lock. *)
Definition killed (ph : Phase) (fs : LockFs) : LockFs :=
  match held ph with Some i => unlock i fs | None => fs end.

Inductive step : LockFs * list Phase -> LockFs * list Phase -> Prop :=
| step_call fs fs' ps me ph ph' os_pid :
    ps !! me = Some ph -> next_call me os_pid ph fs = Some (ph', fs') ->
    step (fs, ps) (fs', <[me := ph']> ps)
| step_kill fs ps me ph :
    ps !! me = Some ph -> step (fs, ps) (killed ph fs, <[me := Gone]> ps).

(** ** The queries *)

(** The argument of [kill] is the number as a signed 32-bit one. *)
Definition as_pid_t (pid : N) : Z :=
  if (Z.of_N pid <? 2147483648)%Z then Z.of_N pid else (Z.of_N pid - 4294967296)%Z.

(** [signal] is [kill(pid, 0)]. *)
Definition is_process_alive (signal : Z -> result Errno unit) (pid : N) : bool :=
  if pid =? 0 then false
  else match signal (as_pid_t pid) with
       | Ok _ => true
       | Err e => bool_decide (e = PERM)
       end.

(** A pair of paths as [get_running_pid] finds it: whether the lock file can be
    opened, whether its lock is held, and the text of the id file. *)
Record PathState := mkPathState {
  ps_lock_opens : bool;
  ps_lock_held : bool;
  ps_pid_text : option string;
}.

Definition pid_if_alive (signal : Z -> result Errno unit) (text : option string) : option N :=
  match text with
  | Some content =>
      match parse_u32 (trim content) with
      | Some pid => if is_process_alive signal pid then Some pid else None
      | None => None
      end
  | None => None
  end.

(** Held or not, the id file is read. *)
Definition running_pid_at (signal : Z -> result Errno unit) (p : PathState) : option N :=
  if ps_lock_opens p then
    if ps_lock_held p then pid_if_alive signal (ps_pid_text p)
    else pid_if_alive signal (ps_pid_text p)
  else None.

Definition get_running_pid (signal : Z -> result Errno unit) (candidates : list PathState)
    : option N := find_map (running_pid_at signal) candidates.

(** What [get_running_pid] finds is a positive number of 32 bits. *)
Lemma get_running_pid_range signal candidates pid :
  get_running_pid signal candidates = Some pid -> 0 < pid < 2 ^ 32.
Proof.
  unfold get_running_pid. induction candidates as [|[opens held [text|]] l IH]; cbn [find_map]; [done| |].
  2: { unfold running_pid_at. cbn. by destruct opens, held. }
  unfold running_pid_at, pid_if_alive at 1 2. cbn [ps_lock_opens ps_lock_held ps_pid_text].
  destruct opens, held; cbn iota; try exact IH.
  all: destruct (parse_u32 (trim text)) as [n|] eqn:En; [|exact IH].
  all: destruct (is_process_alive signal n) eqn:Ea; [|exact IH].
  all: intros [= <-]; apply parse_uint_max in En; unfold is_process_alive in Ea.
  all: destruct (N.eqb_spec n 0); [done|lia].
Qed.

(** ** Invariants *)

(** Every lock is held by a process whose phase says so. *)
Definition locks_match (s : LockFs * list Phase) : Prop :=
  forall i me, holders (fst s) !! i = Some me <-> exists ph, snd s !! me = Some ph /\ held ph = Some i.

Lemma locks_match_update fs ps me ph ph' fs' :
  locks_match (fs, ps) -> ps !! me = Some ph ->
  (forall i, holders fs' !! i =
    if decide (held ph' = Some i) then Some me
    else if decide (held ph = Some i) then None else holders fs !! i) ->
  (forall i, held ph' = Some i -> held ph <> Some i -> holders fs !! i = None) ->
  locks_match (fs', <[me := ph']> ps).
Proof.
  intros Hm Hme Hh Hfree i k. cbn [fst snd]. rewrite Hh.
  pose proof (lookup_lt_Some _ _ _ Hme) as Hlt.
  assert (forall j, holders fs !! j = Some me -> held ph = Some j) as Hmine.
  { intros j (q & Hq & Hj)%(Hm j me). cbn in Hq. congruence. }
  destruct (decide (k = me)) as [->|Hk].
  - rewrite list_lookup_insert_eq by done.
    repeat case_decide.
    + split; [by intros _; eexists|done].
    + split; [done|]. intros (q & [= <-] & ?). congruence.
    + split; [intros E; by specialize (Hmine _ E)|]. intros (q & [= <-] & ?). congruence.
  - rewrite list_lookup_insert_ne by done. repeat case_decide.
    + split; [congruence|]. intros (q & Hq & Hi).
      assert (holders fs !! i = Some k) as Ek by (apply Hm; by exists q).
      destruct (decide (held ph = Some i)) as [Hp|Hp].
      * assert (holders fs !! i = Some me) by (apply Hm; by exists ph). congruence.
      * rewrite Hfree in Ek by done. done.
    + split; [done|]. intros (q & Hq & Hi).
      assert (holders fs !! i = Some k) as Ek by (apply Hm; by exists q).
      assert (holders fs !! i = Some me) by (apply Hm; by exists ph). congruence.
    + apply (Hm i k).
Qed.

Lemma unlock_lookup i j fs :
  holders (unlock i fs) !! j = if decide (i = j) then None else holders fs !! j.
Proof.
  unfold unlock. cbn [holders set_holders]. case_decide; subst;
    [by rewrite lookup_delete_eq|by rewrite lookup_delete_ne].
Qed.

(** Unfolds the call of each phase. *)
Ltac by_call ph Hc :=
  destruct ph as [|?i|?i|?i| | |?p| |?i|?i| | | |?i|?i|];
  cbn [next_call acquire_call drop_call clean_stale_call query_call] in Hc; try discriminate Hc;
  unfold open_create, try_flock in Hc;
  repeat match type of Hc with
  | context [match ?x with _ => _ end] =>
      lazymatch x with
      | context [match _ with _ => _ end] => fail
      | _ => let E := fresh "E" in destruct x eqn:E
      end
  end; simplify_eq.

(** What a call does to the locks: the one its new phase holds, not the one its old
    phase held, otherwise no change. *)
Lemma next_call_holders me os_pid ph fs ph' fs' j :
  next_call me os_pid ph fs = Some (ph', fs') ->
  holders fs' !! j =
    (if decide (held ph' = Some j) then
       if decide (held ph = Some j) then holders fs !! j else Some me
     else if decide (held ph = Some j) then None else holders fs !! j) /\
  (held ph' = Some j -> held ph <> Some j -> holders fs !! j = None).
Proof.
  intros Hc. by_call ph Hc; cbn [held set_pid_file unlink_lock holders set_holders];
    rewrite ?unlock_lookup; repeat case_decide; simplify_eq;
    rewrite ?lookup_insert_eq, ?lookup_insert_ne by congruence; split; congruence.
Qed.

Lemma locks_match_step s s' : locks_match s -> step s s' -> locks_match s'.
Proof.
  intros Hm Hs. destruct Hs as [fs fs' ps me ph ph' os_pid Hme Hc|fs ps me ph Hme].
  - apply (locks_match_update fs ps me ph); [done|done| |].
    + intros j. destruct (next_call_holders me os_pid ph fs ph' fs' j Hc) as [-> _].
      repeat case_decide; try done. apply (Hm j me). by exists ph.
    + intros j Hj Hn. by apply (next_call_holders me os_pid ph fs ph' fs' j Hc).
  - apply (locks_match_update fs ps me ph); [done|done| |done].
    intros j. unfold killed. cbn [held]. rewrite decide_False by done.
    destruct (held ph) as [i|]; [rewrite unlock_lookup|]; repeat case_decide; congruence.
Qed.

Lemma locks_match_init ps :
  Forall (fun ph => held ph = None) ps -> locks_match (LockFs_empty, ps).
Proof.
  intros Hp i me. cbn. rewrite lookup_empty. split; [done|]. intros (ph & Hme & Hi).
  rewrite Forall_lookup in Hp. by rewrite (Hp _ _ Hme) in Hi.
Qed.

Lemma locks_match_reachable ps s :
  Forall (fun ph => held ph = None) ps -> rtc step (LockFs_empty, ps) s -> locks_match s.
Proof.
  intros Hp Hr. remember (LockFs_empty, ps) as s0 eqn:E0.
  assert (locks_match s0) as H0 by (subst; by apply locks_match_init). clear E0 Hp.
  induction Hr as [|a b c Hs _ IH]; [done|]. eauto using locks_match_step.
Qed.

(** Phases in which nothing has been given up or removed. *)
Definition is_active (ph : Phase) : Prop :=
  match ph with
  | Starting | Opened _ | Locked _ | Running _ | Refused _ | Gone
  | Querying | QueryOpened _ | QueryLocked _ => True
  | _ => False
  end.

(** A start, a query, or a kill: what leaves the name of the lock alone. *)
Inductive start_step : LockFs * list Phase -> LockFs * list Phase -> Prop :=
| start_step_one s s' : step s s' -> Forall is_active (snd s') -> start_step s s'.

(** All opened the inode the name refers to. *)
Definition one_inode (s : LockFs * list Phase) : Prop :=
  Forall is_active (snd s) /\
  forall ph i, ph ∈ snd s -> ph = Opened i \/ ph = Locked i \/ ph = Running i ->
    lock_inode (fst s) = Some i.

Lemma next_call_inode me os_pid ph fs ph' fs' i :
  next_call me os_pid ph fs = Some (ph', fs') -> is_active ph ->
  (lock_inode fs = Some i -> lock_inode fs' = Some i) /\
  (ph' = Opened i \/ ph' = Locked i \/ ph' = Running i ->
   lock_inode fs' = Some i \/ ph = Opened i \/ ph = Locked i).
Proof.
  intros Hc Ha. by_call ph Hc; try done; cbn; split; intros; try congruence;
    destruct_or?; simplify_eq; auto.
Qed.

Lemma one_inode_step s s' : one_inode s -> start_step s s' -> one_inode s'.
Proof.
  intros Hinv Hss. destruct Hss as [s s' Hs Ha']. split; [done|]. clear Ha'. intros ph' i Hin Hph.
  destruct Hs as [fs fs' ps me ph q os_pid Hme Hc|fs ps me ph Hme]; destruct Hinv as [Ha Hi];
    cbn [fst snd] in *.
  - pose proof (list_elem_of_lookup_2 _ _ _ Hme) as Hin0.
    destruct (next_call_inode me os_pid ph fs q fs' i Hc) as [Hkeep Hq];
      [exact (proj1 (Forall_lookup _ _) Ha _ _ Hme)|].
    apply list_elem_of_lookup in Hin as [k Hk].
    apply list_lookup_insert_Some in Hk as [(_ & <- & _)|[_ Hk]].
    + destruct (Hq Hph) as [?|Hold]; [done|]. apply Hkeep. apply (Hi ph); [done|naive_solver].
    + apply Hkeep. apply (Hi ph'); [by eapply list_elem_of_lookup_2|done].
  - apply list_elem_of_lookup in Hin as [k Hk].
    apply list_lookup_insert_Some in Hk as [(_ & <- & _)|[_ Hk]]; [naive_solver|].
    assert (lock_inode (killed ph fs) = lock_inode fs) as ->
      by (unfold killed; by destruct (held ph)).
    apply (Hi ph'); [by eapply list_elem_of_lookup_2|done].
Qed.

Lemma start_invariants ps s :
  Forall (fun ph => ph = Starting \/ ph = Querying) ps -> rtc start_step (LockFs_empty, ps) s ->
  locks_match s /\ one_inode s.
Proof.
  intros Hp Hr. remember (LockFs_empty, ps) as s0 eqn:E0.
  assert (locks_match s0 /\ one_inode s0) as H0.
  { subst. rewrite Forall_forall in Hp. split.
    - apply locks_match_init, Forall_forall. intros ph Hph. by destruct (Hp ph Hph) as [-> | ->].
    - split; [apply Forall_forall; intros ph Hph; by destruct (Hp ph Hph) as [-> | ->]|].
      intros ph i Hph. cbn in Hph. destruct (Hp ph Hph) as [-> | ->]; naive_solver. }
  clear E0 Hp. induction Hr as [|a b c Hs _ IH]; [done|]. apply IH. destruct H0 as [Hm Ho].
  split; [|by eapply one_inode_step]. destruct Hs as [? ? Hs _]. by eapply locks_match_step.
Qed.

(** ** Properties *)

(** The advisory lock: however starts, shutdowns, kills and clean-ups interleave,
    two processes never hold the lock of the same inode. *)
Theorem lock_exclusive ps fs qs a b i pa pb :
  Forall (fun ph => held ph = None) ps -> rtc step (LockFs_empty, ps) (fs, qs) ->
  qs !! a = Some pa -> qs !! b = Some pb -> held pa = Some i -> held pb = Some i -> a = b.
Proof.
  intros Hp Hr Ha Hb Hia Hib. pose proof (locks_match_reachable ps (fs, qs) Hp Hr) as Hm.
  assert (holders fs !! i = Some a) by (apply (Hm i a); by exists pa).
  assert (holders fs !! i = Some b) by (apply (Hm i b); by exists pb). congruence.
Qed.

(** C31 One instance: from any number of daemons started at the same time, and of
    commands that ask for the running one, in every state reached before a daemon
    begins to shut down, and even if some are killed, at most one has got past the
    lock. *)
Theorem single_instance ps fs qs a b i j :
  Forall (fun ph => ph = Starting \/ ph = Querying) ps -> rtc start_step (LockFs_empty, ps) (fs, qs) ->
  qs !! a = Some (Running i) -> qs !! b = Some (Running j) -> a = b.
Proof.
  intros Hp Hr Ha Hb. destruct (start_invariants ps (fs, qs) Hp Hr) as [Hm [_ Hi]].
  pose proof (Hi _ i (list_elem_of_lookup_2 _ _ _ Ha) ltac:(auto)) as Ei.
  pose proof (Hi _ j (list_elem_of_lookup_2 _ _ _ Hb) ltac:(auto)) as Ej.
  assert (i = j) as <- by (cbn in *; congruence).
  assert (holders fs !! i = Some a) by (apply (Hm i a); by eexists).
  assert (holders fs !! i = Some b) by (apply (Hm i b); by eexists). congruence.
Qed.

(** Runs the given processes' calls one by one. *)
Fixpoint run_calls (l : list nat) (s : LockFs * list Phase) : option (LockFs * list Phase) :=
  match l with
  | [] => Some s
  | me :: l' =>
      match snd s !! me with
      | Some ph =>
          match next_call me (N.of_nat me + 100) ph (fst s) with
          | Some (ph', fs') => run_calls l' (fs', <[me := ph']> (snd s))
          | None => None
          end
      | None => None
      end
  end.

Lemma run_calls_sound l s s' : run_calls l s = Some s' -> rtc step s s'.
Proof.
  revert s. induction l as [|me l IH]; intros [fs ps]; cbn [run_calls fst snd]; [by intros [= ->]|].
  destruct (ps !! me) as [ph|] eqn:E; [|done].
  destruct (next_call me _ ph fs) as [[ph' fs']|] eqn:Ec; [|done].
  intros Hr. eapply rtc_l; [by eapply step_call|]. by apply IH.
Qed.

Lemma single_instance_witness :
  exists fs, rtc start_step (LockFs_empty, [Starting; Starting]) (fs, [Running 1; Refused 100]) /\
    forall a b i j, [Running 1; Refused 100] !! a = Some (Running i) ->
      [Running 1; Refused 100] !! b = Some (Running j) -> a = b.
Proof.
  assert (rtc start_step (LockFs_empty, [Starting; Starting])
            (mkLockFs (Some 1) (Some 100) {[1 := 0%nat]} 2, [Running 1; Refused 100])) as Hr.
  { do 3 (eapply rtc_l; [constructor; [eapply (step_call _ _ _ 0 _ _ 100); reflexivity|
      repeat constructor]|]).
    do 2 (eapply rtc_l; [constructor; [eapply (step_call _ _ _ 1 _ _ 101); reflexivity|
      repeat constructor]|]).
    apply rtc_refl. }
  eexists. split; [exact Hr|]. intros a b i j Ha Hb.
  apply (single_instance [Starting; Starting] _ _ a b i j ltac:(repeat constructor; by left) Hr Ha Hb).
Defined.

(** Two instances after all: the shutdown of one daemon gives up the lock before it
    removes the lock file.  A second daemon that had opened the file gets the lock;
    the first then removes the name, a third creates a new file and locks that: two
    daemons run at once. *)
Theorem two_daemons_reachable :
  exists fs i j, i <> j /\
    rtc step (LockFs_empty, [Starting; Starting; Starting]) (fs, [Gone; Running i; Running j]).
Proof.
  destruct (run_calls [0; 0; 0; 1; 0; 1; 0; 0; 1; 2; 2; 2]%nat
              (LockFs_empty, [Starting; Starting; Starting])) as [[fs ps]|] eqn:E;
    [|vm_compute in E; discriminate E].
  assert (ps = [Gone; Running 1; Running 2]) as Ep.
  { assert (snd <$> run_calls [0; 0; 0; 1; 0; 1; 0; 0; 1; 2; 2; 2]%nat
              (LockFs_empty, [Starting; Starting; Starting]) = Some [Gone; Running 1; Running 2]) as Es
      by (vm_compute; reflexivity).
    rewrite E in Es. by injection Es. }
  exists fs, 1, 2. split; [done|]. rewrite <- Ep. by apply run_calls_sound in E.
Qed.

(** The same with a [stop]: it tests the lock of a file left behind, and between the
    test and the removal a daemon starts on that file. *)
Theorem cleanup_lets_two_run :
  exists fs i j, i <> j /\
    rtc step (mkLockFs (Some 1) None ∅ 2, [Cleaning; Starting; Starting])
      (fs, [Gone; Running i; Running j]).
Proof.
  destruct (run_calls [0; 0; 0; 1; 1; 1; 0; 0; 2; 2; 2]%nat
              (mkLockFs (Some 1) None ∅ 2, [Cleaning; Starting; Starting])) as [[fs ps]|] eqn:E;
    [|vm_compute in E; discriminate E].
  assert (ps = [Gone; Running 1; Running 2]) as Ep.
  { assert (snd <$> run_calls [0; 0; 0; 1; 1; 1; 0; 0; 2; 2; 2]%nat
              (mkLockFs (Some 1) None ∅ 2, [Cleaning; Starting; Starting]) =
            Some [Gone; Running 1; Running 2]) as Es by (vm_compute; reflexivity).
    rewrite E in Es. by injection Es. }
  exists fs, 1, 2. split; [done|]. rewrite <- Ep. by apply run_calls_sound in E.
Qed.

(** A question prevents a start: asking for the running daemon takes the lock for a
    moment, and a daemon that starts in that moment is told that one runs already,
    under process id 0.  Afterwards nobody runs and nobody holds the lock. *)
Theorem query_refuses_start :
  exists fs, rtc step (LockFs_empty, [Starting; Querying]) (fs, [Refused 0; Gone]) /\ holders fs = ∅.
Proof.
  destruct (run_calls [0; 1; 1; 0; 1]%nat (LockFs_empty, [Starting; Querying])) as [[fs ps]|] eqn:E;
    [|vm_compute in E; discriminate E].
  exists fs. assert (ps = [Refused 0; Gone] /\ holders fs = ∅) as [<- Hh].
  { vm_compute in E. by injection E as <- <-. }
  split; [by apply run_calls_sound in E|exact Hh].
Qed.

(** The lock decides nothing when the id file is readable: a leftover id file, whose
    number now belongs to any live process, is reported as the running daemon, and
    that process is the one a stop would signal. *)
Theorem leftover_pid_is_believed signal text pid rest :
  parse_u32 (trim text) = Some pid -> is_process_alive signal pid = true ->
  get_running_pid signal (mkPathState true false (Some text) :: rest) = Some pid.
Proof.
  intros Hp Ha. unfold get_running_pid. cbn [find_map running_pid_at ps_lock_opens ps_lock_held].
  unfold pid_if_alive. cbn [ps_pid_text]. by rewrite Hp, Ha.
Qed.
