(* ===== verification/Logs.v ===== *)
(** The audit trail (src/audit/mod.rs), the daemon's log file (src/util/logger.rs) and
    the shadow report (src/shadow/mod.rs).

    A log file is the list of its lines.  Names refer to inodes and an open file keeps
    its inode when its name is moved, which is what rotation relies on.  Every call may
    fail.  The theorems: the log is the most recent lines in order, in three files of
    bounded size; an audit record that is reported written is the last line of the
    trail; but after a failed reopening the audit trail drops every record while
    reporting success, and the log erases its own history. *)
From Stdlib Require Import Ascii String.
From S2P Require Import Prelude Paths Domain ConfigFile Catalog.

(** ** Files *)

Record LogFs := mkLogFs {
  lf_names : gmap string nat;
  lf_bodies : gmap nat (list string);
  lf_next : nat;
}.

(** The bytes of some lines, each with its newline. *)
Definition lines_size (l : list string) : N := foldr (fun line acc => str_len line + 1 + acc) 0 l.

Definition body (fs : LogFs) (i : nat) : list string := default [] (lf_bodies fs !! i).
Definition content (fs : LogFs) (path : string) : list string :=
  match lf_names fs !! path with Some i => body fs i | None => [] end.

(** [metadata(path).len()] *)
Definition file_len (fs : LogFs) (path : string) : option N :=
  match lf_names fs !! path with Some i => Some (lines_size (body fs i)) | None => None end.

(** An open that creates and appends. *)
Definition open_append (failed : bool) (path : string) (fs : LogFs) : option nat * LogFs :=
  if failed then (None, fs)
  else match lf_names fs !! path with
       | Some i => (Some i, fs)
       | None => (Some (lf_next fs),
                  mkLogFs (<[path := lf_next fs]> (lf_names fs)) (<[lf_next fs := []]> (lf_bodies fs))
                    (S (lf_next fs)))
       end.

Definition remove (failed : bool) (path : string) (fs : LogFs) : LogFs :=
  if failed then fs else mkLogFs (delete path (lf_names fs)) (lf_bodies fs) (lf_next fs).

Definition rename (failed : bool) (src dst : string) (fs : LogFs) : LogFs :=
  if failed then fs
  else match lf_names fs !! src with
       | None => fs
       | Some i => mkLogFs (<[dst := i]> (delete src (lf_names fs))) (lf_bodies fs) (lf_next fs)
       end.

Definition write_line (i : nat) (line : string) (fs : LogFs) : LogFs :=
  mkLogFs (lf_names fs) (<[i := body fs i ++ [line]]> (lf_bodies fs)) (lf_next fs).

(** ** The daemon's log (logger.rs) *)

Definition MAX_LOG_SIZE_BYTES : N := 1536 * 1024.
Definition LOG_PATH : string := "/data/adb/cleaner/run/cleaner.log".
Definition LOG_1 : string := "/data/adb/cleaner/run/cleaner.log.1".
Definition LOG_2 : string := "/data/adb/cleaner/run/cleaner.log.2".

Record LogFileState := mkLogFileState { ls_file : nat; ls_current_size : N }.

(** The calls that fail. *)
Record LogFaults := mkLogFaults {
  no_run_dir : bool;
  open_fails : bool;
  remove_fails : bool;
  rename_1_fails : bool;
  rename_fails : bool;
  reopen_fails : bool;
  write_fails : bool;
}.

Definition no_log_faults : LogFaults := mkLogFaults false false false false false false false.

Definition init_state (f : LogFaults) (st : option LogFileState) (fs : LogFs)
    : option LogFileState * LogFs :=
  match st with
  | Some s => (Some s, fs)
  | None =>
      let initial_size := default 0 (file_len fs LOG_PATH) in
      let '(r, fs') := open_append (open_fails f) LOG_PATH fs in
      (match r with Some i => Some (mkLogFileState i initial_size) | None => None end, fs')
  end.

Definition rotate (f : LogFaults) (fs : LogFs) : LogFs :=
  rename (rename_fails f) LOG_PATH LOG_1
    (rename (rename_1_fails f) LOG_1 LOG_2 (remove (remove_fails f) LOG_2 fs)).

Definition write_log (f : LogFaults) (line : string) (s : LogFileState) (fs : LogFs)
    : option LogFileState * LogFs :=
  if write_fails f then (Some s, fs)
  else (Some (mkLogFileState (ls_file s) (ls_current_size s + str_len line + 1)),
        write_line (ls_file s) line fs).

Definition append_to_file (f : LogFaults) (line : string) (st : option LogFileState) (fs : LogFs)
    : option LogFileState * LogFs :=
  if no_run_dir f then (st, fs)
  else
    let '(st, fs) := init_state f st fs in
    match st with
    | None => (None, fs)
    | Some s =>
        if MAX_LOG_SIZE_BYTES <? ls_current_size s + (str_len line + 1) then
          let '(r, fs') := open_append (reopen_fails f) LOG_PATH (rotate f fs) in
          match r with
          | Some i => write_log f line (mkLogFileState i 0) fs'
          | None => (Some s, fs')
          end
        else write_log f line s fs
    end.

(** ** The audit trail (audit/mod.rs) *)

Definition MAX_AUDIT_LOG_SIZE_BYTES : N := 10 * 1024 * 1024.

Record JobAuditRecord := mkAuditRecord {
  ar_job_id : JobId;
  ar_attempt_id : AttemptId;
  ar_recorded_at : N;
  ar_duration_ms : N;
  ar_total_reclaimed_bytes : N;
  ar_operations_total : nat;
  ar_operations_successful : nat;
  ar_operations_failed : nat;
  ar_operations_skipped : nat;
  ar_success : bool;
}.

(** [From<&JobResult>] *)
Definition audit_record (now : N) (result : JobResult) : JobAuditRecord :=
  mkAuditRecord (jr_job_id result) (jr_attempt_id result) now (jr_duration_ms result)
    (jr_total_reclaimed result) (jr_total_operations result)
    (jr_successful_operations result) (jr_failed_operations result) (jr_skipped_operations result)
    (jr_failed_operations result =? 0)%nat.

Record AuditLogger := mkAuditLogger { log_path : string; writer : option nat }.

Record AuditFaults := mkAuditFaults {
  au_rename_fails : bool;
  au_reopen_fails : bool;
  au_write_fails : option Errno;
  au_sync_fails : option Errno;
}.

Definition no_audit_faults : AuditFaults := mkAuditFaults false false None None.

(** [dirs] is the failure to create the directory, [opened] to open the file. *)
Definition open_or_create (dirs opened : option Errno) (path : string) (fs : LogFs)
    : result CleanerError AuditLogger * LogFs :=
  match (if has_parent path then dirs else None) with
  | Some e => (Err (Io e), fs)
  | None =>
      match opened with
      | Some e => (Err (Io e), fs)
      | None => let '(r, fs') := open_append false path fs in (Ok (mkAuditLogger path r), fs')
      end
  end.

Definition default_logger (dirs opened : option Errno) : LogFs -> result CleanerError AuditLogger * LogFs :=
  open_or_create dirs opened "/data/adb/cleaner/audit/audit.jsonl".

Section audit.
Context (to_string : JobAuditRecord -> result string string).

(** The rotation, if the file has grown enough. *)
Definition rotate_audit (f : AuditFaults) (l : AuditLogger) (fs : LogFs) : AuditLogger * LogFs :=
  match file_len fs (log_path l) with
  | Some len =>
      if MAX_AUDIT_LOG_SIZE_BYTES <=? len then
        let rotated := with_extension (log_path l) "jsonl.1" in
        let '(r, fs') := open_append (au_reopen_fails f) (log_path l)
                           (rename (au_rename_fails f) (log_path l) rotated fs) in
        (mkAuditLogger (log_path l) r, fs')
      else (l, fs)
  | None => (l, fs)
  end.

Definition record_job (f : AuditFaults) (now : N) (result : JobResult) (l : AuditLogger) (fs : LogFs)
    : Prelude.result CleanerError unit * AuditLogger * LogFs :=
  let record := audit_record now result in
  let '(l, fs) := rotate_audit f l fs in
  match writer l with
  | Some i =>
      match to_string record with
      | Err m => (Err (Json m), l, fs)
      | Ok json_line =>
          match au_write_fails f with
          | Some e => (Err (Io e), l, fs)
          | None =>
              let fs' := write_line i json_line fs in
              (match au_sync_fails f with Some e => Err (Io e) | None => Ok tt end, l, fs')
          end
      end
  | None => (Ok tt, l, fs)
  end.
End audit.

(** ** The shadow report (shadow/mod.rs) *)

Inductive ShadowDiff := Equal | NewMore (extra : nat) | LegacyMore (extra : nat) | Diverged (legacy new : nat).

Record ShadowReport := mkShadowReport {
  legacy_targets : nat;
  new_targets : nat;
  sr_catalog_generation : CatalogGeneration;
  sr_config_generation : ConfigGeneration;
  legacy_plan_ops : nat;
  new_plan_ops : nat;
  diff : ShadowDiff;
}.

Definition compare (catalog : CatalogSnapshot) : ShadowReport :=
  let snapshot := take_snapshot catalog in
  let new := size (targets snapshot) in
  let legacy := new in
  mkShadowReport legacy new (generation snapshot) ConfigGeneration_INITIAL 0 0
    match Nat.compare legacy new with
    | Eq => Equal
    | Lt => NewMore (new - legacy)
    | Gt => LegacyMore (legacy - new)
    end.

(** ** Lemmas *)

(** Names are distinct files, and numbers not yet given are fresh. *)
Definition logs_wf (fs : LogFs) : Prop :=
  (forall p q i, lf_names fs !! p = Some i -> lf_names fs !! q = Some i -> p = q) /\
  (forall p i, lf_names fs !! p = Some i -> (i < lf_next fs)%nat).

Lemma remove_wf b p fs : logs_wf fs -> logs_wf (remove b p fs).
Proof.
  intros [Hi Hf]. unfold remove. destruct b; [done|]. split; cbn.
  - intros q r i [_ Hq]%lookup_delete_Some [_ Hr]%lookup_delete_Some. eauto.
  - intros q i [_ Hq]%lookup_delete_Some. eauto.
Qed.

Lemma rename_wf b p q fs : logs_wf fs -> logs_wf (rename b p q fs).
Proof.
  intros [Hi Hf]. unfold rename. destruct b; [done|]. destruct (lf_names fs !! p) as [i|] eqn:E; [|done].
  split; cbn; [intros r r' j|intros r j]; rewrite ?lookup_insert_Some, ?lookup_delete_Some; [|naive_solver].
  intros [[<- <-]|[Hr [Hr1 Hr2]]] [[<- Hj]|[Hr' [Hr1' Hr2']]]; try done.
  - exfalso. apply Hr1'. eauto.
  - exfalso. subst j. apply Hr1. eauto.
  - eauto.
Qed.

Lemma open_wf b p fs : logs_wf fs -> logs_wf (snd (open_append b p fs)).
Proof.
  intros [Hi Hf]. unfold open_append. destruct b; [done|]. destruct (lf_names fs !! p) as [i|] eqn:E; [done|].
  split; cbn; [intros r r' j|intros r j]; rewrite ?lookup_insert_Some.
  - intros [[<- <-]|[Hr Hj]] [[<- Hj']|[Hr' Hj']]; try done.
    + apply Hf in Hj'. lia.
    + apply Hf in Hj. lia.
    + eauto.
  - intros [[<- <-]|[_ Hj%Hf]]; lia.
Qed.

Lemma write_wf i line fs : logs_wf fs -> logs_wf (write_line i line fs).
Proof. done. Qed.

(** Writing to the file behind a name changes that name's content only. *)
Lemma write_content fs i line p :
  logs_wf fs -> forall q, lf_names fs !! q = Some i ->
  content (write_line i line fs) p = if decide (p = q) then content fs q ++ [line] else content fs p.
Proof.
  intros [Hi _] q Hq. unfold content, write_line, body. cbn. case_decide as Hp.
  - subst p. by rewrite Hq, lookup_insert_eq.
  - destruct (lf_names fs !! p) as [j|] eqn:Ej; [|done].
    rewrite lookup_insert_ne; [done|]. intros <-. eauto.
Qed.

Lemma open_content p q fs : logs_wf fs -> content (snd (open_append false p fs)) q = content fs q.
Proof.
  intros [_ Hf]. unfold open_append. destruct (lf_names fs !! p) as [i|] eqn:E; [done|].
  unfold content, body. cbn. destruct (decide (p = q)) as [<-|Hpq].
  - by rewrite lookup_insert_eq, lookup_insert_eq, E.
  - rewrite lookup_insert_ne by done. destruct (lf_names fs !! q) as [j|] eqn:Ej; [|done].
    apply Hf in Ej. by rewrite lookup_insert_ne by lia.
Qed.

Lemma open_name p fs : exists i, open_append false p fs = (Some i, snd (open_append false p fs)) /\
  lf_names (snd (open_append false p fs)) !! p = Some i.
Proof.
  unfold open_append. destruct (lf_names fs !! p) as [i|] eqn:E; [eauto|].
  eexists. split; [done|]. cbn. by rewrite lookup_insert_eq.
Qed.

Lemma log_names_differ : LOG_PATH <> LOG_1 /\ LOG_PATH <> LOG_2 /\ LOG_1 <> LOG_2.
Proof. done. Qed.

(** A rotation that succeeds moves each name's file to the next name. *)
Lemma rotate_names fs :
  lf_bodies (rotate no_log_faults fs) = lf_bodies fs /\
  lf_names (rotate no_log_faults fs) !! LOG_PATH = None /\
  lf_names (rotate no_log_faults fs) !! LOG_1 = lf_names fs !! LOG_PATH /\
  lf_names (rotate no_log_faults fs) !! LOG_2 = lf_names fs !! LOG_1.
Proof.
  destruct log_names_differ as (H01 & H02 & H12).
  unfold rotate, rename, remove. cbn [rename_fails rename_1_fails remove_fails no_log_faults lf_names].
  rewrite lookup_delete_ne by congruence.
  destruct (lf_names fs !! LOG_1) as [i1|] eqn:E1; cbn [lf_names];
    rewrite ?lookup_insert_ne, ?lookup_delete_ne, ?lookup_delete_ne by congruence;
    destruct (lf_names fs !! LOG_PATH) as [i0|] eqn:E0; cbn [lf_names lf_bodies];
    repeat (rewrite lookup_insert_eq || rewrite lookup_delete_eq ||
            (rewrite lookup_insert_ne by congruence) || (rewrite lookup_delete_ne by congruence));
    rewrite ?E0, ?E1; done.
Qed.

Lemma rotate_content fs :
  content (rotate no_log_faults fs) LOG_PATH = [] /\
  content (rotate no_log_faults fs) LOG_1 = content fs LOG_PATH /\
  content (rotate no_log_faults fs) LOG_2 = content fs LOG_1.
Proof.
  destruct (rotate_names fs) as (Hb & H0 & H1 & H2). unfold content, body. by rewrite Hb, H0, H1, H2.
Qed.

(** The state of the logger matches the file. *)
Definition log_inv (st : option LogFileState) (fs : LogFs) : Prop :=
  logs_wf fs /\
  match st with
  | None => True
  | Some s => lf_names fs !! LOG_PATH = Some (ls_file s) /\
              ls_current_size s = lines_size (content fs LOG_PATH)
  end.

(** The old lines, oldest first. *)
Definition history (fs : LogFs) : list string := content fs LOG_2 ++ content fs LOG_1 ++ content fs LOG_PATH.

(** Within the limit, or a single line. *)
Definition bounded (l : list string) : Prop := lines_size l <= MAX_LOG_SIZE_BYTES \/ (length l <= 1)%nat.

Lemma lines_size_app l1 l2 : lines_size (l1 ++ l2) = lines_size l1 + lines_size l2.
Proof. unfold lines_size. induction l1 as [|x l IH]; cbn; [done|]. rewrite IH. lia. Qed.

Lemma init_inv st fs :
  log_inv st fs -> exists s, let '(r, fs') := init_state no_log_faults st fs in
  r = Some s /\ log_inv (Some s) fs' /\ forall p, content fs' p = content fs p.
Proof.
  intros [Hwf Hst]. destruct st as [s|]; [by exists s|]. cbn [init_state open_fails no_log_faults].
  destruct (open_name LOG_PATH fs) as (i & Eo & Hn). rewrite Eo.
  exists (mkLogFileState i (default 0 (file_len fs LOG_PATH))). split; [done|].
  assert (forall p, content (snd (open_append false LOG_PATH fs)) p = content fs p) as Hc
    by (intros p; by apply open_content).
  split; [|done]. split; [by apply open_wf|]. split; [done|]. cbn. rewrite Hc.
  unfold file_len, content. by destruct (lf_names fs !! LOG_PATH).
Qed.

Lemma write_inv line s fs :
  log_inv (Some s) fs ->
  let '(r, fs') := write_log no_log_faults line s fs in
  log_inv r fs' /\
  forall p, content fs' p = if decide (p = LOG_PATH) then content fs LOG_PATH ++ [line] else content fs p.
Proof.
  intros [Hwf [Hn Hs]]. cbn.
  assert (forall p, content (write_line (ls_file s) line fs) p =
    if decide (p = LOG_PATH) then content fs LOG_PATH ++ [line] else content fs p) as Hc
    by (intros p; by apply write_content).
  split; [|done]. split; [done|]. split; [done|]. cbn. rewrite Hc, decide_True by done.
  rewrite lines_size_app, Hs. cbn. lia.
Qed.

Lemma append_step line st fs :
  log_inv st fs ->
  let '(st', fs') := append_to_file no_log_faults line st fs in
  log_inv st' fs' /\
  ((content fs' LOG_PATH = content fs LOG_PATH ++ [line] /\ content fs' LOG_1 = content fs LOG_1 /\
    content fs' LOG_2 = content fs LOG_2 /\ lines_size (content fs' LOG_PATH) <= MAX_LOG_SIZE_BYTES) \/
   (content fs' LOG_PATH = [line] /\ content fs' LOG_1 = content fs LOG_PATH /\
    content fs' LOG_2 = content fs LOG_1)).
Proof.
  intros Hinv. destruct log_names_differ as (H01 & H02 & H12).
  unfold append_to_file. cbn [no_run_dir no_log_faults]. destruct (init_inv _ _ Hinv) as [s Hi].
  destruct (init_state no_log_faults st fs) as [r fs1]. destruct Hi as (-> & Hinv1 & Hc1).
  destruct (N.ltb_spec MAX_LOG_SIZE_BYTES (ls_current_size s + (str_len line + 1))) as [Hbig|Hfit].
  - destruct (rotate_content fs1) as (R0 & R1 & R2). change (reopen_fails no_log_faults) with false.
    destruct (open_name LOG_PATH (rotate no_log_faults fs1)) as (i & Eo & Hn). rewrite Eo.
    assert (logs_wf (rotate no_log_faults fs1)) as Hwf
      by (unfold rotate; do 2 apply rename_wf; apply remove_wf, Hinv1).
    set (fs2 := snd (open_append false LOG_PATH (rotate no_log_faults fs1))) in *.
    assert (forall p, content fs2 p = content (rotate no_log_faults fs1) p) as Hc2
      by (intros p; by apply open_content).
    pose proof (write_inv line (mkLogFileState i 0) fs2) as Hw.
    destruct (write_log no_log_faults line (mkLogFileState i 0) fs2) as [st' fs'].
    destruct Hw as [Hinv' Hc'].
    { split; [by apply open_wf|]. split; [done|]. cbn. by rewrite Hc2, R0. }
    split; [done|]. right. rewrite !Hc'. rewrite decide_True, !decide_False by done.
    by rewrite !Hc2, R0, R2, R1, !Hc1.
  - pose proof (write_inv line s fs1 Hinv1) as Hw.
    destruct (write_log no_log_faults line s fs1) as [st' fs']. destruct Hw as [Hinv' Hc'].
    split; [done|]. left. rewrite !Hc'. rewrite decide_True, !decide_False by done. rewrite !Hc1.
    repeat split. rewrite lines_size_app. destruct Hinv1 as [_ [_ Hs]]. rewrite Hs, Hc1 in Hfit. cbn. lia.
Qed.

(** What one line does to the history and the bounds. *)
Lemma append_recent line st fs :
  log_inv st fs -> Forall bounded [content fs LOG_PATH; content fs LOG_1; content fs LOG_2] ->
  let '(st', fs') := append_to_file no_log_faults line st fs in
  log_inv st' fs' /\ history fs' `suffix_of` history fs ++ [line] /\
  Forall bounded [content fs' LOG_PATH; content fs' LOG_1; content fs' LOG_2] /\
  last (content fs' LOG_PATH) = Some line.
Proof.
  intros Hinv Hb. pose proof (append_step line st fs Hinv) as Hs.
  destruct (append_to_file no_log_faults line st fs) as [st' fs']. destruct Hs as [Hinv' Hs].
  split; [done|]. rewrite !Forall_cons in Hb. destruct Hb as (B0 & B1 & B2 & _). unfold history.
  destruct Hs as [(-> & -> & -> & Hsz)|(-> & -> & ->)]; rewrite ?last_snoc.
  - split; [by rewrite <- !app_assoc|]. split; [|done]. rewrite !Forall_cons. repeat split; try done. by left.
  - split; [exists (content fs LOG_2); by rewrite <- !app_assoc|]. split; [|done].
    rewrite !Forall_cons. repeat split; try done. by right.
Qed.

(** Appending a list of lines. *)
Fixpoint append_all (l : list string) (st : option LogFileState) (fs : LogFs) : option LogFileState * LogFs :=
  match l with
  | [] => (st, fs)
  | line :: l' => let '(st', fs') := append_to_file no_log_faults line st fs in append_all l' st' fs'
  end.

(** ** Properties *)

(** The log is recent history: whatever was in the three files, after any lines were
    appended they hold, oldest first, a suffix of the old lines followed by the new
    ones, the newest included, and each file stays within 1.5 MiB, or holds a single
    line that is longer. *)
Theorem log_keeps_recent l st fs :
  log_inv st fs -> Forall bounded [content fs LOG_PATH; content fs LOG_1; content fs LOG_2] ->
  let '(st', fs') := append_all l st fs in
  history fs' `suffix_of` history fs ++ l /\
  Forall bounded [content fs' LOG_PATH; content fs' LOG_1; content fs' LOG_2] /\
  (forall line, last l = Some line -> last (content fs' LOG_PATH) = Some line).
Proof.
  revert st fs. induction l as [|line l IH]; intros st fs Hinv Hb; cbn [append_all].
  { rewrite app_nil_r. done. }
  pose proof (append_recent line st fs Hinv Hb) as Hs.
  destruct (append_to_file no_log_faults line st fs) as [st1 fs1]. destruct Hs as (Hinv1 & [k Hk] & Hb1 & Hl1).
  specialize (IH st1 fs1 Hinv1 Hb1). destruct (append_all l st1 fs1) as [st' fs'] eqn:Ea.
  destruct IH as ([k' Hk'] & Hb' & Hl'). split; [|split; [done|]].
  - exists (k ++ k'). rewrite <- app_assoc, <- Hk', app_assoc, <- Hk, <- app_assoc. done.
  - intros x. destruct l as [|y l]; [|apply Hl']. intros [= <-]. by injection Ea as <- <-.
Qed.

Definition empty_logs : LogFs := mkLogFs ∅ ∅ 0.

Lemma empty_logs_inv : log_inv None empty_logs.
Proof.
  split; [|done]. split; [intros p q i Hp|intros p i Hp]; cbn in Hp; by rewrite lookup_empty in Hp.
Qed.

Lemma log_keeps_recent_witness :
  history (snd (append_all ["a"; "b"]%string None empty_logs)) = ["a"; "b"]%string /\
  last (content (snd (append_all ["a"; "b"]%string None empty_logs)) LOG_PATH) = Some "b"%string.
Proof.
  split; [vm_compute; reflexivity|].
  pose proof (log_keeps_recent ["a"; "b"]%string None empty_logs) as Hl.
  destruct (append_all ["a"; "b"]%string None empty_logs) as [st' fs'].
  destruct Hl as (_ & _ & Hlast); [| |by apply Hlast].
  - split; [|done]. split; [intros p q i Hp|intros p i Hp]; cbn in Hp; by rewrite lookup_empty in Hp.
  - repeat constructor; vm_compute; discriminate.
Defined.

(** A rotation whose reopening fails is tried again with every line: three lines later
    all three files are gone. *)
Lemma failed_reopen_erases f s l1 l2 l3 fs :
  no_run_dir f = false -> remove_fails f = false -> rename_1_fails f = false -> rename_fails f = false ->
  reopen_fails f = true -> MAX_LOG_SIZE_BYTES <= ls_current_size s ->
  let '(st1, fs1) := append_to_file f l1 (Some s) fs in
  let '(st2, fs2) := append_to_file f l2 st1 fs1 in
  let '(st3, fs3) := append_to_file f l3 st2 fs2 in
  history fs3 = [] /\ st3 = Some s.
Proof.
  intros Hd Hr H1 H0 Ho Hs. destruct log_names_differ as (D01 & D02 & D12).
  assert (forall line, append_to_file f line (Some s) = fun fs => (Some s, rotate f fs)) as Hstep.
  { intros line. unfold append_to_file. rewrite Hd. cbn [init_state].
    rewrite (proj2 (N.ltb_lt _ _)) by lia. unfold open_append. by rewrite Ho. }
  rewrite !Hstep. split; [|done].
  assert (rotate f = rotate no_log_faults) as -> by (unfold rotate; by rewrite Hr, H1, H0).
  set (g1 := rotate no_log_faults fs). set (g2 := rotate no_log_faults g1).
  destruct (rotate_names fs) as (_ & A0 & _), (rotate_names g1) as (_ & B0 & B1 & _),
    (rotate_names g2) as (_ & C0 & C1 & C2).
  fold g1 in A0. fold g2 in B0, B1. unfold history, content. by rewrite C0, C1, C2, B0, B1, A0.
Qed.

(** ** The log when calls fail *)

(** The open file is that of the newest name that has one, if it has a name at all. *)
Definition newest (i : nat) (fs : LogFs) : Prop :=
  (lf_names fs !! LOG_1 = Some i -> lf_names fs !! LOG_PATH = None) /\
  (lf_names fs !! LOG_2 = Some i -> lf_names fs !! LOG_1 = None /\ lf_names fs !! LOG_PATH = None).

Definition log_follows (st : option LogFileState) (fs : LogFs) : Prop :=
  logs_wf fs /\ forall s, st = Some s -> newest (ls_file s) fs.

Lemma log_inv_follows st fs : log_inv st fs -> log_follows st fs.
Proof.
  intros [Hwf Hst]. split; [done|]. intros s ->. destruct Hst as [Hn _], Hwf as [Hinj _].
  destruct log_names_differ as (H01 & H02 & _).
  split; intros Hi; exfalso; [apply H01|apply H02]; by eapply Hinj.
Qed.

(** What a step of a rotation keeps: the open file is still the newest, and the files
    hold no line they did not hold, in the same order. *)
Definition shrinks (fs fs' : LogFs) : Prop :=
  history fs' `sublist_of` history fs /\ (forall i, newest i fs -> newest i fs') /\
  (logs_wf fs -> logs_wf fs').

Lemma shrinks_refl fs : shrinks fs fs.
Proof. done. Qed.

Lemma shrinks_trans fs1 fs2 fs3 : shrinks fs1 fs2 -> shrinks fs2 fs3 -> shrinks fs1 fs3.
Proof. intros (H1 & N1 & W1) (H2 & N2 & W2). split; [by etrans|auto]. Qed.

Lemma remove_shrinks b fs : shrinks fs (remove b LOG_2 fs).
Proof.
  split; [|split; [|apply remove_wf]]; unfold remove; destruct b; [done| |done|].
  - unfold history, content. cbn. rewrite lookup_delete_eq, !lookup_delete_ne by done.
    by apply sublist_inserts_l.
  - intros i [H1 H2]. split; cbn; rewrite ?lookup_delete_eq, ?lookup_delete_ne by done; done.
Qed.

Lemma rename_1_shrinks b fs : shrinks fs (rename b LOG_1 LOG_2 fs).
Proof.
  destruct log_names_differ as (D01 & D02 & D12).
  split; [|split; [|apply rename_wf]]; unfold rename; destruct b; [done| |done|];
    destruct (lf_names fs !! LOG_1) as [j|] eqn:E1; try done.
  - unfold history, content. cbn. rewrite lookup_insert_eq.
    rewrite (lookup_insert_ne _ LOG_2 LOG_1), (lookup_insert_ne _ LOG_2 LOG_PATH) by congruence.
    rewrite lookup_delete_eq, lookup_delete_ne by congruence. rewrite E1. by apply sublist_inserts_l.
  - intros i [H1 H2]. split; cbn; rewrite ?lookup_insert_eq;
      rewrite (lookup_insert_ne _ LOG_2 LOG_1), (lookup_insert_ne _ LOG_2 LOG_PATH) by congruence;
      rewrite lookup_delete_eq, lookup_delete_ne by congruence; [done|].
    intros [= ->]. auto.
Qed.

Lemma rename_shrinks b fs : shrinks fs (rename b LOG_PATH LOG_1 fs).
Proof.
  destruct log_names_differ as (D01 & D02 & D12).
  split; [|split; [|apply rename_wf]]; unfold rename; destruct b; [done| |done|];
    destruct (lf_names fs !! LOG_PATH) as [j|] eqn:E0; try done.
  - unfold history, content. cbn. rewrite lookup_insert_eq.
    rewrite (lookup_insert_ne _ LOG_1 LOG_2), (lookup_insert_ne _ LOG_1 LOG_PATH) by congruence.
    rewrite lookup_delete_eq, lookup_delete_ne by congruence. rewrite E0, app_nil_r.
    apply sublist_app; [done|]. by apply sublist_inserts_l.
  - intros i [H1 H2]. split; cbn; rewrite ?lookup_insert_eq;
      rewrite ?(lookup_insert_ne _ LOG_1 LOG_2), (lookup_insert_ne _ LOG_1 LOG_PATH) by congruence;
      rewrite lookup_delete_eq; [done|]. rewrite lookup_delete_ne by congruence.
    intros [_ Hn]%H2. congruence.
Qed.

Lemma rotate_shrinks f fs : shrinks fs (rotate f fs).
Proof.
  eapply shrinks_trans; [eapply shrinks_trans; [apply remove_shrinks|apply rename_1_shrinks]|apply rename_shrinks].
Qed.

(** An open file under the newest name is the newest. *)
Lemma named_newest i fs : logs_wf fs -> lf_names fs !! LOG_PATH = Some i -> newest i fs.
Proof.
  intros [Hinj _] Hn. destruct log_names_differ as (H01 & H02 & _).
  split; intros Hi; exfalso; [apply H01|apply H02]; by eapply Hinj.
Qed.

Lemma open_follows fs : logs_wf fs -> exists i fs',
  open_append false LOG_PATH fs = (Some i, fs') /\ history fs' = history fs /\ logs_wf fs' /\ newest i fs'.
Proof.
  intros Hwf. destruct (open_name LOG_PATH fs) as (i & Eo & Hn). exists i, (snd (open_append false LOG_PATH fs)).
  split; [done|]. split; [unfold history; by rewrite !open_content|].
  split; [by apply open_wf|]. apply named_newest; [by apply open_wf|done].
Qed.

(** A line written to the newest file is the last, or is lost with a nameless one. *)
Lemma write_newest i line fs :
  newest i fs -> history (write_line i line fs) `sublist_of` history fs ++ [line].
Proof.
  intros [H1 H2]. unfold history, content, write_line. cbn.
  assert (forall p j, lf_names fs !! p = Some j ->
    body (mkLogFs (lf_names fs) (<[i := body fs i ++ [line]]> (lf_bodies fs)) (lf_next fs)) j
    = if decide (j = i) then body fs j ++ [line] else body fs j) as Hb.
  { intros p j _. unfold body. cbn. case_decide as Hj.
    - subst j. by rewrite lookup_insert_eq.
    - by rewrite lookup_insert_ne by congruence. }
  destruct (lf_names fs !! LOG_2) as [i2|] eqn:E2, (lf_names fs !! LOG_1) as [i1|] eqn:E1,
    (lf_names fs !! LOG_PATH) as [i0|] eqn:E0;
    rewrite ?(Hb _ _ E2), ?(Hb _ _ E1), ?(Hb _ _ E0); repeat case_decide; subst;
    try (by destruct (H2 eq_refl)); try (by specialize (H1 eq_refl));
    rewrite ?app_nil_r, <- ?app_assoc; try done;
    rewrite ?app_assoc; by apply sublist_inserts_r.
Qed.

(** One line, whatever fails. *)
Lemma append_follows f line st fs :
  log_follows st fs ->
  let '(st', fs') := append_to_file f line st fs in
  log_follows st' fs' /\ history fs' `sublist_of` history fs ++ [line].
Proof.
  assert (forall fs' : LogFs, history fs' `sublist_of` history fs ->
    history fs' `sublist_of` history fs ++ [line]) as Hmore by (intros fs' Hs; by apply sublist_inserts_r).
  assert (forall s fs', history fs' `sublist_of` history fs -> logs_wf fs' -> newest (ls_file s) fs' ->
    let '(st', fs'') := write_log f line s fs' in
    log_follows st' fs'' /\ history fs'' `sublist_of` history fs ++ [line]) as Hwrite.
  { intros s fs' Hh Hwf Hn. unfold write_log. destruct (write_fails f).
    - split; [|by apply Hmore]. split; [done|]. by intros s' [= <-].
    - split; [split; [done|]; by intros s' [= <-]|].
      etrans; [by apply write_newest|]. by apply sublist_app. }
  intros Hf. unfold append_to_file. destruct (no_run_dir f); [by split; [|apply Hmore]|].
  assert (exists r fs1, init_state f st fs = (r, fs1) /\ log_follows r fs1 /\ history fs1 = history fs)
    as (r & fs1 & -> & Hf1 & Hh1).
  { unfold init_state. destruct st as [s|]; [by eexists _, _|]. destruct (open_fails f).
    - eexists _, _. split; [done|]. by split.
    - destruct (open_follows fs (proj1 Hf)) as (i & fs1 & -> & Hh & Hwf & Hn).
      eexists _, _. split; [done|]. split; [|done]. split; [done|]. by intros s [= <-]. }
  destruct r as [s|]; [|split; [done|apply Hmore; by rewrite Hh1]].
  destruct Hf1 as [Hwf1 Hn1]. specialize (Hn1 s eq_refl).
  destruct (_ <? _); [|apply Hwrite; [by rewrite Hh1|done..]].
  destruct (rotate_shrinks f fs1) as (Hsub & Hnew & Hwf2). rewrite Hh1 in Hsub.
  destruct (reopen_fails f).
  - cbn [open_append]. split; [|by apply Hmore]. split; [auto|]. intros s' [= <-]. auto.
  - destruct (open_follows (rotate f fs1) (Hwf2 Hwf1)) as (i & fs2 & -> & Hh & Hwf & Hn).
    apply Hwrite; [by rewrite Hh|done..].
Qed.

(** ** The audit trail *)

Section audit_properties.
Context (to_string : JobAuditRecord -> result string string).

(** Without faults a record is the last line of the trail, and a full file has become
    the rotated one. *)
Lemma audit_recorded now r l fs i line :
  logs_wf fs -> writer l = Some i -> lf_names fs !! log_path l = Some i ->
  to_string (audit_record now r) = Ok line ->
  let '(res, l', fs') := record_job to_string no_audit_faults now r l fs in
  res = Ok tt /\ last (content fs' (log_path l)) = Some line /\
  (lines_size (body fs i) < MAX_AUDIT_LOG_SIZE_BYTES ->
   content fs' (log_path l) = content fs (log_path l) ++ [line] /\ l' = l).
Proof.
  intros Hwf Hw Hn Hs. unfold record_job, rotate_audit, file_len. rewrite Hn.
  destruct (N.leb_spec MAX_AUDIT_LOG_SIZE_BYTES (lines_size (body fs i))) as [Hge|Hlt].
  - set (g := rename _ _ _ fs). destruct (open_name (log_path l) g) as (j & Eo & Hj).
    cbn [au_reopen_fails no_audit_faults]. rewrite Eo. cbn [writer]. rewrite Hs. cbn.
    split; [done|]. split; [|lia].
    rewrite (write_content _ _ _ _ (open_wf _ _ _ (rename_wf _ _ _ _ Hwf)) _ Hj), decide_True by done.
    apply last_snoc.
  - rewrite Hw, Hs. cbn. rewrite (write_content _ _ _ _ Hwf _ Hn), decide_True by done.
    split; [done|]. split; [apply last_snoc|done].
Qed.

(** Records, one after another. *)
Fixpoint record_jobs (l : list (AuditFaults * N * JobResult)) (a : AuditLogger) (fs : LogFs)
    : list (result CleanerError unit) * AuditLogger * LogFs :=
  match l with
  | [] => ([], a, fs)
  | (f, now, r) :: l' =>
      let '(res, a1, fs1) := record_job to_string f now r a fs in
      let '(rs, a2, fs2) := record_jobs l' a1 fs1 in
      (res :: rs, a2, fs2)
  end.

(** The audit trail can fall silent: if reopening fails when the full file is rotated,
    that record and every later one, whatever happens to them, is dropped while
    [record_job] returns success, and nothing is written any more. *)
Theorem audit_drops_silently f now r later l fs len :
  file_len fs (log_path l) = Some len -> MAX_AUDIT_LOG_SIZE_BYTES <= len ->
  with_extension (log_path l) "jsonl.1" <> log_path l ->
  au_rename_fails f = false -> au_reopen_fails f = true ->
  let '(res, l1, fs1) := record_job to_string f now r l fs in
  let '(rs, l2, fs2) := record_jobs later l1 fs1 in
  res = Ok tt /\ Forall (fun x => x = Ok tt) rs /\ fs2 = fs1 /\
  lf_bodies fs1 = lf_bodies fs /\ lf_names fs1 !! log_path l = None.
Proof.
  intros Hlen Hbig Hext Hren Hre. unfold record_job at 1, rotate_audit. rewrite Hlen.
  rewrite (proj2 (N.leb_le _ _)), Hren, Hre by done. cbn [open_append writer].
  set (fs1 := rename false (log_path l) _ fs). set (l1 := mkAuditLogger (log_path l) None).
  assert (lf_names fs1 !! log_path l = None) as Hgone.
  { unfold fs1, rename. unfold file_len in Hlen. destruct (lf_names fs !! log_path l) as [i|]; [|done].
    cbn. rewrite lookup_insert_ne by done. apply lookup_delete_eq. }
  assert (forall later, exists rs, record_jobs later l1 fs1 = (rs, l1, fs1) /\ Forall (fun x => x = Ok tt) rs)
    as Hlater.
  { clear later. induction later as [|[[f' now'] r'] later (rs & IH & Hrs)]; [by exists []|].
    exists (Ok tt :: rs). cbn [record_jobs]. unfold record_job, rotate_audit, file_len.
    cbn [log_path l1]. rewrite Hgone. cbn [writer l1]. fold l1. rewrite IH. split; [done|by constructor]. }
  destruct (Hlater later) as (rs & -> & Hrs). split; [done|]. split; [done|]. split; [done|]. split; [|done].
  unfold fs1, rename. by destruct (lf_names fs !! log_path l).
Qed.
End audit_properties.

(** The shadow report compares the new pipeline with itself. *)
Lemma shadow_always_equal catalog : diff (compare catalog) = Equal.
Proof. unfold compare. cbn. by rewrite Nat.compare_refl. Qed.

Lemma empty_lines_size n : lines_size (replicate n EmptyString) = N.of_nat n.
Proof. induction n as [|n IH]; [done|]. cbn [replicate]. unfold lines_size in *. cbn [foldr]. rewrite IH. change (str_len EmptyString) with 0. lia. Qed.

(** A trail of as many empty lines. *)
Definition full_trail : LogFs :=
  mkLogFs {["/data/adb/cleaner/audit/audit.jsonl"%string := 0%nat]}
    {[0%nat := replicate (N.to_nat MAX_AUDIT_LOG_SIZE_BYTES) EmptyString]} 1.

Lemma full_trail_len : file_len full_trail "/data/adb/cleaner/audit/audit.jsonl" = Some MAX_AUDIT_LOG_SIZE_BYTES.
Proof.
  unfold file_len, body, full_trail. cbn [lf_names lf_bodies]. rewrite !lookup_singleton_eq.
  cbn [default from_option]. unfold id.
  by rewrite empty_lines_size, N2Nat.id.
Qed.

Definition trail_logger : AuditLogger := mkAuditLogger "/data/adb/cleaner/audit/audit.jsonl" (Some 0%nat).
Definition one_job : JobResult := mkJobResult 1 1 0 0 0 0 0 0.
#[local] Opaque full_trail.

Definition failing : AuditFaults := mkAuditFaults false true None None.
Definition first_record : Prelude.result CleanerError unit * AuditLogger * LogFs :=
  record_job (fun _ => Ok "record"%string) failing 5 one_job trail_logger full_trail.

Lemma audit_drops_silently_witness :
  fst (fst first_record) = Ok tt /\ lf_names (snd first_record) !! log_path trail_logger = None.
Proof.
  pose proof (audit_drops_silently (fun _ => Ok "record"%string) failing 5 one_job [] trail_logger full_trail
    MAX_AUDIT_LOG_SIZE_BYTES full_trail_len (N.le_refl _) ltac:(vm_compute; discriminate) eq_refl eq_refl) as Hd.
  unfold first_record. destruct (record_job _ failing 5 one_job trail_logger full_trail) as [[res l1] fs1]. cbn [record_jobs] in Hd.
  destruct Hd as (-> & _ & _ & _ & Hn). split; [reflexivity|exact Hn].
Defined.
