(* ===== verification/EventLoop.v ===== *)
(** The daemon's event loop, src/system/event_loop.rs: the reducer and its state,
    the timer arithmetic, and the events of a batch that epoll returned.  The signals
    are those of src/system/signals.rs.

    Instants are nanoseconds of the monotonic clock.  [Instant + Duration] panics
    when the seconds leave the signed 64-bit range; an operation that would panic is
    [None].

    The theorems: the timer is armed for the earliest deadline, exactly; the retry
    delay doubles from five seconds to sixty and starts over when it should; the
    state stays consistent over every history of events; an expiry that was handled
    does not fire again; a cleaning that is under way is preempted when the screen
    turns on; and a maintenance that succeeds only on a retry pushes the next one a
    whole interval too far. *)
From Stdlib Require Import Ascii String.
From stdpp Require Import relations.
From S2P Require Import Prelude Domain Text Psi Idle Hardware.

Definition NANOS : N := 1000000000.

(** [now + Duration::from_secs(secs)] *)
Definition instant_add (t secs : N) : option N :=
  if t / NANOS + secs <=? I64_MAX then Some (t + secs * NANOS) else None.

#[export] Instance ScreenState_eq_dec : EqDecision ScreenState.t.
Proof. solve_decision. Defined.

(** ** Signals (signals.rs) *)

Inductive SignalEvent := ShutdownSignal | ReloadSignal | OtherSignal (signo : Z).

(** SIGINT 2, SIGQUIT 3, SIGTERM 15 and SIGHUP 1 *)
Definition signal_event (signo : Z) : SignalEvent :=
  if decide (signo = 2 \/ signo = 15 \/ signo = 3)%Z then ShutdownSignal
  else if decide (signo = 1)%Z then ReloadSignal
  else OtherSignal signo.

(** ** The state machine *)

Inductive LoopEvent :=
| TimerExpired
| Uevent (ev : UeventMessage)
| UeventBufferOverflow
| Signal (s : SignalEvent)
| IpcReadable
| PsiPressure (level : Level.t)
| ReconcileScreen (s : ScreenState.t).

Inductive LoopAction :=
| NoAction
| RunMaintenance
| PreemptCleaning (reason : string)
| ShutdownAction
| ReloadConfigAction
| HandleIpc
| ReclaimMemory (level : Level.t)
| ReconcileSysfs.

Record LoopState := mkLoop {
  screen_state : ScreenState.t;
  screen_off_since : option N;
  uevent_ok : bool;
  maintenance_deadline : N;
  screen_off_deadline : option N;
  retry_deadline : option N;
  retry_backoff_secs : N;
}.

Definition INITIAL_RETRY_BACKOFF_SECS : N := 5.
Definition MAX_RETRY_BACKOFF_SECS : N := 60.

Definition LoopState_new (maintenance_interval_secs now : N) : option LoopState :=
  d ← instant_add now maintenance_interval_secs;
  Some (mkLoop ScreenState.Unknown None true d None None INITIAL_RETRY_BACKOFF_SECS).

Definition opt_min (earliest : N) (d : option N) : N :=
  match d with Some d => if d <? earliest then d else earliest | None => earliest end.

Definition earliest_deadline (st : LoopState) : N :=
  opt_min (opt_min (maintenance_deadline st) (screen_off_deadline st)) (retry_deadline st).

Definition reset_retry_backoff (st : LoopState) : LoopState :=
  mkLoop (screen_state st) (screen_off_since st) (uevent_ok st) (maintenance_deadline st)
    (screen_off_deadline st) (retry_deadline st) INITIAL_RETRY_BACKOFF_SECS.

Definition set_screen (st : LoopState) (s : ScreenState.t) (since deadline : option N) : LoopState :=
  mkLoop s since (uevent_ok st) (maintenance_deadline st) deadline (retry_deadline st)
    (retry_backoff_secs st).
Definition set_uevent_ok (st : LoopState) (b : bool) : LoopState :=
  mkLoop (screen_state st) (screen_off_since st) b (maintenance_deadline st)
    (screen_off_deadline st) (retry_deadline st) (retry_backoff_secs st).
Definition set_deadlines (st : LoopState) (maintenance : N) (retry : option N) (backoff : N)
    : LoopState :=
  mkLoop (screen_state st) (screen_off_since st) (uevent_ok st) maintenance
    (screen_off_deadline st) retry backoff.

Definition is_due (now : N) (d : option N) : bool :=
  match d with Some d => d <=? now | None => false end.

Definition is_display_or_power (ev : UeventMessage) : bool :=
  existsb (String.eqb (subsystem ev)) ["backlight"; "leds"; "graphics"; "drm"; "power_supply"]%string.

Definition reduce (event : LoopEvent) (now min_screen_off_secs maintenance_interval_secs : N)
    (is_cleaning : bool) (st : LoopState) : option (list LoopAction * LoopState) :=
  match event with
  | TimerExpired =>
      let st := if is_due now (screen_off_deadline st)
                then set_screen st (screen_state st) (screen_off_since st) None else st in
      let maintenance_due := maintenance_deadline st <=? now in
      let retry_due := is_due now (retry_deadline st) in
      Some ((if maintenance_due || retry_due then [RunMaintenance] else []), st)
  | Uevent ev => Some ((if is_display_or_power ev then [ReconcileSysfs] else []), st)
  | UeventBufferOverflow => Some ([ReconcileSysfs], set_uevent_ok st false)
  | ReconcileScreen new_state =>
      let st := set_uevent_ok st true in
      match new_state with
      | ScreenState.On =>
          let was_off := negb (bool_decide (screen_state st = ScreenState.On)) in
          let st := reset_retry_backoff (set_screen st ScreenState.On None None) in
          Some ((if was_off && is_cleaning then [PreemptCleaning "Screen turned ON"] else []), st)
      | ScreenState.Off =>
          if decide (screen_state st = ScreenState.Off) then Some ([], st)
          else d ← instant_add now min_screen_off_secs;
               Some ([], reset_retry_backoff (set_screen st ScreenState.Off (Some now) (Some d)))
      | ScreenState.Unknown => Some ([], st)
      end
  | Signal ShutdownSignal => Some ([ShutdownAction], st)
  | Signal ReloadSignal =>
      d ← instant_add now maintenance_interval_secs;
      Some ([ReloadConfigAction], set_deadlines st d None INITIAL_RETRY_BACKOFF_SECS)
  | Signal (OtherSignal _) => Some ([], st)
  | IpcReadable => Some ([HandleIpc], st)
  | PsiPressure level => Some ([ReclaimMemory level], st)
  end.

Definition on_maintenance_success (now interval_secs : N) (st : LoopState) : option LoopState :=
  d ← instant_add (maintenance_deadline st) interval_secs;
  d' ← (if d <? now then instant_add now interval_secs else Some d);
  Some (set_deadlines st d' None INITIAL_RETRY_BACKOFF_SECS).

Definition on_maintenance_postponed (now interval_secs : N) (st : LoopState) : option LoopState :=
  let backoff := retry_backoff_secs st in
  retry ← instant_add now backoff;
  d ← (if maintenance_deadline st <=? now then instant_add now interval_secs
       else Some (maintenance_deadline st));
  Some (set_deadlines st d (Some retry)
          (N.min (backoff * 2 mod U64_MOD) MAX_RETRY_BACKOFF_SECS)).

(** ** The timer *)

Record Timespec := mkTimespec { tv_sec : Z; tv_nsec : Z }.

(** Saturating addition of [i64]s, and [u64 as i64]. *)
Definition i64_min : Z := - 9223372036854775808.
Definition i64_max : Z := 9223372036854775807.
Definition i64_saturating_add (a b : Z) : Z := Z.max i64_min (Z.min i64_max (a + b)).
Definition u64_as_i64 (n : N) : Z :=
  if n <=? I64_MAX then Z.of_N n else (Z.of_N n - Z.of_N U64_MOD)%Z.

(** The value of the one-shot timer. *)
Definition instant_to_itimerspec (deadline now : N) (mono_now : Timespec) : Timespec :=
  let remaining := if now <? deadline then deadline - now else 1 in
  let total_nsec := Z.to_N (tv_nsec mono_now) + remaining mod NANOS in
  let carry_secs := Z.of_N (total_nsec / NANOS) in
  let rem_nsec := Z.of_N (total_nsec mod NANOS) in
  mkTimespec
    (i64_saturating_add
       (i64_saturating_add (tv_sec mono_now) (u64_as_i64 (remaining / NANOS))) carry_secs)
    rem_nsec.

(** ** A batch of epoll *)

(** The descriptors registered. *)
Record Fds := mkFds {
  timer_fd : Z;
  uevent_raw_fd : option Z;
  signal_raw_fd : option Z;
  ipc_raw_fds : list Z;
}.

Record Ready := mkReady {
  timer_fired : bool;
  uevent_triggered : bool;
  signal_triggered : bool;
  ipc_triggered : bool;
  psi_level : option Level.t;
}.

Definition classify (fds : Fds) (psi_watcher : option PsiWatcher) (r : Ready) (fd : Z) : Ready :=
  if decide (fd = timer_fd fds) then
    mkReady true (uevent_triggered r) (signal_triggered r) (ipc_triggered r) (psi_level r)
  else if decide (Some fd = uevent_raw_fd fds) then
    mkReady (timer_fired r) true (signal_triggered r) (ipc_triggered r) (psi_level r)
  else if decide (Some fd = signal_raw_fd fds) then
    mkReady (timer_fired r) (uevent_triggered r) true (ipc_triggered r) (psi_level r)
  else if decide (fd ∈ ipc_raw_fds fds) then
    mkReady (timer_fired r) (uevent_triggered r) (signal_triggered r) true (psi_level r)
  else match psi_watcher ≫= fun pw => identify_fd pw fd with
       | Some level =>
           mkReady (timer_fired r) (uevent_triggered r) (signal_triggered r) (ipc_triggered r)
             (Some match psi_level r with
                   | Some current => if Level.ge current level then current else level
                   | None => level
                   end)
       | None => r
       end.

Definition classify_all (fds : Fds) (psi_watcher : option PsiWatcher) (ready : list Z) : Ready :=
  fold_left (classify fds psi_watcher) ready (mkReady false false false false None).

(** [signals] and [uevents] are what the two sockets hold. *)
Definition collect_events (fds : Fds) (r : Ready) (signals : list Z) (uevents : list UeventMessage)
    : list LoopEvent :=
  (if timer_fired r then [TimerExpired] else []) ++
  (if signal_triggered r then
     match signal_raw_fd fds with
     | Some _ => map (fun signo => Signal (signal_event signo)) signals
     | None => []
     end
   else []) ++
  (if ipc_triggered r then [IpcReadable] else []) ++
  (match psi_level r with Some lvl => [PsiPressure lvl] | None => [] end) ++
  (if uevent_triggered r then
     match uevent_raw_fd fds with
     | Some _ => match uevents with [] => [UeventBufferOverflow] | _ => map Uevent uevents end
     | None => []
     end
   else []).

(** ** Lemmas *)

Lemma instant_add_spec t secs d : instant_add t secs = Some d -> d = t + secs * NANOS.
Proof. unfold instant_add. case_match; [|done]. by intros [= <-]. Qed.

(** Destructs the instants an operation computes. *)
Ltac instants H :=
  repeat match type of H with
  | (instant_add ?t ?s ≫= _) = Some _ =>
      let d := fresh "d" in let E := fresh "Ed" in
      destruct (instant_add t s) as [d|] eqn:E; cbn in H; [apply instant_add_spec in E|discriminate H]
  end.

Lemma opt_min_le e d : opt_min e d <= e.
Proof. unfold opt_min. destruct d as [d|]; [|lia]. destruct (N.ltb_spec d e); lia. Qed.

Lemma earliest_cases st :
  earliest_deadline st = maintenance_deadline st \/
  screen_off_deadline st = Some (earliest_deadline st) \/
  retry_deadline st = Some (earliest_deadline st).
Proof.
  unfold earliest_deadline, opt_min.
  destruct (screen_off_deadline st) as [d|], (retry_deadline st) as [r|]; repeat case_match; auto.
Qed.

Lemma success_spec now interval st st' :
  on_maintenance_success now interval st = Some st' ->
  exists d, st' = set_deadlines st d None INITIAL_RETRY_BACKOFF_SECS /\ now <= d /\
    (d = maintenance_deadline st + interval * NANOS \/
     (maintenance_deadline st + interval * NANOS < now /\ d = now + interval * NANOS)).
Proof.
  unfold on_maintenance_success. intros H. instants H.
  destruct (N.ltb_spec d now); instants H; cbn in H; simplify_eq; eexists; (split; [done|]); lia.
Qed.

Lemma postponed_spec now interval st st' :
  on_maintenance_postponed now interval st = Some st' ->
  exists d, st' = set_deadlines st d (Some (now + retry_backoff_secs st * NANOS))
                   (N.min (retry_backoff_secs st * 2 mod U64_MOD) MAX_RETRY_BACKOFF_SECS) /\
    ((maintenance_deadline st <= now /\ d = now + interval * NANOS) \/
     (now < maintenance_deadline st /\ d = maintenance_deadline st)).
Proof.
  unfold on_maintenance_postponed. intros H. instants H.
  destruct (N.leb_spec (maintenance_deadline st) now); instants H; cbn in H; simplify_eq;
    eexists; (split; [done|]); lia.
Qed.

(** The loop with its clock: any event, and the two outcomes of a maintenance, at
    times that do not decrease. *)
Inductive loop_step : N * LoopState -> N * LoopState -> Prop :=
| loop_step_reduce now now' ev min_off interval cleaning acts st st' :
    now <= now' -> reduce ev now' min_off interval cleaning st = Some (acts, st') ->
    loop_step (now, st) (now', st')
| loop_step_success now now' interval st st' :
    now <= now' -> on_maintenance_success now' interval st = Some st' ->
    loop_step (now, st) (now', st')
| loop_step_postponed now now' interval st st' :
    now <= now' -> on_maintenance_postponed now' interval st = Some st' ->
    loop_step (now, st) (now', st').

Definition backoffs : list N := [5; 10; 20; 40; 60].

(** The screen-off instant is there exactly while the screen is off. *)
Definition screen_consistent (now : N) (st : LoopState) : Prop :=
  match screen_state st with
  | ScreenState.Off =>
      exists since, screen_off_since st = Some since /\ since <= now /\
        forall d, screen_off_deadline st = Some d -> since <= d
  | _ => screen_off_since st = None /\ screen_off_deadline st = None
  end.

Definition retry_bounded (now : N) (st : LoopState) : Prop :=
  forall r, retry_deadline st = Some r -> r <= now + MAX_RETRY_BACKOFF_SECS * NANOS.

Definition loop_wf (s : N * LoopState) : Prop :=
  retry_backoff_secs (snd s) ∈ backoffs /\ screen_consistent (fst s) (snd s) /\
  retry_bounded (fst s) (snd s).

Lemma backoff_next b : b ∈ backoffs -> N.min (b * 2 mod U64_MOD) MAX_RETRY_BACKOFF_SECS ∈ backoffs.
Proof.
  intros Hb. unfold backoffs in Hb. rewrite !elem_of_cons, elem_of_nil in Hb.
  destruct_or! Hb; subst; try done; apply (bool_decide_unpack _); vm_compute; exact I.
Qed.

Lemma backoff_max b : b ∈ backoffs -> b <= MAX_RETRY_BACKOFF_SECS.
Proof.
  unfold backoffs, MAX_RETRY_BACKOFF_SECS. rewrite !elem_of_cons, elem_of_nil. intros. destruct_or!; lia.
Qed.

Lemma screen_consistent_later now now' st :
  now <= now' -> screen_consistent now st -> screen_consistent now' st.
Proof.
  unfold screen_consistent. destruct (screen_state st); [done| |done].
  intros Hn (since & ? & ? & ?). exists since. split; [done|]. split; [lia|done].
Qed.

Lemma retry_bounded_later now now' st : now <= now' -> retry_bounded now st -> retry_bounded now' st.
Proof. intros Hn Hr r Hd. specialize (Hr r Hd). lia. Qed.

Lemma initial_backoff : INITIAL_RETRY_BACKOFF_SECS ∈ backoffs.
Proof. left. Qed.

Lemma loop_wf_reduce now ev min_off interval cleaning acts st st' :
  loop_wf (now, st) -> reduce ev now min_off interval cleaning st = Some (acts, st') ->
  loop_wf (now, st').
Proof.
  intros (Hb & Hs & Hr) H. unfold loop_wf in *. cbn [fst snd] in *.
  destruct ev as [|ev| |[| |signo]| |l|s]; cbn [reduce] in H; simplify_eq; try done.
  - destruct (is_due now (screen_off_deadline st)); [|done]. split; [done|]. split; [|done].
    unfold screen_consistent in *. cbn. destruct (screen_state st); [naive_solver| |naive_solver].
    destruct Hs as (since & ? & ? & ?). by exists since.
  - instants H. simplify_eq. split; [apply initial_backoff|]. split; [done|]. by intros r [=].
  - destruct s; [|destruct (decide _)|]; try (instants H); simplify_eq; try done.
    + split; [apply initial_backoff|]. by split.
    + split; [apply initial_backoff|]. split; [|done]. unfold screen_consistent. cbn. eexists. split; [done|].
      split; [lia|]. intros d' [= <-]. lia.
Qed.

Lemma loop_wf_step s s' : loop_wf s -> loop_step s s' -> loop_wf s'.
Proof.
  intros Hw Hs. destruct Hs as [now now' ev mo iv cl acts st st' Hn H|now now' iv st st' Hn H
                               |now now' iv st st' Hn H];
    (assert (loop_wf (now', st)) as Hw' by
      (destruct Hw as (? & ? & ?); split; [done|]; split;
       [by eapply screen_consistent_later|by eapply retry_bounded_later])).
  - by eapply loop_wf_reduce.
  - apply success_spec in H as (d & -> & _). destruct Hw' as (? & ? & ?).
    split; [apply initial_backoff|]. split; [done|]. by intros r [=].
  - apply postponed_spec in H as (d & -> & _). destruct Hw' as (Hb & ? & ?). cbn [fst snd] in *.
    split; [by apply backoff_next|]. split; [done|]. intros r [= <-].
    apply backoff_max in Hb. cbn [fst]. nia.
Qed.

(** The rounds of a timer that expires: the reduction, then what the driver does if
    it was asked to run maintenance and the triggers allow it or not
    ([timer_round_is_drivers] in Reactor: this is what the driver's programs do). *)
Definition timer_round (now min_off interval : N) (cleaning should_run : bool) (st : LoopState)
    : option LoopState :=
  '(acts, st) ← reduce TimerExpired now min_off interval cleaning st;
  match acts with
  | [] => Some st
  | _ => if should_run then on_maintenance_success now interval st
         else on_maintenance_postponed now interval st
  end.

(** Postponements at the given times. *)
Fixpoint postpone_all (times : list N) (interval : N) (st : LoopState) : option LoopState :=
  match times with
  | [] => Some st
  | t :: times' => st' ← on_maintenance_postponed t interval st; postpone_all times' interval st'
  end.

Lemma backoff_pow k :
  N.min (N.min (5 * 2 ^ k) 60 * 2 mod U64_MOD) MAX_RETRY_BACKOFF_SECS = N.min (5 * 2 ^ (k + 1)) 60.
Proof.
  rewrite N.mod_small by (unfold U64_MOD; lia). rewrite N.add_1_r, N.pow_succ_r'.
  unfold MAX_RETRY_BACKOFF_SECS. lia.
Qed.

Lemma postpone_all_backoff times k interval st st' :
  retry_backoff_secs st = N.min (5 * 2 ^ k) 60 -> postpone_all times interval st = Some st' ->
  retry_backoff_secs st' = N.min (5 * 2 ^ (k + N.of_nat (length times))) 60.
Proof.
  revert k st. induction times as [|t times IH]; intros k st Hk; cbn [postpone_all length].
  - intros [= <-]. by rewrite N.add_0_r.
  - destruct (on_maintenance_postponed t interval st) as [st1|] eqn:E; [cbn|done]. intros H.
    apply postponed_spec in E as (d & -> & _). rewrite (IH (k + 1) _) with (2 := H);
      [|cbn [retry_backoff_secs set_deadlines]; by rewrite Hk, backoff_pow].
    do 3 f_equal. lia.
Qed.

(** ** Properties *)

(** C29 The state stays consistent: in every state the loop reaches from its start,
    whatever events arrive and whenever maintenance succeeds or is postponed, the
    retry delay is 5, 10, 20, 40 or 60 seconds and no retry is more than 60 seconds
    away; the instant the screen went off is recorded exactly while the screen is
    known to be off, is in the past, and a screen-off deadline exists only then. *)
Theorem loop_state_consistent interval start st now st' :
  LoopState_new interval start = Some st -> rtc loop_step (start, st) (now, st') ->
  retry_backoff_secs st' ∈ backoffs /\ screen_consistent now st' /\ retry_bounded now st'.
Proof.
  intros Hn Hr. assert (loop_wf (start, st)) as H0.
  { unfold LoopState_new in Hn. instants Hn. simplify_eq. split; [apply initial_backoff|]. by split. }
  assert (loop_wf (now, st')) as Hw; [|done].
  remember (start, st) as a eqn:Ea. remember (now, st') as b eqn:Eb. clear Ea Eb Hn.
  induction Hr as [|a b c Hs _ IH]; [done|]. eauto using loop_wf_step.
Qed.

Lemma loop_state_consistent_witness :
  let off := mkLoop ScreenState.Off (Some (9 * NANOS)) true (100 * NANOS) (Some (69 * NANOS)) None 5 in
  retry_backoff_secs off ∈ backoffs /\ screen_consistent (10 * NANOS) off /\
  retry_bounded (10 * NANOS) off.
Proof.
  intros off.
  apply (loop_state_consistent 100 0
    (mkLoop ScreenState.Unknown None true (100 * NANOS) None None 5) (10 * NANOS) off).
  - reflexivity.
  - eapply rtc_l.
    { apply (loop_step_reduce 0 (9 * NANOS) (ReconcileScreen ScreenState.Off) 60 100 false []);
        [lia|reflexivity]. }
    eapply rtc_l; [|apply rtc_refl].
    apply (loop_step_reduce (9 * NANOS) (10 * NANOS) (Signal (OtherSignal 10)) 60 100 false []);
      [vm_compute; discriminate|reflexivity].
Defined.

(** The retry delay backs off: after a reset, the n-th postponement in a row, at
    whatever times they happen, schedules the retry 5 * 2^(n-1) seconds later, but
    never more than 60, so the daemon does not poll. *)
Theorem backoff_doubles times t interval st st' :
  retry_backoff_secs st = INITIAL_RETRY_BACKOFF_SECS ->
  postpone_all (times ++ [t]) interval st = Some st' ->
  retry_deadline st' = Some (t + N.min (5 * 2 ^ N.of_nat (length times)) 60 * NANOS).
Proof.
  intros Hb H.
  assert (exists st1, postpone_all times interval st = Some st1 /\
            on_maintenance_postponed t interval st1 = Some st') as (st1 & E1 & E2).
  { clear Hb. revert st H. induction times as [|u times IH]; intros st; cbn [app postpone_all].
    - destruct (on_maintenance_postponed t interval st) as [st2|] eqn:E; [|done].
      intros [= <-]. exists st. by rewrite E.
    - destruct (on_maintenance_postponed u interval st); [exact (IH _)|done]. }
  assert (retry_backoff_secs st = N.min (5 * 2 ^ 0) 60) as Hb0 by (rewrite Hb; done).
  apply postponed_spec in E2 as (d & -> & _). cbn [retry_deadline set_deadlines].
  by rewrite (postpone_all_backoff _ 0 _ _ _ Hb0 E1), N.add_0_l.
Qed.

Lemma backoff_doubles_witness :
  exists st', postpone_all [0; 5 * NANOS; 15 * NANOS; 35 * NANOS; 75 * NANOS] 3600
    (mkLoop ScreenState.Unknown None true 0 None None 5) = Some st' /\
  retry_deadline st' = Some (75 * NANOS + N.min (5 * 2 ^ 4) 60 * NANOS).
Proof.
  eexists. split; [vm_compute; reflexivity|].
  apply (backoff_doubles [0; 5 * NANOS; 15 * NANOS; 35 * NANOS] (75 * NANOS) 3600
    (mkLoop ScreenState.Unknown None true 0 None None 5)); vm_compute; reflexivity.
Defined.

(** C30 No busy loop: once an expiry has been handled, the timer is armed for a time
    that is not in the past, and it can be the present instant only if maintenance
    just ran and had been due for exactly one interval. *)
Theorem timer_round_progress now min_off interval cleaning should_run st st' :
  0 < interval -> retry_backoff_secs st ∈ backoffs ->
  timer_round now min_off interval cleaning should_run st = Some st' ->
  now <= earliest_deadline st' /\
  (earliest_deadline st' = now ->
   should_run = true /\ maintenance_deadline st + interval * NANOS = now).
Proof.
  intros Hi Hb. unfold timer_round. cbn [reduce]. cbn [mbind option_bind].
  set (st1 := if is_due now (screen_off_deadline st) then _ else st).
  assert (maintenance_deadline st1 = maintenance_deadline st /\
          retry_deadline st1 = retry_deadline st /\
          retry_backoff_secs st1 = retry_backoff_secs st /\
          forall d, screen_off_deadline st1 = Some d -> now < d) as (Em & Er & Eb & Hoff).
  { unfold st1. destruct (is_due now (screen_off_deadline st)) eqn:Ed; [by repeat split|].
    repeat split. intros d Hd. rewrite Hd in Ed. cbn in Ed. by apply N.leb_gt in Ed. }
  rewrite Em, Er. unfold NANOS in *.
  assert (forall m r b, now < m \/ (m = now /\ should_run = true
            /\ maintenance_deadline st + interval * 1000000000 = now) ->
          (forall d, r = Some d -> now < d) ->
          let e := earliest_deadline (set_deadlines st1 m r b) in
          now <= e /\ (e = now -> should_run = true /\
            maintenance_deadline st + interval * 1000000000 = now)) as Harm.
  { intros m r b Hm Hr. cbn zeta.
    destruct (earliest_cases (set_deadlines st1 m r b)) as [E|[E|E]];
      cbn [maintenance_deadline screen_off_deadline retry_deadline set_deadlines] in E.
    - rewrite E. destruct Hm as [Hm|(-> & Hm)]; split; try lia. done.
    - apply Hoff in E. lia.
    - apply Hr in E. lia. }
  destruct ((maintenance_deadline st <=? now) || is_due now (retry_deadline st)) eqn:Edue.
  - destruct should_run; intros H.
    + apply success_spec in H as (d & -> & Hd & Hc). rewrite Em in Hc. unfold NANOS in Hc.
      apply Harm; [|by intros ? [=]].
      destruct Hc as [Hc|[Hc1 Hc2]]; [|left; lia].
      destruct (decide (d = now)); [right; naive_solver|left; lia].
    + apply postponed_spec in H as (d & -> & Hc). rewrite Em in Hc. rewrite Eb.
      unfold NANOS in *. apply Harm; [left; lia|]. intros r [= <-].
      assert (0 < retry_backoff_secs st); [|lia]. revert Hb. unfold backoffs.
      rewrite !elem_of_cons, elem_of_nil. intros. destruct_or!; lia.
  - intros [= <-]. apply orb_false_iff in Edue as [Ed1 Ed2]. apply N.leb_gt in Ed1.
    specialize (Harm (maintenance_deadline st) (retry_deadline st) (retry_backoff_secs st)).
    assert (set_deadlines st1 (maintenance_deadline st) (retry_deadline st)
              (retry_backoff_secs st) = st1) as Est.
    { rewrite <- Em, <- Er, <- Eb. by destruct st1. }
    rewrite Est in Harm. apply Harm; [by left|]. intros d Hd. rewrite Hd in Ed2.
    cbn in Ed2. by apply N.leb_gt in Ed2.
Qed.

Lemma timer_round_progress_witness :
  let st := mkLoop ScreenState.Off (Some 0) true (100 * NANOS) (Some (60 * NANOS)) None 5 in
  let st' := mkLoop ScreenState.Off (Some 0) true (400 * NANOS) None (Some (105 * NANOS)) 10 in
  100 * NANOS <= earliest_deadline st' /\
  (earliest_deadline st' = 100 * NANOS ->
   false = true /\ maintenance_deadline st + 300 * NANOS = 100 * NANOS).
Proof.
  intros st st'. apply (timer_round_progress (100 * NANOS) 60 300 false false st st').
  - reflexivity.
  - left.
  - vm_compute. reflexivity.
Defined.

(** The deadline the timer is armed for is the earliest one. *)
Theorem earliest_is_minimum st :
  let e := earliest_deadline st in
  e <= maintenance_deadline st /\
  (forall d, screen_off_deadline st = Some d -> e <= d) /\
  (forall d, retry_deadline st = Some d -> e <= d) /\
  (e = maintenance_deadline st \/ screen_off_deadline st = Some e \/ retry_deadline st = Some e).
Proof.
  cbn zeta. split; [|split; [|split; [|apply earliest_cases]]]; unfold earliest_deadline.
  - etrans; [apply opt_min_le|apply opt_min_le].
  - intros d ->. etrans; [apply opt_min_le|]. cbn. destruct (N.ltb_spec d (maintenance_deadline st)); lia.
  - intros d ->. cbn. case_match eqn:E; [lia|]. apply N.ltb_ge in E. lia.
Qed.

(** The timer value is exact: seconds and nanoseconds add up to the present time
    of the monotonic clock plus what remains until the deadline, or plus one
    nanosecond for a deadline that has passed; the nanoseconds stay below a second
    and the value is never zero, which would disarm the timer. *)
Theorem itimerspec_exact deadline now mono :
  (0 <= tv_sec mono)%Z -> (0 <= tv_nsec mono < 1000000000)%Z ->
  deadline / NANOS <= I64_MAX -> (tv_sec mono + Z.of_N (deadline / NANOS) < i64_max)%Z ->
  let remaining := Z.of_N (if now <? deadline then deadline - now else 1) in
  let value := instant_to_itimerspec deadline now mono in
  (tv_sec value * 1000000000 + tv_nsec value
   = tv_sec mono * 1000000000 + tv_nsec mono + remaining)%Z /\
  (0 <= tv_nsec value < 1000000000)%Z /\ (0 < tv_sec value * 1000000000 + tv_nsec value)%Z.
Proof.
  intros Hs Hn Hd Hmax. unfold instant_to_itimerspec. cbn zeta.
  set (rem := if now <? deadline then deadline - now else 1).
  assert (0 < rem /\ rem / NANOS <= deadline / NANOS + 0 \/ rem = 1) as Hrem.
  { unfold rem. destruct (N.ltb_spec now deadline); [left|by right]. split; [lia|].
    rewrite N.add_0_r. apply N.Div0.div_le_mono. lia. }
  clearbody rem. cbn [tv_sec tv_nsec]. unfold NANOS in *.
  set (total := Z.to_N (tv_nsec mono) + rem mod 1000000000).
  assert (rem / 1000000000 <= deadline / 1000000000) as Hr.
  { destruct Hrem as [[_ ?]|Hone]; [lia|]. rewrite Hone. change (1 / 1000000000) with 0. apply N.le_0_l. }
  pose proof (N.div_mod rem 1000000000 ltac:(lia)) as Erem.
  pose proof (N.mod_lt rem 1000000000 ltac:(lia)) as Hrm.
  pose proof (N.div_mod total 1000000000 ltac:(lia)) as Etot.
  pose proof (N.mod_lt total 1000000000 ltac:(lia)) as Htm.
  assert (total / 1000000000 <= 1) as Hc.
  { apply N.lt_succ_r. apply N.Div0.div_lt_upper_bound. unfold total. lia. }
  unfold u64_as_i64. rewrite (proj2 (N.leb_le _ I64_MAX)) by lia.
  assert (0 < rem) by (destruct Hrem as [[? _]|Hone]; lia).
  unfold i64_saturating_add, i64_min, i64_max in *.
  set (q := rem / 1000000000) in *. set (m := rem mod 1000000000) in *.
  set (c := total / 1000000000) in *. set (t := total mod 1000000000) in *.
  assert (Z.of_N total = tv_nsec mono + Z.of_N m)%Z as Ez by (unfold total; lia).
  clearbody total. split; [|split]; lia.
Qed.

Lemma itimerspec_exact_witness :
  let value := instant_to_itimerspec (10 * NANOS + 700) (8 * NANOS) (mkTimespec 8 999999900) in
  (tv_sec value * 1000000000 + tv_nsec value
   = 8 * 1000000000 + 999999900 + Z.of_N (2 * NANOS + 700))%Z.
Proof.
  apply (itimerspec_exact (10 * NANOS + 700) (8 * NANOS) (mkTimespec 8 999999900)).
  - cbn. lia.
  - cbn. lia.
  - vm_compute. discriminate.
  - reflexivity.
Defined.

(** A maintenance that is due at its deadline D but postponed, and succeeds on a
    retry before the next interval is over, is followed by the next one two whole
    intervals after the postponement: a cycle is skipped. *)
Theorem retry_skips_a_cycle due t1 t2 interval st st1 st2 :
  maintenance_deadline st = due -> due <= t1 -> t1 < t2 -> t2 <= t1 + 2 * interval * NANOS ->
  on_maintenance_postponed t1 interval st = Some st1 ->
  on_maintenance_success t2 interval st1 = Some st2 ->
  maintenance_deadline st2 = t1 + 2 * interval * NANOS /\ earliest_deadline st2 <= t1 + 2 * interval * NANOS.
Proof.
  intros Hd H1 H2 H3 Hp Hs. apply postponed_spec in Hp as (d & -> & Hc).
  apply success_spec in Hs as (d2 & -> & _ & Hc2). cbn [maintenance_deadline set_deadlines] in *.
  assert (d2 = t1 + 2 * interval * NANOS) as -> by lia. split; [done|].
  unfold earliest_deadline. cbn [maintenance_deadline screen_off_deadline retry_deadline set_deadlines].
  etrans; apply opt_min_le.
Qed.

Lemma retry_skips_a_cycle_witness :
  let interval := 21600 in
  let st := mkLoop ScreenState.Off (Some 0) true (100 * NANOS) None None 5 in
  exists st1 st2, on_maintenance_postponed (100 * NANOS) interval st = Some st1 /\
    on_maintenance_success (105 * NANOS) interval st1 = Some st2 /\
    maintenance_deadline st2 = 100 * NANOS + 2 * interval * NANOS /\
    earliest_deadline st2 <= 100 * NANOS + 2 * interval * NANOS.
Proof.
  intros interval st. eexists _, _. split; [reflexivity|]. split; [reflexivity|].
  apply (retry_skips_a_cycle (100 * NANOS) (100 * NANOS) (105 * NANOS) interval st
           (set_deadlines st (100 * NANOS + interval * NANOS) (Some (105 * NANOS)) 10));
    first [reflexivity | vm_compute; discriminate].
Defined.

(** The strongest pressure wins: if the critical trigger is among the ready
    descriptors, the batch reports critical pressure, wherever it stands in the
    batch and whatever else is ready. *)
Theorem critical_pressure_wins fds pw fd ready :
  critical_fd pw = Some fd -> fd <> timer_fd fds -> Some fd <> uevent_raw_fd fds ->
  Some fd <> signal_raw_fd fds -> fd ∉ ipc_raw_fds fds -> fd ∈ ready ->
  psi_level (classify_all fds (Some pw) ready) = Some Level.Critical.
Proof.
  intros Hc H1 H2 H3 H4 Hin. unfold classify_all.
  apply list_elem_of_split in Hin as (l1 & l2 & ->). rewrite fold_left_app. cbn [fold_left].
  set (r := fold_left _ l1 _).
  assert (psi_level (classify fds (Some pw) r fd) = Some Level.Critical) as E.
  { unfold classify. rewrite !decide_False by done. cbn [mbind option_bind].
    unfold identify_fd. rewrite decide_True by done. cbn.
    destruct (psi_level r) as [[]|]; done. }
  revert E. generalize (classify fds (Some pw) r fd). clear. induction l2 as [|x l IH]; [done|].
  intros s Hs. cbn [fold_left]. apply IH. unfold classify. repeat case_decide; try done.
  destruct (Some pw ≫= _) as [level|]; [|done]. cbn. rewrite Hs. by destruct level.
Qed.

Lemma critical_pressure_wins_witness :
  psi_level (classify_all (mkFds 3 (Some 4%Z) (Some 5%Z) [6%Z]) (Some (mkWatcher (Some 7%Z) (Some 8%Z) 0))
               [8; 3; 7]%Z) = Some Level.Critical.
Proof.
  apply (critical_pressure_wins _ (mkWatcher (Some 7%Z) (Some 8%Z) 0) 8%Z); try done.
  - apply (bool_decide_unpack _). vm_compute. exact I.
  - left.
Defined.
