(* ===== verification/Threads.v ===== *)
(** Threads over shared state.

    A thread is a program of atomic sections: what it does under one acquisition of
    a lock, or one access to an atomic.  A section may have to wait.  A program can
    start a thread and can run a long operation that is not atomic: it takes effect
    at its end, and other threads go on meanwhile.  Programs compose as a monad and
    are executable on their own; the step relation interleaves any number of them
    and lets new ones arrive. *)
From stdpp Require Import relations.
From S2P Require Import Prelude.

Section programs.
(** The shared state, the threads that can be started, the long operations and
    their results. *)
Context {S W Q R : Type}.

Inductive Prog (A : Type) : Type :=
| Ret (a : A)
| Act {B : Type} (enabled : S -> bool) (section : S -> B * S) (k : B -> Prog A)
| Execute (q : Q) (k : R -> Prog A)
| Spawn (w : W) (k : Prog A)
| Crash.
Arguments Ret {A} a.
Arguments Act {A B} enabled section k.
Arguments Execute {A} q k.
Arguments Spawn {A} w k.
Arguments Crash {A}.

Fixpoint prog_bind {A B} (k : A -> Prog B) (p : Prog A) : Prog B :=
  match p with
  | Ret a => k a
  | Act en f c => Act en f (fun b => prog_bind k (c b))
  | Execute q c => Execute q (fun r => prog_bind k (c r))
  | Spawn w c => Spawn w (prog_bind k c)
  | Crash => Crash
  end.

#[global] Instance Prog_ret : MRet Prog := @Ret.
#[global] Instance Prog_bind : MBind Prog := @prog_bind.

(** A section that never waits, and one that changes the state only. *)
Definition always (s : S) : bool := true.
Definition act {B} (enabled : S -> bool) (f : S -> B * S) : Prog B := Act enabled f Ret.
Definition read {B} (enabled : S -> bool) (f : S -> B) : Prog B := act enabled (fun s => (f s, s)).
Definition write (enabled : S -> bool) (f : S -> S) : Prog unit := act enabled (fun s => (tt, f s)).

(** A program with the machine to itself: its result, the state and the threads it
    started; [None] if it waits, crashes or runs a long operation. *)
Fixpoint run_alone {A} (p : Prog A) (s : S) : option (A * S * list W) :=
  match p with
  | Ret a => Some (a, s, [])
  | Act en f k => if en s then let '(b, s') := f s in run_alone (k b) s' else None
  | Execute _ _ => None
  | Spawn w k => match run_alone k s with Some (a, s', ws) => Some (a, s', w :: ws) | None => None end
  | Crash => None
  end.

(** What a program returns, whatever the other threads do between its sections, as long as
    none of its sections meets a state that is [excluded]. *)
Fixpoint ensures {A} (excluded : S -> Prop) (p : Prog A) (post : A -> Prop) : Prop :=
  match p with
  | Ret a => post a
  | Act en f k => forall s, en s = true -> ~ excluded s -> ensures excluded (k (fst (f s))) post
  | Execute _ k => forall r, ensures excluded (k r) post
  | Spawn _ k => ensures excluded k post
  | Crash => True
  end.

Lemma ensures_any {A} excluded (p : Prog A) : ensures excluded p (fun _ => True).
Proof. induction p; cbn; auto. Qed.

Lemma ensures_bind {A B} excluded (p : Prog A) (k : A -> Prog B) (mid : A -> Prop) post :
  ensures excluded p mid -> (forall a, mid a -> ensures excluded (k a) post) ->
  ensures excluded (prog_bind k p) post.
Proof.
  intros Hp Hk. induction p as [a|C en f c IH|q c IH|w c IH|]; cbn in *; auto.
Qed.

Lemma ensures_read {A B} excluded en (f : S -> B) (k : B -> Prog A) post :
  (forall s, ~ excluded s -> ensures excluded (k (f s)) post) ->
  ensures excluded (prog_bind k (read en f)) post.
Proof. intros Hk s _ Hs. by apply Hk. Qed.

(** ** Interleaving *)

Context (executes : Q -> S -> R -> S -> Prop) (body : W -> Prog unit) (arrives : Prog unit -> Prop)
  (spawn_may_fail : bool).

Inductive step : S * list (Prog unit) -> S * list (Prog unit) -> Prop :=
| step_act s before B (en : S -> bool) (f : S -> B * S) k after :
    en s = true ->
    step (s, before ++ Act en f k :: after) (snd (f s), before ++ k (fst (f s)) :: after)
| step_execute s s' before q k r after :
    executes q s r s' ->
    step (s, before ++ Execute q k :: after) (s', before ++ k r :: after)
| step_spawn s before w k after :
    step (s, before ++ Spawn w k :: after) (s, before ++ k :: after ++ [body w])
| step_spawn_fails s before w k after :
    spawn_may_fail = true ->
    step (s, before ++ Spawn w k :: after) (s, before ++ k :: after)
| step_arrives s ts p : arrives p -> step (s, ts) (s, ts ++ [p]).

(** A program that runs alone takes the machine there step by step, the threads it
    starts coming after the others. *)
Lemma run_alone_steps {A} (p : Prog A) (k : A -> Prog unit) s a s' ws before after :
  run_alone p s = Some (a, s', ws) ->
  rtc step (s, before ++ prog_bind k p :: after)
           (s', before ++ k a :: after ++ map body ws).
Proof.
  revert s s' ws after. induction p as [a0|B en f c IH|q c IH|w c IH|]; intros s s' ws after; cbn [run_alone prog_bind].
  - intros [= <- <- <-]. cbn [map]. by rewrite app_nil_r.
  - destruct (en s) eqn:E; [|done]. destruct (f s) as [b s1] eqn:Ef. intros Hr.
    eapply rtc_l; [by apply step_act|]. rewrite Ef. cbn [fst snd]. by apply IH.
  - done.
  - destruct (run_alone c s) as [[[a1 s1] ws1]|] eqn:E; [|done]. intros [= <- <- <-].
    eapply rtc_l; [apply step_spawn|]. specialize (IH s s1 ws1 (after ++ [body w]) E).
    rewrite <- app_assoc in IH. exact IH.
  - done.
Qed.

(** The same when no thread can be started. *)
Lemma run_alone_steps_fail {A} (p : Prog A) (k : A -> Prog unit) s a s' ws before after :
  spawn_may_fail = true -> run_alone p s = Some (a, s', ws) ->
  rtc step (s, before ++ prog_bind k p :: after) (s', before ++ k a :: after).
Proof.
  intros Hmay. revert s s' ws. induction p as [a0|B en f c IH|q c IH|w c IH|]; intros s s' ws;
    cbn [run_alone prog_bind].
  - by intros [= <- <- <-].
  - destruct (en s) eqn:E; [|done]. destruct (f s) as [b s1] eqn:Ef. intros Hr.
    eapply rtc_l; [by apply step_act|]. rewrite Ef. cbn [fst snd]. by eapply IH.
  - done.
  - destruct (run_alone c s) as [[[a1 s1] ws1]|] eqn:E; [|done]. intros [= <- <- <-].
    eapply rtc_l; [by apply step_spawn_fails|]. by eapply IH.
  - done.
Qed.
End programs.
Arguments Prog S W Q R A : clear implicits.
Arguments Ret {S W Q R A} a.
Arguments Act {S W Q R A B} enabled section k.
Arguments Execute {S W Q R A} q k.
Arguments Spawn {S W Q R A} w k.
Arguments Crash {S W Q R A}.
