(* ===== verification/Daemon.v ===== *)
(** The daemon's shared state and its commands, src/system/daemon_state.rs, with the
    responses of src/ipc/protocol.rs.

    [Shared] is the context that every thread has a handle of.  Each method is a
    program of atomic sections: one per acquisition of a lock or access to an atomic.
    The runtime lock is kept over the accesses to the token in [trigger_shutdown],
    the engine's mutex over a whole cleaning.  What a command reads of the device is
    given by a [Sensed].

    The cleaning engine is the interface [CleanEngine]; DaemonRuns has the
    pipeline's instance. *)
From Stdlib Require Import Ascii String SpecFloat.
From S2P Require Import Prelude Domain DaemonConfig Text Psi Idle Hardware EventLoop.
From S2P Require Import Cancellation Threads Metrics.
From S2P Require Pipeline Ipc.

(** What the daemon needs of the engine: [update_config], and the outcomes that
    [execute] can have on an engine, which depend on the disk and on when the token
    is cancelled. *)
Class CleanEngine (E : Type) := {
  engine_update_config : DaemonConfig -> E -> E;
  engine_executes : Pipeline.CleanParams -> E -> result CleanerError Pipeline.CleanReport -> E -> Prop;
}.

(** ** Data *)

Record JobRecord := mkJobRecord {
  jr_job_id : N;
  jr_state : string;
  jr_reclaimed_bytes : N;
  jr_is_completed : bool;
  jr_report : option Pipeline.CleanReport;
}.

Module DaemonState.
Inductive t :=
| Starting | Idle | EvaluatingTriggers | CleaningScheduled | CleaningManual
| PressureReclaiming (lvl : string) | Preempted (reason : string) | ShuttingDown.

#[global] Instance eq_dec : EqDecision t.
Proof. solve_decision. Defined.

Definition display (s : t) : string :=
  match s with
  | Starting => "Starting up"
  | Idle => "Idle / Sleeping"
  | EvaluatingTriggers => "Evaluating Triggers"
  | CleaningScheduled => "Cleaning in progress (Scheduled)"
  | CleaningManual => "Cleaning in progress (Manual Trigger)"
  | PressureReclaiming lvl => "Memory Reclaim in progress (" +:+ lvl +:+ ")"
  | Preempted reason => "Preempted (" +:+ reason +:+ ")"
  | ShuttingDown => "Shutting down"
  end.
End DaemonState.

Record DaemonRuntimeState := mkRuntime {
  rt_state : DaemonState.t;
  rt_last_cleaned_ts : option N;
  rt_last_freed_bytes : N;
  rt_total_freed_bytes : N;
  rt_is_cleaning : bool;
  rt_shutdown_requested : bool;
  rt_screen_off_since : option N;
  rt_thermal_state : Thermal.t;
}.

Definition DaemonRuntimeState_default : DaemonRuntimeState :=
  mkRuntime DaemonState.Idle None 0 0 false false None Thermal.Normal.

Record DaemonStatus := mkStatus {
  ds_state : string;
  ds_uptime_secs : N;
  ds_last_cleaned_ts : option N;
  ds_last_freed_bytes : N;
  ds_total_freed_bytes : N;
  ds_is_charging : bool;
  ds_screen_state : string;
  ds_soc_temp_c : f32;
  ds_battery_temp_c : f32;
  ds_cpu_usage_pct : f32;
  ds_ram_vm_size_bytes : N;
  ds_ram_rss_bytes : N;
  ds_ram_pss_bytes : N;
  ds_idle_state : string;
  ds_idle_score : N;
  ds_blockers : list string;
}.

Inductive ResponseData :=
| Pong (version : string) (uptime_secs : N)
| JobAccepted (job_id : N) (message : string)
| JobStatus (job_id : N) (state : string) (reclaimed_bytes : N) (is_completed : bool)
    (report : option Pipeline.CleanReport)
| Status (s : DaemonStatus)
| Report (r : Pipeline.CleanReport)
| IdleData (a : IdleAssessment)
| Message (m : string).

Inductive Response := Success (d : ResponseData) | ErrorResponse (msg : string).

(** What one command reads of the device and the clocks, reading by reading. *)
Record Sensed := mkSensed {
  sn_thermal : ThermalReport;
  sn_charger : Charger.t;
  sn_screen : nat -> ScreenState.t;      (** the n-th query of the screen *)
  sn_metrics : ProcessMetrics;
  sn_cpu_psi : option f32;               (** [read_cpu_pressure().map(|p| p.some.avg10)] *)
  sn_io_psi : option f32;
  sn_mem_psi : option f32;
  sn_battery : option N;
  sn_now_off : N;                        (** when the screen-off time is measured *)
  sn_now_up : N;                         (** when the uptime is *)
  sn_reloaded : result string DaemonConfig;  (** [DaemonConfig::reload_from_path] *)
}.

(** A thread that [spawn] starts. *)
Inductive Worker :=
| MaintenanceWorker (cfg : DaemonConfig)
| ManualWorker (job_id : N) (params : Pipeline.CleanParams).

Section daemon.
Context {E : Type} `{CleanEngine E} (strerror : Errno -> string).

(** ** The shared context *)

Record Shared := mkShared {
  sh_active_config_path : option string;
  sh_config : DaemonConfig;
  sh_engine : E;
  sh_engine_locked : bool;
  sh_token : CancellationToken;
  sh_runtime : DaemonRuntimeState;
  sh_runtime_locked : bool;
  sh_jobs : gmap N JobRecord;
  sh_next_job_id : N;
  sh_start_time : N;
}.

Definition DaemonContext_new (config : DaemonConfig) (active_config_path : option string)
    (engine : E) (now : N) : Shared :=
  mkShared active_config_path config engine false CancellationToken_new
    DaemonRuntimeState_default false ∅ 1 now.

Definition set_config (c : DaemonConfig) (s : Shared) : Shared :=
  mkShared (sh_active_config_path s) c (sh_engine s) (sh_engine_locked s) (sh_token s)
    (sh_runtime s) (sh_runtime_locked s) (sh_jobs s) (sh_next_job_id s) (sh_start_time s).
Definition set_engine (e : E) (locked : bool) (s : Shared) : Shared :=
  mkShared (sh_active_config_path s) (sh_config s) e locked (sh_token s)
    (sh_runtime s) (sh_runtime_locked s) (sh_jobs s) (sh_next_job_id s) (sh_start_time s).
Definition set_token (t : CancellationToken) (s : Shared) : Shared :=
  mkShared (sh_active_config_path s) (sh_config s) (sh_engine s) (sh_engine_locked s) t
    (sh_runtime s) (sh_runtime_locked s) (sh_jobs s) (sh_next_job_id s) (sh_start_time s).
Definition set_runtime (rt : DaemonRuntimeState) (locked : bool) (s : Shared) : Shared :=
  mkShared (sh_active_config_path s) (sh_config s) (sh_engine s) (sh_engine_locked s) (sh_token s)
    rt locked (sh_jobs s) (sh_next_job_id s) (sh_start_time s).
Definition set_jobs (jobs : gmap N JobRecord) (next : N) (s : Shared) : Shared :=
  mkShared (sh_active_config_path s) (sh_config s) (sh_engine s) (sh_engine_locked s) (sh_token s)
    (sh_runtime s) (sh_runtime_locked s) jobs next (sh_start_time s).

(** The result of a long operation is that of [execute], and the wall-clock time
    read after it. *)
Definition Outcome : Type := result CleanerError Pipeline.CleanReport * N.
Definition P : Type -> Type := Prog Shared Worker Pipeline.CleanParams Outcome.

Definition rt_free (s : Shared) : bool := negb (sh_runtime_locked s).
Definition engine_free (s : Shared) : bool := negb (sh_engine_locked s).

(** Sections under the runtime lock, and accesses to the token. *)
Definition rt_read {B} (f : DaemonRuntimeState -> B) : P B :=
  read rt_free (fun s => f (sh_runtime s)).
Definition rt_write (f : DaemonRuntimeState -> DaemonRuntimeState) : P unit :=
  write rt_free (fun s => set_runtime (f (sh_runtime s)) false s).
Fixpoint token_calls (l : list Access) : P unit :=
  match l with
  | [] => mret tt
  | a :: l' => _ ← write always (fun s => set_token (access a (sh_token s)) s); token_calls l'
  end.
Definition read_config : P DaemonConfig := read always sh_config.

(** Field updates of the runtime state. *)
Definition with_state (st : DaemonState.t) (rt : DaemonRuntimeState) : DaemonRuntimeState :=
  mkRuntime st (rt_last_cleaned_ts rt) (rt_last_freed_bytes rt) (rt_total_freed_bytes rt)
    (rt_is_cleaning rt) (rt_shutdown_requested rt) (rt_screen_off_since rt) (rt_thermal_state rt).
Definition with_cleaning (b : bool) (rt : DaemonRuntimeState) : DaemonRuntimeState :=
  mkRuntime (rt_state rt) (rt_last_cleaned_ts rt) (rt_last_freed_bytes rt) (rt_total_freed_bytes rt)
    b (rt_shutdown_requested rt) (rt_screen_off_since rt) (rt_thermal_state rt).
Definition with_shutdown (rt : DaemonRuntimeState) : DaemonRuntimeState :=
  mkRuntime (rt_state rt) (rt_last_cleaned_ts rt) (rt_last_freed_bytes rt) (rt_total_freed_bytes rt)
    (rt_is_cleaning rt) true (rt_screen_off_since rt) (rt_thermal_state rt).
Definition with_screen_off (since : option N) (rt : DaemonRuntimeState) : DaemonRuntimeState :=
  mkRuntime (rt_state rt) (rt_last_cleaned_ts rt) (rt_last_freed_bytes rt) (rt_total_freed_bytes rt)
    (rt_is_cleaning rt) (rt_shutdown_requested rt) since (rt_thermal_state rt).
Definition with_thermal (t : Thermal.t) (rt : DaemonRuntimeState) : DaemonRuntimeState :=
  mkRuntime (rt_state rt) (rt_last_cleaned_ts rt) (rt_last_freed_bytes rt) (rt_total_freed_bytes rt)
    (rt_is_cleaning rt) (rt_shutdown_requested rt) (rt_screen_off_since rt) t.
Definition with_freed (ts freed : N) (rt : DaemonRuntimeState) : DaemonRuntimeState :=
  mkRuntime (rt_state rt) (Some ts) freed (wrap_add (rt_total_freed_bytes rt) freed)
    (rt_is_cleaning rt) (rt_shutdown_requested rt) (rt_screen_off_since rt) (rt_thermal_state rt).

Definition get_state : P DaemonState.t := rt_read rt_state.
Definition set_state (st : DaemonState.t) : P unit := rt_write (with_state st).
Definition set_screen_off_since (since : option N) : P unit := rt_write (with_screen_off since).
Definition set_thermal_state (t : Thermal.t) : P unit := rt_write (with_thermal t).
Definition is_shutdown_requested : P bool := rt_read rt_shutdown_requested.
Definition is_cleaning : P bool := rt_read rt_is_cleaning.

(** [since.elapsed()] *)
Definition screen_off_duration (now : N) : P (option N) :=
  rt_read (fun rt => option_map (fun since => now - since) (rt_screen_off_since rt)).

(** The read and the write of the state are two sections. *)
Definition compute_thermal_state (max_soc_temp_c : f32) : P Thermal.t :=
  prev ← rt_read rt_thermal_state;
  let next := if f32_gt max_soc_temp_c F32_ZERO then Thermal.next_state prev max_soc_temp_c
              else prev in
  _ ← set_thermal_state next;
  mret next.

Definition trigger_shutdown : P unit :=
  _ ← write rt_free (fun s =>
        set_runtime (with_state DaemonState.ShuttingDown (with_shutdown (sh_runtime s))) true s);
  _ ← token_calls cancel;
  write always (fun s => set_runtime (sh_runtime s) false s).

Definition reload_config (reloaded : result string DaemonConfig) : P (result string string) :=
  path ← read always sh_active_config_path;
  match reloaded with
  | Ok new_cfg =>
      _ ← write engine_free (fun s =>
            set_engine (engine_update_config new_cfg (sh_engine s)) false s);
      _ ← write always (set_config new_cfg);
      mret (Ok ("Configuration reloaded successfully" +:+
                match path with Some p => " from " +:+ p | None => EmptyString end))
  | Err e =>
      mret (Err ("Failed to reload configuration: " +:+ e +:+ ". Keeping current config."))
  end.

(** [now] is when the screen-off time is measured. *)
Definition triggers_allow (cfg : DaemonConfig) (screen_off_since : option N) (now : N)
    (charger : Charger.t) (thermal : ThermalReport) : bool :=
  if dc_require_screen_off cfg
     && match screen_off_since with
        | Some since => now - since <? dc_min_screen_off_secs cfg * NANOS
        | None => true
        end then false
  else if dc_require_charging_for_deep_clean cfg && negb (Charger.is_charging charger) then false
  else negb (f32_gt (max_soc_temp_c thermal) (dc_max_soc_temp_c cfg)
             || f32_gt (battery_temp_c thermal) (dc_max_battery_temp_c cfg)).

Definition evaluate_triggers (screen_off_since : option N) (now : N) (charger : Charger.t)
    (thermal : ThermalReport) : P bool :=
  cfg ← read_config;
  mret (triggers_allow cfg screen_off_since now charger thermal).

(** ** The workers *)

(** [engine.lock(); engine.execute(..)], the guard dropped at the end. *)
Definition locked_execute (params : Pipeline.CleanParams) : P Outcome :=
  _ ← write engine_free (fun s => set_engine (sh_engine s) true s);
  o ← Execute params Ret;
  _ ← write always (fun s => set_engine (sh_engine s) false s);
  mret o.

Definition freed_of (r : Pipeline.CleanReport) : N :=
  Pipeline.sr_total_freed_bytes (Pipeline.rp_storage r).

(** The runtime state after a cleaning, in one section. *)
Definition finish_runtime (o : Outcome) : P unit :=
  match o with
  | (Ok report, now_ts) =>
      rt_write (fun rt => with_cleaning false (with_state DaemonState.Idle
                            (with_freed now_ts (freed_of report) rt)))
  | (Err _, _) => rt_write (fun rt => with_cleaning false (with_state DaemonState.Idle rt))
  end.

(** [jobs.get_mut(&job_id)] and the assignments. *)
Definition finish_record (o : Outcome) (rec : JobRecord) : JobRecord :=
  match o with
  | (Ok report, _) =>
      mkJobRecord (jr_job_id rec) "COMPLETED" (freed_of report) true (Some report)
  | (Err e, _) =>
      mkJobRecord (jr_job_id rec) ("FAILED: " +:+ CleanerError_display strerror e)
        (jr_reclaimed_bytes rec) true None
  end.

Definition finish_job (job_id : N) (o : Outcome) : P unit :=
  write always (fun s => set_jobs (alter (finish_record o) job_id (sh_jobs s)) (sh_next_job_id s) s).

Definition maintenance_params (cfg : DaemonConfig) : Pipeline.CleanParams :=
  Pipeline.mkParams true (oc_fstrim_partitions (dc_optimization cfg))
    (oc_zram_compaction (dc_optimization cfg)) false.

Definition worker_body (w : Worker) : P unit :=
  match w with
  | MaintenanceWorker cfg =>
      o ← locked_execute (maintenance_params cfg);
      finish_runtime o
  | ManualWorker job_id params =>
      o ← locked_execute params;
      _ ← finish_runtime o;
      finish_job job_id o
  end.

(** The test and the claim, in one section. *)
Definition claim (st : DaemonState.t) (refuse : DaemonRuntimeState -> bool) : P bool :=
  act rt_free (fun s =>
    let rt := sh_runtime s in
    if refuse rt then (false, s)
    else (true, set_runtime (with_cleaning true (with_state st rt)) false s)).

Definition spawn_maintenance_worker : P unit :=
  claimed ← claim DaemonState.CleaningScheduled
              (fun rt => rt_shutdown_requested rt || rt_is_cleaning rt);
  if claimed : bool then
    _ ← token_calls reset;
    cfg ← read_config;
    Spawn (MaintenanceWorker cfg) (mret tt)
  else mret tt.

(** ** Commands *)

Definition reading (psi : option f32) : SensorReading :=
  match psi with Some v => available v | None => unsupported end.

Definition soc_reading (t : f32) : SensorReading :=
  if f32_gt t F32_ZERO then available t else unavailable.

Definition is_on (s : ScreenState.t) : bool :=
  match s with ScreenState.On => true | _ => false end.

(** The context of an assessment: [screen_on] is the query behind [is_screen_on],
    [screen] the one behind the [screen] field. *)
Definition idle_context (sn : Sensed) (screen screen_on : ScreenState.t) (off : option N)
    : IdleContext :=
  mkContext screen off (Charger.is_charging (sn_charger sn)) (default 50 (sn_battery sn))
    (reading (sn_cpu_psi sn)) (reading (sn_io_psi sn)) (reading (sn_mem_psi sn))
    (soc_reading (max_soc_temp_c (sn_thermal sn))) (Some "soc"%string)
    (negb (is_on screen_on)) (is_on screen_on).

Definition GRACE_NANOS : N := 300 * NANOS.

Definition assess (ctx : IdleContext) (thermal : Thermal.t) : IdleAssessment :=
  evaluate ctx IdleState.Active thermal GRACE_NANOS.

Definition screen_str (s : ScreenState.t) : string :=
  match s with ScreenState.On => "On" | ScreenState.Off => "Off" | ScreenState.Unknown => "Unknown" end.

Definition uptime_secs (sn : Sensed) (start : N) : N := (sn_now_up sn - start) / NANOS.

Definition get_status (sn : Sensed) : P Response :=
  thermal_state ← compute_thermal_state (max_soc_temp_c (sn_thermal sn));
  off ← screen_off_duration (sn_now_off sn);
  start ← read always sh_start_time;
  rt ← rt_read (fun rt => rt);
  let a := assess (idle_context sn (sn_screen sn 2) (sn_screen sn 1) off) thermal_state in
  let m := sn_metrics sn in
  mret (Success (Status (mkStatus (DaemonState.display (rt_state rt)) (uptime_secs sn start)
    (rt_last_cleaned_ts rt) (rt_last_freed_bytes rt) (rt_total_freed_bytes rt)
    (Charger.is_charging (sn_charger sn)) (screen_str (sn_screen sn 0))
    (max_soc_temp_c (sn_thermal sn)) (battery_temp_c (sn_thermal sn))
    (cpu_usage_pct m) (vm_size_bytes m) (rss_bytes m) (pss_bytes m)
    (IdleState.as_str (Idle.state a)) (score a) (map Blocker.description (blockers a))))).

Definition get_idle_assessment (sn : Sensed) : P Response :=
  thermal_state ← compute_thermal_state (max_soc_temp_c (sn_thermal sn));
  off ← screen_off_duration (sn_now_off sn);
  mret (Success (IdleData
    (assess (idle_context sn (sn_screen sn 0) (sn_screen sn 0) off) thermal_state))).

Definition running_record (job_id : N) : JobRecord := mkJobRecord job_id "RUNNING" 0 false None.

Definition trigger_clean (params : Pipeline.CleanParams) : P Response :=
  claimed ← claim DaemonState.CleaningManual rt_is_cleaning;
  if claimed : bool then
    _ ← token_calls reset;
    job_id ← act always (fun s =>
               (sh_next_job_id s, set_jobs (sh_jobs s) (wrap_add (sh_next_job_id s) 1) s));
    _ ← write always (fun s =>
          set_jobs (<[job_id := running_record job_id]> (sh_jobs s)) (sh_next_job_id s) s);
    Spawn (ManualWorker job_id params)
      (mret (Success (JobAccepted job_id
        ("Manual clean job #" +:+ pretty job_id +:+ " accepted and executing in background"))))
  else mret (ErrorResponse "Cleaning operation is already in progress").

Definition get_job_status (job_id : N) : P Response :=
  rec ← read always (fun s => sh_jobs s !! job_id);
  match rec with
  | Some rec => mret (Success (JobStatus job_id (jr_state rec) (jr_reclaimed_bytes rec)
                                 (jr_is_completed rec) (jr_report rec)))
  | None => mret (ErrorResponse ("Job #" +:+ pretty job_id +:+ " not found"))
  end.

Definition get_stats (sn : Sensed) : P Response :=
  start ← read always sh_start_time;
  rt ← rt_read (fun rt => rt);
  let m := sn_metrics sn in
  mret (Success (Status (mkStatus (DaemonState.display (rt_state rt)) (uptime_secs sn start)
    (rt_last_cleaned_ts rt) (rt_last_freed_bytes rt) (rt_total_freed_bytes rt)
    false "N/A" F32_ZERO F32_ZERO
    (cpu_usage_pct m) (vm_size_bytes m) (rss_bytes m) (pss_bytes m) "N/A" 0 []))).

Definition handle_command (sn : Sensed) (cmd : Ipc.Command) : P Response :=
  down ← is_shutdown_requested;
  if down : bool then mret (ErrorResponse "Daemon is currently shutting down")
  else match cmd with
       | Ipc.Ping =>
           start ← read always sh_start_time;
           mret (Success (Pong "1.0.0" (uptime_secs sn start)))
       | Ipc.GetStatus => get_status sn
       | Ipc.GetIdleAssessment => get_idle_assessment sn
       | Ipc.TriggerClean params => trigger_clean params
       | Ipc.GetJobStatus job_id => get_job_status job_id
       | Ipc.GetStats => get_stats sn
       | Ipc.Cancel =>
           _ ← token_calls cancel;
           _ ← set_state (DaemonState.Preempted "Cancelled by user");
           mret (Success (Message "Clean operation cancelled"))
       | Ipc.ReloadConfig =>
           r ← reload_config (sn_reloaded sn);
           mret match r with Ok msg => Success (Message msg) | Err err => ErrorResponse err end
       | Ipc.StopDaemon =>
           _ ← trigger_shutdown;
           mret (Success (Message "Daemon stopping gracefully"))
       end.

(** ** The end of the process *)

(** The polls of [is_cleaning] that fit into two seconds. *)
Fixpoint wait_for_worker (polls : nat) : P unit :=
  match polls with
  | O => mret tt
  | S polls' => c ← is_cleaning; if c : bool then wait_for_worker polls' else mret tt
  end.

(** The socket file to remove, if one is configured. *)
Definition perform_shutdown_cleanup (polls : nat) : P (option string) :=
  _ ← trigger_shutdown;
  _ ← wait_for_worker polls;
  cfg ← read_config;
  mret (if str_is_empty (dc_socket_path cfg) then None else Some (dc_socket_path cfg)).
End daemon.
Arguments Shared E : clear implicits.
Arguments P E : clear implicits.
