(* ===== verification/Reactor.v ===== *)
(** The driver of the event loop, [run_epoll_loop] and [run_fallback_loop] of
    src/system/event_loop.rs: the main thread, as a program over the shared context.

    What epoll returns, and what is then read of the device, is a list of [Wait]s;
    the loop is structural in it.  Connections are handled by threads of their own,
    so accepting them does nothing here; the calls that act on the memory, the pressure
    triggers and the timer are recorded in order. *)
From Stdlib Require Import Ascii String.
From S2P Require Import Prelude Domain DaemonConfig Text Psi Idle Hardware EventLoop.
From S2P Require Import Cancellation Threads Daemon.

(** ** The epoll loop *)

(** What the loop calls outside the shared context. *)
Inductive LoopCall :=
| ReclaimCgroup (target_mb : N)
| CompactZram
| CompactMemory
| DrainLevel (level : Level.t)
| ArmTimer (deadline : N).

(** The variables of the loop, and the calls so far. *)
Record LoopLocal := mkLocal {
  ll_state : LoopState;
  ll_psi : option PsiWatcher;
  ll_calls : list LoopCall;
}.

(** One return of epoll_wait with ready descriptors: what the sockets then hold, the
    clock, and the readings of the device while the batch is processed. *)
Record Batch := mkBatch {
  b_ready : list Z;
  b_signals : list Z;
  b_uevents : list UeventMessage;
  b_now : N;
  b_screen : ScreenState.t;
  b_trigger_now : N;
  b_charger : Charger.t;
  b_thermal : ThermalReport;
  b_psi_now : Z;
  b_reloaded : result string DaemonConfig;
}.

(** A uevent that waited at start-up, with what is read when it is processed. *)
Record Queued := mkQueued {
  q_event : UeventMessage;
  q_now : N;
  q_screen : ScreenState.t;
  q_screen_now : N;
}.

Inductive Wait := Woken (b : Batch) | Interrupted | WaitFailed.

Section reactor.
Context {E : Type} `{CleanEngine E}.

(** An operation that may panic. *)
Definition or_crash {A} (r : option A) : P E A :=
  match r with Some a => mret a | None => Crash end.

Definition set_loop (l : LoopLocal) (st : LoopState) : LoopLocal :=
  mkLocal st (ll_psi l) (ll_calls l).
Definition call (c : LoopCall) (l : LoopLocal) : LoopLocal :=
  mkLocal (ll_state l) (ll_psi l) (ll_calls l ++ [c]).

(** [cancel_with_reason(ScreenOn)] and the state. *)
Definition preempt (reason : string) : P E unit :=
  _ ← token_calls (cancel_with_reason ScreenOn);
  set_state (DaemonState.Preempted reason).

Fixpoint preempt_all (l : list LoopAction) : P E unit :=
  match l with
  | [] => mret tt
  | PreemptCleaning r :: l' => _ ← preempt r; preempt_all l'
  | _ :: l' => preempt_all l'
  end.

Definition memory_calls (level : Level.t) : list LoopCall :=
  match level with
  | Level.Moderate => [ReclaimCgroup 64]
  | Level.Critical => [ReclaimCgroup 128; CompactZram; CompactMemory]
  | Level.Normal => []
  end.

(** The trigger is drained also when nothing is reclaimed. *)
Definition reclaim_memory (b : Batch) (level : Level.t) (l : LoopLocal) : P E LoopLocal :=
  match ll_psi l with
  | None => mret l
  | Some pw =>
      cfg ← read_config;
      cleaning ← (if can_respond pw (oc_psi_cooldown_secs (dc_optimization cfg)) (b_psi_now b)
                  then is_cleaning else mret true);
      l ← (if cleaning : bool then mret l
           else
             _ ← set_state (DaemonState.PressureReclaiming (Level.display level));
             cleaning ← is_cleaning;
             _ ← (if cleaning : bool then mret tt else set_state DaemonState.Idle);
             mret (mkLocal (ll_state l) (Some (record_response pw (b_psi_now b)))
                     (ll_calls l ++ memory_calls level)));
      mret (call (DrainLevel level) l)
  end.

Definition run_maintenance (b : Batch) (maint_secs : N) (l : LoopLocal) : P E LoopLocal :=
  should_run ← evaluate_triggers (screen_off_since (ll_state l)) (b_trigger_now b) (b_charger b)
                 (b_thermal b);
  cleaning ← (if should_run : bool then is_cleaning else mret true);
  down ← (if negb cleaning then is_shutdown_requested else mret true);
  if negb down then
    _ ← spawn_maintenance_worker;
    st ← or_crash (on_maintenance_success (b_now b) maint_secs (ll_state l));
    mret (set_loop l st)
  else
    down ← is_shutdown_requested;
    if down : bool then mret l
    else st ← or_crash (on_maintenance_postponed (b_now b) maint_secs (ll_state l));
         mret (set_loop l st).

(** The flag is [break 'event_loop]. *)
Definition handle_action (b : Batch) (maint_secs min_off_secs : N) (a : LoopAction) (l : LoopLocal)
    : P E (LoopLocal * bool) :=
  match a with
  | NoAction => mret (l, false)
  | ShutdownAction => _ ← trigger_shutdown; mret (l, true)
  | ReloadConfigAction => _ ← reload_config (b_reloaded b); mret (l, false)
  | HandleIpc => mret (l, false)
  | PreemptCleaning reason => _ ← preempt reason; mret (l, false)
  | ReconcileSysfs =>
      cleaning ← is_cleaning;
      '(sub_actions, st) ← or_crash (reduce (ReconcileScreen (b_screen b)) (b_now b) min_off_secs
                                       maint_secs cleaning (ll_state l));
      _ ← set_screen_off_since (screen_off_since st);
      _ ← preempt_all sub_actions;
      mret (set_loop l st, false)
  | ReclaimMemory level => l ← reclaim_memory b level l; mret (l, false)
  | RunMaintenance => l ← run_maintenance b maint_secs l; mret (l, false)
  end.

Fixpoint handle_actions (b : Batch) (maint_secs min_off_secs : N) (acts : list LoopAction)
    (l : LoopLocal) : P E (LoopLocal * bool) :=
  match acts with
  | [] => mret (l, false)
  | a :: acts' =>
      '(l, stop) ← handle_action b maint_secs min_off_secs a l;
      if stop : bool then mret (l, true) else handle_actions b maint_secs min_off_secs acts' l
  end.

Fixpoint process_events (b : Batch) (maint_secs min_off_secs : N) (cleaning : bool)
    (events : list LoopEvent) (l : LoopLocal) : P E (LoopLocal * bool) :=
  match events with
  | [] => mret (l, false)
  | ev :: events' =>
      '(acts, st) ← or_crash (reduce ev (b_now b) min_off_secs maint_secs cleaning (ll_state l));
      _ ← set_screen_off_since (screen_off_since st);
      '(l, stop) ← handle_actions b maint_secs min_off_secs acts (set_loop l st);
      if stop : bool then mret (l, true)
      else process_events b maint_secs min_off_secs cleaning events' l
  end.

(** One iteration after a return of epoll_wait. *)
Definition process_batch (fds : Fds) (b : Batch) (l : LoopLocal) : P E (LoopLocal * bool) :=
  cfg ← read_config;
  cleaning ← is_cleaning;
  let events := collect_events fds (classify_all fds (ll_psi l) (b_ready b)) (b_signals b)
                  (b_uevents b) in
  '(l, stop) ← process_events b (dc_maintenance_interval_secs cfg) (dc_min_screen_off_secs cfg)
                 cleaning events l;
  if stop : bool then mret (l, true)
  else
    down ← is_shutdown_requested;
    mret (if down : bool then l else call (ArmTimer (earliest_deadline (ll_state l))) l, false).

Fixpoint epoll_loop (fds : Fds) (waits : list Wait) (l : LoopLocal) : P E LoopLocal :=
  down ← is_shutdown_requested;
  if down : bool then mret l
  else match waits with
       | [] => mret l
       | Interrupted :: waits' => epoll_loop fds waits' l
       | WaitFailed :: _ => mret l
       | Woken b :: waits' =>
           '(l, stop) ← process_batch fds b l;
           if stop : bool then mret l else epoll_loop fds waits' l
       end.

(** Start-up: the state machine, the screen, then the uevents that queued up; each
    uevent of a display reads the screen again.  Every call of [reduce] reads the
    clock. *)
Fixpoint startup_uevents (evs : list Queued) (min_off maint : N) (st : LoopState)
    : P E LoopState :=
  match evs with
  | [] => mret st
  | q :: evs' =>
      '(acts, st) ← or_crash (reduce (Uevent (q_event q)) (q_now q) min_off maint false st);
      st ← match acts with
           | ReconcileSysfs :: _ =>
               '(_, st) ← or_crash (reduce (ReconcileScreen (q_screen q)) (q_screen_now q)
                                      min_off maint false st);
               _ ← set_screen_off_since (screen_off_since st);
               mret st
           | _ => mret st
           end;
      startup_uevents evs' min_off maint st
  end.

Definition start_loop (now screen_now : N) (initial_screen : ScreenState.t) (queued : list Queued)
    : P E LoopState :=
  cfg ← read_config;
  let maint := dc_maintenance_interval_secs cfg in
  let min_off := dc_min_screen_off_secs cfg in
  st ← or_crash (LoopState_new maint now);
  '(_, st) ← or_crash (reduce (ReconcileScreen initial_screen) screen_now min_off maint false st);
  _ ← set_screen_off_since (screen_off_since st);
  startup_uevents queued min_off maint st.

Definition run_epoll_loop (fds : Fds) (psi : option PsiWatcher) (now screen_now : N)
    (initial_screen : ScreenState.t) (queued : list Queued) (waits : list Wait) : P E LoopLocal :=
  st ← start_loop now screen_now initial_screen queued;
  epoll_loop fds waits (mkLocal st psi [ArmTimer (earliest_deadline st)]).

(** ** The fallback loop *)

(** One pass: the screen, the device, and the clock whenever it is read: for the
    start of screen-off, the time since the last maintenance, the triggers, and the
    end. *)
Record Tick := mkTick {
  t_screen : ScreenState.t;
  t_off_now : N;
  t_elapsed_now : N;
  t_trigger_now : N;
  t_end_now : N;
  t_charger : Charger.t;
  t_thermal : ThermalReport;
}.

Fixpoint fallback_loop (ticks : list Tick) (last_maintenance : N) (since : option N) : P E unit :=
  down ← is_shutdown_requested;
  if down : bool then mret tt
  else match ticks with
       | [] => mret tt
       | t :: ticks' =>
           let since' := match t_screen t with
                         | ScreenState.Off => match since with None => Some (t_off_now t) | _ => since end
                         | ScreenState.On => None
                         | ScreenState.Unknown => since
                         end in
           _ ← match t_screen t with
               | ScreenState.On =>
                   cleaning ← is_cleaning;
                   if cleaning : bool then
                     _ ← token_calls cancel;
                     set_state (DaemonState.Preempted "Screen turned ON")
                   else mret tt
               | _ => mret tt
               end;
           _ ← set_screen_off_since since';
           cfg ← read_config;
           last ← (if dc_maintenance_interval_secs cfg * NANOS <=? t_elapsed_now t - last_maintenance then
                     should_run ← evaluate_triggers since' (t_trigger_now t) (t_charger t) (t_thermal t);
                     cleaning ← (if should_run : bool then is_cleaning else mret true);
                     down ← (if negb cleaning then is_shutdown_requested else mret true);
                     if negb down then _ ← spawn_maintenance_worker; mret (t_end_now t)
                     else mret last_maintenance
                   else mret last_maintenance);
           fallback_loop ticks' last since'
       end.

Definition run_fallback_loop (now screen_now : N) (screen : ScreenState.t) (ticks : list Tick)
    : P E unit :=
  fallback_loop ticks now (match screen with ScreenState.Off => Some screen_now | _ => None end).

(** ** The round of a timer that expired *)

Definition shutting_down (s : Shared E) : Prop := rt_shutdown_requested (sh_runtime s) = true.

Lemma run_maintenance_round b maint l :
  ensures shutting_down (run_maintenance b maint l) (fun l' =>
    exists should_run : bool,
      (if should_run then on_maintenance_success (b_now b) maint (ll_state l)
       else on_maintenance_postponed (b_now b) maint (ll_state l)) = Some (ll_state l')).
Proof.
  unfold run_maintenance. eapply ensures_bind; [apply ensures_any|]. intros should_run _.
  eapply ensures_bind; [apply ensures_any|]. intros cleaning _.
  assert (forall s : Shared E, ~ shutting_down s -> rt_shutdown_requested (sh_runtime s) = false) as Hup
    by (intros s Hs; unfold shutting_down in Hs; by destruct (rt_shutdown_requested _)).
  assert (forall should_run : bool, forall r,
    (if should_run then on_maintenance_success (b_now b) maint (ll_state l)
     else on_maintenance_postponed (b_now b) maint (ll_state l)) = r ->
    ensures shutting_down (st ← or_crash r; mret (set_loop l st) : P E LoopLocal) (fun l' =>
      exists should_run : bool,
        (if should_run then on_maintenance_success (b_now b) maint (ll_state l)
         else on_maintenance_postponed (b_now b) maint (ll_state l)) = Some (ll_state l'))) as Hend.
  { intros run [st|] Hr; cbn; [by exists run|done]. }
  destruct cleaning; cbn [negb].
  - apply (ensures_read shutting_down rt_free _ _ _). intros s Hs. rewrite (Hup s Hs). by apply (Hend false).
  - apply (ensures_read shutting_down rt_free _ _ _). intros s Hs. rewrite (Hup s Hs). cbn [negb].
    eapply ensures_bind; [apply ensures_any|]. intros _ _. by apply (Hend true).
Qed.

(** [timer_round] is what the driver does to the loop's state when the timer expired, in
    every interleaving, as long as no shutdown is requested: the reduction, and then the
    branch of RunMaintenance that the triggers and the cleaning slot call for. *)
Lemma timer_round_is_drivers b maint min_off cleaning l :
  ensures shutting_down (process_events b maint min_off cleaning [TimerExpired] l) (fun x =>
    snd x = false /\
    exists should_run : bool,
      timer_round (b_now b) min_off maint cleaning should_run (ll_state l) = Some (ll_state (fst x))).
Proof.
  cbn [process_events]. unfold timer_round.
  destruct (reduce TimerExpired (b_now b) min_off maint cleaning (ll_state l)) as [[acts st]|] eqn:Er; [|done].
  apply (ensures_bind _ _ _ (fun r => r = (acts, st))); [done|]. intros ? ->.
  eapply ensures_bind; [apply ensures_any|]. intros ? _.
  assert (acts = [] \/ acts = [RunMaintenance]) as [-> | ->].
  { cbn [reduce] in Er. injection Er as Hacts _. rewrite <- Hacts. destruct (_ || _); auto. }
  - exact (conj eq_refl (ex_intro _ false eq_refl)).
  - cbn [handle_actions handle_action].
    set (post := fun x : LoopLocal * bool => snd x = false /\ exists should_run : bool,
      (if should_run then on_maintenance_success (b_now b) maint st
       else on_maintenance_postponed (b_now b) maint st) = Some (ll_state (fst x))).
    apply (ensures_bind _ _ _ post); [apply (ensures_bind _ _ _ post)|].
    + eapply ensures_bind; [apply run_maintenance_round|]. intros l' Hl'. by split.
    + intros [l' stop] [Hstop Hl']. cbn in Hstop. subst stop. by split.
    + intros [l' stop] [Hstop Hl']. cbn in Hstop. subst stop. by split.
Qed.
End reactor.
