(* ===== verification/DaemonProps.v ===== *)
(** Properties of the daemon's threads.

    Every thread (a connection's handler, the main loop, a cleaning worker) follows
    an ownership discipline: it takes the cleaning slot only when it is free, only
    the owner of the slot runs the engine, registers its job and gives the slot back,
    and starting a worker hands the slot over.  [owns] states it program by program;
    it is preserved by every interleaving, and makes the daemon refine a small
    abstract job server. *)
From Stdlib Require Import Ascii String.
From stdpp Require Import relations.
From S2P Require Import Prelude Domain DaemonConfig Text Psi Idle Hardware EventLoop.
From S2P Require Import Cancellation Threads Daemon Reactor.
From S2P Require Pipeline Ipc.

(** ** Ownership *)

(** What a thread owns: nothing; the slot; the slot and a job number it has drawn;
    the slot and a registered job; a job whose slot it has given back. *)
Inductive Own :=
| Nothing
| Slot
| Allocated (id : N)
| SlotJob (id : N)
| JobOnly (id : N).

Definition holds_slot (o : Own) : Prop :=
  match o with Slot | Allocated _ | SlotJob _ => True | _ => False end.
#[export] Instance holds_slot_dec o : Decision (holds_slot o).
Proof. destruct o; apply _. Defined.

Definition own_id (o : Own) : option N :=
  match o with Allocated id | SlotJob id | JobOnly id => Some id | _ => None end.

Definition worker_own (w : Worker) : Own :=
  match w with MaintenanceWorker _ => Slot | ManualWorker id _ => SlotJob id end.

Section discipline.
Context {E : Type} `{CleanEngine E} (strerror : Errno -> string).

Definition cleaning (s : Shared E) : bool := rt_is_cleaning (sh_runtime s).

(** How one section may change the slot and the jobs. *)
Inductive change : Own -> Own -> Shared E -> Shared E -> Prop :=
| change_keep o s s' :
    cleaning s' = cleaning s -> sh_jobs s' = sh_jobs s -> sh_next_job_id s' = sh_next_job_id s ->
    change o o s s'
| change_claim s s' :
    cleaning s = false -> cleaning s' = true ->
    sh_jobs s' = sh_jobs s -> sh_next_job_id s' = sh_next_job_id s -> change Nothing Slot s s'
| change_allocate s s' :
    cleaning s' = cleaning s -> sh_jobs s' = sh_jobs s ->
    sh_next_job_id s' = wrap_add (sh_next_job_id s) 1 ->
    change Slot (Allocated (sh_next_job_id s)) s s'
| change_register id s s' :
    cleaning s' = cleaning s -> sh_jobs s' = <[id := running_record id]> (sh_jobs s) ->
    sh_next_job_id s' = sh_next_job_id s -> change (Allocated id) (SlotJob id) s s'
| change_release o o' s s' :
    (o = Slot /\ o' = Nothing \/ exists id, o = SlotJob id /\ o' = JobOnly id) ->
    cleaning s' = false ->
    sh_jobs s' = sh_jobs s -> sh_next_job_id s' = sh_next_job_id s -> change o o' s s'
| change_finish id res s s' :
    cleaning s' = cleaning s -> sh_jobs s' = alter (finish_record strerror res) id (sh_jobs s) ->
    sh_next_job_id s' = sh_next_job_id s -> change (JobOnly id) Nothing s s'.

(** The engine is touched by a cleaning and by a reload only. *)
Definition engine_change (s s' : Shared E) : Prop :=
  sh_engine s' = sh_engine s \/
  exists cfg, sh_engine s' = engine_update_config cfg (sh_engine s).

(** The discipline, with what a program returns and owns at its end. *)
Fixpoint owns {A} (p : P E A) (o : Own) (post : A -> Own -> Prop) : Prop :=
  match p with
  | Ret a => post a o
  | Act en f k => forall s, en s = true ->
      engine_change s (snd (f s)) /\
      exists o', change o o' s (snd (f s)) /\ owns (k (fst (f s))) o' post
  | Execute q k => holds_slot o /\ forall r, owns (k r) o post
  | Spawn w k => o = worker_own w /\ owns k Nothing post
  | Crash => True
  end.

(** A thread that begins and ends with nothing. *)
Definition clean_prog {A} (p : P E A) : Prop := owns p Nothing (fun _ o => o = Nothing).

Lemma owns_mono {A} (p : P E A) o (Q1 Q2 : A -> Own -> Prop) :
  (forall a o', Q1 a o' -> Q2 a o') -> owns p o Q1 -> owns p o Q2.
Proof.
  intros HQ. revert o. induction p as [a|B en f k IH|q k IH|w k IH|]; intros o; cbn [owns]; [auto| | | |done].
  - intros Hp s Hs. destruct (Hp s Hs) as (He & o' & Hc & Hk). split; [done|]. exists o'.
    split; [done|]. by apply IH.
  - intros [Ho Hk]. split; [done|]. intros r. by apply IH.
  - intros [Ho Hk]. split; [done|]. by apply IH.
Qed.

Lemma owns_bind {A B} (p : P E A) (k : A -> P E B) o (Q : B -> Own -> Prop) :
  owns p o (fun a o' => owns (k a) o' Q) -> owns (p ≫= k) o Q.
Proof.
  revert o. induction p as [a|C en f c IH|q c IH|w c IH|]; intros o; cbn; [auto| | | |done].
  - intros Hp s Hs. destruct (Hp s Hs) as (He & o' & Hc & Hk). split; [done|]. exists o'.
    split; [done|]. by apply IH.
  - intros [Ho Hk]. split; [done|]. intros r. by apply IH.
  - intros [Ho Hk]. split; [done|]. by apply IH.
Qed.

(** Composition of programs that leave the ownership alone. *)
Definition neutral {A} (p : P E A) : Prop := forall o, owns p o (fun _ o' => o' = o).

Lemma neutral_bind {A B} (p : P E A) (k : A -> P E B) :
  neutral p -> (forall a, neutral (k a)) -> neutral (p ≫= k).
Proof.
  intros Hp Hk o. apply owns_bind. eapply owns_mono; [|apply Hp]. intros a o' ->. apply Hk.
Qed.

Lemma owns_neutral_bind {A B} (p : P E A) (k : A -> P E B) o Q :
  neutral p -> (forall a, owns (k a) o Q) -> owns (p ≫= k) o Q.
Proof. intros Hp Hk. apply owns_bind. eapply owns_mono; [|apply Hp]. intros a o' ->. apply Hk. Qed.

Lemma neutral_ret {A} (a : A) : neutral (mret a).
Proof. by intros o. Qed.

Lemma neutral_read {B} en (f : Shared E -> B) : neutral (read en f).
Proof. intros o s Hs. split; [by left|]. exists o. split; [by constructor|done]. Qed.

(** A write that does not touch the slot or the jobs. *)
Lemma neutral_write en (f : Shared E -> Shared E) :
  (forall s, cleaning (f s) = cleaning s /\ sh_jobs (f s) = sh_jobs s /\
             sh_next_job_id (f s) = sh_next_job_id s /\ engine_change s (f s)) ->
  neutral (write en f).
Proof.
  intros Hf o s Hs. destruct (Hf s) as (? & ? & ? & ?). split; [done|]. exists o.
  split; [by constructor|done].
Qed.

(** A write that leaves the engine alone too. *)
Lemma neutral_write_keep en (f : Shared E -> Shared E) :
  (forall s, cleaning (f s) = cleaning s /\ sh_jobs (f s) = sh_jobs s /\
             sh_next_job_id (f s) = sh_next_job_id s /\ sh_engine (f s) = sh_engine s) ->
  neutral (write en f).
Proof.
  intros Hf. apply neutral_write. intros s. destruct (Hf s) as (H1 & H2 & H3 & H4).
  split; [exact H1|]. split; [exact H2|]. split; [exact H3|]. by left.
Qed.

Lemma neutral_crash {A} : neutral (@Crash _ _ _ _ A).
Proof. by intros o. Qed.

Lemma neutral_token l : neutral (token_calls l).
Proof.
  induction l as [|a l IH]; [apply neutral_ret|]. cbn [token_calls]. apply neutral_bind; [|done].
  by apply neutral_write_keep.
Qed.
End discipline.

Create HintDb neutral.
#[export] Hint Resolve neutral_bind neutral_ret neutral_read neutral_crash neutral_token : neutral.

(** ** Every program follows the discipline *)

Section programs.
Context {E : Type} `{CleanEngine E} (strerror : Errno -> string).
#[local] Abbreviation neutral := (@neutral E _ strerror).
#[local] Abbreviation clean_prog := (@clean_prog E _ strerror).
#[local] Abbreviation owns := (@owns E _ strerror).

Lemma neutral_clean {A} (p : P E A) : neutral p -> clean_prog p.
Proof. intros Hp. apply Hp. Qed.

Lemma clean_bind {A B} (p : P E A) (k : A -> P E B) :
  clean_prog p -> (forall a, clean_prog (k a)) -> clean_prog (p ≫= k).
Proof.
  intros Hp Hk. apply owns_bind. eapply owns_mono; [|apply Hp]. intros a o ->. apply Hk.
Qed.

Lemma neutral_rt_write (f : DaemonRuntimeState -> DaemonRuntimeState) :
  (forall rt, rt_is_cleaning (f rt) = rt_is_cleaning rt) -> neutral (rt_write f).
Proof. intros Hf. apply neutral_write_keep. intros s. split; [apply Hf|done]. Qed.

(** Walks a program whose parts are known. *)
Ltac discipline :=
  repeat first
    [ progress intros
    | match goal with |- context [let '(_, _) := ?x in _] => destruct x end
    | match goal with |- context [if ?x then _ else _] => destruct x end
    | match goal with |- context [match ?x with _ => _ end] => is_var x; destruct x end
    | apply neutral_bind | apply clean_bind
    | apply neutral_ret | apply neutral_read | apply neutral_crash | apply neutral_token
    | apply neutral_rt_write; reflexivity
    | apply neutral_write_keep; by intros
    | apply neutral_write; intros; repeat split; right; by eexists
    | apply neutral_clean; by auto with neutral
    | by auto with neutral ].

Lemma neutral_set_state st : neutral (set_state st).
Proof. by apply neutral_rt_write. Qed.
Lemma neutral_set_screen_off t : neutral (set_screen_off_since t).
Proof. by apply neutral_rt_write. Qed.
Lemma neutral_is_shutdown : neutral is_shutdown_requested.
Proof. apply neutral_read. Qed.
Lemma neutral_is_cleaning : neutral is_cleaning.
Proof. apply neutral_read. Qed.
Lemma neutral_read_config : neutral read_config.
Proof. apply neutral_read. Qed.
Lemma neutral_off_duration now : neutral (screen_off_duration now).
Proof. apply neutral_read. Qed.

#[local] Hint Resolve neutral_set_state neutral_set_screen_off neutral_is_shutdown
  neutral_is_cleaning neutral_read_config neutral_off_duration : neutral.

Lemma neutral_thermal t : neutral (compute_thermal_state t).
Proof. unfold compute_thermal_state. discipline. Qed.
Lemma neutral_shutdown : neutral trigger_shutdown.
Proof. unfold trigger_shutdown. discipline. Qed.
Lemma neutral_reload r : neutral (reload_config r).
Proof. unfold reload_config. discipline. Qed.
Lemma neutral_triggers since now c t : neutral (evaluate_triggers since now c t).
Proof. unfold evaluate_triggers. discipline. Qed.
Lemma neutral_job_status id : neutral (get_job_status id).
Proof. unfold get_job_status. discipline. Qed.
Lemma neutral_stats sn : neutral (get_stats sn).
Proof. unfold get_stats, rt_read. discipline. Qed.

#[local] Hint Resolve neutral_thermal neutral_shutdown neutral_reload neutral_triggers
  neutral_job_status neutral_stats : neutral.

Lemma neutral_status sn : neutral (get_status sn).
Proof. unfold get_status, rt_read. discipline. Qed.
Lemma neutral_idle sn : neutral (get_idle_assessment sn).
Proof. unfold get_idle_assessment. discipline. Qed.

#[local] Hint Resolve neutral_status neutral_idle : neutral.

(** Claiming: with the slot, or with nothing. *)
Lemma owns_claim st refuse (post : bool -> Own -> Prop) :
  (forall rt, refuse rt = false -> rt_is_cleaning rt = false) ->
  post true Slot -> post false Nothing -> owns (claim st refuse) Nothing post.
Proof.
  intros Hr Ht Hf s Hs. cbn. destruct (refuse (sh_runtime s)) eqn:Er; cbn.
  - split; [by left|]. exists Nothing. split; [by constructor|done].
  - split; [by left|]. exists Slot. split; [|done]. apply change_claim; try done. by apply Hr.
Qed.

Lemma clean_trigger_clean params : clean_prog (trigger_clean params).
Proof.
  unfold trigger_clean. apply owns_bind. apply owns_claim; [done| |by cbn].
  apply owns_neutral_bind; [apply neutral_token|]. intros _. apply owns_bind.
  intros s _. cbn. split; [by left|]. exists (Allocated (sh_next_job_id s)). split; [by constructor|].
  intros s' _. cbn. split; [by left|]. exists (SlotJob (sh_next_job_id s)). split; [by constructor|]. done.
Qed.

Lemma clean_spawn_maintenance : clean_prog spawn_maintenance_worker.
Proof.
  unfold spawn_maintenance_worker. apply owns_bind. apply owns_claim; [|  |by cbn].
  - intros rt [_ ?]%orb_false_iff. done.
  - apply owns_neutral_bind; [apply neutral_token|]. intros _.
    apply owns_neutral_bind; [apply neutral_read_config|]. by cbn.
Qed.

Lemma clean_handle_command sn cmd : clean_prog (handle_command sn cmd).
Proof.
  unfold handle_command. apply clean_bind; [apply neutral_clean, neutral_is_shutdown|].
  intros down. destruct down; [apply neutral_clean, neutral_ret|].
  destruct cmd; try (apply neutral_clean; by discipline).
  - apply clean_trigger_clean.
  - apply clean_bind; [apply neutral_clean, neutral_reload|]. intros r. apply neutral_clean, neutral_ret.
Qed.

Lemma owns_release o o' out :
  (o = Slot /\ o' = Nothing \/ exists id, o = SlotJob id /\ o' = JobOnly id) ->
  owns (finish_runtime out) o (fun _ q => q = o').
Proof.
  intros Ho. destruct out as [[report|e] ts]; intros s _; cbn;
    (split; [by left|]); exists o'; (split; [by apply change_release|done]).
Qed.

Lemma owns_locked_execute q o :
  holds_slot o -> owns (locked_execute q) o (fun _ o' => o' = o).
Proof.
  intros Ho. unfold locked_execute. apply owns_neutral_bind; [by apply neutral_write_keep|].
  intros _. apply owns_bind. cbn. split; [done|]. intros r s _. split; [by left|]. exists o.
  split; [by constructor|done].
Qed.

(** A worker begins with what its creator hands over and ends with nothing. *)
Lemma owns_worker w : owns (worker_body strerror w) (worker_own w) (fun _ o => o = Nothing).
Proof.
  destruct w as [cfg|id params]; cbn [worker_body worker_own]; apply owns_bind;
    (eapply owns_mono; [|by apply owns_locked_execute]); intros out o ->.
  - apply owns_release. by left.
  - apply owns_bind. eapply owns_mono; [|apply (owns_release _ (JobOnly id)); right; by eexists].
    intros _ o ->. intros s _. cbn. split; [by left|]. exists Nothing. split; [|done].
    eapply (change_finish _ _ out); done.
Qed.

(** ** The main thread *)

Lemma neutral_or_crash {A} (r : option A) : neutral (or_crash r).
Proof. destruct r; [apply neutral_ret|apply neutral_crash]. Qed.

#[local] Hint Resolve neutral_or_crash : neutral.

Lemma neutral_preempt r : neutral (preempt r).
Proof. unfold preempt. discipline. Qed.
#[local] Hint Resolve neutral_preempt : neutral.

Lemma neutral_preempt_all l : neutral (preempt_all l).
Proof. induction l as [|a l IH]; [apply neutral_ret|]. destruct a; cbn [preempt_all]; discipline. Qed.

Lemma neutral_reclaim b level l : neutral (reclaim_memory b level l).
Proof. unfold reclaim_memory. destruct (ll_psi l); discipline. Qed.
#[local] Hint Resolve neutral_preempt_all neutral_reclaim clean_spawn_maintenance : neutral.

Lemma clean_run_maintenance b maint l : clean_prog (run_maintenance b maint l).
Proof.
  unfold run_maintenance.
  apply clean_bind; [apply neutral_clean; by auto with neutral|]. intros should.
  apply clean_bind; [apply neutral_clean; by discipline|]. intros c.
  apply clean_bind; [apply neutral_clean; by discipline|]. intros down.
  destruct (negb down).
  - apply clean_bind; [apply clean_spawn_maintenance|]. intros _. apply neutral_clean. discipline.
  - apply neutral_clean. discipline.
Qed.

Lemma clean_handle_action b maint off a l : clean_prog (handle_action b maint off a l).
Proof.
  destruct a; cbn [handle_action]; try (apply neutral_clean; by discipline).
  - apply clean_bind; [apply clean_run_maintenance|]. intros. apply neutral_clean, neutral_ret.
  - apply clean_bind; [apply neutral_clean, neutral_reload|]. intros r. apply neutral_clean, neutral_ret.
Qed.

Lemma clean_handle_actions b maint off acts l : clean_prog (handle_actions b maint off acts l).
Proof.
  revert l. induction acts as [|a acts IH]; intros l; cbn [handle_actions]; [apply neutral_clean, neutral_ret|].
  apply clean_bind; [apply clean_handle_action|]. intros [l' stop].
  destruct stop; [apply neutral_clean, neutral_ret|apply IH].
Qed.

Lemma clean_process_events b maint off c evs l : clean_prog (process_events b maint off c evs l).
Proof.
  revert l. induction evs as [|ev evs IH]; intros l; cbn [process_events]; [apply neutral_clean, neutral_ret|].
  apply clean_bind; [apply neutral_clean, neutral_or_crash|]. intros [acts st].
  apply clean_bind; [apply neutral_clean, neutral_set_screen_off|]. intros _.
  apply clean_bind; [apply clean_handle_actions|]. intros [l' stop].
  destruct stop; [apply neutral_clean, neutral_ret|apply IH].
Qed.

Lemma clean_epoll_loop fds waits l : clean_prog (epoll_loop fds waits l).
Proof.
  revert l. induction waits as [|w waits IH]; intros l; cbn [epoll_loop];
    (apply clean_bind; [apply neutral_clean, neutral_is_shutdown|]); intros [];
    try apply neutral_clean, neutral_ret.
  destruct w as [b| |]; [|apply IH|apply neutral_clean, neutral_ret].
  apply clean_bind; [|intros [l' []]; [apply neutral_clean, neutral_ret|apply IH]].
  unfold process_batch. apply clean_bind; [apply neutral_clean, neutral_read_config|]. intros cfg.
  apply clean_bind; [apply neutral_clean, neutral_is_cleaning|]. intros c.
  apply clean_bind; [apply clean_process_events|]. intros [l' []]; apply neutral_clean; discipline.
Qed.

Lemma neutral_startup evs off maint st : neutral (startup_uevents evs off maint st).
Proof.
  revert st. induction evs as [|q evs IH]; intros st; cbn [startup_uevents]; [apply neutral_ret|].
  apply neutral_bind; [apply neutral_or_crash|]. intros [acts st1].
  apply neutral_bind; [|done]. destruct acts as [|[]]; discipline.
Qed.
#[local] Hint Resolve neutral_startup : neutral.

Lemma clean_epoll fds psi now now' scr queued waits :
  clean_prog (run_epoll_loop fds psi now now' scr queued waits).
Proof.
  unfold run_epoll_loop, start_loop. apply clean_bind; [apply neutral_clean; discipline|].
  intros st. apply clean_epoll_loop.
Qed.

Lemma clean_fallback ticks last since : clean_prog (fallback_loop ticks last since).
Proof.
  revert last since. induction ticks as [|t ticks IH]; intros last since; cbn [fallback_loop];
    (apply clean_bind; [apply neutral_clean, neutral_is_shutdown|]); intros [];
    try apply neutral_clean, neutral_ret.
  apply clean_bind; [apply neutral_clean; destruct (t_screen t); discipline|]. intros _.
  apply clean_bind; [apply neutral_clean, neutral_set_screen_off|]. intros _.
  apply clean_bind; [apply neutral_clean, neutral_read_config|]. intros cfg.
  apply clean_bind; [|intros; apply IH].
  destruct (_ <=? _); [|apply neutral_clean, neutral_ret].
  apply clean_bind; [apply neutral_clean; discipline|]. intros should.
  apply clean_bind; [apply neutral_clean; by discipline|]. intros c.
  apply clean_bind; [apply neutral_clean; by discipline|]. intros down.
  destruct (negb down); [|apply neutral_clean, neutral_ret].
  apply clean_bind; [apply clean_spawn_maintenance|]. intros _. apply neutral_clean, neutral_ret.
Qed.

Lemma neutral_cleanup polls : neutral (perform_shutdown_cleanup polls).
Proof.
  unfold perform_shutdown_cleanup. apply neutral_bind; [apply neutral_shutdown|]. intros _.
  apply neutral_bind; [|discipline]. induction polls as [|n IH]; cbn [wait_for_worker]; discipline.
Qed.
End programs.

(** ** The abstract job server

    A slot that is taken or free, and a ledger in which a job is entered once, and
    once gets its answer: a text, the bytes reclaimed and the report if it succeeded. *)
Definition Answer : Type := string * N * option Pipeline.CleanReport.

Record Server := mkServer { busy : bool; ledger : gmap N (option Answer) }.

(** What a client is told of the result of a cleaning. *)
Definition answer_of (strerror : Errno -> string) (r : result CleanerError Pipeline.CleanReport) : Answer :=
  match r with
  | Ok report => ("COMPLETED"%string, freed_of report, Some report)
  | Err e => ("FAILED: " +:+ CleanerError_display strerror e, 0, None)
  end.

Inductive serve (strerror : Errno -> string) : Server -> Server -> Prop :=
| serve_take l : serve strerror (mkServer false l) (mkServer true l)
| serve_free l : serve strerror (mkServer true l) (mkServer false l)
| serve_enter l id :
    l !! id = None -> serve strerror (mkServer true l) (mkServer true (<[id := None]> l))
| serve_result b l id r :
    l !! id = Some None ->
    serve strerror (mkServer b l) (mkServer b (<[id := Some (answer_of strerror r)]> l)).

Definition entry (rec : JobRecord) : option Answer :=
  if jr_is_completed rec then Some (jr_state rec, jr_reclaimed_bytes rec, jr_report rec) else None.

Definition abstract {E} (s : Shared E) : Server :=
  mkServer (rt_is_cleaning (sh_runtime s)) (entry <$> sh_jobs s).

(** ** The system of threads *)

Section system.
Context {E : Type} `{CleanEngine E} (strerror : Errno -> string).

(** A cleaning ends with a result of the engine, whose mutex it still holds. *)
Definition daemon_executes (q : Pipeline.CleanParams) (s : Shared E) (o : Outcome)
    (s' : Shared E) : Prop :=
  exists e', engine_executes q (sh_engine s) (fst o) e' /\
    s' = set_engine e' (sh_engine_locked s) s.

Definition handler (sn : Sensed) (cmd : Ipc.Command) : P E unit :=
  _ ← handle_command sn cmd; mret tt.

Definition is_handler (p : P E unit) : Prop := exists sn cmd, p = handler sn cmd.

Definition daemon_step (spawn_may_fail : bool) :
    Shared E * list (P E unit) -> Shared E * list (P E unit) -> Prop :=
  step daemon_executes (worker_body strerror) is_handler spawn_may_fail.

(** The main thread of src/system/watcher.rs, after the lock and the sockets. *)
Inductive is_main : P E unit -> Prop :=
| main_epoll fds psi now now' scr queued waits polls :
    is_main (_ ← run_epoll_loop fds psi now now' scr queued waits;
             _ ← perform_shutdown_cleanup polls; mret tt)
| main_fallback now now' scr ticks polls :
    is_main (_ ← run_fallback_loop now now' scr ticks; _ ← perform_shutdown_cleanup polls; mret tt).

Lemma clean_handler p : is_handler p -> clean_prog strerror p.
Proof.
  intros (sn & cmd & ->). apply clean_bind; [apply clean_handle_command|].
  intros _. apply neutral_clean, neutral_ret.
Qed.

Lemma clean_main p : is_main p -> clean_prog strerror p.
Proof.
  intros []; (apply clean_bind; [first [apply clean_epoll|apply clean_fallback]|]); intros _;
    apply neutral_clean; (apply neutral_bind; [apply neutral_cleanup|intros; apply neutral_ret]).
Qed.

(** The owners fit the state. *)
Record owners_fit (os : list Own) (s : Shared E) : Prop := {
  of_slot : (length (filter holds_slot os) <= if cleaning s then 1 else 0)%nat;
  of_nodup : NoDup (omap own_id os);
  of_fresh : forall id, id ∈ omap own_id os \/ is_Some (sh_jobs s !! id) -> id < sh_next_job_id s;
  of_registered : forall o id, o ∈ os -> o = SlotJob id \/ o = JobOnly id ->
    sh_jobs s !! id = Some (running_record id);
  of_allocated : forall id, Allocated id ∈ os -> sh_jobs s !! id = None;
}.

Definition system_fits (x : Shared E * list (P E unit)) : Prop :=
  exists os, Forall2 (fun o p => owns strerror p o (fun _ o' => o' = Nothing)) os (snd x) /\
    owners_fit os (fst x).

(** A section of one of the threads. *)
Lemma own_ids_app os1 o os2 :
  omap own_id (os1 ++ o :: os2) = omap own_id os1 ++ option_list (own_id o) ++ omap own_id os2.
Proof. rewrite omap_app. f_equal. csimpl. by destruct (own_id o). Qed.

Lemma slots_app os1 o os2 :
  length (filter holds_slot (os1 ++ o :: os2)) =
  (length (filter holds_slot os1) + length (filter holds_slot os2)
   + if decide (holds_slot o) then 1 else 0)%nat.
Proof. rewrite filter_app, filter_cons, length_app. case_decide; cbn; lia. Qed.

Lemma elem_middle {A} (x y : A) l1 l2 : x ∈ l1 ++ y :: l2 <-> x = y \/ x ∈ l1 ++ l2.
Proof. rewrite !elem_of_app, elem_of_cons. tauto. Qed.

(** Replacing an owner that keeps its number, or drops it. *)
Lemma ids_replace os1 o o' os2 :
  NoDup (omap own_id (os1 ++ o :: os2)) -> (own_id o' = own_id o \/ own_id o' = None) ->
  NoDup (omap own_id (os1 ++ o' :: os2)) /\
  forall id, id ∈ omap own_id (os1 ++ o' :: os2) -> id ∈ omap own_id (os1 ++ o :: os2).
Proof.
  rewrite !own_ids_app. intros Hn [-> | ->]; [done|].
  change (option_list (@None N)) with (@nil N). rewrite app_nil_l. split.
  - eapply sublist_NoDup; [exact Hn|]. apply sublist_app; [done|]. by apply sublist_inserts_l.
  - intros id. rewrite !elem_of_app. tauto.
Qed.

Lemma other_job os1 os2 o o' id id' :
  NoDup (omap own_id (os1 ++ o :: os2)) -> own_id o = Some id ->
  o' ∈ os1 ++ os2 -> own_id o' = Some id' -> id' <> id.
Proof.
  rewrite own_ids_app. intros Hn Ho Ho' Hid ->. rewrite Ho in Hn. cbn [option_list app] in Hn.
  assert (id ∈ omap own_id os1 ++ omap own_id os2) as Hin.
  { rewrite <- omap_app. apply list_elem_of_omap. by exists o'. }
  apply NoDup_app in Hn as (_ & Hd & Hn). apply NoDup_cons in Hn as [Hn _].
  apply elem_of_app in Hin as [Hin|Hin]; [|done]. apply (Hd id Hin). left.
Qed.

(** The changes that leave the jobs alone. *)
Lemma fits_same_jobs os1 o o' os2 s s' :
  owners_fit (os1 ++ o :: os2) s ->
  sh_jobs s' = sh_jobs s -> sh_next_job_id s' = sh_next_job_id s ->
  (own_id o' = own_id o \/ own_id o' = None) ->
  (forall id, o' = SlotJob id \/ o' = JobOnly id -> o = SlotJob id \/ o = JobOnly id) ->
  (forall id, o' = Allocated id -> o = Allocated id) ->
  (length (filter holds_slot (os1 ++ o' :: os2)) <= if cleaning s' then 1 else 0)%nat ->
  owners_fit (os1 ++ o' :: os2) s'.
Proof.
  intros [Hs Hn Hf Hr Ha] Ej En Hid Hreg Hall Hsl.
  destruct (ids_replace os1 o o' os2 Hn Hid) as [Hn' Hsub]. constructor; [done|done| | |].
  - intros id Hin. rewrite Ej, En in *. apply Hf. destruct Hin as [Hin|?]; [left; by apply Hsub|by right].
  - intros q id Hq Hsh. rewrite Ej. apply elem_middle in Hq as [->|Hq].
    + apply (Hr o id); [by apply elem_middle; left|by apply Hreg].
    + apply (Hr q id); [by apply elem_middle; right|done].
  - intros id Hq. rewrite Ej. apply elem_middle in Hq as [Hq|Hq].
    + apply Ha, elem_middle. left. symmetry. by apply Hall.
    + apply Ha. by apply elem_middle; right.
Qed.

Lemma abstract_same (s s' : Shared E) :
  cleaning s' = cleaning s -> sh_jobs s' = sh_jobs s -> abstract s' = abstract s.
Proof. unfold abstract, cleaning. by intros -> ->. Qed.

Lemma wrap_add_one n : n < U64_MAX -> wrap_add n 1 = n + 1.
Proof. intros Hn. apply wrap_add_exact. lia. Qed.

Lemma fits_allocate os1 os2 s s' :
  owners_fit (os1 ++ Slot :: os2) s -> cleaning s' = cleaning s -> sh_jobs s' = sh_jobs s ->
  sh_next_job_id s' = sh_next_job_id s + 1 ->
  owners_fit (os1 ++ Allocated (sh_next_job_id s) :: os2) s'.
Proof.
  intros [Hs Hn Hf Hr Ha] Ec Ej En.
  assert (sh_next_job_id s ∉ omap own_id os1 ++ omap own_id os2) as Hnew.
  { intros Hin. specialize (Hf (sh_next_job_id s)). rewrite own_ids_app in Hf. cbn in Hf.
    assert (sh_next_job_id s < sh_next_job_id s) by (apply Hf; by left). lia. }
  constructor.
  - rewrite Ec. rewrite slots_app in *. done.
  - rewrite own_ids_app in *. cbn [own_id] in *.
    change (option_list (@None N)) with (@nil N) in Hn. cbn [app] in Hn.
    assert (omap own_id os1 ++ option_list (Some (sh_next_job_id s)) ++ omap own_id os2
            ≡ₚ sh_next_job_id s :: omap own_id os1 ++ omap own_id os2) as ->
      by (symmetry; apply Permutation_middle).
    by apply NoDup_cons.
  - intros id Hin. rewrite En. rewrite Ej in Hin. destruct (decide (id = sh_next_job_id s)) as [->|Hne]; [lia|].
    assert (id < sh_next_job_id s); [|lia]. apply Hf. destruct Hin as [Hin|?]; [left|by right].
    rewrite own_ids_app in *. cbn [own_id] in *. rewrite !elem_of_app in *.
    destruct Hin as [?|[Hin|?]]; [by left| |by right; right].
    apply list_elem_of_singleton in Hin. done.
  - intros q id Hq Hsh. rewrite Ej. apply elem_middle in Hq as [->|Hq]; [naive_solver|].
    apply (Hr q id); [by apply elem_middle; right|done].
  - intros id Hq. rewrite Ej. apply elem_middle in Hq as [[= ->]|Hq].
    + destruct (sh_jobs s !! sh_next_job_id s) eqn:Ex; [|done].
      assert (sh_next_job_id s < sh_next_job_id s); [apply Hf; right; by eexists|lia].
    + apply Ha. by apply elem_middle; right.
Qed.

(** Changes to the record of the thread's own job. *)
Lemma fits_job os1 o o' os2 s s' id :
  owners_fit (os1 ++ o :: os2) s -> own_id o = Some id -> cleaning s' = cleaning s ->
  sh_next_job_id s' = sh_next_job_id s ->
  (forall id', id' <> id -> sh_jobs s' !! id' = sh_jobs s !! id') ->
  (o' = SlotJob id /\ sh_jobs s' !! id = Some (running_record id) /\ holds_slot o \/ o' = Nothing) ->
  owners_fit (os1 ++ o' :: os2) s'.
Proof.
  intros [Hs Hn Hf Hr Ha] Ho Ec En Hj Ho'.
  assert (own_id o' = own_id o \/ own_id o' = None) as Hid.
  { destruct Ho' as [(-> & _)| ->]; [left; by rewrite Ho|by right]. }
  destruct (ids_replace os1 o o' os2 Hn Hid) as [Hn' Hsub].
  assert (id < sh_next_job_id s) as Hlt.
  { apply Hf. left. rewrite own_ids_app, Ho, !elem_of_app. right; left. left. }
  constructor; [|done| | |].
  - rewrite Ec. rewrite slots_app in *.
    destruct Ho' as [(-> & _ & Hh)| ->].
    + rewrite (decide_True (P := holds_slot o)) in Hs by done. by rewrite decide_True.
    + rewrite (decide_False (P := holds_slot Nothing)) by (intros []). lia.
  - intros id' Hin. rewrite En. destruct (decide (id' = id)) as [->|Hne]; [done|].
    rewrite Hj in Hin by done. apply Hf. destruct Hin as [Hin|?]; [left; by apply Hsub|by right].
  - intros q id' Hq Hsh. apply elem_middle in Hq as [->|Hq].
    + destruct Ho' as [(-> & Hrun & _)| ->]; [|naive_solver].
      assert (id' = id) as -> by naive_solver. done.
    + assert (id' <> id) as Hne.
      { eapply (other_job os1 os2 o q); [done|done|done|]. by destruct Hsh as [-> | ->]. }
      rewrite Hj by done. apply (Hr q id'); [by apply elem_middle; right|done].
  - intros id' Hq. apply elem_middle in Hq as [Hq|Hq].
    + destruct Ho' as [(-> & _)| ->]; done.
    + assert (id' <> id) as Hne by (by eapply (other_job os1 os2 o (Allocated id'))).
      rewrite Hj by done. apply Ha. by apply elem_middle; right.
Qed.

(** At most one owner of the slot, and none while it is free. *)
Definition slots_fit (os : list Own) (s : Shared E) : Prop :=
  (length (filter holds_slot os) <= if cleaning s then 1 else 0)%nat.

Lemma change_slots os1 o o' os2 (s s' : Shared E) :
  slots_fit (os1 ++ o :: os2) s -> change strerror o o' s s' -> slots_fit (os1 ++ o' :: os2) s'.
Proof.
  unfold slots_fit. rewrite !slots_app. intros Hs Hc.
  destruct Hc as [o s s' Ec|s s' E1 E2|s s' Ec|id s s' Ec|o o' s s' Ho Ec|id res s s' Ec];
    try rewrite Ec; try done.
  - rewrite E1 in Hs. rewrite E2. destruct (decide (holds_slot Slot)); lia.
  - rewrite (decide_False (P := holds_slot o')) by (destruct Ho as [[_ ->]|(id & _ & ->)]; intros []).
    rewrite decide_True in Hs by (destruct Ho as [[-> _]|(id & -> & _)]; done).
    destruct (cleaning s); lia.
Qed.

(** One section: the owners still fit, and the server stands still or takes a step. *)
Lemma change_fits os1 o o' os2 (s s' : Shared E) :
  owners_fit (os1 ++ o :: os2) s -> change strerror o o' s s' -> sh_next_job_id s < U64_MAX ->
  owners_fit (os1 ++ o' :: os2) s' /\
  (abstract s' = abstract s \/ serve strerror (abstract s) (abstract s')) /\
  sh_next_job_id s' <= sh_next_job_id s + 1.
Proof.
  intros Hfit Hc Hmax. pose proof Hfit as [Hs Hn Hf Hr Ha].
  pose proof (change_slots _ _ _ _ _ _ Hs Hc) as Hs'.
  destruct Hc as [o s s' Ec Ej En|s s' E1 E2 Ej En|s s' Ec Ej En|id s s' Ec Ej En
                 |o o' s s' Ho Ec Ej En|id res s s' Ec Ej En].
  - split; [|split; [left; by apply abstract_same|rewrite En; lia]].
    by apply (fits_same_jobs os1 o o os2 s); auto.
  - split; [|split; [right|rewrite En; lia]].
    + by apply (fits_same_jobs os1 Nothing Slot os2 s); auto; naive_solver.
    + unfold abstract, cleaning in *. rewrite Ej, E1, E2. constructor.
  - rewrite wrap_add_one in En by done. split; [by apply fits_allocate|].
    split; [left; by apply abstract_same|rewrite En; lia].
  - assert (sh_jobs s !! id = None) as Hnone by (apply Ha, elem_middle; by left).
    split; [|split; [right|rewrite En; lia]].
    + apply (fits_job os1 (Allocated id) (SlotJob id) os2 s s' id); auto.
      * intros id' Hne. by rewrite Ej, lookup_insert_ne.
      * left. split; [done|]. split; [|done]. by rewrite Ej, lookup_insert_eq.
    + assert (cleaning s = true) as Et.
      { rewrite slots_app, decide_True in Hs by done. destruct (cleaning s); [done|lia]. }
      unfold abstract, cleaning in *. rewrite Ej, Ec, Et, fmap_insert. constructor.
      by rewrite lookup_fmap, Hnone.
  - assert (holds_slot o) as Hh by (destruct Ho as [[-> _]|(id & -> & _)]; done).
    assert (cleaning s = true) as Et.
    { rewrite slots_app, decide_True in Hs by done. destruct (cleaning s); [done|lia]. }
    split; [|split; [right|rewrite En; lia]].
    + apply (fits_same_jobs os1 o o' os2 s); auto.
      * destruct Ho as [[-> ->]|(id & -> & ->)]; auto.
      * intros id Hid. destruct Ho as [[-> ->]|(id' & -> & ->)]; naive_solver.
      * intros id ->. destruct Ho as [[_ ?]|(id' & _ & ?)]; done.
    + unfold abstract, cleaning in *. rewrite Ej, Et, Ec. constructor.
  - assert (sh_jobs s !! id = Some (running_record id)) as Hrun.
    { apply (Hr (JobOnly id)); [|by right]. by apply elem_middle; left. }
    split; [|split; [right|rewrite En; lia]].
    + apply (fits_job os1 (JobOnly id) Nothing os2 s s' id); auto.
      intros id' Hne. by rewrite Ej, lookup_alter_ne.
    + assert (alter (finish_record strerror res) id (sh_jobs s)
              = <[id := finish_record strerror res (running_record id)]> (sh_jobs s)) as Ealt.
      { apply map_eq. intros k. destruct (decide (k = id)) as [->|].
        - by rewrite lookup_alter_eq, lookup_insert_eq, Hrun.
        - by rewrite lookup_alter_ne, lookup_insert_ne. }
      unfold abstract, cleaning in *. rewrite Ej, Ec, Ealt, fmap_insert.
      assert (entry (finish_record strerror res (running_record id)) = Some (answer_of strerror (fst res))) as ->
        by (by destruct res as [[report|e] ts]).
      apply serve_result. by rewrite lookup_fmap, Hrun.
Qed.

Lemma owners_fit_perm os os' (s : Shared E) : os ≡ₚ os' -> owners_fit os s -> owners_fit os' s.
Proof.
  intros Hp [Hs Hn Hf Hr Ha]. constructor.
  - by rewrite <- Hp.
  - by rewrite <- Hp.
  - intros id. rewrite <- Hp. apply Hf.
  - intros o id. rewrite <- Hp. apply Hr.
  - intros id. rewrite <- Hp. apply Ha.
Qed.

Lemma owners_fit_nothing os (s : Shared E) : owners_fit os s -> owners_fit (Nothing :: os) s.
Proof.
  intros [Hs Hn Hf Hr Ha]. constructor; [by rewrite filter_cons_False by (intros [])|done|done| |].
  - intros o id [->|Ho]%elem_of_cons Hsh; [naive_solver|by eapply Hr].
  - intros id [?|Ho]%elem_of_cons; [done|by apply Ha].
Qed.

Lemma owners_fit_drop os1 o os2 (s : Shared E) :
  owners_fit (os1 ++ o :: os2) s -> owners_fit (os1 ++ Nothing :: os2) s.
Proof.
  intros Hfit. apply (fits_same_jobs os1 o Nothing os2 s); auto; [naive_solver..|].
  pose proof (of_slot _ _ Hfit) as Hs. rewrite slots_app in *. rewrite decide_False by (intros []).
  destruct (decide (holds_slot o)); lia.
Qed.

Lemma spawn_fits s before w k after :
  system_fits (s, before ++ Spawn w k :: after) ->
  system_fits (s, before ++ k :: after ++ [worker_body strerror w]).
Proof.
  intros (os & Ht & Hfit). cbn [fst snd] in *.
  apply Forall2_app_inv_r in Ht as (os1 & os2 & H1 & H2 & ->).
  apply Forall2_cons_inv_r in H2 as (o & os3 & [-> Hk] & H3 & ->).
  exists (os1 ++ Nothing :: os3 ++ [worker_own w]). split.
  - apply Forall2_app; [done|]. constructor; [done|]. apply Forall2_app; [done|].
    constructor; [apply owns_worker|constructor].
  - eapply owners_fit_perm; [|apply owners_fit_nothing, Hfit]. solve_Permutation.
Qed.

Lemma step_fits may_fail x y :
  system_fits x -> daemon_step may_fail x y -> sh_next_job_id (fst x) < U64_MAX ->
  system_fits y /\
  (abstract (fst y) = abstract (fst x) \/ serve strerror (abstract (fst x)) (abstract (fst y))) /\
  sh_next_job_id (fst y) <= sh_next_job_id (fst x) + 1.
Proof.
  intros Hx Hs Hmax.
  destruct Hs as [s before B en f k after Hen|s s' before q k r after (e' & _ & ->)
                 |s before w k after|s before w k after _|s ts p Hp]; cbn [fst snd] in *.
  3: by split; [apply spawn_fits|split; [by left|lia]].
  all: destruct Hx as (os & Ht & Hfit); cbn [fst snd] in *;
    try (apply Forall2_app_inv_r in Ht as (os1 & os2 & H1 & H2 & ->);
         apply Forall2_cons_inv_r in H2 as (o & os3 & Ho & H3 & ->)).
  - cbn [owns] in Ho. destruct (Ho s Hen) as (_ & o' & Hc & Hk).
    destruct (change_fits _ _ _ _ _ _ Hfit Hc Hmax) as (Hfit' & Hab & Hn).
    split; [|done]. exists (os1 ++ o' :: os3). split; [|done]. by apply Forall2_app; [|constructor].
  - cbn [owns] in Ho. destruct Ho as [_ Ho]. split; [|split; [by left|cbn; lia]].
    exists (os1 ++ o :: os3). split; [apply Forall2_app; [done|]; constructor; [apply Ho|done]|].
    by destruct (change_fits os1 o o os3 s (set_engine e' (sh_engine_locked s) s) Hfit
                   ltac:(by constructor) Hmax) as (? & _).
  - cbn [owns] in Ho. destruct Ho as [_ Hk]. split; [|split; [by left|lia]].
    exists (os1 ++ Nothing :: os3). split; [by apply Forall2_app; [|constructor]|].
    by eapply owners_fit_drop.
  - split; [|split; [by left|lia]]. exists (os ++ [Nothing]). split.
    + apply Forall2_app; [done|]. constructor; [by apply clean_handler|constructor].
    + eapply owners_fit_perm; [|apply owners_fit_nothing, Hfit]. solve_Permutation.
Qed.

Lemma nsteps_fits may_fail n x y :
  nsteps (daemon_step may_fail) n x y -> system_fits x ->
  sh_next_job_id (fst x) + N.of_nat n <= U64_MAX ->
  system_fits y /\ rtc (serve strerror) (abstract (fst x)) (abstract (fst y)) /\
  sh_next_job_id (fst y) <= sh_next_job_id (fst x) + N.of_nat n.
Proof.
  induction 1 as [x|n x y z Hs _ IH]; intros Hf Hn; [split; [done|]; split; [done|lia]|].
  destruct (step_fits may_fail x y Hf Hs ltac:(lia)) as (Hf' & Hab & Hn').
  destruct (IH Hf' ltac:(lia)) as (Hfz & Hr & Hnz). split; [done|]. split; [|lia].
  destruct Hab as [<-|Hsv]; [done|]. by eapply rtc_l.
Qed.

(** The daemon as it starts: the main thread over a new context. *)
Definition is_start (x : Shared E * list (P E unit)) : Prop :=
  exists config path engine now main,
    is_main main /\ x = (DaemonContext_new config path engine now, [main]).

Lemma start_fits x : is_start x -> system_fits x /\ sh_next_job_id (fst x) = 1.
Proof.
  intros (config & path & engine & now & main & Hm & ->). split; [|done].
  exists [Nothing]. split.
  - constructor; [by apply clean_main|constructor].
  - constructor.
    + rewrite filter_cons_False by (intros []). cbn. lia.
    + constructor.
    + intros id [?%not_elem_of_nil|[? Hj]]; [done|]. cbn in Hj. by rewrite lookup_empty in Hj.
    + intros o id ->%list_elem_of_singleton. naive_solver.
    + intros id ?%list_elem_of_singleton. done.
Qed.

(** ** Threads that follow the discipline *)

Definition well_typed (x : Shared E * list (P E unit)) : Prop :=
  exists os, Forall2 (fun o p => owns strerror p o (fun _ o' => o' = Nothing)) os (snd x) /\
    slots_fit os (fst x).

(** What a step does to the engine. *)
Definition engine_step (s s' : Shared E) : Prop :=
  engine_change s s' \/ exists q r, engine_executes q (sh_engine s) r (sh_engine s').

Lemma step_typed may_fail x y :
  well_typed x -> daemon_step may_fail x y -> well_typed y /\ engine_step (fst x) (fst y).
Proof.
  intros (os & Ht & Hfit) Hs.
  destruct Hs as [s before B en f k after Hen|s s' before q k r after (e' & He & ->)
                 |s before w k after|s before w k after _|s ts p Hp]; cbn [fst snd] in *;
    try (apply Forall2_app_inv_r in Ht as (os1 & os2 & H1 & H2 & ->);
         apply Forall2_cons_inv_r in H2 as (o & os3 & Ho & H3 & ->)); cbn [owns] in *.
  - destruct (Ho s Hen) as (He & o' & Hc & Hk). split; [|by left].
    exists (os1 ++ o' :: os3). split; [by apply Forall2_app; [|constructor]|by eapply change_slots].
  - destruct Ho as [_ Ho]. split; [|right; by eexists _, _].
    exists (os1 ++ o :: os3). by split; [apply Forall2_app; [|constructor]|].
  - destruct Ho as [-> Hk]. split; [|by left; left].
    exists (os1 ++ Nothing :: os3 ++ [worker_own w]). split.
    + apply Forall2_app; [done|]. constructor; [done|]. apply Forall2_app; [done|].
      constructor; [apply owns_worker|constructor].
    + unfold slots_fit in *.
      assert (os1 ++ Nothing :: os3 ++ [worker_own w] ≡ₚ Nothing :: os1 ++ worker_own w :: os3) as ->
        by solve_Permutation.
      by rewrite filter_cons_False by (intros []).
  - destruct Ho as [_ Hk]. split; [|by left; left].
    exists (os1 ++ Nothing :: os3). split; [by apply Forall2_app; [|constructor]|].
    unfold slots_fit in *. rewrite slots_app in *.
    rewrite (decide_False (P := holds_slot Nothing)) by (intros []).
    cbn [fst]. destruct (decide (holds_slot o)); lia.
  - split; [|by left; left]. exists (os ++ [Nothing]). split.
    + apply Forall2_app; [done|]. constructor; [by apply clean_handler|constructor].
    + unfold slots_fit in *. rewrite filter_app, length_app.
      rewrite (filter_cons_False holds_slot) by (intros []). cbn [fst filter list_filter length]. lia.
Qed.

Lemma start_typed x : is_start x -> well_typed x.
Proof. intros [(os & Ht & [Hs _ _ _ _]) _]%start_fits. by exists os. Qed.

Lemma steps_typed may_fail x y : rtc (daemon_step may_fail) x y -> well_typed x -> well_typed y.
Proof. induction 1 as [|x y z Hs _ IH]; [done|]. intros Hx. by apply IH, (step_typed may_fail x). Qed.

(** ** When a worker could not be started *)

(** The slot is taken and no thread owns it. *)
Definition wedged (jobs : gmap N JobRecord) (x : Shared E * list (P E unit)) : Prop :=
  cleaning (fst x) = true /\ sh_jobs (fst x) = jobs /\ Forall (clean_prog strerror) (snd x).

Lemma wedged_step may_fail jobs x y : wedged jobs x -> daemon_step may_fail x y -> wedged jobs y.
Proof.
  intros (Hc & Hj & Ht) Hs.
  destruct Hs as [s before B en f k after Hen|s s' before q k r after _
                 |s before w k after|s before w k after _|s ts p Hp]; cbn [fst snd] in *;
    try (apply Forall_app in Ht as [H1 H2]; apply Forall_cons in H2 as [Ho H3]);
    unfold clean_prog in *; cbn [owns] in *.
  - destruct (Ho s Hen) as (_ & o' & Hch & Hk). inversion Hch; subst; try congruence.
    + split; [by cbn; congruence|]. split; [by cbn; congruence|].
      apply Forall_app. split; [done|]. by constructor.
    + naive_solver.
  - by destruct Ho.
  - destruct Ho as [Hw _]. by destruct w.
  - destruct Ho as [Hw _]. by destruct w.
  - split; [done|]. split; [done|]. apply Forall_app. split; [done|]. constructor; [|constructor].
    by apply clean_handler.
Qed.

Lemma wedged_steps may_fail jobs x y :
  rtc (daemon_step may_fail) x y -> wedged jobs x -> wedged jobs y.
Proof. induction 1 as [|x y z Hs _ IH]; [done|]. intros Hx. by eapply IH, wedged_step. Qed.

(** ** The server *)

Lemma serve_keeps a b id r :
  rtc (serve strerror) a b -> ledger a !! id = Some (Some r) -> ledger b !! id = Some (Some r).
Proof.
  induction 1 as [|a b c Hs _ IH]; [done|]. intros Ha. apply IH.
  destruct Hs as [l|l|l id' Hn|fl l id' r' Hn]; cbn in *; [done|done|..];
    (destruct (decide (id' = id)) as [->|Hne]; [by simplify_eq|by rewrite lookup_insert_ne]).
Qed.
End system.
