(* ===== verification/DaemonRuns.v ===== *)
(** Runs of the whole daemon: what holds in every state its threads can reach from
    its start, however they interleave, and the runs that go wrong.

    The engine is any instance of [CleanEngine] with the laws [EngineLaws]; the last
    part gives the instance of the cleaning pipeline and draws the end-to-end
    conclusion about removals. *)
From Stdlib Require Import Ascii String.
From stdpp Require Import relations.
From S2P Require Import MemFs.
From S2P Require Import Prelude Domain DaemonConfig Text Psi Idle Hardware EventLoop.
From S2P Require Import Cancellation Threads Metrics Daemon Reactor DaemonProps.
From S2P Require Pipeline PipelineProps Ipc Effects Catalog Executor.

(** Two positions of a list, brought to the front. *)
Lemma two_in_front {A} (l : list A) i j x y :
  i <> j -> l !! i = Some x -> l !! j = Some y -> exists rest, l ≡ₚ x :: y :: rest.
Proof.
  intros Hne Hi Hj. exists (delete (if decide (j < i)%nat then j else Nat.pred j) (delete i l)).
  rewrite <- delete_Permutation; [by apply delete_Permutation|]. case_decide.
  - by rewrite list_lookup_delete_lt.
  - rewrite list_lookup_delete_ge by lia. by rewrite Nat.succ_pred by lia.
Qed.

(** What the daemon can rely on: reloading and cleaning keep the engine sound. *)
Class EngineLaws (E : Type) `{CleanEngine E} := {
  engine_ok : E -> Prop;
  update_ok cfg e : engine_ok e -> engine_ok (engine_update_config cfg e);
  executes_ok q e r e' : engine_ok e -> engine_executes q e r e' -> engine_ok e';
}.

Section runs.
Context {E : Type} `{CleanEngine E} (strerror : Errno -> string).
#[local] Abbreviation daemon_step := (daemon_step (E := E) strerror).

(** ** Every run *)

(** C8 Every thread of a running daemon, whatever command, event, reload, failed
    spawn or interleaving came before, still follows the ownership discipline it
    was written with: it takes the slot only when it is free, and only the owner of
    the slot cleans, registers its job, hands the slot to a worker or gives it back;
    and there is at most one owner, none when the slot is free. *)
Theorem threads_keep_discipline may_fail x y :
  is_start x -> rtc (daemon_step may_fail) x y -> well_typed strerror y.
Proof. intros Hx Hr. by eapply steps_typed, start_typed. Qed.

(** C9 Cleanings never overlap: two threads that are inside the engine's [execute]
    are the same thread, and while one is, [is_cleaning] is set. *)
Theorem one_cleaning_at_a_time may_fail x y i j q1 k1 q2 k2 :
  is_start x -> rtc (daemon_step may_fail) x y ->
  snd y !! i = Some (Execute q1 k1) -> snd y !! j = Some (Execute q2 k2) ->
  i = j /\ rt_is_cleaning (sh_runtime (fst y)) = true.
Proof.
  intros Hx Hr Hi Hj.
  destruct (steps_typed strerror may_fail x y Hr (start_typed strerror x Hx)) as (os & Ht & Hs).
  destruct (Forall2_lookup_r _ _ _ _ _ Ht Hi) as (o1 & Ho1 & Hh1 & _).
  destruct (Forall2_lookup_r _ _ _ _ _ Ht Hj) as (o2 & Ho2 & Hh2 & _).
  unfold slots_fit in Hs. split.
  - destruct (decide (i = j)) as [->|Hne]; [done|exfalso].
    destruct (two_in_front os i j o1 o2 Hne Ho1 Ho2) as (rest & Hp).
    rewrite Hp, !filter_cons_True in Hs by done. cbn in Hs. destruct (cleaning _); lia.
  - apply (take_drop_middle os) in Ho1. rewrite <- Ho1, slots_app, decide_True in Hs by done.
    unfold cleaning in Hs. destruct (rt_is_cleaning _); [done|lia].
Qed.

(** C13 An answer is final: once [GetJobStatus] reports a job completed, it gives the
    same state, bytes and report at every later point of the run. *)
Theorem completed_answer_is_final may_fail n m x y z id st bytes report :
  is_start x -> nsteps (daemon_step may_fail) n x y -> nsteps (daemon_step may_fail) m y z ->
  N.of_nat (n + m) < U64_MAX ->
  run_alone (get_job_status id) (fst y) = Some (Success (JobStatus id st bytes true report), fst y, []) ->
  run_alone (get_job_status id) (fst z) = Some (Success (JobStatus id st bytes true report), fst z, []).
Proof.
  intros Hx Hn Hm Hlt Hy. destruct (start_fits strerror x Hx) as [Hf Hid].
  destruct (nsteps_fits strerror may_fail n x y Hn Hf ltac:(lia)) as (Hfy & _ & Hidy).
  destruct (nsteps_fits strerror may_fail m y z Hm Hfy ltac:(lia)) as (_ & Hr & _).
  pose proof (serve_keeps strerror _ _ id (st, bytes, report) Hr) as Hk. cbn in Hk, Hy |- *.
  rewrite !lookup_fmap in Hk. destruct (sh_jobs (fst y) !! id) as [rec|]; cbn in Hy; [|done].
  injection Hy as Hst Hb Hc Hrep. unfold entry in Hk. cbn in Hk. rewrite Hst, Hb, Hc, Hrep in Hk.
  specialize (Hk eq_refl). destruct (sh_jobs (fst z) !! id) as [rec'|]; cbn in Hk; [|done].
  destruct (jr_is_completed rec') eqn:Ec; [|done]. injection Hk as H1 H2 H3. cbn. by rewrite H1, H2, H3.
Qed.

(** ** Commands on their own *)

Lemma run_trigger_clean params (s : Shared E) :
  sh_runtime_locked s = false -> rt_is_cleaning (sh_runtime s) = false ->
  exists s' msg,
    run_alone (trigger_clean params) s
    = Some (Success (JobAccepted (sh_next_job_id s) msg), s', [ManualWorker (sh_next_job_id s) params]) /\
    sh_runtime s' = with_cleaning true (with_state DaemonState.CleaningManual (sh_runtime s)) /\
    sh_jobs s' = <[sh_next_job_id s := running_record (sh_next_job_id s)]> (sh_jobs s) /\
    cancelled (sh_token s') = false.
Proof.
  intros Hl Hc. eexists _, _. cbn. unfold rt_free. rewrite Hl, Hc. cbn. done.
Qed.

Lemma run_stop sn (s : Shared E) :
  sh_runtime_locked s = false -> rt_shutdown_requested (sh_runtime s) = false ->
  exists s' a, run_alone (handle_command sn Ipc.StopDaemon) s = Some (a, s', []) /\
    sh_runtime s' = with_state DaemonState.ShuttingDown (with_shutdown (sh_runtime s)) /\
    sh_runtime_locked s' = false /\ sh_next_job_id s' = sh_next_job_id s.
Proof. intros Hl Hd. eexists _, _. cbn. unfold rt_free. rewrite Hl, Hd. cbn. rewrite Hl. done. Qed.

Lemma run_shutdown_check {A} (k : bool -> P E A) (s : Shared E) :
  sh_runtime_locked s = false ->
  run_alone (is_shutdown_requested ≫= k) s = run_alone (k (rt_shutdown_requested (sh_runtime s))) s.
Proof. intros Hl. cbn. unfold rt_free. by rewrite Hl. Qed.

Lemma run_handle_trigger sn params (s : Shared E) :
  sh_runtime_locked s = false -> rt_shutdown_requested (sh_runtime s) = false ->
  run_alone (handle_command sn (Ipc.TriggerClean params)) s = run_alone (trigger_clean params) s.
Proof. intros Hl Hd. unfold handle_command. by rewrite run_shutdown_check, Hd. Qed.

(** ** Runs that go wrong *)

(** C38 A failed spawn wedges the daemon: from any start there is a run in which a
    manual cleaning arrives and is accepted but its thread cannot be started, after which, in
    every later state, cleaning stays marked as in progress, the job is still
    RUNNING, and every further request to clean is refused. *)
Theorem failed_spawn_wedges sn params x :
  is_start x ->
  exists y,
    rtc (daemon_step true) (fst x, snd x ++ [handler sn (Ipc.TriggerClean params)]) y /\
    forall z, rtc (daemon_step true) y z ->
      rt_is_cleaning (sh_runtime (fst z)) = true /\
      sh_jobs (fst z) = {[1 := running_record 1]} /\
      forall params' a s' ws, run_alone (trigger_clean params') (fst z) = Some (a, s', ws) ->
        a = ErrorResponse "Cleaning operation is already in progress" /\ s' = fst z /\ ws = [].
Proof.
  intros (config & path & engine & now & main & Hm & ->).
  set (s0 := DaemonContext_new config path engine now).
  destruct (run_trigger_clean params s0 eq_refl eq_refl) as (s1 & msg & Ea & Hrt & Hjobs & _).
  rewrite <- (run_handle_trigger sn) in Ea by done.
  exists (s1, [main; mret tt]). split.
  - by apply (run_alone_steps_fail _ _ _ true (handle_command sn (Ipc.TriggerClean params))
                (fun _ => mret tt) s0 _ s1 _ [main] [] eq_refl Ea).
  - intros z Hz. assert (wedged strerror {[1 := running_record 1]} z) as (Hc & Hj & _).
    { eapply wedged_steps; [exact Hz|]. split; [by unfold cleaning; cbn [fst]; rewrite Hrt|]. split; [done|].
      constructor; [by apply clean_main|]. constructor; [by apply neutral_clean, neutral_ret|done]. }
    split; [done|]. split; [done|]. intros params' a' s' ws'. unfold cleaning in Hc. cbn.
    destruct (rt_free (fst z)); [|done]. rewrite Hc. cbn. by intros [= <- <- <-].
Qed.

(** A shutdown can be lost on a cleaning: a request to clean that passed the
    shutdown check before the request to stop claims the slot after it and resets
    the token, so that a daemon that has been told to stop has started a worker that
    nothing cancels. *)
Theorem shutdown_loses_to_reset sn params x :
  is_start x ->
  exists s ts,
    rtc (daemon_step false)
      (fst x, snd x ++ [handler sn (Ipc.TriggerClean params); handler sn Ipc.StopDaemon]) (s, ts) /\
    rt_shutdown_requested (sh_runtime s) = true /\
    rt_state (sh_runtime s) = DaemonState.CleaningManual /\
    cancelled (sh_token s) = false /\
    worker_body strerror (ManualWorker 1 params) ∈ ts.
Proof.
  intros (config & path & engine & now & main & Hm & ->).
  set (s0 := DaemonContext_new config path engine now).
  destruct (run_stop sn s0 eq_refl eq_refl) as (s1 & a1 & E1 & Hrt1 & Hl1 & Hid).
  destruct (run_trigger_clean params s1) as (s2 & msg & E2 & Hrt2 & _ & Hc);
    [done|by rewrite Hrt1|].
  eexists s2, ([main] ++ mret tt :: [mret tt] ++ map (worker_body strerror) _). split.
  - eapply rtc_l; [by apply (step_act _ _ _ _ s0 [main])|].
    transitivity (s1, [main; prog_bind (fun _ => mret tt) (trigger_clean params); mret tt]).
    + by apply (run_alone_steps _ _ _ false (handle_command sn Ipc.StopDaemon) (fun _ => mret tt) s0 a1
                  s1 [] [main; prog_bind (fun _ => mret tt) (trigger_clean params)] []).
    + exact (run_alone_steps _ _ _ false (trigger_clean params) (fun _ => mret tt) s1 _ s2 _ [main]
               [mret tt] E2).
  - rewrite Hrt2, Hrt1, Hid. split; [done|]. split; [done|]. split; [done|]. cbn [app map]. set_solver.
Qed.

(** After a shutdown every command is refused, and changes nothing. *)
Lemma shutdown_refuses_commands sn cmd (s : Shared E) :
  rt_shutdown_requested (sh_runtime s) = true -> sh_runtime_locked s = false ->
  run_alone (handle_command sn cmd) s
  = Some (ErrorResponse "Daemon is currently shutting down", s, []).
Proof. intros Hd Hl. unfold handle_command. by rewrite run_shutdown_check, Hd. Qed.

(** A reload waits for the engine, and so for a whole cleaning: while a worker
    has the engine the main thread cannot finish a reload, whatever else is free. *)
Theorem reload_waits_for_cleaning cfg (s : Shared E) :
  run_alone (reload_config (Ok cfg)) s = None <-> sh_engine_locked s = true.
Proof. cbn. unfold engine_free. destruct (sh_engine_locked s); cbn; by split. Qed.

(** ** The engine *)

Context `{!EngineLaws E}.

Lemma engine_step_ok (s s' : Shared E) :
  engine_step s s' -> engine_ok (sh_engine s) -> engine_ok (sh_engine s').
Proof.
  intros [[->|(cfg & ->)]|(q & r & He)] Hok; [done|by apply update_ok|by eapply executes_ok].
Qed.

Lemma engine_stays_ok may_fail x y :
  rtc (daemon_step may_fail) x y -> well_typed strerror x ->
  engine_ok (sh_engine (fst x)) -> engine_ok (sh_engine (fst y)).
Proof.
  induction 1 as [|x y z Hs _ IH]; [done|]. intros Hx Hok.
  destruct (step_typed strerror may_fail x y Hx Hs) as [Hy He]. apply IH; [done|].
  by eapply engine_step_ok.
Qed.
End runs.

(** ** The pipeline as the engine *)

Section pipeline_engine.
Context `{Effects.Kernel K} (fmt : f32 -> string).

(** A call of [execute] that has ended, with everything it depended on: what it met (the
    clock, SQLite and cancellation; the order of hash maps; the frozen processes; the
    results of trimming), the pipeline and the world it started from, what it was asked
    for, and what came of it. *)
Record Call := mkCall {
  call_env : Effects.Env;
  call_values : gmap string TargetDescriptor -> list TargetDescriptor;
  call_frozen : nat -> list N;
  call_trim : nat -> bool;
  call_pipeline : Pipeline.Pipeline;
  call_world : Effects.World;
  call_params : Pipeline.CleanParams;
  call_outcome : result fault Pipeline.CleanReport;
  call_pipeline_after : Pipeline.Pipeline;
  call_world_after : Effects.World;
  call_result : result CleanerError Pipeline.CleanReport;
}.

(** What the call did to the file system. *)
Definition call_trace (c : Call) : list Effects.Event := Effects.w_trace (call_world_after c).

(** A panic aborts the process, so it is no outcome. *)
Definition outcome_of (r : result fault Pipeline.CleanReport)
    : option (result CleanerError Pipeline.CleanReport) :=
  match r with
  | Ok report => Some (Ok report)
  | Err (Error e) => Some (Err e)
  | Err (Panic _) => None
  end.

(** The record is that of a call of [execute]: from an empty history, and with a hash map
    yielding only its values. *)
Record call_ran (c : Call) : Prop := {
  ran_values m t : t ∈ call_values c m -> exists k : string, m !! k = Some t;
  ran_fresh : Effects.w_trace (call_world c) = [];
  ran_execute :
    Pipeline.execute (H0 := call_env c) (call_values c) (call_frozen c) (call_trim c) fmt (call_params c)
      (call_pipeline c) (call_world c)
    = ((call_outcome c, call_pipeline_after c), call_world_after c);
  ran_result : outcome_of (call_outcome c) = Some (call_result c);
}.

Record Engine := mkEngine { en_pipeline : Pipeline.Pipeline; en_calls : list Call }.

#[local] Instance pipeline_engine : CleanEngine Engine := {
  engine_update_config cfg e := mkEngine (Pipeline.update_config cfg (en_pipeline e)) (en_calls e);
  engine_executes params e r e' :=
    exists c, call_ran c /\ call_pipeline c = en_pipeline e /\ call_params c = params /\
      call_result c = r /\ e' = mkEngine (call_pipeline_after c) (c :: en_calls e);
}.

(** Every removal of the call has its story in this very call. *)
Definition call_accounted (c : Call) : Prop :=
  PipelineProps.accounted (H0 := call_env c) (call_values c) (call_frozen c) fmt
    (call_params c) (call_pipeline c) (call_world c) (call_trace c).

(** Its report is backed by what the call executed. *)
Definition call_backed (c : Call) : Prop :=
  forall report, call_result c = Ok report ->
    PipelineProps.report_backed (H0 := call_env c) (call_values c) (call_frozen c) (call_trim c) fmt
      (call_params c) (call_pipeline c) (call_world c) report.

Definition call_ok (c : Call) : Prop := call_ran c /\ call_accounted c /\ call_backed c.

Definition pipeline_ok (e : Engine) : Prop :=
  Executor.catalog_wf (Pipeline.p_catalog (en_pipeline e)) /\
  u64 (Pipeline.p_candidate_counter (en_pipeline e)) /\
  Forall call_ok (en_calls e).

Lemma pipeline_executes_ok q e r e' :
  pipeline_ok e -> engine_executes q e r e' -> pipeline_ok e'.
Proof.
  intros (Hwf & Hu & Hc) (c & Hran & Hp & _ & _ & ->). pose proof Hran as [Hmv Hw Hex Hres].
  rewrite <- Hp in Hwf, Hu.
  destruct (PipelineProps.execute_accounted (H0 := call_env c) _ _ _ fmt _ _ _ _ _ _ Hmv Hw Hwf Hu Hex)
    as (Ha & Hwf' & Hu').
  split; [done|]. split; [done|]. constructor; [|done]. split; [done|]. split; [done|].
  intros report Hr. rewrite Hr in Hres.
  destruct (call_outcome c) as [report'|[e0|m]]; [injection Hres as ->|discriminate Hres..].
  exact (PipelineProps.execute_backed (H0 := call_env c) _ _ _ fmt _ _ _ _ _ _ Hw Hwf Hu Hex).
Qed.

#[local] Instance pipeline_laws : EngineLaws Engine := {
  engine_ok := pipeline_ok;
  update_ok cfg e Hok := Hok;
  executes_ok := pipeline_executes_ok;
}.

(** Every state of a daemon on this engine. *)
Lemma daemon_pipeline_ok strerror may_fail config path p now main y :
  is_main main -> Executor.catalog_wf (Pipeline.p_catalog p) ->
  u64 (Pipeline.p_candidate_counter p) ->
  rtc (daemon_step (E := Engine) strerror may_fail)
    (DaemonContext_new config path (mkEngine p []) now, [main]) y ->
  pipeline_ok (sh_engine (fst y)).
Proof.
  intros Hm Hwf Hu Hr.
  apply (engine_stays_ok (EngineLaws0 := pipeline_laws) strerror may_fail _ _ Hr); [|by repeat split].
  apply start_typed. by eexists _, _, _, _, _.
Qed.

(** C1 End to end, the daemon: started on an engine with a consistent catalog, in every
    state its threads can reach, through any commands, loop events, reloads, failed spawns
    and interleavings, each cleaning the engine has run is a call of [execute] with the
    inputs recorded for it ([call_ran]), and every removal of its history has its story in
    the stages of that very call: it was issued by the execution of the plan the call
    built, under the grant it authorized, for an entry that the call's own scan returned
    and that its gate and policy, at the time the call read and under the configuration it
    validated, let through and no rule keeps; and it was granted, safe, locked,
    identity-checked, reached without links and logged beforehand. *)
Theorem daemon_removals_justified strerror may_fail config path p now main y c :
  is_main main -> Executor.catalog_wf (Pipeline.p_catalog p) ->
  u64 (Pipeline.p_candidate_counter p) ->
  rtc (daemon_step (E := Engine) strerror may_fail)
    (DaemonContext_new config path (mkEngine p []) now, [main]) y ->
  c ∈ en_calls (sh_engine (fst y)) ->
  call_ran c /\
  forall newer fd name rd s rm r older,
    call_trace c = newer ++ Effects.EvUnlink fd name rd s rm r :: older ->
    exists stages d op t res pm,
      PipelineProps.removal_story (H0 := call_env c) (call_values c) (call_frozen c) fmt (call_params c)
        (call_pipeline c) (call_world c) stages fd name rd s rm older d op t res pm.
Proof.
  intros Hm Hwf Hu Hr Hc.
  destruct (daemon_pipeline_ok strerror may_fail config path p now main y Hm Hwf Hu Hr) as (_ & _ & Hall).
  rewrite Forall_forall in Hall. by destruct (Hall c Hc) as (? & ? & _).
Qed.
End pipeline_engine.

(** ** An example: the pipeline on a file system with one stale cache file *)

Section example.
#[local] Abbreviation Engine := (Engine (K := MemFs.MemFs)).
#[local] Instance example_engine : CleanEngine Engine :=
  pipeline_engine (K := MemFs.MemFs) (fun _ => "f"%string).

Definition example_main : P Engine unit :=
  _ ← run_fallback_loop 0 0 ScreenState.On []; _ ← perform_shutdown_cleanup 0; mret tt.

Definition example_strerror (e : Errno) : string := "error".

Definition example_sensed : Sensed :=
  mkSensed (mkThermal F32_ZERO F32_ZERO) Charger.Charging (fun _ => ScreenState.Off)
    (mkMetrics F32_ZERO 0 0 0) None None None None 0 0 (Err "unreadable"%string).

Definition example_params : Pipeline.CleanParams := Pipeline.mkParams false false false false.

Definition example_start : Shared Engine * list (P Engine unit) :=
  (DaemonContext_new DaemonConfig_default None (mkEngine PipelineProps.fresh_pipeline []) 0,
   [example_main]).

Lemma example_is_start : is_start example_start.
Proof. eexists _, _, _, _, _. split; [|done]. exact (main_fallback 0 0 ScreenState.On [] 0). Qed.

(** Takes the thread after [before] one section further. *)
Ltac take_step before :=
  eapply nsteps_l; [first [refine (step_act _ _ _ _ _ before _ _ _ _ _ _); reflexivity
                          |refine (step_spawn _ _ _ _ _ before _ _ _)]|cbn [fst snd app]].

(** A manual cleaning arrives, is accepted, and its worker takes the engine. *)
Lemma example_run : exists y k,
  nsteps (daemon_step example_strerror false) 9 example_start y /\
  snd y = [example_main; mret tt; Execute example_params k] /\
  sh_jobs (fst y) = {[1 := running_record 1]}.
Proof.
  eexists _, _. split.
  - eapply nsteps_l; [apply step_arrives; by exists example_sensed, (Ipc.TriggerClean example_params)|].
    do 7 take_step (@cons (P Engine unit) example_main nil).
    take_step [example_main; mret tt].
    apply nsteps_O.
  - split; reflexivity.
Qed.

(** Its record. *)
Definition example_call (dry : bool) report p' w' : Call (K := MemFs.MemFs) :=
  mkCall (quiet_env 100000) PipelineProps.values (fun _ => []) (fun _ => true) PipelineProps.fresh_pipeline
    PipelineProps.cache_world (Pipeline.mkParams false false false dry) (Ok report) p' w' (Ok report).

Lemma example_call_ran dry report p' w' :
  PipelineProps.run_execute dry PipelineProps.fresh_pipeline PipelineProps.cache_world
  = ((Ok report, p'), w') -> call_ran (fun _ => "f"%string) (example_call dry report p' w').
Proof. intros Hex. split; [exact PipelineProps.values_ok|reflexivity|exact Hex|reflexivity]. Qed.

(** The cleaning itself: it ends well, after removing something. *)
Lemma example_cleaning : exists report p' w',
  PipelineProps.run_execute false PipelineProps.fresh_pipeline PipelineProps.cache_world
  = ((Ok report, p'), w') /\ second_removal (Effects.w_trace w') <> None.
Proof.
  assert (is_ok (fst (fst (PipelineProps.run_execute false PipelineProps.fresh_pipeline
                             PipelineProps.cache_world))) = true) as Hok by (vm_compute; reflexivity).
  assert (match second_removal (Effects.w_trace (snd (PipelineProps.run_execute false
            PipelineProps.fresh_pipeline PipelineProps.cache_world))) with
          | Some _ => true | None => false end = true) as Hrm by (vm_compute; reflexivity).
  destruct (PipelineProps.run_execute false _ _) as [[[report|] p'] w']; [|done].
  exists report, p', w'. split; [done|]. cbn [fst snd] in Hrm.
  by destruct (second_removal _).
Qed.

(** The run to its end: the job is completed with the report. *)
Lemma example_run_ends : exists y report c,
  nsteps (daemon_step example_strerror false) 13 example_start y /\
  run_alone (get_job_status 1) (fst y)
  = Some (Success (JobStatus 1 "COMPLETED" (freed_of report) true (Some report)), fst y, []) /\
  en_calls (sh_engine (fst y)) = [c] /\ second_removal (call_trace c) <> None.
Proof.
  destruct example_cleaning as (report & p' & w' & Hex & Hrm).
  eexists _, report, _. split.
  { eapply nsteps_l; [apply step_arrives; by exists example_sensed, (Ipc.TriggerClean example_params)|].
  do 7 take_step (@cons (P Engine unit) example_main nil).
  take_step [example_main; mret tt].
  eapply nsteps_l.
  { refine (step_execute _ _ _ _ _ _ [example_main; mret tt] _ _ (Ok report, 7) _ _).
    eexists _. split; [|reflexivity]. exists (example_call false report p' w').
    split; [by apply example_call_ran|]. repeat split. }
  cbn [app]. do 3 take_step [example_main; mret tt]. apply nsteps_O. }
  split; [reflexivity|]. split; [reflexivity|exact Hrm].
Qed.

Lemma threads_keep_discipline_witness : exists y,
  rtc (daemon_step example_strerror false) example_start y /\ well_typed example_strerror y.
Proof.
  destruct example_run as (y & k & Hn & _). apply rtc_nsteps_2 in Hn. exists y. split; [done|].
  exact (threads_keep_discipline example_strerror false example_start y example_is_start Hn).
Defined.

Lemma one_cleaning_at_a_time_witness : exists (y : Shared Engine * list (P Engine unit)) k,
  snd y !! 2%nat = Some (Execute example_params k) /\ rt_is_cleaning (sh_runtime (fst y)) = true.
Proof.
  destruct example_run as (y & k & Hn & Ht & _). exists y, k.
  assert (snd y !! 2%nat = Some (Execute example_params k)) as H2 by (rewrite Ht; reflexivity).
  split; [exact H2|].
  exact (proj2 (one_cleaning_at_a_time example_strerror false example_start y 2 2 _ _ _ _
                  example_is_start (rtc_nsteps_2 _ _ _ Hn) H2 H2)).
Defined.

Lemma completed_answer_is_final_witness : exists (y z : Shared Engine * list (P Engine unit)) report,
  nsteps (daemon_step example_strerror false) 1 y z /\
  run_alone (get_job_status 1) (fst z)
  = Some (Success (JobStatus 1 "COMPLETED" (freed_of report) true (Some report)), fst z, []).
Proof.
  destruct example_run_ends as (y & report & c & Hn & Hy & _).
  assert (nsteps (daemon_step example_strerror false) 1 y
            (fst y, snd y ++ [handler example_sensed Ipc.Ping])) as Hm.
  { eapply nsteps_l; [|apply nsteps_O]. destruct y as [sy ty]. apply step_arrives.
    by exists example_sensed, Ipc.Ping. }
  eexists y, _, report. split; [exact Hm|].
  exact (completed_answer_is_final example_strerror false 13 1 example_start y _ 1 _ _ _
           example_is_start Hn Hm eq_refl Hy).
Defined.

Lemma failed_spawn_wedges_witness : exists y,
  rtc (daemon_step example_strerror true)
    (fst example_start, snd example_start ++ [handler example_sensed (Ipc.TriggerClean example_params)]) y /\
  rt_is_cleaning (sh_runtime (fst y)) = true.
Proof.
  destruct (failed_spawn_wedges example_strerror example_sensed example_params example_start
              example_is_start) as (y & Hr & Hz).
  exists y. split; [exact Hr|]. apply (Hz y). apply rtc_refl.
Defined.

Lemma shutdown_loses_to_reset_witness : exists (s : Shared Engine) (ts : list (P Engine unit)),
  rt_shutdown_requested (sh_runtime s) = true /\ cancelled (sh_token s) = false /\
  worker_body example_strerror (ManualWorker 1 example_params) ∈ ts.
Proof.
  destruct (shutdown_loses_to_reset example_strerror example_sensed example_params example_start
              example_is_start) as (s & ts & _ & Hd & _ & Hc & Hw).
  exists s, ts. split; [exact Hd|]. split; [exact Hc|exact Hw].
Defined.

Lemma daemon_removals_justified_witness : exists (c : Call (K := MemFs.MemFs)) newer fd name rd s rm r older,
  call_trace c = newer ++ Effects.EvUnlink fd name rd s rm r :: older /\ call_ran (fun _ => "f"%string) c /\
  exists stages d op t res pm,
    PipelineProps.removal_story (H0 := call_env c) (call_values c) (call_frozen c) (fun _ => "f"%string)
      (call_params c) (call_pipeline c) (call_world c) stages fd name rd s rm older d op t res pm.
Proof.
  destruct example_run_ends as (y & report & c & Hn & _ & Hc & Hrm).
  destruct (second_removal (call_trace c)) as [[[[[fd name] rd] r] [s rm]]|] eqn:E; [|by destruct Hrm].
  apply second_removal_split in E. exists c. eexists _, fd, name, rd, s, rm, r, _. split; [exact E|].
  destruct (daemon_removals_justified (fun _ => "f"%string) example_strerror false DaemonConfig_default
           None PipelineProps.fresh_pipeline 0 example_main y c) as [Hran Hstory].
  - exact (main_fallback 0 0 ScreenState.On [] 0).
  - intros k t Hk. vm_compute in Hk. discriminate Hk.
  - vm_compute; intros Hlt; discriminate Hlt.
  - exact (rtc_nsteps_2 _ _ _ Hn).
  - rewrite Hc. left.
  - split; [exact Hran|]. exact (Hstory _ _ _ _ _ _ _ _ E).
Defined.
End example.
