(* ===== verification/Ledger.v ===== *)
(** What the daemon tells its clients about its cleanings, over every run of its threads
    (src/system/daemon_state.rs): the answer to GetJobStatus and the totals of GetStats.

    A log of the engine's calls is compared with the shared state.  [keeps] is a
    discipline for programs, in which a thread carries what it still owes the books: the
    slot it took, the job it registered, the result it has not yet entered.  Every
    program of the daemon follows it, so in every reachable state an answer is the result
    of a call that had the job's parameters, and when no cleaning is in progress the
    total is the sum over all calls.  With the pipeline as the engine, every number a
    client reads is backed by the operations that were executed. *)
From Stdlib Require Import Ascii String.
From stdpp Require Import relations.
From S2P Require Import MemFs.
From S2P Require Import Prelude Domain DaemonConfig Text Psi Idle Hardware EventLoop.
From S2P Require Import Cancellation Threads Daemon Reactor DaemonProps DaemonRuns.
From S2P Require Pipeline PipelineProps Ipc Metrics Effects Executor.

(** An engine that remembers what it was asked for and what came of it. *)
Class EngineLog (E : Type) `{CleanEngine E} := {
  engine_log : E -> list (Pipeline.CleanParams * result CleanerError Pipeline.CleanReport);
  log_update cfg e : engine_log (engine_update_config cfg e) = engine_log e;
  log_executes q e r e' : engine_executes q e r e' -> engine_log e' = (q, r) :: engine_log e;
}.

Definition freed (r : result CleanerError Pipeline.CleanReport) : N :=
  match r with Ok report => freed_of report | Err _ => 0 end.

Definition total_freed (log : list (Pipeline.CleanParams * result CleanerError Pipeline.CleanReport)) : N :=
  foldr N.add 0 (map (fun c => freed (snd c)) log).

(** ** The discipline *)

(** What a thread has of the books. *)
Inductive Hold :=
| HNothing
| HSlot                                                        (** the slot *)
| HNumber (id : N)                                             (** and a number for a job *)
| HEntered (id : N)                                            (** and the job's record *)
| HJob (id : N) (q : Pipeline.CleanParams)                     (** the worker of a job *)
| HOwes (job : option N) (q : Pipeline.CleanParams) (o : Outcome)   (** a result to enter *)
| HAnswer (id : N) (q : Pipeline.CleanParams) (o : Outcome).   (** an answer to write *)

Definition has_slot (h : Hold) : Prop :=
  match h with HSlot | HNumber _ | HEntered _ | HJob _ _ | HOwes _ _ _ => True | _ => False end.
#[export] Instance has_slot_dec h : Decision (has_slot h).
Proof. destruct h; solve_decision. Defined.

Definition owed (h : Hold) : N := match h with HOwes _ _ o => freed (fst o) | _ => 0 end.
Definition owed_by (hs : list Hold) : N := foldr N.add 0 (map owed hs).

(** A worker begins with. *)
Definition handed (w : Worker) : Hold :=
  match w with MaintenanceWorker _ => HSlot | ManualWorker id q => HJob id q end.

Section discipline.
Context {E : Type} `{EngineLog E} (strerror : Errno -> string).

Definition log_of (s : Shared E) := engine_log (sh_engine s).
Definition total (s : Shared E) : N := rt_total_freed_bytes (sh_runtime s).

(** The parts of the state that the books are about. *)
Definition same_books (s s' : Shared E) : Prop :=
  cleaning s' = cleaning s /\ total s' = total s /\ sh_jobs s' = sh_jobs s /\
  sh_next_job_id s' = sh_next_job_id s /\ log_of s' = log_of s.

(** How one section may change them. *)
Inductive entry : Hold -> Hold -> Shared E -> Shared E -> Prop :=
| entry_none h s s' : same_books s s' -> entry h h s s'
| entry_claim s s' :
    cleaning s = false -> cleaning s' = true -> total s' = total s -> sh_jobs s' = sh_jobs s ->
    sh_next_job_id s' = sh_next_job_id s -> log_of s' = log_of s -> entry HNothing HSlot s s'
| entry_number s s' :
    cleaning s' = cleaning s -> total s' = total s -> sh_jobs s' = sh_jobs s ->
    sh_next_job_id s' = wrap_add (sh_next_job_id s) 1 -> log_of s' = log_of s ->
    entry HSlot (HNumber (sh_next_job_id s)) s s'
| entry_enter id s s' :
    cleaning s' = cleaning s -> total s' = total s ->
    sh_jobs s' = <[id := running_record id]> (sh_jobs s) ->
    sh_next_job_id s' = sh_next_job_id s -> log_of s' = log_of s ->
    entry (HNumber id) (HEntered id) s s'
| entry_result job q o s s' :
    cleaning s' = false ->
    total s' = match fst o with Ok report => wrap_add (total s) (freed_of report) | Err _ => total s end ->
    sh_jobs s' = sh_jobs s ->
    sh_next_job_id s' = sh_next_job_id s -> log_of s' = log_of s ->
    entry (HOwes job q o) (match job with Some id => HAnswer id q o | None => HNothing end) s s'
| entry_answer id q o s s' :
    cleaning s' = cleaning s -> total s' = total s ->
    sh_jobs s' = alter (finish_record strerror o) id (sh_jobs s) ->
    sh_next_job_id s' = sh_next_job_id s -> log_of s' = log_of s ->
    entry (HAnswer id q o) HNothing s s'.

(** What a cleaning turns a hold into. *)
Definition executed (h : Hold) (q : Pipeline.CleanParams) (o : Outcome) (h' : Hold) : Prop :=
  match h with
  | HSlot => h' = HOwes None q o
  | HJob id q' => q = q' /\ h' = HOwes (Some id) q o
  | _ => False
  end.

(** What must be held to start a worker: the slot, and its job's record. *)
Definition hands (h : Hold) (w : Worker) : Prop :=
  match w with MaintenanceWorker _ => h = HSlot | ManualWorker id _ => h = HEntered id end.

Fixpoint keeps {A} (p : P E A) (h : Hold) (post : A -> Hold -> Prop) : Prop :=
  match p with
  | Ret a => post a h
  | Act en f k => forall s, en s = true ->
      exists h', entry h h' s (snd (f s)) /\ keeps (k (fst (f s))) h' post
  | Execute q k => forall o, exists h', executed h q o h' /\ keeps (k o) h' post
  | Spawn w k => hands h w /\ keeps k HNothing post
  | Crash => True
  end.

Lemma keeps_mono {A} (p : P E A) h (Q1 Q2 : A -> Hold -> Prop) :
  (forall a h', Q1 a h' -> Q2 a h') -> keeps p h Q1 -> keeps p h Q2.
Proof.
  intros HQ. revert h. induction p as [a|B en f k IH|q k IH|w k IH|]; intros h; cbn [keeps]; [auto| | | |done].
  - intros Hp s Hs. destruct (Hp s Hs) as (h' & He & Hk). exists h'. split; [done|]. by apply IH.
  - intros Hp o. destruct (Hp o) as (h' & He & Hk). exists h'. split; [done|]. by apply IH.
  - intros [Hw Hk]. split; [done|]. by apply IH.
Qed.

Lemma keeps_bind {A B} (p : P E A) (k : A -> P E B) h (Q : B -> Hold -> Prop) :
  keeps p h (fun a h' => keeps (k a) h' Q) -> keeps (p ≫= k) h Q.
Proof.
  revert h. induction p as [a|C en f c IH|q c IH|w c IH|]; intros h; cbn; [auto| | | |done].
  - intros Hp s Hs. destruct (Hp s Hs) as (h' & He & Hk). exists h'. split; [done|]. by apply IH.
  - intros Hp o. destruct (Hp o) as (h' & He & Hk). exists h'. split; [done|]. by apply IH.
  - intros [Hw Hk]. split; [done|]. by apply IH.
Qed.

(** Programs that leave the books alone, and threads that begin and end with nothing. *)
Definition still {A} (p : P E A) : Prop := forall h, keeps p h (fun _ h' => h' = h).
Definition square {A} (p : P E A) : Prop := keeps p HNothing (fun _ h => h = HNothing).

Lemma still_bind {A B} (p : P E A) (k : A -> P E B) : still p -> (forall a, still (k a)) -> still (p ≫= k).
Proof. intros Hp Hk h. apply keeps_bind. eapply keeps_mono; [|apply Hp]. intros a h' ->. apply Hk. Qed.
Lemma keeps_still_bind {A B} (p : P E A) (k : A -> P E B) h Q :
  still p -> (forall a, keeps (k a) h Q) -> keeps (p ≫= k) h Q.
Proof. intros Hp Hk. apply keeps_bind. eapply keeps_mono; [|apply Hp]. intros a h' ->. apply Hk. Qed.
Lemma still_square {A} (p : P E A) : still p -> square p.
Proof. intros Hp. apply Hp. Qed.
Lemma square_bind {A B} (p : P E A) (k : A -> P E B) :
  square p -> (forall a, square (k a)) -> square (p ≫= k).
Proof. intros Hp Hk. apply keeps_bind. eapply keeps_mono; [|apply Hp]. intros a h ->. apply Hk. Qed.

Lemma still_ret {A} (a : A) : still (mret a).
Proof. by intros h. Qed.
Lemma still_crash {A} : still (@Crash _ _ _ _ A).
Proof. by intros h. Qed.
Lemma still_read {B} en (f : Shared E -> B) : still (read en f).
Proof. intros h s Hs. exists h. by split; [constructor|]. Qed.
Lemma still_write en (f : Shared E -> Shared E) : (forall s, same_books s (f s)) -> still (write en f).
Proof. intros Hf h s Hs. exists h. by split; [constructor; apply Hf|]. Qed.
Lemma still_rt_write (f : DaemonRuntimeState -> DaemonRuntimeState) :
  (forall rt, rt_is_cleaning (f rt) = rt_is_cleaning rt /\ rt_total_freed_bytes (f rt) = rt_total_freed_bytes rt) ->
  still (rt_write f).
Proof. intros Hf. apply still_write. intros s. destruct (Hf (sh_runtime s)). by repeat split. Qed.
Lemma still_token l : still (token_calls l).
Proof. induction l as [|a l IH]; [apply still_ret|]. cbn [token_calls]. apply still_bind; [by apply still_write|done]. Qed.
End discipline.

Create HintDb still.
#[export] Hint Resolve still_ret still_read still_crash still_token : still.

(** ** Every program follows it *)

Section programs.
Context {E : Type} `{EngineLog E} (strerror : Errno -> string).
#[local] Abbreviation still := (@still E _ _ strerror).
#[local] Abbreviation square := (@square E _ _ strerror).
#[local] Abbreviation keeps := (@keeps E _ _ strerror).

(** Walks a program whose parts are known. *)
Ltac books :=
  repeat first
    [ progress intros
    | match goal with |- context [let '(_, _) := ?x in _] => destruct x end
    | match goal with |- context [if ?x then _ else _] => destruct x end
    | match goal with |- context [match ?x with _ => _ end] => is_var x; destruct x end
    | by auto with still
    | apply still_square; by auto with still
    | apply still_rt_write; by intros
    | apply still_write; by intros
    | apply square_bind | apply still_bind ].

Lemma still_set_state st : still (set_state st).
Proof. by apply still_rt_write. Qed.
Lemma still_set_screen_off t : still (set_screen_off_since t).
Proof. by apply still_rt_write. Qed.
Lemma still_is_shutdown : still is_shutdown_requested.
Proof. apply still_read. Qed.
Lemma still_is_cleaning : still is_cleaning.
Proof. apply still_read. Qed.
Lemma still_read_config : still read_config.
Proof. apply still_read. Qed.
Lemma still_off_duration now : still (screen_off_duration now).
Proof. apply still_read. Qed.
#[local] Hint Resolve still_set_state still_set_screen_off still_is_shutdown still_is_cleaning
  still_read_config still_off_duration : still.

Lemma still_thermal t : still (compute_thermal_state t).
Proof. unfold compute_thermal_state. books. Qed.
Lemma still_shutdown : still trigger_shutdown.
Proof. unfold trigger_shutdown. books. Qed.
Lemma still_reload r : still (reload_config r).
Proof.
  unfold reload_config. books; apply still_write; intros; repeat split; apply log_update.
Qed.
Lemma still_triggers since now c t : still (evaluate_triggers since now c t).
Proof. unfold evaluate_triggers. books. Qed.
Lemma still_job_status id : still (get_job_status id).
Proof. unfold get_job_status. books. Qed.
Lemma still_stats sn : still (get_stats sn).
Proof. unfold get_stats, rt_read. books. Qed.
#[local] Hint Resolve still_thermal still_shutdown still_reload still_triggers still_job_status
  still_stats : still.
Lemma still_status sn : still (get_status sn).
Proof. unfold get_status, rt_read. books. Qed.
Lemma still_idle sn : still (get_idle_assessment sn).
Proof. unfold get_idle_assessment. books. Qed.
#[local] Hint Resolve still_status still_idle : still.

Lemma keeps_claim st refuse (post : bool -> Hold -> Prop) :
  (forall rt, refuse rt = false -> rt_is_cleaning rt = false) ->
  post true HSlot -> post false HNothing -> keeps (claim st refuse) HNothing post.
Proof.
  intros Hr Ht Hf s Hs. cbn. destruct (refuse (sh_runtime s)) eqn:Er; cbn.
  - exists HNothing. split; [by constructor|done].
  - exists HSlot. split; [|done]. apply entry_claim; try done. by apply Hr.
Qed.

Lemma square_trigger_clean params : square (trigger_clean params).
Proof.
  unfold trigger_clean. apply keeps_bind. apply keeps_claim; [done| |by cbn].
  apply keeps_still_bind; [apply still_token|]. intros _. apply keeps_bind.
  intros s _. cbn. exists (HNumber (sh_next_job_id s)). split; [by constructor|].
  intros s' _. cbn. exists (HEntered (sh_next_job_id s)). split; [by constructor|]. done.
Qed.

Lemma square_spawn_maintenance : square spawn_maintenance_worker.
Proof.
  unfold spawn_maintenance_worker. apply keeps_bind. apply keeps_claim; [| |by cbn].
  - intros rt [_ ?]%orb_false_iff. done.
  - apply keeps_still_bind; [apply still_token|]. intros _.
    apply keeps_still_bind; [apply still_read_config|]. by cbn.
Qed.
#[local] Hint Resolve square_trigger_clean square_spawn_maintenance : still.

Lemma square_handle_command sn cmd : square (handle_command sn cmd).
Proof.
  unfold handle_command. apply square_bind; [apply still_square, still_is_shutdown|].
  intros []; [apply still_square, still_ret|]. destruct cmd; try (by books).
Qed.

Lemma keeps_finish_runtime job q o :
  keeps (finish_runtime o) (HOwes job q o)
    (fun _ h => h = match job with Some id => HAnswer id q o | None => HNothing end).
Proof.
  destruct o as [[report|e] ts]; intros s _; cbn [fst snd]; eexists;
    by (split; [apply entry_result|reflexivity]).
Qed.

Lemma keeps_locked_execute q h (Q : Outcome -> Hold -> Prop) :
  (forall o, exists h', executed h q o h' /\ Q o h') -> keeps (locked_execute q) h Q.
Proof.
  intros HQ. unfold locked_execute. apply keeps_still_bind; [by apply still_write|]. intros _.
  apply keeps_bind. intros o. destruct (HQ o) as (h' & He & Hq). exists h'. split; [done|].
  cbn [keeps]. by apply keeps_still_bind; [apply still_write|].
Qed.

(** A worker begins with what it was handed and ends with nothing. *)
Lemma keeps_worker w : keeps (worker_body strerror w) (handed w) (fun _ h => h = HNothing).
Proof.
  destruct w as [cfg|id params]; cbn [worker_body handed]; apply keeps_bind, keeps_locked_execute; intros o.
  - exists (HOwes None (maintenance_params cfg) o). split; [done|]. apply (keeps_finish_runtime None).
  - exists (HOwes (Some id) params o). split; [done|]. apply keeps_bind.
    eapply keeps_mono; [|apply (keeps_finish_runtime (Some id))]. intros _ h ->. intros s _. cbn.
    exists HNothing. split; [|done]. by apply entry_answer.
Qed.

(** ** The main thread *)

Lemma still_or_crash {A} (r : option A) : still (or_crash r).
Proof. destruct r; [apply still_ret|apply still_crash]. Qed.
#[local] Hint Resolve still_or_crash : still.
Lemma still_preempt r : still (preempt r).
Proof. unfold preempt. books. Qed.
#[local] Hint Resolve still_preempt : still.
Lemma still_preempt_all l : still (preempt_all l).
Proof. induction l as [|a l IH]; [apply still_ret|]. destruct a; cbn [preempt_all]; books. Qed.
Lemma still_reclaim b level l : still (reclaim_memory b level l).
Proof. unfold reclaim_memory. destruct (ll_psi l); books. Qed.
#[local] Hint Resolve still_preempt_all still_reclaim : still.

Lemma square_run_maintenance b maint l : square (run_maintenance b maint l).
Proof. unfold run_maintenance. books. Qed.
#[local] Hint Resolve square_run_maintenance : still.
Lemma square_handle_action b maint off a l : square (handle_action b maint off a l).
Proof. destruct a; cbn [handle_action]; books. Qed.
#[local] Hint Resolve square_handle_action : still.
Lemma square_handle_actions b maint off acts l : square (handle_actions b maint off acts l).
Proof. revert l. induction acts as [|a acts IH]; intros l; cbn [handle_actions]; books. Qed.
#[local] Hint Resolve square_handle_actions : still.
Lemma square_process_events b maint off c evs l : square (process_events b maint off c evs l).
Proof. revert l. induction evs as [|ev evs IH]; intros l; cbn [process_events]; books. Qed.
#[local] Hint Resolve square_process_events : still.
Lemma square_epoll_loop fds waits l : square (epoll_loop fds waits l).
Proof. revert l. induction waits as [|w waits IH]; intros l; cbn [epoll_loop]; unfold process_batch; books. Qed.
Lemma still_startup evs off maint st : still (startup_uevents evs off maint st).
Proof. revert st. induction evs as [|q evs IH]; intros st; cbn [startup_uevents]; books. Qed.
#[local] Hint Resolve square_epoll_loop still_startup : still.
Lemma square_fallback ticks last since : square (fallback_loop ticks last since).
Proof. revert last since. induction ticks as [|t ticks IH]; intros last since; cbn [fallback_loop];
    books; destruct (t_screen t); books. Qed.
Lemma still_cleanup polls : still (perform_shutdown_cleanup polls).
Proof.
  unfold perform_shutdown_cleanup. books. induction polls as [|n IH]; cbn [wait_for_worker]; books.
Qed.
#[local] Hint Resolve square_fallback still_cleanup : still.

Lemma square_handler p : is_handler p -> square p.
Proof. intros (sn & cmd & ->). apply square_bind; [apply square_handle_command|]. intros _. apply still_square, still_ret. Qed.
Lemma square_main p : is_main p -> square p.
Proof. intros []; unfold run_epoll_loop, start_loop, run_fallback_loop; books. Qed.
End programs.

(** ** The books of a running daemon *)

Lemma filter_middle {A} (P : A -> Prop) `{forall x, Decision (P x)} l1 x l2 :
  length (filter P (l1 ++ x :: l2)) = ((if decide (P x) then 1 else 0) + length (filter P (l1 ++ l2)))%nat.
Proof. rewrite !filter_app, !length_app, filter_cons. destruct (decide (P x)); cbn; lia. Qed.

Lemma owed_middle hs1 h hs2 : owed_by (hs1 ++ h :: hs2) = owed h + owed_by (hs1 ++ hs2).
Proof.
  unfold owed_by. induction hs1 as [|h1 hs1 IH]; [done|]. cbn. rewrite IH. lia.
Qed.

Section system.
Context {E : Type} `{EngineLog E} (strerror : Errno -> string).
#[local] Abbreviation daemon_step := (daemon_step (E := E) strerror).
#[local] Abbreviation entry := (@entry E _ _ strerror).

(** What a finished job's record says of the result of its call. *)
Definition answers (r : result CleanerError Pipeline.CleanReport) (rec : JobRecord) : Prop :=
  jr_is_completed rec = true /\
  match r with
  | Ok report => jr_state rec = "COMPLETED"%string /\ jr_reclaimed_bytes rec = freed_of report /\
                 jr_report rec = Some report
  | Err e => jr_state rec = "FAILED: " +:+ CleanerError_display strerror e /\ jr_report rec = None
  end.

Lemma finish_answers o rec : answers (fst o) (finish_record strerror o rec).
Proof. by destruct o as [[report|e] ts]. Qed.

(** [asked] is what the started jobs were asked to do. *)
Definition hold_ok (asked : gmap N Pipeline.CleanParams) (s : Shared E) (h : Hold) : Prop :=
  match h with
  | HNothing | HSlot => True
  | HNumber id => asked !! id = None /\ id < sh_next_job_id s
  | HEntered id => asked !! id = None /\ id < sh_next_job_id s /\ is_Some (sh_jobs s !! id)
  | HJob id q => asked !! id = Some q
  | HOwes job q o => (q, fst o) ∈ log_of s /\ forall id, job = Some id -> asked !! id = Some q
  | HAnswer id q o => (q, fst o) ∈ log_of s /\ asked !! id = Some q
  end.

Record books_ok (asked : gmap N Pipeline.CleanParams) (hs : list Hold) (s : Shared E) : Prop := {
  bk_slot : (length (filter has_slot hs) <= if cleaning s then 1 else 0)%nat;
  bk_asked id q : asked !! id = Some q -> id < sh_next_job_id s /\ is_Some (sh_jobs s !! id);
  bk_jobs id rec : sh_jobs s !! id = Some rec -> jr_is_completed rec = true ->
    exists q r, asked !! id = Some q /\ (q, r) ∈ log_of s /\ answers r rec;
  bk_holds : Forall (hold_ok asked s) hs;
  bk_total : exists T, total s = T mod U64_MOD /\ total_freed (log_of s) = T + owed_by hs;
}.

(** A hold stays right when the log grows, and when jobs are numbered or started by
    another thread. *)
Definition known_in (s s' : Shared E) : Prop :=
  forall id, is_Some (sh_jobs s !! id) -> is_Some (sh_jobs s' !! id).

Lemma hold_ok_later asked asked' (s s' : Shared E) h :
  hold_ok asked s h -> log_of s ⊆ log_of s' -> sh_next_job_id s <= sh_next_job_id s' -> known_in s s' ->
  asked ⊆ asked' ->
  (forall id, h = HNumber id \/ h = HEntered id -> asked' !! id = None) -> hold_ok asked' s' h.
Proof.
  intros Hh Hl Hn Hkn Ha Hno.
  assert (forall id q, asked !! id = Some q -> asked' !! id = Some q) as Hk
    by (intros id q Hid; by eapply lookup_weaken).
  destruct h; cbn in *; [done|done| | |auto| |].
  - split; [auto|lia].
  - destruct Hh as (? & ? & ?). split; [auto|]. split; [lia|]. by apply Hkn.
  - destruct Hh as [Hin Hid]. auto.
  - destruct Hh as [Hin Hid]. auto.
Qed.

Lemma holds_later asked (s s' : Shared E) hs :
  Forall (hold_ok asked s) hs -> log_of s ⊆ log_of s' -> sh_next_job_id s <= sh_next_job_id s' ->
  known_in s s' -> Forall (hold_ok asked s') hs.
Proof.
  intros Hh Hl Hn Hkn. eapply Forall_impl; [exact Hh|]. intros h Hok. eapply hold_ok_later; [exact Hok|done..|].
  intros id [-> | ->]; apply Hok.
Qed.

Lemma others_no_slot hs1 h hs2 (s : Shared E) h' :
  (length (filter has_slot (hs1 ++ h :: hs2)) <= if cleaning s then 1 else 0)%nat -> has_slot h ->
  h' ∈ hs1 ++ hs2 -> ~ has_slot h'.
Proof.
  rewrite filter_middle. intros Hl Hh Hin Hs. rewrite decide_True in Hl by done.
  assert (h' ∈ filter has_slot (hs1 ++ hs2)) as Hf by (by apply list_elem_of_filter).
  destruct (filter has_slot (hs1 ++ hs2)); [by apply elem_of_nil in Hf|]. cbn in Hl. destruct (cleaning s); lia.
Qed.

(** The total after a result is entered. *)
Lemma total_entered o T (t : N) :
  t = T mod U64_MOD ->
  match fst o with Ok report => wrap_add t (freed_of report) | Err _ => t end
  = (T + freed (fst (o : Outcome))) mod U64_MOD.
Proof.
  intros ->. destruct o as [[report|e] ts]; cbn [fst freed]; [|by rewrite N.add_0_r].
  unfold wrap_add. by rewrite N.Div0.add_mod_idemp_l.
Qed.

(** What one thread's change of its hold must bring for the books to stay right. *)
Lemma books_update asked hs1 h h' hs2 (s s' : Shared E) :
  books_ok asked (hs1 ++ h :: hs2) s ->
  log_of s' = log_of s -> sh_next_job_id s <= sh_next_job_id s' -> known_in s s' ->
  (forall n, ((if decide (has_slot h) then 1 else 0) + n <= if cleaning s then 1 else 0)%nat ->
             ((if decide (has_slot h') then 1 else 0) + n <= if cleaning s' then 1 else 0)%nat) ->
  (forall id rec, sh_jobs s' !! id = Some rec -> jr_is_completed rec = true ->
     sh_jobs s !! id = Some rec \/
     exists q r, asked !! id = Some q /\ (q, r) ∈ log_of s /\ answers r rec) ->
  (hold_ok asked s h -> hold_ok asked s' h') ->
  (forall T, total s = T mod U64_MOD ->
     exists T', total s' = T' mod U64_MOD /\ T + owed h = T' + owed h') ->
  books_ok asked (hs1 ++ h' :: hs2) s'.
Proof.
  intros [Hsl Has Hj Hh (T & HT & Hlog)] El Hn Hkn Hslot Hjobs Hhold Htot.
  rewrite Forall_app, Forall_cons in Hh. destruct Hh as (H1 & H2 & H3).
  constructor; rewrite ?El.
  - rewrite filter_middle in *. by apply Hslot.
  - intros id q Hid. destruct (Has id q Hid) as [? ?]. split; [lia|by apply Hkn].
  - intros id rec Hid Hc. destruct (Hjobs id rec Hid Hc) as [?|?]; [by eapply Hj|done].
  - rewrite Forall_app, Forall_cons.
    split; [eapply holds_later; [exact H1|by rewrite El|done..]|].
    split; [auto|eapply holds_later; [exact H3|by rewrite El|done..]].
  - destruct (Htot T HT) as (T' & HT' & Howed). exists T'. split; [done|].
    rewrite owed_middle in *. lia.
Qed.

(** One section of one thread. *)
Lemma entry_ok asked hs1 h h' hs2 (s s' : Shared E) :
  books_ok asked (hs1 ++ h :: hs2) s -> entry h h' s s' -> sh_next_job_id s < U64_MAX ->
  books_ok asked (hs1 ++ h' :: hs2) s' /\ sh_next_job_id s' <= sh_next_job_id s + 1.
Proof.
  intros Hok He Hmax.
  assert (sh_next_job_id s <= sh_next_job_id s' <= sh_next_job_id s + 1) as Hn.
  { destruct He as [? s s' (_ & _ & _ & En & _)|s s' _ _ _ _ En _|s s' _ _ _ En _|? s s' _ _ _ En _
      |? ? ? s s' _ _ _ En _|? ? ? s s' _ _ _ En _]; rewrite En, ?wrap_add_exact by lia; lia. }
  split; [|lia]. pose proof (bk_asked _ _ _ Hok) as Has.
  destruct He as [h s s' (Ec & Et & Ej & En & El)|s s' Ec0 Ec Et Ej En El|s s' Ec Et Ej En El
    |id s s' Ec Et Ej En El|job q o s s' Ec Et Ej En El|id q o s s' Ec Et Ej En El].
  all: apply (books_update _ _ _ _ _ _ _ Hok El); [lia| | | | |].
  all: try (intros i Hi; rewrite Ej; done).
  all: rewrite ?Ej, ?Et; try (by auto); try (intros T HT; by eauto).
  - by rewrite Ec.
  - intros Hh. eapply hold_ok_later; [exact Hh|by rewrite El|lia|intros i Hi; by rewrite Ej|done|].
    intros id [-> | ->]; apply Hh.
  - rewrite Ec0, Ec. intros n. rewrite decide_False, decide_True by (done || intros []). lia.
  - by rewrite Ec.
  - intros _. split; [|rewrite En, wrap_add_exact; lia].
    destruct (asked !! sh_next_job_id s) as [q|] eqn:Eq; [|done]. destruct (Has _ _ Eq). lia.
  - intros i Hi. rewrite Ej. apply lookup_insert_is_Some'. by right.
  - by rewrite Ec.
  - intros i rec. rewrite lookup_insert_Some. intros [[<- <-]|[_ Hi]] Hrec; [done|by left].
  - intros [? ?]. cbn. rewrite En, Ej, lookup_insert_eq. eauto.
  - rewrite Ec. intros n. rewrite decide_True, decide_False by (done || (destruct job; intros [])).
    destruct (cleaning s); lia.
  - intros [Hin Hid]. destruct job as [id|]; cbn; [rewrite El; auto|done].
  - intros T HT. exists (T + freed (fst o)). rewrite (total_entered o T) by done. split; [done|].
    destruct job; cbn; lia.
  - intros i Hi. rewrite Ej. by apply lookup_alter_is_Some.
  - by rewrite Ec.
  - pose proof (bk_holds _ _ _ Hok) as Hh. rewrite Forall_app, Forall_cons in Hh.
    destruct Hh as (_ & [Hin Hid] & _). intros i rec Hi Hrec. destruct (decide (i = id)) as [->|Hne].
    + right. rewrite lookup_alter_Some in Hi. destruct Hi as [(_ & rec0 & _ & ->)|[? _]]; [|done].
      exists q, (fst o). split; [done|]. split; [done|]. apply finish_answers.
    + left. by rewrite lookup_alter_ne in Hi by done.
Qed.

(** A cleaning ends: its result is in the log and is owed to the books. *)
Lemma execute_ok asked hs1 h h' hs2 (s s' : Shared E) q o :
  books_ok asked (hs1 ++ h :: hs2) s -> executed h q o h' ->
  cleaning s' = cleaning s -> total s' = total s -> sh_jobs s' = sh_jobs s ->
  sh_next_job_id s' = sh_next_job_id s -> log_of s' = (q, fst o) :: log_of s ->
  books_ok asked (hs1 ++ h' :: hs2) s'.
Proof.
  intros [Hsl Has Hj Hh (T & HT & Hlog)] Hex Ec Et Ej En El.
  rewrite Forall_app, Forall_cons in Hh. destruct Hh as (H1 & H2 & H3).
  assert (log_of s ⊆ log_of s') as Hl by (rewrite El; set_solver).
  assert (has_slot h /\ has_slot h' /\ owed h = 0 /\ owed h' = freed (fst o) /\ hold_ok asked s' h')
    as (Hs & Hs' & Ho & Ho' & Hok').
  { destruct h as [| | | |id q'| |]; try done; cbn in Hex.
    - subst h'. do 4 (split; [done|]). split; [rewrite El; left|done].
    - destruct Hex as [-> ->]. do 4 (split; [done|]). split; [rewrite El; left|].
      cbn in H2. by intros ? [= <-]. }
  assert (known_in s s') as Hkn by (intros i; by rewrite Ej).
  constructor; rewrite ?Ec, ?Ej, ?En; [| done | | |].
  - rewrite filter_middle in *. rewrite decide_True in Hsl by done. by rewrite decide_True by done.
  - intros id rec Hid Hrec. destruct (Hj id rec Hid Hrec) as (q' & r & ? & ? & ?).
    exists q', r. split; [done|]. by split; [apply Hl|].
  - rewrite Forall_app, Forall_cons.
    split; [eapply holds_later; [exact H1|done|by rewrite En|done]|].
    split; [done|eapply holds_later; [exact H3|done|by rewrite En|done]].
  - exists T. rewrite Et, El. split; [done|]. rewrite owed_middle in *. cbn. fold (total_freed (log_of s)). lia.
Qed.

(** A worker starts: what it was handed goes with it. *)
Definition started (w : Worker) (asked : gmap N Pipeline.CleanParams) : gmap N Pipeline.CleanParams :=
  match w with ManualWorker id q => <[id := q]> asked | MaintenanceWorker _ => asked end.

Lemma hand_ok asked hs1 h hs2 (s : Shared E) w :
  books_ok asked (hs1 ++ h :: hs2) s -> hands h w ->
  asked ⊆ started w asked /\ books_ok (started w asked) (hs1 ++ HNothing :: hs2 ++ [handed w]) s.
Proof.
  intros [Hsl Has Hj Hh (T & HT & Hlog)] Hw.
  assert (has_slot h /\ owed h = 0) as [Hs Ho] by (destruct w; cbn in Hw; by subst h).
  pose proof (others_no_slot hs1 h hs2 s) as Hno. specialize (fun h' => Hno h' Hsl Hs).
  rewrite Forall_app, Forall_cons in Hh. destruct Hh as (H1 & H2 & H3).
  set (asked' := started w asked).
  assert (asked ⊆ asked') as Hsub.
  { destruct w as [|id q]; [done|]. cbn in Hw. subst h. by apply insert_subseteq, H2. }
  assert (forall h', h' ∈ hs1 ++ hs2 -> hold_ok asked s h' -> hold_ok asked' s h') as Hkeep.
  { intros h' Hin Hok. eapply hold_ok_later; [exact Hok|done|done|by intros i Hi|done|].
    intros id Hid. exfalso. apply (Hno h' Hin). by destruct Hid as [-> | ->]. }
  split; [done|]. constructor.
  - rewrite filter_middle, decide_False by (intros []). rewrite app_assoc, filter_middle, app_nil_r.
    rewrite filter_middle, decide_True in Hsl by done. by rewrite decide_True by (by destruct w).
  - intros id q. destruct w as [|id' q']; [by apply Has|]. cbn in Hw. subst h.
    unfold asked', started. rewrite lookup_insert_Some.
    intros [[<- <-]|[_ Hid]]; [destruct H2 as (_ & ? & ?); done|by eapply Has].
  - intros id rec Hid Hrec. destruct (Hj id rec Hid Hrec) as (q' & r & ? & ? & ?).
    exists q', r. split; [by eapply lookup_weaken|done].
  - rewrite !Forall_app, Forall_cons, Forall_app, Forall_singleton. rewrite Forall_forall in H1, H3.
    split; [apply Forall_forall; intros; apply Hkeep; [set_solver|auto]|]. split; [done|].
    split; [apply Forall_forall; intros; apply Hkeep; [set_solver|auto]|].
    destruct w as [|id q]; [done|]. apply lookup_insert_eq.
  - exists T. split; [done|]. rewrite owed_middle, app_assoc, owed_middle, app_nil_r. rewrite owed_middle in Hlog.
    assert (owed (handed w) = 0) by (by destruct w). cbn. lia.
Qed.

(** ** Every run *)

Definition ends_square (h : Hold) (p : P E unit) : Prop := keeps strerror p h (fun _ h' => h' = HNothing).

Definition sys_ok (asked : gmap N Pipeline.CleanParams) (x : Shared E * list (P E unit)) : Prop :=
  exists hs, Forall2 ends_square hs (snd x) /\ books_ok asked hs (fst x).

Lemma spawn_sys_ok asked (s : Shared E) before w k after :
  sys_ok asked (s, before ++ Spawn w k :: after) ->
  asked ⊆ started w asked /\
  sys_ok (started w asked) (s, before ++ k :: after ++ [worker_body strerror w]).
Proof.
  intros (hs & Ht & Hok). cbn [fst snd] in *.
  apply Forall2_app_inv_r in Ht as (hs1 & hs2 & H1 & H2 & ->).
  apply Forall2_cons_inv_r in H2 as (h & hs3 & [Hw Hk] & H3 & ->).
  destruct (hand_ok asked hs1 h hs3 s w Hok Hw) as [Hsub Hok'].
  split; [done|]. eexists. split; [|exact Hok'].
  cbn [snd]. apply Forall2_app; [done|]. constructor; [done|]. apply Forall2_app; [done|].
  constructor; [apply keeps_worker|constructor].
Qed.

Lemma drop_hold asked hs1 h hs2 (s : Shared E) :
  owed h = 0 -> books_ok asked (hs1 ++ h :: hs2) s -> books_ok asked (hs1 ++ HNothing :: hs2) s.
Proof.
  intros Ho Hok. apply (books_update _ _ _ _ _ _ _ Hok); [done|done|by intros i| |by auto|done|].
  - intros n. rewrite (decide_False (P := has_slot HNothing)) by (intros []). destruct (decide _); lia.
  - intros T HT. exists T. rewrite Ho. done.
Qed.

(** Finds the hold of the thread that moves. *)
Ltac split_holds Ht :=
  let hs1 := fresh "hs1" in let hs2 := fresh "hs2" in let h := fresh "h" in
  let H1 := fresh "H1" in let H2 := fresh "H2" in let Hh := fresh "Hh" in let H3 := fresh "H3" in
  apply Forall2_app_inv_r in Ht as (hs1 & ? & H1 & H2 & ->);
  apply Forall2_cons_inv_r in H2 as (h & hs2 & Hh & H3 & ->);
  unfold ends_square in Hh; cbn [keeps] in Hh.

Lemma arrive_ok asked hs (s : Shared E) : books_ok asked hs s -> books_ok asked (hs ++ [HNothing]) s.
Proof.
  intros [Hsl Has Hj Hh (T & HT & Hlog)]. constructor; [|done|done| |].
  - by rewrite filter_middle, app_nil_r, decide_False by (intros []).
  - by rewrite Forall_app, Forall_singleton.
  - exists T. by rewrite owed_middle, app_nil_r.
Qed.

Lemma step_ok may_fail asked x y :
  daemon_step may_fail x y -> sys_ok asked x -> sh_next_job_id (fst x) < U64_MAX ->
  exists asked', asked ⊆ asked' /\ sys_ok asked' y /\
    sh_next_job_id (fst y) <= sh_next_job_id (fst x) + 1.
Proof.
  intros Hs Hx Hmax.
  destruct Hs as [s before B en f k after Hen|s s' before q k r after (e' & He & ->)
                 |s before w k after|s before w k after _|s ts p Hp].
  1,2,4,5: destruct Hx as (hs & Ht & Hok); cbn [fst snd] in *; exists asked; (split; [done|]).
  - split_holds Ht. destruct (Hh s Hen) as (h' & He & Hk).
    destruct (entry_ok asked hs1 h h' hs2 s _ Hok He Hmax) as [Hok' Hn]. split; [|done].
    exists (hs1 ++ h' :: hs2). by split; [apply Forall2_app; [|constructor]|].
  - split_holds Ht. destruct (Hh r) as (h' & Hex & Hk). split; [|cbn; lia].
    exists (hs1 ++ h' :: hs2). split; [by apply Forall2_app; [|constructor]|].
    eapply execute_ok; [exact Hok|exact Hex|done..|]. by apply log_executes.
  - split_holds Ht. destruct Hh as [Hw Hk]. split; [|lia]. exists (hs1 ++ HNothing :: hs2).
    split; [by apply Forall2_app; [|constructor]|]. eapply drop_hold; [|exact Hok].
    by destruct w; cbn in Hw; subst h.
  - split; [|lia]. exists (hs ++ [HNothing]). split; [|by apply arrive_ok].
    apply Forall2_app; [done|]. constructor; [by apply square_handler|constructor].
  - destruct (spawn_sys_ok _ _ _ _ _ _ Hx) as [? ?]. exists (started w asked). cbn [fst]. split; [done|].
    split; [done|lia].
Qed.

Lemma nsteps_ok may_fail n x y :
  nsteps (daemon_step may_fail) n x y -> forall asked, sys_ok asked x ->
  sh_next_job_id (fst x) + N.of_nat n <= U64_MAX ->
  exists asked', asked ⊆ asked' /\ sys_ok asked' y /\
    sh_next_job_id (fst y) <= sh_next_job_id (fst x) + N.of_nat n.
Proof.
  induction 1 as [x|n x y z Hs _ IH]; intros asked Hx Hn; [exists asked; split; [done|]; split; [done|lia]|].
  destruct (step_ok may_fail asked x y Hs Hx ltac:(lia)) as (a1 & Hs1 & Hy & Hn1).
  destruct (IH a1 Hy ltac:(lia)) as (a2 & Hs2 & Hz & Hn2). exists a2.
  split; [by transitivity a1|]. split; [done|lia].
Qed.

Lemma start_ok x :
  is_start x -> log_of (fst x) = [] -> sys_ok ∅ x /\ sh_next_job_id (fst x) = 1.
Proof.
  intros (config & path & engine & now & main & Hm & ->) Hl. split; [|done].
  exists [HNothing]. split; [constructor; [by apply square_main|constructor]|]. constructor.
  - by rewrite filter_cons_False by (intros []).
  - intros id q. by rewrite lookup_empty.
  - intros id rec. cbn. by rewrite lookup_empty.
  - by rewrite Forall_singleton.
  - exists 0. by rewrite Hl.
Qed.

(** An answer is the result of a call that had the job's parameters: for a good result
    the state, the bytes and the report are its, for a failed one the state is its error. *)
Lemma answer_of_call may_fail n m x s before id params k after z st bytes report :
  is_start x -> log_of (fst x) = [] ->
  nsteps (daemon_step may_fail) n x (s, before ++ Spawn (ManualWorker id params) k :: after) ->
  nsteps (daemon_step may_fail) m
    (s, before ++ k :: after ++ [worker_body strerror (ManualWorker id params)]) z ->
  N.of_nat (n + m) < U64_MAX ->
  run_alone (get_job_status id) (fst z) = Some (Success (JobStatus id st bytes true report), fst z, []) ->
  exists r, (params, r) ∈ log_of (fst z) /\
    match r with
    | Ok rep => st = "COMPLETED"%string /\ bytes = freed_of rep /\ report = Some rep
    | Err e => st = "FAILED: " +:+ CleanerError_display strerror e /\ report = None
    end.
Proof.
  intros Hx Hl Hn Hm Hlt Hz. destruct (start_ok x Hx Hl) as [Hs Hid].
  destruct (nsteps_ok may_fail n x _ Hn ∅ Hs ltac:(lia)) as (a1 & _ & Hs1 & Hn1).
  destruct (spawn_sys_ok _ _ _ _ _ _ Hs1) as [_ Hs2]. cbn [fst] in Hn1.
  destruct (nsteps_ok may_fail m _ z Hm _ Hs2 ltac:(cbn [fst]; lia)) as (a3 & Hsub & (hs & _ & Hok) & _).
  cbn in Hz. destruct (sh_jobs (fst z) !! id) as [rec|] eqn:Ej; cbn in Hz; [|done].
  injection Hz as Hst Hb Hc Hrep.
  destruct (bk_jobs _ _ _ Hok id rec Ej Hc) as (q & r & Hq & Hin & _ & Hans).
  assert (q = params) as -> by (pose proof (lookup_weaken _ _ id params (lookup_insert_eq a1 id params) Hsub); congruence).
  exists r. split; [done|]. subst st bytes report. by destruct r.
Qed.

(** C11 The totals are real: whenever no cleaning is marked as in progress, the number of
    freed bytes that [GetStats] gives is the sum over all the cleanings the engine has
    done, taken modulo 2^64: none is lost and none is counted twice, whatever the
    interleaving.  (A run so long that the 64-bit job counter wraps is excluded.) *)
Theorem totals_are_real may_fail n x y :
  is_start x -> log_of (fst x) = [] -> nsteps (daemon_step may_fail) n x y ->
  N.of_nat n < U64_MAX -> rt_is_cleaning (sh_runtime (fst y)) = false ->
  rt_total_freed_bytes (sh_runtime (fst y)) = total_freed (log_of (fst y)) mod U64_MOD.
Proof.
  intros Hx Hl Hn Hlt Hc. destruct (start_ok x Hx Hl) as [Hs Hid].
  destruct (nsteps_ok may_fail n x y Hn ∅ Hs ltac:(lia)) as (a & _ & (hs & _ & [Hsl _ _ _ (T & HT & Hlog)]) & _).
  unfold total in HT. rewrite HT, Hlog. unfold cleaning in Hsl. rewrite Hc in Hsl.
  assert (owed_by hs = 0) as ->; [|by rewrite N.add_0_r].
  clear -Hsl. induction hs as [|h hs IH]; [done|]. rewrite filter_cons in Hsl. unfold owed_by in *. cbn.
  destruct (decide (has_slot h)) as [|Hh]; [cbn in Hsl; lia|]. rewrite IH by done. by destruct h; cbn in *.
Qed.
End system.

(** ** The pipeline as the engine *)

Section pipeline_ledger.
Context `{KK : Effects.Kernel K} (fmt : f32 -> string).
#[local] Abbreviation Engine := (Engine (K := K)).
#[local] Instance ledger_engine : CleanEngine Engine := pipeline_engine fmt.

#[local] Instance pipeline_log : EngineLog Engine.
Proof.
  refine {| engine_log := fun e : Engine => map (fun c => (call_params c, call_result c)) (en_calls e) |}.
  - done.
  - by intros q e r e' (c & _ & _ & <- & <- & ->).
Defined.

(** C10 An answer is real: started on an engine with a consistent catalog, whatever commands,
    loop events, reloads, failed spawns and interleavings follow, if a manual worker was
    started for job [id] with [params] and [GetJobStatus] later finds that job completed,
    then some recorded call of [execute] ([call_ran]) had exactly these parameters and
    gave this answer: its report and its bytes, or its error.  The report is the one made
    of the result of that call's own execution ([call_backed]): of a real run the account
    of what its operations did, of a dry run the estimate of the plan it made.  And every
    removal the call made has its story in it.  (A run so long that the 64-bit job counter
    wraps is excluded.) *)
Theorem answers_are_real strerror may_fail n m config path p now main s before id params k after z
    st bytes report :
  is_main main -> Executor.catalog_wf (Pipeline.p_catalog p) ->
  u64 (Pipeline.p_candidate_counter p) ->
  nsteps (daemon_step (E := Engine) strerror may_fail) n
    (DaemonContext_new config path (mkEngine p []) now, [main])
    (s, before ++ Spawn (ManualWorker id params) k :: after) ->
  nsteps (daemon_step (E := Engine) strerror may_fail) m
    (s, before ++ k :: after ++ [worker_body strerror (ManualWorker id params)]) z ->
  N.of_nat (n + m) < U64_MAX ->
  run_alone (get_job_status id) (fst z) = Some (Success (JobStatus id st bytes true report), fst z, []) ->
  exists c, c ∈ en_calls (sh_engine (fst z)) /\ call_params c = params /\
    call_ran fmt c /\ call_accounted fmt c /\ call_backed fmt c /\
    match call_result c with
    | Ok rep => st = "COMPLETED"%string /\ bytes = freed_of rep /\ report = Some rep
    | Err e => st = "FAILED: " +:+ CleanerError_display strerror e /\ report = None
    end.
Proof.
  intros Hm Hwf Hu H1 H2 Hlt Hz.
  assert (is_start (DaemonContext_new config path (mkEngine p []) now, [main])) as Hstart
    by (by eexists _, _, _, _, _).
  destruct (answer_of_call strerror may_fail n m _ s before id params k after z st bytes report
              Hstart ltac:(done) H1 H2 Hlt Hz) as (r & Hin & Hans).
  apply list_elem_of_fmap in Hin as (c & [= Hp Hr] & Hc). exists c. split; [done|]. split; [done|].
  assert (pipeline_ok fmt (sh_engine (fst z))) as (_ & _ & Hall).
  { apply (daemon_pipeline_ok fmt strerror may_fail config path p now main z Hm Hwf Hu).
    etransitivity; [by eapply rtc_nsteps_2|].
    eapply rtc_l; [apply step_spawn|by eapply rtc_nsteps_2]. }
  rewrite Forall_forall in Hall. destruct (Hall c Hc) as (Hran & Ha & Hb). do 3 (split; [done|]).
  by rewrite Hr in Hans.
Qed.
End pipeline_ledger.

(** ** An example: one stale cache file *)

Section ledger_example.
#[local] Abbreviation Engine := (Engine (K := MemFs.MemFs)).
#[local] Abbreviation fmt := (fun _ : f32 => "f"%string).
#[local] Instance ledger_example_engine : CleanEngine Engine := pipeline_engine fmt.
#[local] Instance ledger_example_log : EngineLog Engine := pipeline_log fmt.

(** Whether a run ended well, and what it says it freed. *)
Definition freed_in (run : result fault Pipeline.CleanReport * Pipeline.Pipeline * Effects.World) : option N :=
  match fst (fst run) with Ok report => Some (freed_of report) | Err _ => None end.

Lemma freed_in_run run n : freed_in run = Some n ->
  exists report p' w', run = ((Ok report, p'), w') /\ freed_of report = n.
Proof. destruct run as [[[report|e] p'] w']; cbn; [|done]. intros [= <-]. by eexists _, _, _. Qed.

#[local] Ltac take_step before :=
  eapply nsteps_l; [first [refine (step_act _ _ _ _ _ before _ _ _ _ _ _); reflexivity
                          |refine (step_spawn _ _ _ _ _ before _ _ _)]|cbn [fst snd app]].

Definition job_params (dry : bool) : Pipeline.CleanParams := Pipeline.mkParams false false false dry.

(** A run that cleans, and a dry run, both report the file's blocks. *)
Lemma both_report_freed dry :
  freed_in (PipelineProps.run_execute dry PipelineProps.fresh_pipeline PipelineProps.cache_world) = Some 4096.
Proof. destruct dry; vm_compute; reflexivity. Qed.

(** The job from its start to its answer, with the trace of its one call. *)
Lemma example_job dry : exists s k z report c,
  nsteps (daemon_step example_strerror false) 7 example_start
    (s, [example_main] ++ Spawn (ManualWorker 1 (job_params dry)) k :: []) /\
  nsteps (daemon_step example_strerror false) 5
    (s, [example_main] ++ k :: [] ++ [worker_body example_strerror (ManualWorker 1 (job_params dry))]) z /\
  run_alone (get_job_status 1) (fst z)
  = Some (Success (JobStatus 1 "COMPLETED" 4096 true (Some report)), fst z, []) /\
  rt_is_cleaning (sh_runtime (fst z)) = false /\ rt_total_freed_bytes (sh_runtime (fst z)) = 4096 /\
  en_calls (sh_engine (fst z)) = [c] /\ call_params c = job_params dry /\
  call_trace c = Effects.w_trace (snd (PipelineProps.run_execute dry PipelineProps.fresh_pipeline
                                         PipelineProps.cache_world)).
Proof.
  destruct (freed_in_run _ 4096 (both_report_freed dry)) as (report & p' & w' & Hex & Hf). rewrite Hex.
  eexists _, _, _, report, _. split.
  { eapply nsteps_l; [apply step_arrives; by exists example_sensed, (Ipc.TriggerClean (job_params dry))|].
    do 6 take_step (@cons (P Engine unit) example_main nil). apply nsteps_O. }
  split.
  { cbn [app]. take_step [example_main; mret tt].
    eapply nsteps_l.
    { refine (step_execute _ _ _ _ _ _ [example_main; mret tt] _ _ (Ok report, 7) _ _).
      eexists _. split; [|reflexivity]. exists (example_call dry report p' w').
      split; [by apply example_call_ran|]. repeat split. }
    cbn [app]. do 3 take_step [example_main; mret tt]. apply nsteps_O. }
  split; [rewrite <- Hf; reflexivity|]. split; [reflexivity|]. split; [|split; [reflexivity|split; reflexivity]].
  cbn. rewrite Hf. reflexivity.
Qed.

Definition unlinks (e : @Effects.Event MemFs.MemFs _) : bool :=
  match e with Effects.EvUnlink _ _ _ _ _ _ => true | _ => false end.

(** A dry run counts as freed: there is a run of the daemon in which a client asks for
    a dry run, nothing is unlinked, and the job's answer and the daemon's total both say
    that 4096 bytes were freed. *)
Theorem dry_run_counts_as_freed : exists (z : Shared Engine * list (P Engine unit)) c report,
  nsteps (daemon_step example_strerror false) 13 example_start z /\
  en_calls (sh_engine (fst z)) = [c] /\ call_params c = job_params true /\
  existsb unlinks (call_trace c) = false /\
  run_alone (get_job_status 1) (fst z)
  = Some (Success (JobStatus 1 "COMPLETED" 4096 true (Some report)), fst z, []) /\
  rt_total_freed_bytes (sh_runtime (fst z)) = 4096.
Proof.
  destruct (example_job true) as (s & k & z & report & c & H1 & H2 & Ha & _ & Ht & Hc & Hp & Hu).
  exists z, c, report. split; [|split; [exact Hc|]; split; [exact Hp|]; split; [|exact (conj Ha Ht)]].
  - apply (nsteps_trans 7 6 _ _ _ H1). eapply nsteps_l; [apply step_spawn|exact H2].
  - rewrite Hu. vm_compute. reflexivity.
Qed.

Lemma totals_are_real_witness : exists (z : Shared Engine * list (P Engine unit)),
  rt_total_freed_bytes (sh_runtime (fst z)) = 4096 /\
  rt_total_freed_bytes (sh_runtime (fst z)) = total_freed (log_of (fst z)) mod U64_MOD.
Proof.
  destruct (example_job false) as (s & k & z & report & c & H1 & H2 & _ & Hc & Ht & _). exists z.
  split; [exact Ht|].
  apply (totals_are_real example_strerror false 13 example_start z example_is_start);
    [reflexivity| |reflexivity|exact Hc].
  apply (nsteps_trans 7 6 _ _ _ H1). eapply nsteps_l; [apply step_spawn|exact H2].
Defined.

Lemma answers_are_real_witness : exists c : Call (K := MemFs.MemFs),
  call_params c = job_params false /\ call_ran fmt c /\ call_accounted fmt c /\ call_backed fmt c /\
  exists rep, call_result c = Ok rep /\ freed_of rep = 4096.
Proof.
  destruct (example_job false) as (s & k & z & report & c & H1 & H2 & Ha & _).
  destruct (answers_are_real fmt example_strerror false 7 5 DaemonConfig_default None
              PipelineProps.fresh_pipeline 0 example_main s [example_main] 1 (job_params false) k [] z
              "COMPLETED" 4096 (Some report)) as (c' & _ & Hp & Hran & Hacc & Hb & Hr).
  - exact (main_fallback 0 0 ScreenState.On [] 0).
  - intros i t Hk. vm_compute in Hk. discriminate Hk.
  - vm_compute; intros Hlt; discriminate Hlt.
  - exact H1.
  - exact H2.
  - reflexivity.
  - exact Ha.
  - exists c'. split; [exact Hp|]. split; [exact Hran|]. split; [exact Hacc|]. split; [exact Hb|].
    destruct (call_result c') as [rep|e]; [|by destruct Hr].
    exists rep. split; [reflexivity|]. by destruct Hr as (_ & <- & _).
Defined.
End ledger_example.
