(* ===== verification/JobServer.v ===== *)
(** The daemon as a job server: a small specification of what the threads of
    src/system/daemon_state.rs promise to their clients, and the proof that they
    implement it, step by step.

    The server has one slot, the jobs with what each was asked to do and what was
    answered, and the results of the cleanings done.  A job is entered under a new number
    while the slot is taken, started once with its parameters, and answered once, with
    the result of a cleaning that had exactly these parameters; an answer never changes
    and no job is forgotten.  The proof combines the ownership discipline of
    [DaemonProps] with the books of [Ledger]. *)
From Stdlib Require Import Ascii String.
From stdpp Require Import relations.
From S2P Require Import MemFs.
From S2P Require Import Prelude Domain DaemonConfig Text Psi Idle Hardware EventLoop.
From S2P Require Import Cancellation Threads Daemon Reactor DaemonProps DaemonRuns Ledger.
From S2P Require Pipeline PipelineProps Ipc.

(** ** The specification *)

Record Job := mkJob {
  job_asked : option Pipeline.CleanParams;   (** once it was started *)
  job_answer : option Answer;                (** once it was answered *)
}.

Record JobServer := mkJobServer {
  js_busy : bool;
  js_jobs : gmap N Job;
  js_done : list (Pipeline.CleanParams * result CleanerError Pipeline.CleanReport);
}.

Definition JobServer_new : JobServer := mkJobServer false ∅ [].

Inductive serves (strerror : Errno -> string) : JobServer -> JobServer -> Prop :=
| serves_take jobs done :
    serves strerror (mkJobServer false jobs done) (mkJobServer true jobs done)
| serves_enter jobs done id :
    jobs !! id = None ->
    serves strerror (mkJobServer true jobs done) (mkJobServer true (<[id := mkJob None None]> jobs) done)
| serves_start jobs done id q :
    jobs !! id = Some (mkJob None None) ->
    serves strerror (mkJobServer true jobs done)
      (mkJobServer true (<[id := mkJob (Some q) None]> jobs) done)
| serves_clean jobs done q r :
    serves strerror (mkJobServer true jobs done) (mkJobServer true jobs ((q, r) :: done))
| serves_free jobs done :
    serves strerror (mkJobServer true jobs done) (mkJobServer false jobs done)
| serves_answer busy jobs done id q r :
    jobs !! id = Some (mkJob (Some q) None) -> (q, r) ∈ done ->
    serves strerror (mkJobServer busy jobs done)
      (mkJobServer busy (<[id := mkJob (Some q) (Some (answer_of strerror r))]> jobs) done).

Lemma serves_start_at strerror a id q :
  js_busy a = true -> js_jobs a !! id = Some (mkJob None None) ->
  serves strerror a (mkJobServer (js_busy a) (<[id := mkJob (Some q) None]> (js_jobs a)) (js_done a)).
Proof. destruct a as [b jobs done]. cbn. intros -> Hj. by constructor. Qed.

(** ** The daemon as a server *)

(** [asked] is what the started jobs were asked to do. *)
Definition view (asked : gmap N Pipeline.CleanParams) (a : Server)
    (log : list (Pipeline.CleanParams * result CleanerError Pipeline.CleanReport)) : JobServer :=
  mkJobServer (busy a) (map_imap (fun id answer => Some (mkJob (asked !! id) answer)) (ledger a)) log.

Lemma view_insert asked b l id answer log :
  view asked (mkServer b (<[id := answer]> l)) log =
  mkJobServer b (<[id := mkJob (asked !! id) answer]> (js_jobs (view asked (mkServer b l) log))) log.
Proof. unfold view. cbn. f_equal. by apply map_imap_insert_Some. Qed.

Lemma view_lookup asked a log id :
  js_jobs (view asked a log) !! id = mkJob (asked !! id) <$> ledger a !! id.
Proof. unfold view. cbn. rewrite map_lookup_imap. by destruct (ledger a !! id). Qed.

Section server.
Context {E : Type} `{EngineLog E} (strerror : Errno -> string).
#[local] Abbreviation daemon_step := (daemon_step (E := E) strerror).

(** The daemon's state [y] is that of the server [a]. *)
Definition simulates (y : Shared E * list (P E unit)) (a : JobServer) : Prop :=
  system_fits strerror y /\
  exists asked, sys_ok strerror asked y /\ a = view asked (abstract (fst y)) (log_of (fst y)).

(** What a client sees of the server: the slot, and every job's answer; and what the
    engine did. *)
Definition shows (s : Shared E) (a : JobServer) : Prop :=
  js_busy a = rt_is_cleaning (sh_runtime s) /\ js_done a = log_of s /\
  forall id, job_answer <$> js_jobs a !! id = DaemonProps.entry <$> sh_jobs s !! id.

Lemma simulates_shows y a : simulates y a -> shows (fst y) a.
Proof.
  intros (_ & asked & _ & ->). split; [done|]. split; [done|]. intros id.
  rewrite view_lookup. cbn. rewrite lookup_fmap. by destruct (sh_jobs (fst y) !! id).
Qed.

(** What is known of the thread that goes on. *)
Lemma act_log asked (s : Shared E) before B en (f : Shared E -> B * Shared E) k after :
  sys_ok strerror asked (s, before ++ Act en f k :: after) -> en s = true ->
  sh_next_job_id s < U64_MAX ->
  log_of (snd (f s)) = log_of s /\
  sys_ok strerror asked (snd (f s), before ++ k (fst (f s)) :: after).
Proof.
  intros (hs & Ht & Hok) Hen Hmax. cbn [fst snd] in *.
  apply Forall2_app_inv_r in Ht as (hs1 & hs3 & H1 & H2 & ->).
  apply Forall2_cons_inv_r in H2 as (h & hs2 & Hh & H3 & ->).
  unfold ends_square in Hh. cbn [keeps] in Hh. destruct (Hh s Hen) as (h' & He & Hk).
  destruct (entry_ok strerror asked hs1 h h' hs2 s _ Hok He Hmax) as [Hok' _]. split.
  - destruct He as [? ? ? (_ & _ & _ & _ & El)|? ? _ _ _ _ _ El|? ? _ _ _ _ El|? ? ? _ _ _ _ El
      |? ? ? ? ? _ _ _ _ El|? ? ? ? ? _ _ _ _ El]; exact El.
  - exists (hs1 ++ h' :: hs2). by split; [apply Forall2_app; [|constructor]|].
Qed.

Lemma execute_busy asked (s : Shared E) before q k after :
  sys_ok strerror asked (s, before ++ Execute q k :: after) -> cleaning s = true.
Proof.
  intros (hs & Ht & [Hsl _ _ _ _]). cbn [fst snd] in *.
  apply Forall2_app_inv_r in Ht as (hs1 & hs3 & _ & H2 & ->).
  apply Forall2_cons_inv_r in H2 as (h & hs2 & Hh & _ & ->).
  unfold ends_square in Hh. cbn [keeps] in Hh. destruct (Hh (Err Cancelled, 0)) as (h' & Hex & _).
  rewrite filter_middle, decide_True in Hsl by (by destruct h). destruct (cleaning s); [done|lia].
Qed.

Lemma spawn_entered asked (s : Shared E) before id q k after :
  sys_ok strerror asked (s, before ++ Spawn (ManualWorker id q) k :: after) ->
  cleaning s = true /\ asked !! id = None /\
  exists rec, sh_jobs s !! id = Some rec /\ jr_is_completed rec = false.
Proof.
  intros (hs & Ht & [Hsl _ Hj Hh _]). cbn [fst snd] in *.
  apply Forall2_app_inv_r in Ht as (hs1 & hs3 & _ & H2 & ->).
  apply Forall2_cons_inv_r in H2 as (h & hs2 & [Hw _] & _ & ->). cbn in Hw. subst h.
  rewrite filter_middle, decide_True in Hsl by done. split; [destruct (cleaning s); [done|lia]|].
  rewrite Forall_app, Forall_cons in Hh. destruct Hh as (_ & (Hno & _ & [rec Hrec]) & _). split; [done|].
  exists rec. split; [done|]. destruct (jr_is_completed rec) eqn:Ec; [|done].
  destruct (Hj id rec Hrec Ec) as (q' & r & Hq' & _). congruence.
Qed.

(** What the books say of the answers: a job without a record has not been asked, and an
    answer is that of a cleaning with the job's parameters. *)
Lemma books_unasked asked hs (s : Shared E) id :
  books_ok strerror asked hs s -> ledger (abstract s) !! id = None -> asked !! id = None.
Proof.
  intros Hok Hn. destruct (asked !! id) as [q|] eqn:Eq; [|done].
  destruct (bk_asked _ _ _ _ Hok id q Eq) as [_ [rec Hrec]]. cbn in Hn.
  by rewrite lookup_fmap, Hrec in Hn.
Qed.

Lemma books_answer asked hs (s : Shared E) id r :
  books_ok strerror asked hs s -> ledger (abstract s) !! id = Some (Some (answer_of strerror r)) ->
  exists q r', asked !! id = Some q /\ (q, r') ∈ log_of s /\ answer_of strerror r' = answer_of strerror r.
Proof.
  intros Hok Hl. cbn in Hl. rewrite lookup_fmap in Hl.
  destruct (sh_jobs s !! id) as [rec|] eqn:Ej; [|done]. cbn in Hl. unfold DaemonProps.entry in Hl.
  destruct (jr_is_completed rec) eqn:Ec; [|done].
  destruct (bk_jobs _ _ _ _ Hok id rec Ej Ec) as (q & r' & Hq & Hin & _ & Hans).
  exists q, r'. split; [done|]. split; [done|]. injection Hl as Hl.
  destruct r' as [rep|e], r as [rep'|e']; cbn in *; destruct Hans as (Hst & Hrep); simplify_eq.
  all: try (destruct Hrep); congruence.
Qed.

(** A step of the slot and the answers is one of the server. *)
Lemma serve_serves asked hs hs' (s s' : Shared E) :
  books_ok strerror asked hs s -> books_ok strerror asked hs' s' -> log_of s' = log_of s ->
  serve strerror (abstract s) (abstract s') ->
  serves strerror (view asked (abstract s) (log_of s)) (view asked (abstract s') (log_of s')).
Proof.
  intros Hok Hok' El Hv. pose proof (fun id => books_unasked asked hs s id Hok) as Hno.
  pose proof (fun id r => books_answer asked hs' s' id r Hok') as Hans. rewrite El in *.
  destruct Hv as [l|l|l id Hn|b l id r Hn].
  - constructor.
  - constructor.
  - rewrite view_insert, (Hno id Hn). constructor. by rewrite view_lookup; cbn; rewrite Hn.
  - rewrite view_insert. destruct (Hans id r (lookup_insert_eq _ _ _)) as (q & r' & Hq & Hin & <-).
    rewrite Hq. apply serves_answer; [|done]. by rewrite view_lookup; cbn; rewrite Hn, Hq.
Qed.

(** The start of a manual worker is the start of its job. *)
Lemma simulates_spawn s before id q k after a :
  simulates (s, before ++ Spawn (ManualWorker id q) k :: after) a ->
  simulates (s, before ++ k :: after ++ [worker_body strerror (ManualWorker id q)])
    (mkJobServer (js_busy a) (<[id := mkJob (Some q) None]> (js_jobs a)) (js_done a)) /\
  js_busy a = true /\ js_jobs a !! id = Some (mkJob None None).
Proof.
  intros [Hf (asked & Hok & ->)].
  destruct (spawn_sys_ok strerror asked s before _ k after Hok) as [_ Hok'].
  destruct (spawn_entered asked s before id q k after Hok) as (Hbusy & Hno & rec & Hrec & Hc).
  assert (ledger (abstract s) !! id = Some None) as Hl.
  { cbn. rewrite lookup_fmap, Hrec. cbn. unfold DaemonProps.entry. by rewrite Hc. }
  split; [|split; [exact Hbusy|by rewrite view_lookup; cbn [fst]; rewrite Hl; cbn; rewrite Hno]].
  split; [by eapply spawn_fits|]. eexists. split; [exact Hok'|]. cbn [fst started js_busy js_done view].
  unfold view. f_equal. apply map_eq. intros i. rewrite map_lookup_imap.
  destruct (decide (i = id)) as [->|Hne].
  - rewrite lookup_insert_eq, Hl. cbn. by rewrite lookup_insert_eq.
  - rewrite (lookup_insert_ne _ id i) by done. rewrite (lookup_insert_ne _ id i) by done.
    cbn [js_jobs]. rewrite map_lookup_imap. reflexivity.
Qed.

(** One step. *)
Lemma simulates_step may_fail y a z :
  simulates y a -> daemon_step may_fail y z -> sh_next_job_id (fst y) < U64_MAX ->
  exists a', simulates z a' /\ (a' = a \/ serves strerror a a').
Proof.
  intros [Hf (asked & Hok & ->)] Hs Hmax.
  destruct (step_fits strerror may_fail y z Hf Hs Hmax) as (Hf' & Hab & _).
  destruct Hs as [s before B en f k after Hen|s s' before q k r after (e' & He & ->)
                 |s before w k after|s before w k after _|s ts p Hp]; cbn [fst snd] in *.
  - destruct (act_log asked s before B en f k after Hok Hen Hmax) as [El Hok'].
    exists (view asked (abstract (snd (f s))) (log_of (snd (f s)))). split; [split; [done|by exists asked]|].
    destruct Hab as [Ha|Hv]; [left; by rewrite Ha, El|right].
    destruct Hok as (hs & _ & Hb), Hok' as (hs' & _ & Hb'). by eapply serve_serves.
  - pose proof (execute_busy asked s before q k after Hok) as Hbusy.
    assert (sys_ok strerror asked (set_engine e' (sh_engine_locked s) s, before ++ k r :: after)) as Hok'.
    { destruct Hok as (hs & Ht & Hok). cbn [fst snd] in *.
      apply Forall2_app_inv_r in Ht as (hs1 & hs3 & H1 & H2 & ->).
      apply Forall2_cons_inv_r in H2 as (h & hs2 & Hh & H3 & ->).
      unfold ends_square in Hh. cbn [keeps] in Hh. destruct (Hh r) as (h' & Hex & Hk).
      exists (hs1 ++ h' :: hs2). split; [by apply Forall2_app; [|constructor]|].
      eapply execute_ok; [exact Hok|exact Hex|done..|]. by apply log_executes. }
    eexists. split; [split; [done|]; exists asked; split; [exact Hok'|reflexivity]|]. right.
    cbn [fst]. replace (log_of (set_engine e' (sh_engine_locked s) s)) with ((q, fst r) :: log_of s)
      by (symmetry; by apply log_executes).
    unfold view. cbn. unfold cleaning in Hbusy. rewrite Hbusy. constructor.
  - destruct w as [cfg|id q].
    { destruct (spawn_sys_ok strerror asked s before _ k after Hok) as [_ Hok'].
      eexists. split; [split; [done|]; eexists; split; [exact Hok'|reflexivity]|by left]. }
    destruct (simulates_spawn s before id q k after _ (conj Hf (ex_intro _ asked (conj Hok eq_refl))))
      as (Hsim & Hbusy & Hjob).
    eexists. split; [exact Hsim|right]. cbn [fst snd] in *. by apply serves_start_at.
  - eexists. split; [split; [done|]; exists asked; split; [|reflexivity]|by left].
    destruct Hok as (hs & Ht & Hok). cbn [fst snd] in *.
    apply Forall2_app_inv_r in Ht as (hs1 & hs3 & H1 & H2 & ->).
    apply Forall2_cons_inv_r in H2 as (h & hs2 & [Hw Hk] & H3 & ->).
    exists (hs1 ++ HNothing :: hs2). split; [by apply Forall2_app; [|constructor]|].
    eapply drop_hold; [|exact Hok]. by destruct w; cbn in Hw; subst h.
  - eexists. split; [split; [done|]; exists asked; split; [|reflexivity]|by left].
    destruct Hok as (hs & Ht & Hok). cbn [fst snd] in *. exists (hs ++ [HNothing]).
    split; [|by apply arrive_ok]. apply Forall2_app; [done|]. constructor; [by apply square_handler|constructor].
Qed.

(** C4 The daemon implements the job server, step by step.  There is a relation between
    the states of the daemon, with all its threads, and those of the server, such that the
    start of the daemon is the empty server; related states show a client the same: the
    slot is [is_cleaning], the answers are those of [GetJobStatus], and the results are
    those of the calls the engine did; every step of any thread, an arriving command or a
    failed spawn is at most one step of the server, so no job is lost, none is answered
    twice, and an answer is the result of a finished call with the job's parameters; and
    the start of a manual worker with its parameters is the start of its job with the
    same parameters, which before had none and no answer.  (The state in which the 64-bit
    job counter is about to wrap is excluded.) *)
Theorem daemon_refines_server may_fail x :
  is_start x -> log_of (fst x) = [] ->
  exists R : Shared E * list (P E unit) -> JobServer -> Prop,
    R x JobServer_new /\
    (forall y a, R y a -> shows (fst y) a) /\
    (forall y a z, R y a -> daemon_step may_fail y z -> sh_next_job_id (fst y) < U64_MAX ->
       exists a', R z a' /\ (a' = a \/ serves strerror a a')) /\
    (forall s before id q k after a,
       R (s, before ++ Spawn (ManualWorker id q) k :: after) a ->
       R (s, before ++ k :: after ++ [worker_body strerror (ManualWorker id q)])
         (mkJobServer (js_busy a) (<[id := mkJob (Some q) None]> (js_jobs a)) (js_done a)) /\
       js_busy a = true /\ js_jobs a !! id = Some (mkJob None None)).
Proof.
  intros Hx Hl. destruct (start_fits strerror x Hx) as [Hf _].
  destruct (start_ok strerror x Hx Hl) as [Hok _].
  exists simulates. split; [|split; [exact simulates_shows|split; [exact (simulates_step may_fail)|
    exact simulates_spawn]]].
  split; [done|]. exists ∅. split; [done|]. rewrite Hl.
  by destruct Hx as (config & path & engine & now & main & _ & ->).
Qed.
End server.

(** ** An example: a client asks the daemon for a cleaning *)

Section server_example.
#[local] Abbreviation Engine := (Engine (K := MemFs.MemFs)).
#[local] Instance server_example_engine : CleanEngine Engine := pipeline_engine (fun _ => "f"%string).
#[local] Instance server_example_log : EngineLog Engine := pipeline_log (fun _ => "f"%string).

(** From the start to the moment the worker of job 1 is started, whose state the server
    shows with the job entered and, one step later, asked. *)
Lemma daemon_refines_server_witness :
  exists (s : Shared Engine) before k a,
    nsteps (daemon_step example_strerror false) 7 example_start
      (s, before ++ Spawn (ManualWorker 1 (job_params false)) k :: []) /\
    rtc (serves example_strerror) JobServer_new a /\ shows s a /\
    js_busy a = true /\ js_jobs a !! 1 = Some (mkJob None None).
Proof.
  destruct (example_job false) as (s & k & _ & _ & _ & Hn & _).
  destruct (daemon_refines_server example_strerror false example_start example_is_start)
    as (R & H0 & Hshow & Hstep & Hspawn); [reflexivity|].
  assert (forall n y a z, R y a -> nsteps (daemon_step example_strerror false) n y z ->
    sh_next_job_id (fst y) + N.of_nat n <= U64_MAX -> system_fits example_strerror y ->
    exists a', R z a' /\ rtc (serves example_strerror) a a') as Hsteps.
  { intros n y a z Hy Hr. revert a Hy. induction Hr as [y|n y z z' Hs _ IH]; intros a Hy Hlt Hf; [by exists a|].
    destruct (Hstep y a z Hy Hs ltac:(lia)) as (a1 & Hz & Ha1).
    destruct (step_fits example_strerror false y z Hf Hs ltac:(lia)) as (Hfz & _ & Hid).
    destruct (IH a1 Hz ltac:(lia) Hfz) as (a2 & Hz2 & Ha2). exists a2. split; [done|].
    destruct Ha1 as [->|Ha1]; [done|by eapply rtc_l]. }
  destruct (Hsteps 7%nat _ _ _ H0 Hn ltac:(vm_compute; discriminate)
              (proj1 (start_fits example_strerror example_start example_is_start))) as (a & Ha & Hrtc).
  exists s, [example_main], k, a. split; [exact Hn|]. split; [exact Hrtc|].
  split; [exact (Hshow _ _ Ha)|]. by apply Hspawn in Ha as (_ & Hb & Hj).
Defined.
End server_example.
