(* ===== verification/Progress.v ===== *)
(** The daemon does not get stuck: as long as threads can be started, whatever has been
    going on, its threads can finish what is open (src/system/daemon_state.rs).

    [serves] is a discipline in which a thread carries its duty: the runtime lock it
    holds, the slot and perhaps the engine, the answer it owes.  It also says that a
    thread with a duty is never in the way of itself.  Every program follows it, so
    in every reachable state each lock that is taken, the slot, and each job that is
    open has a thread that will see to it; and running these threads one after the
    other, lock holders first, leads to a state with nothing open. *)
From Stdlib Require Import Ascii String.
From stdpp Require Import relations.
From S2P Require Import Prelude Domain DaemonConfig Text Psi Idle Hardware EventLoop.
From S2P Require Import Cancellation Threads Daemon Reactor DaemonProps.
From S2P Require Pipeline Ipc Metrics.

(** The engine comes back from every call. *)
Class EngineReturns (E : Type) `{CleanEngine E} : Prop :=
  engine_returns q (e : E) : exists r e', engine_executes q e r e'.

(** ** Duties *)

Inductive Duty :=
| DFree
| DLock                                        (** the runtime lock *)
| DSlot (job : option N) (engine : bool)       (** the slot, perhaps a job, perhaps the engine *)
| DAnswer (id : N).                            (** the answer of a job *)

Definition holds_lock (d : Duty) : bool := match d with DLock => true | _ => false end.
Definition holds_slot (d : Duty) : bool := match d with DSlot _ _ => true | _ => false end.
Definition holds_engine (d : Duty) : bool := match d with DSlot _ true => true | _ => false end.
Definition sees_to (d : Duty) (id : N) : Prop :=
  match d with DSlot (Some i) _ | DAnswer i => i = id | _ => False end.
Definition busy (d : Duty) : bool := match d with DFree => false | _ => true end.

(** How many of a list of duties hold something. *)
Definition count (f : Duty -> bool) (ds : list Duty) : nat := length (List.filter f ds).

Lemma count_middle f ds1 d ds2 :
  count f (ds1 ++ d :: ds2) = ((if f d then 1 else 0) + count f (ds1 ++ ds2))%nat.
Proof. unfold count. rewrite !List.filter_app, !length_app. cbn. destruct (f d); cbn; lia. Qed.

Definition bit (b : bool) : nat := if b then 1 else 0.

Section duties.
Context {E : Type} `{CleanEngine E} (strerror : Errno -> string).

(** What others must have let go of for a thread with this duty to go on. *)
Definition able (d : Duty) (s : Shared E) : Prop :=
  match d with
  | DFree => False
  | DLock => True
  | DSlot _ false => sh_runtime_locked s = false /\ sh_engine_locked s = false
  | DSlot _ true | DAnswer _ => sh_runtime_locked s = false
  end.

Definition same_but_jobs (s s' : Shared E) : Prop :=
  cleaning s' = cleaning s /\ sh_runtime_locked s' = sh_runtime_locked s /\
  sh_engine_locked s' = sh_engine_locked s.

(** How one section may change a duty. *)
Inductive duty : Duty -> Duty -> Shared E -> Shared E -> Prop :=
| duty_none d s s' : same_but_jobs s s' -> sh_jobs s' = sh_jobs s -> duty d d s s'
| duty_claim s s' :
    cleaning s = false -> cleaning s' = true -> sh_runtime_locked s' = sh_runtime_locked s ->
    sh_engine_locked s' = sh_engine_locked s -> sh_jobs s' = sh_jobs s -> duty DFree (DSlot None false) s s'
| duty_enter id s s' :
    same_but_jobs s s' -> sh_jobs s' = <[id := running_record id]> (sh_jobs s) ->
    duty (DSlot None false) (DSlot (Some id) false) s s'
| duty_lock s s' :
    sh_runtime_locked s = false -> sh_runtime_locked s' = true -> cleaning s' = cleaning s ->
    sh_engine_locked s' = sh_engine_locked s -> sh_jobs s' = sh_jobs s -> duty DFree DLock s s'
| duty_unlock s s' :
    sh_runtime_locked s' = false -> cleaning s' = cleaning s ->
    sh_engine_locked s' = sh_engine_locked s -> sh_jobs s' = sh_jobs s -> duty DLock DFree s s'
| duty_engine j s s' :
    sh_engine_locked s = false -> sh_engine_locked s' = true -> cleaning s' = cleaning s ->
    sh_runtime_locked s' = sh_runtime_locked s -> sh_jobs s' = sh_jobs s ->
    duty (DSlot j false) (DSlot j true) s s'
| duty_leave j s s' :
    sh_engine_locked s' = false -> cleaning s' = cleaning s ->
    sh_runtime_locked s' = sh_runtime_locked s -> sh_jobs s' = sh_jobs s ->
    duty (DSlot j true) (DSlot j false) s s'
| duty_release j s s' :
    cleaning s' = false -> sh_runtime_locked s' = sh_runtime_locked s ->
    sh_engine_locked s' = sh_engine_locked s -> sh_jobs s' = sh_jobs s ->
    duty (DSlot j false) (match j with Some id => DAnswer id | None => DFree end) s s'
| duty_answer id o s s' :
    same_but_jobs s s' -> sh_jobs s' = alter (finish_record strerror o) id (sh_jobs s) ->
    duty (DAnswer id) DFree s s'.

(** The duty that a worker starts with. *)
Definition charge (w : Worker) : Duty :=
  match w with MaintenanceWorker _ => DSlot None false | ManualWorker id _ => DSlot (Some id) false end.

Fixpoint serves {A} (p : P E A) (d : Duty) (post : A -> Duty -> Prop) : Prop :=
  match p with
  | Ret a => post a d
  | Act en f k =>
      (forall s, able d s -> en s = true) /\
      forall s, en s = true -> exists d', duty d d' s (snd (f s)) /\ serves (k (fst (f s))) d' post
  | Execute q k => holds_engine d = true /\ forall o, serves (k o) d post
  | Spawn w k => d = charge w /\ serves k DFree post
  | Crash => d = DFree
  end.

Lemma serves_mono {A} (p : P E A) d (Q1 Q2 : A -> Duty -> Prop) :
  (forall a d', Q1 a d' -> Q2 a d') -> serves p d Q1 -> serves p d Q2.
Proof.
  intros HQ. revert d. induction p as [a|B en f k IH|q k IH|w k IH|]; intros d; cbn [serves]; [auto| | | |done].
  - intros [He Hp]. split; [done|]. intros s Hs. destruct (Hp s Hs) as (d' & Hd & Hk). exists d'. auto.
  - intros [He Hp]. split; [done|]. intros o. by apply IH.
  - intros [He Hp]. split; [done|]. by apply IH.
Qed.

Lemma serves_bind {A B} (p : P E A) (k : A -> P E B) d (Q : B -> Duty -> Prop) :
  serves p d (fun a d' => serves (k a) d' Q) -> serves (p ≫= k) d Q.
Proof.
  revert d. induction p as [a|C en f c IH|q c IH|w c IH|]; intros d; cbn; [auto| | | |done].
  - intros [He Hp]. split; [done|]. intros s Hs. destruct (Hp s Hs) as (d' & Hd & Hk). exists d'. auto.
  - intros [He Hp]. split; [done|]. intros o. by apply IH.
  - intros [He Hp]. split; [done|]. by apply IH.
Qed.

(** A thread, or a part of one, that begins and ends without a duty. *)
Definition idle {A} (p : P E A) : Prop := serves p DFree (fun _ d => d = DFree).

Lemma idle_bind {A B} (p : P E A) (k : A -> P E B) : idle p -> (forall a, idle (k a)) -> idle (p ≫= k).
Proof. intros Hp Hk. apply serves_bind. eapply serves_mono; [|apply Hp]. intros a d ->. apply Hk. Qed.
Lemma idle_ret {A} (a : A) : idle (mret a).
Proof. done. Qed.
Lemma idle_crash {A} : idle (@Crash _ _ _ _ A).
Proof. done. Qed.
Lemma idle_read {B} en (f : Shared E -> B) : idle (read en f).
Proof. split; [done|]. intros s Hs. exists DFree. by split; [constructor|]. Qed.
Lemma idle_write en (f : Shared E -> Shared E) :
  (forall s, en s = true -> same_but_jobs s (f s) /\ sh_jobs (f s) = sh_jobs s) -> idle (write en f).
Proof. intros Hf. split; [done|]. intros s Hs. exists DFree. destruct (Hf s Hs). by split; [constructor|]. Qed.
Lemma idle_rt_write (f : DaemonRuntimeState -> DaemonRuntimeState) :
  (forall rt, rt_is_cleaning (f rt) = rt_is_cleaning rt) -> idle (rt_write f).
Proof.
  intros Hf. apply idle_write. intros s Hs. unfold rt_free in Hs. apply negb_true_iff in Hs.
  unfold same_but_jobs, cleaning. cbn. by rewrite Hs, Hf.
Qed.

(** What never waits can be done under any duty. *)
Lemma serves_read d {B} (f : Shared E -> B) (Q : B -> Duty -> Prop) :
  (forall b, Q b d) -> serves (read always f) d Q.
Proof. intros HQ. split; [done|]. intros s _. exists d. by split; [constructor|apply HQ]. Qed.
Lemma serves_token d l : serves (token_calls l) d (fun _ d' => d' = d).
Proof.
  induction l as [|a l IH]; [done|]. cbn [token_calls]. apply serves_bind. split; [done|]. intros s _. exists d.
  by split; [constructor|].
Qed.
End duties.

Create HintDb idle.
#[export] Hint Resolve idle_ret idle_crash idle_read serves_token : idle.

(** ** Every program follows it *)

Section programs.
Context {E : Type} `{CleanEngine E} (strerror : Errno -> string).
#[local] Abbreviation idle := (@idle E strerror).
#[local] Abbreviation serves := (@serves E strerror).

(** Walks a program whose parts are known. *)
Ltac idles :=
  repeat first
    [ progress intros
    | match goal with |- context [let '(_, _) := ?x in _] => destruct x end
    | match goal with |- context [if ?x then _ else _] => destruct x end
    | match goal with |- context [match ?x with _ => _ end] => is_var x; destruct x end
    | by auto with idle
    | apply serves_token
    | apply idle_rt_write; by intros
    | apply idle_bind ].

Lemma idle_set_state st : idle (set_state st).
Proof. by apply idle_rt_write. Qed.
Lemma idle_set_screen_off t : idle (set_screen_off_since t).
Proof. by apply idle_rt_write. Qed.
Lemma idle_is_shutdown : idle is_shutdown_requested.
Proof. apply idle_read. Qed.
Lemma idle_is_cleaning : idle is_cleaning.
Proof. apply idle_read. Qed.
Lemma idle_read_config : idle read_config.
Proof. apply idle_read. Qed.
Lemma idle_off_duration now : idle (screen_off_duration now).
Proof. apply idle_read. Qed.
#[local] Hint Resolve idle_set_state idle_set_screen_off idle_is_shutdown idle_is_cleaning
  idle_read_config idle_off_duration : idle.

Lemma idle_thermal t : idle (compute_thermal_state t).
Proof. unfold compute_thermal_state, rt_read, set_thermal_state. idles. Qed.

(** The shutdown holds the runtime lock while it cancels, and waits for nothing then. *)
Lemma idle_shutdown : idle trigger_shutdown.
Proof.
  unfold trigger_shutdown. apply serves_bind. split; [done|]. intros s Hs. exists DLock.
  unfold rt_free in Hs. apply negb_true_iff in Hs. split; [by constructor|]. cbn [serves fst].
  apply serves_bind. eapply serves_mono; [|apply serves_token]. intros _ d ->.
  split; [done|]. intros s' _. exists DFree. by split; [constructor|].
Qed.

Lemma idle_reload r : idle (reload_config r).
Proof.
  unfold reload_config. apply idle_bind; [apply idle_read|]. intros path. destruct r as [cfg|e]; [|apply idle_ret].
  apply idle_bind.
  { apply idle_write. intros s Hs. unfold engine_free in Hs. apply negb_true_iff in Hs.
    unfold same_but_jobs. cbn. by rewrite Hs. }
  intros _. apply idle_bind; [by apply idle_write|]. intros _. apply idle_ret.
Qed.
Lemma idle_triggers since now c t : idle (evaluate_triggers since now c t).
Proof. unfold evaluate_triggers. idles. Qed.
Lemma idle_job_status id : idle (get_job_status id).
Proof. unfold get_job_status. idles. Qed.
Lemma idle_stats sn : idle (get_stats sn).
Proof. unfold get_stats, rt_read. idles. Qed.
#[local] Hint Resolve idle_thermal idle_shutdown idle_reload idle_triggers idle_job_status idle_stats : idle.
Lemma idle_status sn : idle (get_status sn).
Proof. unfold get_status, rt_read. idles. Qed.
Lemma idle_assessment sn : idle (get_idle_assessment sn).
Proof. unfold get_idle_assessment. idles. Qed.
#[local] Hint Resolve idle_status idle_assessment : idle.

Lemma serves_claim st refuse (post : bool -> Duty -> Prop) :
  (forall rt, refuse rt = false -> rt_is_cleaning rt = false) ->
  post true (DSlot None false) -> post false DFree -> serves (claim st refuse) DFree post.
Proof.
  intros Hr Ht Hf. split; [done|]. intros s Hs. unfold rt_free in Hs. apply negb_true_iff in Hs.
  cbn. destruct (refuse (sh_runtime s)) eqn:Er; cbn.
  - exists DFree. split; [by constructor|done].
  - exists (DSlot None false). split; [|done]. apply duty_claim; try done. by apply Hr.
Qed.

Lemma idle_trigger_clean params : idle (trigger_clean params).
Proof.
  unfold trigger_clean. apply serves_bind, serves_claim; [done| |done].
  apply serves_bind. eapply serves_mono; [|apply serves_token]. intros _ d ->. apply serves_bind.
  split; [done|]. intros s _. cbn. exists (DSlot None false). split; [by constructor|].
  split; [done|]. intros s' _. cbn. exists (DSlot (Some (sh_next_job_id s)) false). split; [by constructor|done].
Qed.

Lemma idle_spawn_maintenance : idle spawn_maintenance_worker.
Proof.
  unfold spawn_maintenance_worker. apply serves_bind, serves_claim; [| |done].
  - by intros rt [_ ?]%orb_false_iff.
  - apply serves_bind. eapply serves_mono; [|apply serves_token]. intros _ d ->.
    apply serves_bind, serves_read. by intros cfg.
Qed.
#[local] Hint Resolve idle_trigger_clean idle_spawn_maintenance : idle.

Lemma idle_handle_command sn cmd : idle (handle_command sn cmd).
Proof. unfold handle_command. apply idle_bind; [apply idle_is_shutdown|]. intros []; [done|]. destruct cmd; idles. Qed.

Lemma serves_finish_runtime j o :
  serves (finish_runtime o) (DSlot j false)
    (fun _ d => d = match j with Some id => DAnswer id | None => DFree end).
Proof.
  destruct o as [[report|e] ts]; (split; [intros s [Hs _]; unfold rt_free; by rewrite Hs|]); intros s Hs;
    unfold rt_free in Hs; apply negb_true_iff in Hs; eexists; by (split; [apply duty_release|]).
Qed.

Lemma serves_locked_execute q j :
  serves (locked_execute q) (DSlot j false) (fun _ d => d = DSlot j false).
Proof.
  unfold locked_execute. apply serves_bind. split; [intros s [_ Hs]; unfold engine_free; by rewrite Hs|].
  intros s Hs. unfold engine_free in Hs. apply negb_true_iff in Hs.
  exists (DSlot j true). split; [by constructor|]. cbn [serves fst]. split; [done|]. intros o. cbn.
  split; [done|]. intros s' _. exists (DSlot j false). by split; [constructor|].
Qed.

(** A worker ends without a duty. *)
Lemma serves_worker w : serves (worker_body strerror w) (charge w) (fun _ d => d = DFree).
Proof.
  destruct w as [cfg|id params]; cbn [worker_body charge]; apply serves_bind;
    (eapply serves_mono; [|apply serves_locked_execute]); intros o d ->.
  - apply (serves_finish_runtime None).
  - apply serves_bind. eapply serves_mono; [|apply (serves_finish_runtime (Some id))]. intros _ d ->.
    split; [done|]. intros s _. exists DFree. split; [|done]. by eapply duty_answer.
Qed.

Lemma idle_or_crash {A} (r : option A) : idle (or_crash r).
Proof. destruct r; [apply idle_ret|apply idle_crash]. Qed.
#[local] Hint Resolve idle_or_crash : idle.
Lemma idle_preempt r : idle (preempt r).
Proof. unfold preempt. idles. Qed.
#[local] Hint Resolve idle_preempt : idle.
Lemma idle_preempt_all l : idle (preempt_all l).
Proof. induction l as [|a l IH]; [apply idle_ret|]. destruct a; cbn [preempt_all]; idles. Qed.
Lemma idle_reclaim b level l : idle (reclaim_memory b level l).
Proof. unfold reclaim_memory. destruct (ll_psi l); idles. Qed.
#[local] Hint Resolve idle_preempt_all idle_reclaim : idle.
Lemma idle_run_maintenance b maint l : idle (run_maintenance b maint l).
Proof. unfold run_maintenance. idles. Qed.
#[local] Hint Resolve idle_run_maintenance : idle.
Lemma idle_handle_action b maint off a l : idle (handle_action b maint off a l).
Proof. destruct a; cbn [handle_action]; idles. Qed.
#[local] Hint Resolve idle_handle_action : idle.
Lemma idle_handle_actions b maint off acts l : idle (handle_actions b maint off acts l).
Proof. revert l. induction acts as [|a acts IH]; intros l; cbn [handle_actions]; idles. Qed.
#[local] Hint Resolve idle_handle_actions : idle.
Lemma idle_process_events b maint off c evs l : idle (process_events b maint off c evs l).
Proof. revert l. induction evs as [|ev evs IH]; intros l; cbn [process_events]; idles. Qed.
#[local] Hint Resolve idle_process_events : idle.
Lemma idle_epoll_loop fds waits l : idle (epoll_loop fds waits l).
Proof. revert l. induction waits as [|w waits IH]; intros l; cbn [epoll_loop]; unfold process_batch; idles. Qed.
Lemma idle_startup evs off maint st : idle (startup_uevents evs off maint st).
Proof. revert st. induction evs as [|q evs IH]; intros st; cbn [startup_uevents]; idles. Qed.
#[local] Hint Resolve idle_epoll_loop idle_startup : idle.
Lemma idle_fallback ticks last since : idle (fallback_loop ticks last since).
Proof.
  revert last since. induction ticks as [|t ticks IH]; intros last since; cbn [fallback_loop]; idles;
    destruct (t_screen t); idles.
Qed.
Lemma idle_cleanup polls : idle (perform_shutdown_cleanup polls).
Proof.
  unfold perform_shutdown_cleanup. idles. induction polls as [|n IH]; cbn [wait_for_worker]; idles.
Qed.
#[local] Hint Resolve idle_fallback idle_cleanup : idle.

Lemma idle_handler p : is_handler p -> idle p.
Proof. intros (sn & cmd & ->). apply idle_bind; [apply idle_handle_command|]. intros _. apply idle_ret. Qed.
Lemma idle_main p : is_main p -> idle p.
Proof. intros []; unfold run_epoll_loop, start_loop, run_fallback_loop; idles. Qed.
End programs.

(** ** What is open has a thread *)

Section system.
Context {E : Type} `{EngineReturns E} (strerror : Errno -> string).
#[local] Abbreviation daemon_step := (daemon_step (E := E) strerror).
#[local] Abbreviation duty := (@duty E strerror).

(** The daemon left to itself: no client comes, and threads can be started. *)
Definition own_step : Shared E * list (P E unit) -> Shared E * list (P E unit) -> Prop :=
  step daemon_executes (worker_body strerror) (fun _ => False) false.

Record open_ok (ds : list Duty) (s : Shared E) : Prop := {
  ok_lock : count holds_lock ds = bit (sh_runtime_locked s);
  ok_slot : count holds_slot ds = bit (cleaning s);
  ok_engine : count holds_engine ds = bit (sh_engine_locked s);
  ok_jobs id rec : sh_jobs s !! id = Some rec -> jr_is_completed rec = false ->
    exists d, d ∈ ds /\ sees_to d id;
}.

Definition dutiful (d : Duty) (p : P E unit) : Prop := serves strerror p d (fun _ d' => d' = DFree).
Definition sys_open (ds : list Duty) (x : Shared E * list (P E unit)) : Prop :=
  Forall2 dutiful ds (snd x) /\ open_ok ds (fst x).

(** Another thread's duty is still there after a change of one. *)
Lemma seen_still ds1 d d' ds2 id :
  (exists e, e ∈ ds1 ++ d :: ds2 /\ sees_to e id) -> (sees_to d id -> sees_to d' id) ->
  exists e, e ∈ ds1 ++ d' :: ds2 /\ sees_to e id.
Proof.
  intros (e & He & Hs) Hd. apply elem_of_app in He as [He|[->|He]%elem_of_cons].
  - exists e. split; [set_solver|done].
  - exists d'. split; [set_solver|auto].
  - exists e. split; [set_solver|done].
Qed.

Lemma duty_ok ds1 d d' ds2 s s' :
  open_ok (ds1 ++ d :: ds2) s -> duty d d' s s' -> open_ok (ds1 ++ d' :: ds2) s'.
Proof.
  intros [Hl Hs He Hj] Hd. rewrite count_middle in Hl, Hs, He.
  destruct Hd as [d s s' (Ec & El & Ee) Ej|s s' Ec0 Ec El Ee Ej|id s s' (Ec & El & Ee) Ej
    |s s' El0 El Ec Ee Ej|s s' El Ec Ee Ej|j s s' Ee0 Ee Ec El Ej|j s s' Ee Ec El Ej
    |j s s' Ec El Ee Ej|id o s s' (Ec & El & Ee) Ej]; cbn [holds_lock holds_slot holds_engine] in Hl, Hs, He.
  all: constructor; rewrite ?count_middle, ?Ec, ?El, ?Ee, ?Ej; cbn [holds_lock holds_slot holds_engine];
    rewrite ?Ec0, ?El0, ?Ee0 in *; try done; try (cbn in *; lia).
  all: try (intros i rec Hi Hc; eapply seen_still; [by eapply Hj|by cbn]).
  all: try (destruct j; cbn in *; lia).
  all: try (destruct (sh_runtime_locked s); cbn in *; lia).
  all: try (destruct (sh_engine_locked s); cbn in *; lia).
  - intros i rec. rewrite lookup_insert_Some. intros [[<- <-]|[Hne Hi]] Hc.
    + exists (DSlot (Some id) false). split; [set_solver|done].
    + eapply seen_still; [by eapply Hj|by cbn].
  - destruct (cleaning s), j; cbn in *; lia.
  - intros i rec Hi Hc. eapply seen_still; [by eapply Hj|]. by destruct j.
  - intros i rec Hi Hc. destruct (decide (i = id)) as [->|Hne].
    + rewrite lookup_alter_Some in Hi. destruct Hi as [(_ & r0 & _ & ->)|[? _]]; [|done].
      destruct o as [[report|e] ts]; done.
    + rewrite lookup_alter_ne in Hi by done. eapply seen_still; [by eapply Hj|]. cbn. congruence.
Qed.

(** The execution itself changes nothing that is counted. *)
Lemma execute_open ds q (s s' : Shared E) o : open_ok ds s -> daemon_executes q s o s' -> open_ok ds s'.
Proof. intros [Hl Hs He Hj] (e' & _ & ->). by constructor. Qed.

(** A worker takes over the duty of the thread that started it. *)
Lemma spawn_open ds1 d ds2 (s : Shared E) :
  open_ok (ds1 ++ d :: ds2) s -> open_ok ((ds1 ++ DFree :: ds2) ++ [d]) s.
Proof.
  intros [Hl Hs He Hj].
  assert (forall f, f DFree = false -> count f ((ds1 ++ DFree :: ds2) ++ [d]) = count f (ds1 ++ d :: ds2)) as Hc.
  { intros f Hf. rewrite (count_middle f (ds1 ++ DFree :: ds2)), app_nil_r, !count_middle, Hf. lia. }
  constructor; rewrite ?Hc by done; try done.
  intros id rec Hi Hrec. destruct (Hj id rec Hi Hrec) as (e & Hin & Hsee). exists e. split; [|done]. set_solver.
Qed.

Lemma step_open ds x y :
  daemon_step false x y -> sys_open ds x -> exists ds', sys_open ds' y.
Proof.
  intros Hs [Ht Hok].
  destruct Hs as [s before B en f k after Hen|s s' before q k r after Hex
                 |s before w k after|s before w k after Hno|s ts p Hp]; cbn [fst snd] in *;
    [..|done|];
    try (apply Forall2_app_inv_r in Ht as (ds1 & ? & H1 & H2 & ->);
         apply Forall2_cons_inv_r in H2 as (d & ds2 & Hd & H3 & ->); unfold dutiful in Hd; cbn [serves] in Hd).
  - destruct Hd as [_ Hd]. destruct (Hd s Hen) as (d' & Hdd & Hk). exists (ds1 ++ d' :: ds2).
    split; [by apply Forall2_app; [|constructor]|by eapply duty_ok].
  - destruct Hd as [_ Hd]. exists (ds1 ++ d :: ds2).
    split; [by apply Forall2_app; [|constructor; [apply Hd|]]|by eapply execute_open].
  - destruct Hd as [-> Hk]. exists ((ds1 ++ DFree :: ds2) ++ [charge w]).
    split; [|by apply spawn_open]. cbn [snd]. rewrite <- app_assoc. apply Forall2_app; [done|].
    constructor; [done|]. apply Forall2_app; [done|]. constructor; [apply serves_worker|constructor].
  - exists (ds ++ [DFree]). split.
    + apply Forall2_app; [done|]. constructor; [by apply idle_handler|constructor].
    + destruct Hok as [Hl Hsl He Hj]. constructor; rewrite ?count_middle, ?app_nil_r; cbn; try done.
      intros id rec Hi Hrec. destruct (Hj id rec Hi Hrec) as (e & Hin & Hsee). exists e. split; [|done]. set_solver.
Qed.

Lemma start_open x : is_start x -> sys_open [DFree] x.
Proof.
  intros (config & path & engine & now & main & Hm & ->). split; [constructor; [by apply idle_main|constructor]|].
  constructor; [done..|]. intros id rec. cbn. by rewrite lookup_empty.
Qed.

Lemma reachable_open x y : is_start x -> rtc (daemon_step false) x y -> exists ds, sys_open ds y.
Proof.
  intros Hx Hr. apply start_open in Hx. revert Hx. generalize [DFree].
  induction Hr as [|x y z Hs _ IH]; [by eauto|]. intros ds Hx.
  destruct (step_open ds x y Hs Hx) as (ds' & Hy). by eapply IH.
Qed.

(** ** Doing one duty *)

(** A thread with a duty is not in the way of itself, and when nobody has the runtime
    lock nobody else is in its way. *)
Lemma engine_le_slot ds : (count holds_engine ds <= count holds_slot ds)%nat.
Proof.
  induction ds as [|d ds IH]; [done|]. unfold count in *. cbn.
  destruct d as [| |j [|]|]; cbn; lia.
Qed.

Lemma duty_able ds1 d ds2 (s : Shared E) :
  open_ok (ds1 ++ d :: ds2) s -> busy d = true -> d = DLock \/ sh_runtime_locked s = false -> able d s.
Proof.
  intros [Hl Hs He _] Hb Hlock. destruct d as [| |j [|]|id]; cbn; try done; try (by destruct Hlock).
  destruct Hlock as [?|Hrt]; [done|]. split; [done|]. rewrite count_middle in Hs, He. cbn in Hs, He.
  pose proof (engine_le_slot (ds1 ++ ds2)). destruct (cleaning s), (sh_engine_locked s); cbn in *; lia.
Qed.

Lemma duty_keeps_lock d d' (s s' : Shared E) :
  duty d d' s s' -> d = DLock \/ sh_runtime_locked s = false -> busy d = true -> busy d' = true ->
  d' = DLock \/ sh_runtime_locked s' = false.
Proof.
  intros Hd Hl Hb Hb'.
  destruct Hd as [d s s' (Ec & El & Ee) _|s s' ? ? ? ? ?|id s s' (Ec & El & Ee) _|s s' ? ? ? ? ?|s s' ? ? ? ?
    |j s s' ? ? ? El ?|j s s' ? ? El ?|j s s' ? El ? ?|id o s s' (Ec & El & Ee) _]; try done;
    destruct Hl as [Hl|Hl]; try (by left); try discriminate Hl; right; congruence.
Qed.

Fixpoint no_spawn {A} (p : P E A) : Prop :=
  match p with
  | Ret _ | Crash => True
  | Act _ _ k => forall b, no_spawn (k b)
  | Execute _ k => forall o, no_spawn (k o)
  | Spawn _ _ => False
  end.

Lemma worker_no_spawn w : no_spawn (worker_body strerror w).
Proof. destruct w; cbn; intros _ [[report|e] ts]; cbn; auto. Qed.

(** The state after a duty is done, with one busy thread less. *)
Definition done_from (x : Shared E * list (P E unit)) (n : nat) : Prop :=
  exists y ds, rtc own_step x y /\ sys_open ds y /\ count busy ds = n.

Definition workers_run : Prop := forall w ds before (s : Shared E),
  Forall2 dutiful ds before -> open_ok (ds ++ [charge w]) s -> sh_runtime_locked s = false ->
  done_from (s, before ++ [worker_body strerror w]) (count busy ds).

Lemma run_duty p : no_spawn p \/ workers_run -> forall d ds1 ds2 before after (s : Shared E),
  dutiful d p -> Forall2 dutiful ds1 before -> Forall2 dutiful ds2 after ->
  open_ok (ds1 ++ d :: ds2) s -> busy d = true -> d = DLock \/ sh_runtime_locked s = false ->
  done_from (s, before ++ p :: after) (count busy (ds1 ++ ds2)).
Proof.
  unfold dutiful at 1. induction p as [a|B en f k IH|q k IH|w k IH|];
    intros Hsp d ds1 ds2 before after s Hd H1 H2 Hok Hb Hl; cbn [serves] in Hd.
  - by subst d.
  - destruct Hd as [Hen Hd]. specialize (Hen s (duty_able _ _ _ _ Hok Hb Hl)).
    destruct (Hd s Hen) as (d' & Hdd & Hk). pose proof (duty_ok _ _ _ _ _ _ Hok Hdd) as Hok'.
    assert (own_step (s, before ++ Act en f k :: after) (snd (f s), before ++ k (fst (f s)) :: after)) as Hst
      by (by constructor).
    destruct (busy d') eqn:Eb.
    + destruct (IH (fst (f s)) ltac:(destruct Hsp as [Hsp|Hsp]; [left; apply Hsp|by right])
                  d' ds1 ds2 before after (snd (f s))) as (y & ds & Hr & Hy); try done.
      { by eapply duty_keeps_lock. }
      exists y, ds. split; [by eapply rtc_l|done].
    + eexists _, (ds1 ++ d' :: ds2). split; [by apply rtc_once|]. split.
      * split; [|done]. by apply Forall2_app; [|constructor].
      * by rewrite count_middle, Eb.
  - destruct Hd as [He Hd]. destruct (engine_returns q (sh_engine s)) as (r & e' & Hex).
    assert (daemon_executes q s (r, 0) (set_engine e' (sh_engine_locked s) s)) as Hde by (by exists e').
    destruct (IH (r, 0) ltac:(destruct Hsp as [Hsp|Hsp]; [left; apply Hsp|by right])
                d ds1 ds2 before after (set_engine e' (sh_engine_locked s) s)) as (y & ds & Hr & Hy); try done.
    { by eapply execute_open. }
    exists y, ds. split; [|done]. eapply rtc_l; [by apply step_execute|done].
  - destruct Hd as [-> Hk]. destruct Hsp as [[]|Hw].
    destruct (Hw w (ds1 ++ DFree :: ds2) (before ++ k :: after) s) as (y & ds & Hr & Hy & Hn).
    + by apply Forall2_app; [|constructor].
    + by apply spawn_open.
    + destruct Hl as [Hl|Hl]; [by destruct w|done].
    + exists y, ds. split; [|split; [done|by rewrite Hn, count_middle]].
      eapply rtc_l; [apply step_spawn|]. by rewrite app_comm_cons, app_assoc.
  - by subst d.
Qed.

Lemma all_workers_run : workers_run.
Proof.
  intros w ds before s Ht Hok Hl.
  destruct (run_duty (worker_body strerror w) (or_introl (worker_no_spawn w)) (charge w) ds [] before [] s
              (serves_worker strerror w) Ht (List.Forall2_nil _) Hok) as (y & ds' & Hr & Hy & Hn);
    [by destruct w|by right|]. exists y, ds'. by rewrite app_nil_r in Hn.
Qed.

(** ** Doing them all *)

Lemma count_split f ds : count f ds <> 0%nat -> exists ds1 d ds2, ds = ds1 ++ d :: ds2 /\ f d = true.
Proof.
  induction ds as [|d ds IH]; [done|]. intros Hc. destruct (f d) eqn:Ef; [by exists [], d, ds|].
  unfold count in *. cbn in Hc. rewrite Ef in Hc. destruct (IH Hc) as (ds1 & d' & ds2 & -> & Hf).
  by exists (d :: ds1), d', ds2.
Qed.

(** Some busy thread can go on: the holder of the runtime lock, if there is one. *)
Lemma next_duty ds (s : Shared E) :
  open_ok ds s -> count busy ds <> 0%nat ->
  exists ds1 d ds2, ds = ds1 ++ d :: ds2 /\ busy d = true /\ (d = DLock \/ sh_runtime_locked s = false).
Proof.
  intros Hok Hb. destruct (sh_runtime_locked s) eqn:El.
  - destruct (count_split holds_lock ds) as (ds1 & d & ds2 & -> & Hd).
    { rewrite (ok_lock _ _ Hok), El. done. }
    exists ds1, d, ds2. destruct d; try done. by split; [|split; [|left]].
  - destruct (count_split busy ds Hb) as (ds1 & d & ds2 & -> & Hd). exists ds1, d, ds2. auto.
Qed.

Lemma all_done n : forall ds x, count busy ds = n -> sys_open ds x -> done_from x 0.
Proof.
  induction n as [|n IH]; intros ds [s ts] Hn [Ht Hok]; cbn [fst snd] in *.
  - exists (s, ts), ds. by split.
  - destruct (next_duty ds s Hok ltac:(lia)) as (ds1 & d & ds2 & -> & Hb & Hl).
    apply Forall2_app_inv_l in Ht as (before & rest & H1 & H2 & ->).
    apply Forall2_cons_inv_l in H2 as (p & after & Hd & H3 & ->).
    destruct (run_duty p (or_intror all_workers_run) d ds1 ds2 before after s Hd H1 H3 Hok Hb Hl)
      as (y & ds & Hr & Hy & Hc).
    rewrite count_middle, Hb in Hn. destruct (IH ds y ltac:(lia) Hy) as (z & ds' & Hr' & Hz).
    exists z, ds'. split; [by transitivity y|done].
Qed.

Lemma nothing_open ds (s : Shared E) :
  open_ok ds s -> count busy ds = 0%nat ->
  cleaning s = false /\ sh_runtime_locked s = false /\ sh_engine_locked s = false /\
  forall id rec, sh_jobs s !! id = Some rec -> jr_is_completed rec = true.
Proof.
  intros [Hl Hs He Hj] Hb.
  assert (forall d, d ∈ ds -> d = DFree) as Hall.
  { intros d (ds1 & ds2 & ->)%list_elem_of_split. rewrite count_middle in Hb. destruct d; cbn in Hb; [done|lia..]. }
  assert (forall f, f DFree = false -> count f ds = 0%nat) as H0'.
  { intros f Hf. destruct (decide (count f ds = 0%nat)) as [|Hne]; [done|].
    destruct (count_split f ds Hne) as (ds1 & d & ds2 & Hds & Hfd).
    rewrite (Hall d) in Hfd by (rewrite Hds; set_solver). congruence. }
  rewrite H0' in Hl, Hs, He by done.
  split; [by destruct (cleaning s)|]. split; [by destruct (sh_runtime_locked s)|].
  split; [by destruct (sh_engine_locked s)|]. intros id rec Hi. destruct (jr_is_completed rec) eqn:Ec; [done|].
  destruct (Hj id rec Hi Ec) as (d & Hd & Hsee). by rewrite (Hall d Hd) in Hsee.
Qed.

(** C12 The daemon does not get stuck: as long as threads can be started and cleanings come
    to an end, from every state it can reach, whatever commands, loop events, reloads
    and shutdowns led there and however they were interleaved, its own threads can go on
    to a state in which no cleaning is in progress, both locks are free, and every job
    that was ever accepted has its answer. *)
Theorem daemon_can_settle x y :
  is_start x -> rtc (daemon_step false) x y ->
  exists z, rtc own_step y z /\ rt_is_cleaning (sh_runtime (fst z)) = false /\
    sh_runtime_locked (fst z) = false /\ sh_engine_locked (fst z) = false /\
    forall id rec, sh_jobs (fst z) !! id = Some rec -> jr_is_completed rec = true.
Proof.
  intros Hx Hr. destruct (reachable_open x y Hx Hr) as (ds & Hy).
  destruct (all_done _ ds y eq_refl Hy) as (z & ds' & Hz & [_ Hok] & Hn).
  exists z. split; [done|]. by eapply nothing_open.
Qed.
End system.

(** ** An example *)

Section progress_example.
(** An engine whose every call is cancelled. *)
#[local] Instance cancelled_engine : CleanEngine unit := {
  engine_update_config cfg e := e;
  engine_executes q e r e' := r = Err Cancelled;
}.
#[local] Instance cancelled_returns : EngineReturns unit.
Proof. intros q e. by exists (Err Cancelled), tt. Qed.

Definition waiting_main : P unit unit :=
  _ ← run_fallback_loop 0 0 ScreenState.On []; _ ← perform_shutdown_cleanup 0; mret tt.

Definition some_sensed : Sensed :=
  mkSensed (mkThermal F32_ZERO F32_ZERO) Charger.Charging (fun _ => ScreenState.Off)
    (Metrics.mkMetrics F32_ZERO 0 0 0) None None None None 0 0 (Err "unreadable"%string).

Definition waiting_start : Shared unit * list (P unit unit) :=
  (DaemonContext_new DaemonConfig_default None tt 0, [waiting_main]).

#[local] Ltac take_step before :=
  eapply rtc_l; [first [refine (step_act _ _ _ _ _ before _ _ _ _ _ _); reflexivity
                       |refine (step_spawn _ _ _ _ _ before _ _ _)]|cbn [fst snd app]].

(** A client's cleaning has started; it can be finished. *)
Lemma daemon_can_settle_witness : exists y z : Shared unit * list (P unit unit),
  rt_is_cleaning (sh_runtime (fst y)) = true /\ sh_jobs (fst y) = {[1 := running_record 1]} /\
  rtc (own_step (fun _ => "error"%string)) y z /\ rt_is_cleaning (sh_runtime (fst z)) = false.
Proof.
  assert (exists y : Shared unit * list (P unit unit),
    rtc (daemon_step (fun _ => "error"%string) false) waiting_start y /\
    rt_is_cleaning (sh_runtime (fst y)) = true /\ sh_jobs (fst y) = {[1 := running_record 1]})
    as (y & Hr & Hc & Hj).
  { eexists. split; [|split].
    - eapply rtc_l; [apply step_arrives; by exists some_sensed, (Ipc.TriggerClean (Pipeline.mkParams false false false false))|].
      do 7 take_step (@cons (P unit unit) waiting_main nil). apply rtc_refl.
    - reflexivity.
    - reflexivity. }
  destruct (daemon_can_settle (fun _ => "error"%string) waiting_start y) as (z & Hz & Hcz & _).
  - eexists _, _, _, _, _. split; [|reflexivity]. exact (main_fallback 0 0 ScreenState.On [] 0).
  - exact Hr.
  - exists y, z. split; [exact Hc|]. split; [exact Hj|]. split; [exact Hz|exact Hcz].
Defined.
End progress_example.
