(* ===== verification/ConfigRuns.v ===== *)
(** The configuration of a running daemon: loading and reloading (src/config.rs), the
    commands and the signal that reload (src/system/daemon_state.rs,
    src/system/event_loop.rs), and every interleaving of the daemon's threads.

    [calm] states, program by program, that a thread keeps the shared configuration one
    that passed validation, and starts workers only with such a one; the threads of the
    daemon are calm, so every reachable state is. *)
From Stdlib Require Import Ascii String.
From stdpp Require Import relations.
From S2P Require Import Prelude Domain DaemonConfig ConfigFile Text Psi Idle Hardware EventLoop.
From S2P Require Import Cancellation Threads Daemon Reactor DaemonProps.
From S2P Require Pipeline Ipc Metrics.

Definition valid_config (c : DaemonConfig) : Prop := validate c = Ok tt.

(** What a reload may yield. *)
Definition reload_ok (r : result string DaemonConfig) : Prop :=
  match r with Ok c => valid_config c | Err _ => True end.

Section calm.
Context {E : Type} `{CleanEngine E} (strerror : Errno -> string).

Definition valid_shared (s : Shared E) : Prop := valid_config (sh_config s).
Definition valid_worker (w : Worker) : Prop :=
  match w with MaintenanceWorker cfg => valid_config cfg | ManualWorker _ _ => True end.

Fixpoint calm {A} (p : P E A) (post : A -> Prop) : Prop :=
  match p with
  | Ret a => post a
  | Act en f k => forall s, valid_shared s -> valid_shared (snd (f s)) /\ calm (k (fst (f s))) post
  | Execute q k => forall r, calm (k r) post
  | Spawn w k => valid_worker w /\ calm k post
  | Crash => True
  end.

Lemma calm_mono {A} (p : P E A) (Q1 Q2 : A -> Prop) : (forall a, Q1 a -> Q2 a) -> calm p Q1 -> calm p Q2.
Proof.
  intros HQ. induction p as [a|B en f k IH|q k IH|w k IH|]; cbn [calm]; [auto| |auto| |done].
  - intros Hp s Hs. destruct (Hp s Hs). auto.
  - intros [Hw Hk]. auto.
Qed.

Lemma calm_bind {A B} (p : P E A) (k : A -> P E B) R Q :
  calm p R -> (forall a, R a -> calm (k a) Q) -> calm (p ≫= k) Q.
Proof.
  intros Hp Hk. revert Hp. induction p as [a|C en f c IH|q c IH|w c IH|]; cbn; [auto| |auto| |done].
  - intros Hp s Hs. destruct (Hp s Hs). auto.
  - intros [Hw Hc]. auto.
Qed.

(** Programs whose result says nothing. *)
Definition quiet {A} (p : P E A) : Prop := calm p (fun _ => True).

Lemma quiet_bind {A B} (p : P E A) (k : A -> P E B) : quiet p -> (forall a, quiet (k a)) -> quiet (p ≫= k).
Proof. intros Hp Hk. eapply calm_bind; [exact Hp|]. intros a _. apply Hk. Qed.

Lemma quiet_ret {A} (a : A) : quiet (mret a).
Proof. done. Qed.
Lemma quiet_crash {A} : quiet (@Crash _ _ _ _ A).
Proof. done. Qed.
Lemma quiet_act {B} en (f : Shared E -> B * Shared E) :
  (forall s, sh_config (snd (f s)) = sh_config s) -> quiet (act en f).
Proof. intros Hf s Hs. split; [|done]. unfold valid_shared. by rewrite Hf. Qed.
Lemma quiet_write en (f : Shared E -> Shared E) :
  (forall s, sh_config (f s) = sh_config s) -> quiet (write en f).
Proof. intros Hf. by apply quiet_act. Qed.
Lemma quiet_read {B} en (f : Shared E -> B) : quiet (read en f).
Proof. by apply quiet_act. Qed.
Lemma quiet_rt_write f : quiet (rt_write f).
Proof. by apply quiet_write. Qed.
Lemma quiet_token l : quiet (token_calls l).
Proof.
  induction l as [|a l IH]; [apply quiet_ret|]. cbn [token_calls]. apply quiet_bind; [|done]. by apply quiet_write.
Qed.

(** A read of the configuration gives a valid one. *)
Lemma calm_read_config : calm read_config valid_config.
Proof. intros s Hs. done. Qed.
End calm.

Create HintDb quiet.
#[export] Hint Resolve quiet_ret quiet_crash quiet_read quiet_rt_write quiet_token : quiet.

Section programs.
Context {E : Type} `{CleanEngine E} (strerror : Errno -> string).
#[local] Abbreviation quiet := (@quiet E).

(** Walks a program whose parts are known. *)
Ltac walk :=
  repeat first
    [ progress intros
    | match goal with |- context [let '(_, _) := ?x in _] => destruct x end
    | match goal with |- context [if ?x then _ else _] => destruct x end
    | match goal with |- context [match ?x with _ => _ end] => is_var x; destruct x end
    | by auto with quiet
    | apply quiet_bind
    | apply quiet_write; by intros
    | apply quiet_act; by intros ].

Lemma quiet_set_state st : quiet (set_state st).
Proof. apply quiet_rt_write. Qed.
Lemma quiet_set_screen_off t : quiet (set_screen_off_since t).
Proof. apply quiet_rt_write. Qed.
Lemma quiet_read_config : quiet read_config.
Proof. apply quiet_read. Qed.
Lemma quiet_is_shutdown : quiet is_shutdown_requested.
Proof. apply quiet_read. Qed.
Lemma quiet_is_cleaning : quiet is_cleaning.
Proof. apply quiet_read. Qed.
Lemma quiet_off_duration now : quiet (screen_off_duration now).
Proof. apply quiet_read. Qed.
Lemma quiet_claim st refuse : quiet (claim st refuse).
Proof. apply quiet_act. intros s. cbn. by destruct (refuse (sh_runtime s)). Qed.
#[local] Hint Resolve quiet_set_state quiet_set_screen_off quiet_read_config quiet_is_shutdown
  quiet_is_cleaning quiet_off_duration quiet_claim : quiet.

Lemma quiet_thermal t : quiet (compute_thermal_state t).
Proof. unfold compute_thermal_state, rt_read, set_thermal_state. walk. Qed.
Lemma quiet_shutdown : quiet trigger_shutdown.
Proof. unfold trigger_shutdown. walk. Qed.
Lemma quiet_triggers since now c t : quiet (evaluate_triggers since now c t).
Proof. unfold evaluate_triggers. walk. Qed.
Lemma quiet_job_status id : quiet (get_job_status id).
Proof. unfold get_job_status. walk. Qed.
#[local] Hint Resolve quiet_thermal quiet_shutdown quiet_triggers quiet_job_status : quiet.
Lemma quiet_stats sn : quiet (get_stats sn).
Proof. unfold get_stats, rt_read. walk. Qed.
Lemma quiet_status sn : quiet (get_status sn).
Proof. unfold get_status, rt_read. walk. Qed.
Lemma quiet_idle sn : quiet (get_idle_assessment sn).
Proof. unfold get_idle_assessment. walk. Qed.

(** A reload installs only what passed validation. *)
Lemma quiet_reload r : reload_ok r -> quiet (reload_config r).
Proof.
  intros Hr. unfold reload_config. apply quiet_bind; [apply quiet_read|]. intros path.
  destruct r as [cfg|e]; [|apply quiet_ret]. apply quiet_bind; [by apply quiet_write|]. intros _.
  apply quiet_bind; [|intros; apply quiet_ret]. intros s Hs. split; [exact Hr|done].
Qed.

Lemma quiet_trigger_clean params : quiet (trigger_clean params).
Proof.
  unfold trigger_clean. apply quiet_bind; [apply quiet_claim|]. intros []; [|apply quiet_ret].
  apply quiet_bind; [apply quiet_token|]. intros _. apply quiet_bind; [by apply quiet_act|]. intros id.
  apply quiet_bind; [by apply quiet_write|]. intros _. done.
Qed.

Lemma quiet_spawn_maintenance : quiet spawn_maintenance_worker.
Proof.
  unfold spawn_maintenance_worker. apply quiet_bind; [apply quiet_claim|]. intros []; [|apply quiet_ret].
  apply quiet_bind; [apply quiet_token|]. intros _.
  eapply calm_bind; [apply calm_read_config|]. intros cfg Hcfg. by split.
Qed.
#[local] Hint Resolve quiet_stats quiet_status quiet_idle quiet_reload quiet_trigger_clean
  quiet_spawn_maintenance : quiet.

Lemma quiet_handle_command sn cmd : reload_ok (sn_reloaded sn) -> quiet (handle_command sn cmd).
Proof. intros Hsn. unfold handle_command. destruct cmd; walk. Qed.

Lemma quiet_locked_execute q : quiet (locked_execute q).
Proof.
  unfold locked_execute. apply quiet_bind; [by apply quiet_write|]. intros _.
  apply quiet_bind; [by intros r|]. intros o. apply quiet_bind; [by apply quiet_write|]. intros _. apply quiet_ret.
Qed.
Lemma quiet_finish_runtime o : quiet (finish_runtime o).
Proof. destruct o as [[report|e] ts]; apply quiet_rt_write. Qed.
#[local] Hint Resolve quiet_locked_execute quiet_finish_runtime : quiet.

Lemma quiet_worker w : quiet (worker_body strerror w).
Proof. destruct w as [cfg|id params]; cbn [worker_body]; unfold finish_job; walk. Qed.

(** ** The main thread *)

Lemma quiet_or_crash {A} (r : option A) : quiet (or_crash r).
Proof. by destruct r. Qed.
#[local] Hint Resolve quiet_or_crash : quiet.
Lemma quiet_preempt r : quiet (preempt r).
Proof. unfold preempt. walk. Qed.
#[local] Hint Resolve quiet_preempt : quiet.
Lemma quiet_preempt_all l : quiet (preempt_all l).
Proof. induction l as [|a l IH]; [apply quiet_ret|]. destruct a; cbn [preempt_all]; walk. Qed.
Lemma quiet_reclaim b level l : quiet (reclaim_memory b level l).
Proof. unfold reclaim_memory. destruct (ll_psi l); walk. Qed.
#[local] Hint Resolve quiet_preempt_all quiet_reclaim : quiet.
Lemma quiet_run_maintenance b maint l : quiet (run_maintenance b maint l).
Proof. unfold run_maintenance. walk. Qed.
#[local] Hint Resolve quiet_run_maintenance : quiet.

Lemma quiet_handle_action b maint off a l :
  reload_ok (b_reloaded b) -> quiet (handle_action b maint off a l).
Proof. intros Hb. destruct a; cbn [handle_action]; walk. Qed.

Lemma quiet_handle_actions b maint off acts l :
  reload_ok (b_reloaded b) -> quiet (handle_actions b maint off acts l).
Proof.
  intros Hb. revert l. induction acts as [|a acts IH]; intros l; cbn [handle_actions]; [apply quiet_ret|].
  apply quiet_bind; [by apply quiet_handle_action|]. intros [l' []]; [apply quiet_ret|apply IH].
Qed.

Lemma quiet_process_events b maint off c evs l :
  reload_ok (b_reloaded b) -> quiet (process_events b maint off c evs l).
Proof.
  intros Hb. revert l. induction evs as [|ev evs IH]; intros l; cbn [process_events]; [apply quiet_ret|].
  apply quiet_bind; [apply quiet_or_crash|]. intros [acts st].
  apply quiet_bind; [apply quiet_set_screen_off|]. intros _.
  apply quiet_bind; [by apply quiet_handle_actions|]. intros [l' []]; [apply quiet_ret|apply IH].
Qed.

(** The reloads that the waits of a loop will see. *)
Definition waits_ok (waits : list Wait) : Prop :=
  Forall (fun w => match w with Woken b => reload_ok (b_reloaded b) | _ => True end) waits.

Lemma quiet_epoll_loop fds waits l : waits_ok waits -> quiet (epoll_loop fds waits l).
Proof.
  intros Hw. revert l. induction Hw as [|w waits Hb _ IH]; intros l; cbn [epoll_loop];
    (apply quiet_bind; [apply quiet_is_shutdown|]); intros []; try apply quiet_ret.
  destruct w as [b| |]; [|apply IH|apply quiet_ret].
  apply quiet_bind; [|intros [l' []]; [apply quiet_ret|apply IH]].
  unfold process_batch. apply quiet_bind; [apply quiet_read_config|]. intros cfg.
  apply quiet_bind; [apply quiet_is_cleaning|]. intros c.
  apply quiet_bind; [by apply quiet_process_events|]. intros [l' []]; walk.
Qed.

Lemma quiet_startup evs off maint st : quiet (startup_uevents evs off maint st).
Proof.
  revert st. induction evs as [|q evs IH]; intros st; cbn [startup_uevents]; [apply quiet_ret|].
  apply quiet_bind; [apply quiet_or_crash|]. intros [acts st1].
  apply quiet_bind; [|done]. destruct acts as [|[]]; walk.
Qed.
#[local] Hint Resolve quiet_startup : quiet.

Lemma quiet_fallback ticks last since : quiet (fallback_loop ticks last since).
Proof.
  revert last since. induction ticks as [|t ticks IH]; intros last since; cbn [fallback_loop];
    (apply quiet_bind; [apply quiet_is_shutdown|]); intros []; try apply quiet_ret.
  apply quiet_bind; [destruct (t_screen t); walk|]. intros _.
  apply quiet_bind; [apply quiet_set_screen_off|]. intros _.
  apply quiet_bind; [apply quiet_read_config|]. intros cfg.
  apply quiet_bind; [|intros; apply IH]. destruct (_ <=? _); walk.
Qed.

Lemma quiet_cleanup polls : quiet (perform_shutdown_cleanup polls).
Proof.
  unfold perform_shutdown_cleanup. apply quiet_bind; [apply quiet_shutdown|]. intros _.
  apply quiet_bind; [|walk]. induction polls as [|n IH]; cbn [wait_for_worker]; walk.
Qed.
End programs.

(** ** Every run *)

Section runs.
Context {E : Type} `{CleanEngine E} `{TomlCodec} (strerror : Errno -> string) (error_text : CleanerError -> string).

(** The result of [DaemonConfig::reload_from_path] on some state of the disk. *)
Definition reloaded (d : Disk) (path : option string) : result string DaemonConfig :=
  result_map_err error_text (reload_from_path d path).
Definition from_disk (r : result string DaemonConfig) : Prop := exists d path, r = reloaded d path.

Lemma from_disk_ok r : from_disk r -> reload_ok r.
Proof.
  intros (d & path & ->). unfold reloaded. destruct (reload_from_path d path) as [c|e] eqn:Er; [|done].
  by apply (proj2 (loaded_config_valid d path)).
Qed.

(** A connection's thread and the main thread, whose reloads read the disk. *)
Definition disk_handler (p : P E unit) : Prop :=
  exists sn cmd, from_disk (sn_reloaded sn) /\ p = handler sn cmd.

Inductive disk_main : P E unit -> Prop :=
| disk_main_epoll fds psi now now' scr queued waits polls :
    Forall (fun w => match w with Woken b => from_disk (b_reloaded b) | _ => True end) waits ->
    disk_main (_ ← run_epoll_loop fds psi now now' scr queued waits;
               _ ← perform_shutdown_cleanup polls; mret tt)
| disk_main_fallback now now' scr ticks polls :
    disk_main (_ ← run_fallback_loop now now' scr ticks; _ ← perform_shutdown_cleanup polls; mret tt).

Lemma quiet_disk_main p : disk_main p -> quiet p.
Proof.
  intros [fds psi now now' scr queued waits polls Hw|now now' scr ticks polls];
    (apply quiet_bind; [|intros _; apply quiet_bind; [apply quiet_cleanup|done]]).
  - unfold run_epoll_loop. apply quiet_bind.
    + unfold start_loop. apply quiet_bind; [apply quiet_read|]. intros cfg.
      apply quiet_bind; [apply quiet_or_crash|]. intros st. apply quiet_bind; [apply quiet_or_crash|].
      intros [acts st']. apply quiet_bind; [apply quiet_rt_write|]. intros _. apply quiet_startup.
    + intros st. apply quiet_epoll_loop. eapply Forall_impl; [exact Hw|]. intros []; [apply from_disk_ok|done..].
  - apply quiet_fallback.
Qed.

Lemma quiet_disk_handler p : disk_handler p -> quiet p.
Proof.
  intros (sn & cmd & Hsn & ->). apply quiet_bind; [|done]. apply quiet_handle_command. by apply from_disk_ok.
Qed.

Definition disk_step (spawn_may_fail : bool) : Shared E * list (P E unit) -> Shared E * list (P E unit) -> Prop :=
  step daemon_executes (worker_body strerror) disk_handler spawn_may_fail.

Definition all_valid (x : Shared E * list (P E unit)) : Prop :=
  valid_shared (fst x) /\ Forall quiet (snd x).

Lemma disk_step_valid may_fail x y : all_valid x -> disk_step may_fail x y -> all_valid y.
Proof.
  intros [Hv Ht] Hs.
  destruct Hs as [s before B en f k after Hen|s s' before q k r after (e' & He & ->)
                 |s before w k after|s before w k after _|s ts p Hp]; cbn [fst snd] in *;
    try (rewrite Forall_app, Forall_cons in Ht; destruct Ht as (H1 & Hp & H3)); unfold quiet in *; cbn [calm] in *.
  - destruct (Hp s Hv) as [Hv' Hk]. split; [done|]. cbn. by rewrite Forall_app, Forall_cons.
  - split; [done|]. cbn. rewrite Forall_app, Forall_cons. split; [done|]. split; [apply Hp|done].
  - destruct Hp as [Hw Hk]. split; [done|]. cbn. rewrite Forall_app, Forall_cons, Forall_app.
    split; [done|]. split; [done|]. split; [done|]. constructor; [apply quiet_worker|done].
  - destruct Hp as [Hw Hk]. split; [done|]. cbn. by rewrite Forall_app, Forall_cons.
  - split; [done|]. cbn. rewrite Forall_app. split; [done|]. constructor; [by apply quiet_disk_handler|done].
Qed.

(** C15 The daemon never runs on an unchecked configuration: started with what
    [load_or_default] finds, and whatever the configuration files contain at any of the
    reloads that commands and SIGHUP cause, in every state that its threads can reach,
    in every interleaving, the shared configuration has passed validation. *)
Theorem daemon_config_valid may_fail d path active engine now main y :
  disk_main main ->
  rtc (disk_step may_fail) (DaemonContext_new (load_or_default d path) active engine now, [main]) y ->
  validate (sh_config (fst y)) = Ok tt.
Proof.
  intros Hm Hr.
  assert (all_valid (DaemonContext_new (load_or_default d path) active engine now, [main])) as Hv.
  { split; [apply (proj1 (loaded_config_valid d path))|]. constructor; [by apply quiet_disk_main|constructor]. }
  assert (all_valid y) as [Hy _]; [|exact Hy].
  revert Hv. induction Hr as [|x z w Hs _ IH]; [done|]. intros Hv. by eapply IH, disk_step_valid.
Qed.
End runs.

(** Validation compares and so accepts a limit that is not a number, which TOML can
    write as [nan]; no reading is above such a limit. *)
Definition with_nan_limits (c : DaemonConfig) : DaemonConfig :=
  mkDaemonConfig (dc_maintenance_interval_secs c) (dc_socket_path c) (dc_abstract_socket_name c)
    (dc_require_screen_off c) (dc_require_charging_for_deep_clean c) (dc_min_screen_off_secs c)
    SpecFloat.S754_nan SpecFloat.S754_nan (dc_cleaning c) (dc_optimization c) (dc_safety c).

Lemma nan_limit_accepted c screen_off_since now charger thermal thermal' :
  valid_config c ->
  valid_config (with_nan_limits c) /\
  triggers_allow (with_nan_limits c) screen_off_since now charger thermal =
  triggers_allow (with_nan_limits c) screen_off_since now charger thermal'.
Proof.
  intros Hc. split.
  - unfold valid_config, validate in *. cbn in *. destruct (_ <? 30); [done|].
    destruct (_ || _) in Hc; [done|]. destruct (_ || _) in Hc; [done|]. exact Hc.
  - assert (forall x, f32_gt x SpecFloat.S754_nan = false) as E by (by intros [| | |[]]).
    unfold triggers_allow.
    change (dc_max_soc_temp_c (with_nan_limits c)) with (SpecFloat.S754_nan : f32).
    change (dc_max_battery_temp_c (with_nan_limits c)) with (SpecFloat.S754_nan : f32). by rewrite !E.
Qed.

Module example.
#[local] Instance no_engine : CleanEngine unit := {
  engine_update_config _ e := e;
  engine_executes _ _ _ _ := False;
}.
#[local] Instance constant_toml : TomlCodec := {
  toml_from_str s := Ok DaemonConfig_default;
  toml_to_string_pretty c := Ok "x = 1"%string;
}.

Definition disk : Disk := mkDisk (fun _ => Ok "x = 1"%string) (fun _ => true).
Definition error_text (e : CleanerError) : string := "error".
Definition sensed : Sensed :=
  mkSensed (mkThermal F32_ZERO F32_ZERO) Charger.Charging (fun _ => ScreenState.Off)
    (Metrics.mkMetrics F32_ZERO 0 0 0) None None None None 0 0 (reloaded error_text disk None).
Definition main : P unit unit :=
  _ ← run_fallback_loop 0 0 ScreenState.On []; _ ← perform_shutdown_cleanup 0; mret tt.
Definition context : Shared unit := DaemonContext_new (load_or_default disk None) None tt 0.

(** A connection arrives and reloads. *)
Lemma daemon_config_valid_witness :
  exists y, rtc (disk_step (fun _ => "error"%string) error_text false) (context, [main]) y /\
    validate (sh_config (fst y)) = Ok tt.
Proof.
  destruct (run_alone (handle_command sensed Ipc.ReloadConfig) context) as [[[resp s'] ws]|] eqn:Er;
    [|vm_compute in Er; discriminate Er].
  assert (rtc (disk_step (fun _ => "error"%string) error_text false) (context, [main])
            (s', [main] ++ mret tt :: [] ++ map (worker_body (fun _ => "error"%string)) ws)) as Hr.
  { eapply rtc_l; [apply (step_arrives _ _ _ _ context [main] (handler sensed Ipc.ReloadConfig));
      exists sensed, Ipc.ReloadConfig; split; [by exists disk, None|reflexivity]|].
    exact (run_alone_steps _ _ _ false (handle_command sensed Ipc.ReloadConfig) (fun _ => mret tt)
             context resp s' ws [main] [] Er). }
  eexists. split; [exact Hr|].
  eapply (daemon_config_valid (fun _ => "error"%string) error_text false disk None None tt 0 main); [|exact Hr].
  apply disk_main_fallback.
Defined.
End example.
