(* ===== verification/IpcCall.v ===== *)
(** A call over the control socket, from end to end: src/ipc/client.rs and the rest of
    src/ipc/server.rs.

    [Sockets] is who listens where: names of the abstract name space, and paths of
    socket files.  Processes are numbers.  Binding and connecting are functions of it;
    each call may fail.  A served connection is the bytes the client wrote, which a
    failing write cuts off, and the bytes the server wrote back, which a failing read
    loses.

    The theorems: a call to a bound daemon returns exactly the handler's answer, or
    the refusal the caller's role and the worker limit call for, and only a permitted
    command that arrived whole reaches the daemon's state; but the client looks at fixed names, so a
    configured name is not found, and trusts whoever took the abstract name first. *)
From Stdlib Require Import Ascii String SpecFloat.
From S2P Require Import Prelude Domain Text DaemonConfig Hardware Idle Metrics Threads Ipc Daemon.

(** ** Names *)

Definition SOCKET_PATH : string := "/data/adb/cleaner/run/daemon".
Definition ABSTRACT_NAME : string := "cleaner_daemon".

(** The length of [sockaddr_un.sun_path]. *)
Definition SUN_PATH_LEN : nat := 108.

(** The part of an abstract name that is copied into the address. *)
Definition sun_path (name : string) : string :=
  String.substring 0 (Nat.min (String.length name) (SUN_PATH_LEN - 2)) name.

Record Sockets := mkSockets {
  sk_abstract : gmap string nat;
  sk_files : gmap string (option nat);  (** a file, and who listens on it *)
}.

(** ** Binding (server.rs) *)

(** What fails of the calls of [bind]. *)
Record BindFaults := mkBindFaults {
  bf_abstract : option Errno;
  bf_remove : bool;
  bf_file : option Errno;
}.

Definition no_bind_faults : BindFaults := mkBindFaults None false None.

Inductive Listener := AbstractListener | FileListener.

#[export] Instance Listener_eq_dec : EqDecision Listener.
Proof. solve_decision. Defined.

(** A name that is taken gives EADDRINUSE. *)
Definition bind_abstract_unix (failed : option Errno) (me : nat) (name : string) (sk : Sockets)
    : result Errno Sockets :=
  match failed with
  | Some e => Err e
  | None =>
      match sk_abstract sk !! sun_path name with
      | Some _ => Err (EOther 98)
      | None => Ok (mkSockets (<[sun_path name := me]> (sk_abstract sk)) (sk_files sk))
      end
  end.

(** [UnixListener::bind]: the path must fit and be free. *)
Definition bind_file (failed : option Errno) (me : nat) (path : string) (sk : Sockets)
    : result Errno Sockets :=
  match failed with
  | Some e => Err e
  | None =>
      if (SUN_PATH_LEN <=? String.length path)%nat || str_contains_char NUL path then Err INVAL
      else match sk_files sk !! path with
           | Some _ => Err (EOther 98)
           | None => Ok (mkSockets (sk_abstract sk) (<[path := Some me]> (sk_files sk)))
           end
  end.

Definition remove_socket (failed : bool) (path : string) (sk : Sockets) : Sockets :=
  if failed then sk else mkSockets (sk_abstract sk) (delete path (sk_files sk)).

Definition bind (f : BindFaults) (me : nat) (socket_path abstract_name : string) (sk : Sockets)
    : result CleanerError (list Listener) * Sockets :=
  let '(l1, sk1) :=
    if str_is_empty abstract_name then ([], sk)
    else match bind_abstract_unix (bf_abstract f) me abstract_name sk with
         | Ok sk' => ([AbstractListener], sk')
         | Err _ => ([], sk)
         end in
  let '(l2, sk2) :=
    if str_is_empty socket_path then ([], sk1)
    else let sk' := remove_socket (bf_remove f) socket_path sk1 in
         match bind_file (bf_file f) me socket_path sk' with
         | Ok sk'' => ([FileListener], sk'')
         | Err _ => ([], sk')
         end in
  match l1 ++ l2 with
  | [] => (Err (Domain.Ipc "Failed to bind any IPC socket"), sk2)
  | l => (Ok l, sk2)
  end.

(** ** Serving a connection (server.rs) *)

Section call.
Context {St : Type}.
(** serde_json, and the handler: [None] when it does not return. *)
Context (cmd_to_vec : Command -> result string (list N)) (cmd_from_slice : list N -> result string Command).
Context (resp_to_vec : Response -> result string (list N)) (resp_from_slice : list N -> result string Response).
Context (handler : Command -> St -> option (Response * St)).

(** [let _ = send_message(...)]: what reaches the client. *)
Definition send_or_drop (r : Response) : list N :=
  match send_message resp_to_vec r with Ok bytes => bytes | Err _ => [] end.

(** What the server knows of a connection: the peer's uid, the outcome of the limiter
    and whether the thread starts. *)
Record Accepted := mkAccepted { ac_peer : option N; ac_acquired : bool; ac_spawned : bool }.

(** The body of the loop of [accept_and_handle]. *)
Definition serve_connection (current_uid : N) (c : Accepted) (stream : list N) (st : St)
    : list N * St :=
  match handle_connection cmd_from_slice current_uid (ac_peer c) (ac_acquired c) stream with
  | Rejected msg =>
      if bool_decide (msg = "Permission denied: Insufficient privileges for this command"%string)
         && negb (ac_spawned c)
      then ([], st) else (send_or_drop (ErrorResponse msg), st)
  | Dropped => ([], st)
  | Handled cmd =>
      if ac_spawned c then
        match handler cmd st with
        | Some (resp, st') => (send_or_drop resp, st')
        | None => ([], st)
        end
      else ([], st)
  end.

(** ** The client (client.rs) *)

Definition connect_abstract_unix (failed : option Errno) (name : string) (sk : Sockets)
    : result Errno nat :=
  match failed with
  | Some e => Err e
  | None => match sk_abstract sk !! sun_path name with Some p => Ok p | None => Err (EOther 111) end
  end.

Definition connect_file (failed : option Errno) (path : string) (sk : Sockets) : result Errno nat :=
  match failed with
  | Some e => Err e
  | None => match sk_files sk !! path with Some (Some p) => Ok p | _ => Err (EOther 111) end
  end.

(** What fails of the client's calls: each connect; the write, with how much of the message
    it got out, as when the server has refused the connection and closed it; the read. *)
Record ConnectFaults := mkConnectFaults {
  cf_abstract : option Errno;
  cf_file : option Errno;
  cf_send : option (Errno * nat);
  cf_receive : option Errno;
}.

Definition no_connect_faults : ConnectFaults := mkConnectFaults None None None None.

Definition try_connect (f : ConnectFaults) (sk : Sockets) : result CleanerError nat :=
  let refused := Err (Domain.Ipc ("Could not connect to cleaner daemon at " +:+ SOCKET_PATH
                                  +:+ ". Is the daemon running?")) in
  match connect_abstract_unix (cf_abstract f) ABSTRACT_NAME sk with
  | Ok p => Ok p
  | Err _ =>
      if bool_decide (is_Some (sk_files sk !! SOCKET_PATH)) then
        match connect_file (cf_file f) SOCKET_PATH sk with
        | Ok p => Ok p
        | Err _ => refused
        end
      else refused
  end.

(** The read and write timeout of a call, in seconds. *)
Definition client_timeout_secs (command : Command) : N :=
  match command with TriggerClean _ => 60 | _ => 10 end.

(** [serve] is what the process that was reached writes back, which may be anyone. *)
Definition connect_and_send (f : ConnectFaults) (sk : Sockets)
    (serve : nat -> list N -> St -> list N * St) (command : Command) (st : St)
    : result CleanerError Response * St :=
  match try_connect f sk with
  | Err e => (Err e, st)
  | Ok p =>
      match send_message cmd_to_vec command with
      | Err e => (Err e, st)
      | Ok bytes =>
          match cf_send f with
          | Some (e, n) =>
              let '(_, st') := serve p (take (Nat.min n (Nat.pred (length bytes))) bytes) st in (Err (Io e), st')
          | None =>
              let '(reply, st') := serve p bytes st in
              (match cf_receive f with
               | Some e => Err (Io e)
               | None => fst (read_message resp_from_slice reply)
               end, st')
          end
      end
  end.

(** ** Lemmas *)

Lemma sun_path_name : sun_path ABSTRACT_NAME = ABSTRACT_NAME.
Proof. reflexivity. Qed.

Lemma read_reply resp :
  (forall p, resp_to_vec resp = Ok p -> resp_from_slice p = Ok resp) ->
  fst (read_message resp_from_slice (send_or_drop resp)) =
  if is_ok (send_message resp_to_vec resp) then Ok resp else Err (Io UnexpectedEof).
Proof.
  intros Hrt. unfold send_or_drop. destruct (send_message resp_to_vec resp) as [bytes|e] eqn:E; [|done].
  rewrite <- (app_nil_r bytes). by rewrite (read_sent resp_to_vec _ resp).
Qed.

(** ** The roles, independently of the code *)

Inductive Role := Root | System | Shell.

Definition role (uid : N) : option Role :=
  match uid with 0 => Some Root | 1000 => Some System | 2000 => Some Shell | _ => None end.

(** Root may do everything, the system ask and clean without deep cleaning and trimming,
    the shell only ask. *)
Definition permits (r : Role) (cmd : Command) : bool :=
  match r, cmd with
  | Root, _ => true
  | System, TriggerClean (Pipeline.mkParams false false _ _) => true
  | System, (Ping | GetStatus | GetStats | GetIdleAssessment | GetJobStatus _) => true
  | Shell, (Ping | GetStatus | GetStats | GetIdleAssessment | GetJobStatus _) => true
  | System, (TriggerClean _ | Cancel | ReloadConfig | StopDaemon) => false
  | Shell, (TriggerClean _ | Cancel | ReloadConfig | StopDaemon) => false
  end.

(** What becomes of a command. *)
Inductive Verdict := Granted | Refused (msg : string) | NoAnswer.

(** A caller of no role is refused at once, unless it has the daemon's own uid; one that
    is let in needs a free worker and its thread; and then the role decides. *)
Definition verdict (current_uid : N) (c : Accepted) (cmd : Command) : Verdict :=
  let serve (allowed : bool) :=
    if negb (ac_acquired c) then Refused "Daemon IPC busy, please retry shortly"
    else if negb (ac_spawned c) then NoAnswer
    else if allowed then Granted
    else Refused "Permission denied: Insufficient privileges for this command" in
  match ac_peer c with
  | None => Refused "Unauthorized caller UID"
  | Some uid =>
      match role uid with
      | Some r => serve (permits r cmd)
      | None => if uid =? current_uid then serve false else Refused "Unauthorized caller UID"
      end
  end.

Lemma role_allows current uid cmd :
  is_uid_allowed current uid = match role uid with Some _ => true | None => uid =? current end /\
  is_command_authorized uid cmd = match role uid with Some r => permits r cmd | None => false end.
Proof.
  unfold is_uid_allowed, is_command_authorized.
  destruct (N.eqb_spec uid 0) as [->|H0]; [by rewrite orb_true_r|].
  destruct (N.eqb_spec uid 1000) as [->|H1].
  { rewrite orb_true_r. split; [done|]. by destruct cmd as [|[[] [] ? ?]| | | | | | |]. }
  destruct (N.eqb_spec uid 2000) as [->|H2].
  { rewrite orb_true_r. split; [done|]. by destruct cmd as [|[[] [] ? ?]| | | | | | |]. }
  assert (role uid = None) as ->.
  { destruct (role uid) as [r|] eqn:Er; [|done]. exfalso. revert Er. unfold role.
    repeat (case_match; try done; subst; try congruence). }
  rewrite !orb_false_r. split; [done|].
  destruct cmd as [|p| | | | | | |]; try done. by destruct (negb (Pipeline.cp_deep p) && negb (Pipeline.cp_trim p)).
Qed.

(** What the server does with a whole message, and with one that was cut off. *)
Lemma serve_sent current c cmd bytes st :
  send_message cmd_to_vec cmd = Ok bytes ->
  (forall p, cmd_to_vec cmd = Ok p -> cmd_from_slice p = Ok cmd) ->
  serve_connection current c bytes st =
  match verdict current c cmd with
  | Refused msg => (send_or_drop (ErrorResponse msg), st)
  | NoAnswer => ([], st)
  | Granted => match handler cmd st with
               | Some (resp, st') => (send_or_drop resp, st')
               | None => ([], st)
               end
  end.
Proof.
  intros Hs Hrt. unfold serve_connection, handle_connection, verdict.
  rewrite <- (app_nil_r bytes), (read_sent cmd_to_vec _ cmd) by done. cbn [fst].
  destruct (ac_peer c) as [uid|]; [|done]. destruct (role_allows current uid cmd) as [-> ->].
  destruct (role uid) as [r|].
  - destruct (ac_acquired c); cbn [negb]; [|done]. by destruct (permits r cmd), (ac_spawned c).
  - destruct (uid =? current); [|done]. destruct (ac_acquired c); cbn [negb]; [|done]. by destruct (ac_spawned c).
Qed.

Lemma serve_cut current c cmd bytes n st :
  send_message cmd_to_vec cmd = Ok bytes -> (n < length bytes)%nat ->
  snd (serve_connection current c (take n bytes) st) = st.
Proof.
  intros Hs Hn. destruct (read_cut cmd_to_vec cmd_from_slice cmd bytes n Hs Hn) as [e He].
  unfold serve_connection, handle_connection. rewrite He.
  destruct (ac_peer c) as [uid|]; [|by case_match].
  destruct (is_uid_allowed current uid); [|by case_match]. by destruct (ac_acquired c).
Qed.

(** ** Properties *)

(** The numbers of a response can be written in JSON, which has no infinity. *)
Definition is_finite (x : f32) : bool :=
  match x with S754_zero _ | S754_finite _ _ _ => true | _ => false end.
Definition finite_response (r : Response) : bool :=
  match r with
  | Success (Status s) =>
      is_finite (ds_soc_temp_c s) && is_finite (ds_battery_temp_c s) && is_finite (ds_cpu_usage_pct s)
  | _ => true
  end.

(** C16 A call is transparent: once the client has reached the daemon, the response it reads
    is exactly the handler's answer, computed on the daemon's state, if the role of its uid
    permits the command, a worker is free and its thread starts; otherwise it is the
    refusal for its case, or an end of file when the thread does not start, and the state
    is untouched.  An answer that cannot be encoded within the frame limit, or none, is an
    end of file for the client.  If the client's write fails, as it may when the server has
    already refused and closed, the client gets that error and the state is untouched; if
    its read fails, the answer is lost but not what the handler did.  (serde_json is a
    parameter: it decodes the commands it encoded, and the responses whose numbers are
    finite; a status with another number is read as whatever its encoding decodes to.) *)
Theorem ipc_call_transparent f sk me current c cmd st :
  try_connect f sk = Ok me ->
  (forall m p, cmd_to_vec m = Ok p -> cmd_from_slice p = Ok m) ->
  (forall m p, finite_response m = true -> resp_to_vec m = Ok p -> resp_from_slice p = Ok m) ->
  let received resp :=
    match cf_receive f with
    | Some e => Err (Io e)
    | None =>
        if negb (is_ok (send_message resp_to_vec resp)) then Err (Io UnexpectedEof)
        else if finite_response resp then Ok resp
        else fst (read_message resp_from_slice (send_or_drop resp))
    end in
  let nothing := match cf_receive f with Some e => Err (Io e) | None => Err (Io UnexpectedEof) end in
  connect_and_send f sk (fun _ => serve_connection current c) cmd st =
  match send_message cmd_to_vec cmd, cf_send f with
  | Err e, _ => (Err e, st)
  | Ok _, Some (e, _) => (Err (Io e), st)
  | Ok _, None =>
      match verdict current c cmd with
      | Granted => match handler cmd st with
                   | Some (resp, st') => (received resp, st')
                   | None => (nothing, st)
                   end
      | Refused msg => (received (ErrorResponse msg), st)
      | NoAnswer => (nothing, st)
      end
  end.
Proof.
  intros Hc Hcmd Hresp received nothing. unfold connect_and_send. rewrite Hc.
  destruct (send_message cmd_to_vec cmd) as [bytes|e] eqn:Hs; [|done].
  destruct (cf_send f) as [[e n]|].
  { pose proof (serve_cut current c cmd bytes (Nat.min n (Nat.pred (length bytes))) st Hs) as Hcut.
    assert (0 < length bytes)%nat as Hlen.
    { revert Hs. unfold send_message. destruct (cmd_to_vec cmd) as [p|]; [|done].
      case_match; [done|]. intros [= <-]. cbn. lia. }
    destruct (serve_connection _ _ _ _) as [reply st']. cbn in Hcut. by rewrite Hcut by lia. }
  assert (forall resp, received resp = match cf_receive f with
            | Some e => Err (Io e) | None => fst (read_message resp_from_slice (send_or_drop resp)) end) as Hrec.
  { intros resp. unfold received. destruct (cf_receive f); [done|].
    destruct (finite_response resp) eqn:Ef.
    - rewrite read_reply by eauto. by destruct (is_ok _).
    - unfold send_or_drop. by destruct (send_message resp_to_vec resp). }
  rewrite (serve_sent _ _ cmd) by eauto. destruct (verdict current c cmd); [|by rewrite Hrec|done].
  destruct (handler cmd st) as [[resp st']|]; [by rewrite Hrec|done].
Qed.
End call.

(** ** Who is reached *)

(** A daemon with the default names that finds the abstract name free is reached. *)
Lemma bound_daemon_reached f me sk ls sk' :
  bf_abstract f = None -> sk_abstract sk !! ABSTRACT_NAME = None ->
  bind f me SOCKET_PATH ABSTRACT_NAME sk = (Ok ls, sk') -> try_connect no_connect_faults sk' = Ok me.
Proof.
  intros Hf Hfree Hb. assert (sk_abstract sk' !! ABSTRACT_NAME = Some me) as Hreg.
  { revert Hb. unfold bind. cbn [str_is_empty ABSTRACT_NAME SOCKET_PATH].
    change (str_is_empty ABSTRACT_NAME) with false. change (str_is_empty SOCKET_PATH) with false. cbv iota.
    unfold bind_abstract_unix. rewrite Hf, sun_path_name, Hfree.
    set (sk1 := mkSockets (<[ABSTRACT_NAME:=me]> (sk_abstract sk)) (sk_files sk)).
    assert (forall x, sk_abstract (remove_socket x SOCKET_PATH sk1) !! ABSTRACT_NAME = Some me) as Hrm.
    { intros []; simpl; by rewrite lookup_insert_eq. }
    unfold bind_file. destruct (bf_file f); [intros [= _ <-]; apply Hrm|].
    change ((SUN_PATH_LEN <=? String.length SOCKET_PATH)%nat || str_contains_char NUL SOCKET_PATH) with false.
    cbv iota. destruct (sk_files _ !! SOCKET_PATH); intros [= _ <-]; apply Hrm. }
  unfold try_connect, connect_abstract_unix. cbn [cf_abstract no_connect_faults].
  by rewrite sun_path_name, Hreg.
Qed.

(** A handler that runs the daemon's command with the machine to itself. *)
Definition daemon_handler {E} `{CleanEngine E} (sn : Sensed) (cmd : Command) (s : Shared E)
    : option (Response * Shared E) :=
  match run_alone (handle_command sn cmd) s with
  | Some (resp, s', _) => Some (resp, s')
  | None => None
  end.

Module example.
#[local] Instance no_engine : CleanEngine unit := {
  engine_update_config _ e := e;
  engine_executes _ _ _ _ := False;
}.

Definition cmd_enc (c : Command) : result string (list N) :=
  match c with Ping => Ok [0] | _ => Err "unsupported"%string end.
Definition cmd_dec (l : list N) : result string Command :=
  match l with [0] => Ok Ping | _ => Err "unsupported"%string end.
Definition resp_enc (r : Response) : result string (list N) :=
  match r with
  | Success (Pong v up) => if bool_decide (v = "1.0.0"%string) then Ok [up] else Err "unsupported"%string
  | _ => Err "unsupported"%string
  end.
Definition resp_dec (l : list N) : result string Response :=
  match l with [up] => Ok (Success (Pong "1.0.0" up)) | _ => Err "unsupported"%string end.

Definition sensed : Sensed :=
  mkSensed (mkThermal F32_ZERO F32_ZERO) Charger.Charging (fun _ => ScreenState.Off)
    (mkMetrics F32_ZERO 0 0 0) None None None None 0 7000000000 (Err "unreadable"%string).
Definition context : Shared unit := DaemonContext_new DaemonConfig_default None tt 0.
Definition sockets : Sockets := snd (bind no_bind_faults 1 SOCKET_PATH ABSTRACT_NAME (mkSockets ∅ ∅)).

Lemma ipc_call_transparent_witness :
  connect_and_send cmd_enc resp_dec no_connect_faults sockets
    (fun _ => serve_connection cmd_dec resp_enc (daemon_handler sensed) 0 (mkAccepted (Some 2000) true true))
    Ping context = (Ok (Success (Pong "1.0.0" 7)), context).
Proof.
  rewrite (ipc_call_transparent cmd_enc cmd_dec resp_enc resp_dec (daemon_handler sensed)
             no_connect_faults sockets 1 0 (mkAccepted (Some 2000) true true) Ping context).
  - vm_compute. reflexivity.
  - vm_compute. reflexivity.
  - intros [] p; vm_compute; try discriminate. by intros [= <-].
  - intros [[v up| | | | | |]|msg] p _; unfold resp_enc; try discriminate.
    case_bool_decide; [|discriminate]. subst v. by intros [= <-].
Defined.
End example.

(** The client trusts the abstract name: if some process takes it before the
    daemon starts, the daemon starts all the same on its socket file, and every later
    call goes to that process, whose answer, whatever it is, the client returns; the
    daemon never sees the command. *)
Theorem impostor_answers {St} cmd_to_vec resp_from_slice (f : BindFaults) me impostor sk cmd bytes (st : St)
    (serve : nat -> list N -> St -> list N * St) :
  sk_abstract sk !! ABSTRACT_NAME = Some impostor ->
  bf_remove f = false -> bf_file f = None ->
  send_message cmd_to_vec cmd = Ok bytes ->
  let '(started, sk') := bind f me SOCKET_PATH ABSTRACT_NAME sk in
  started = Ok [FileListener] /\
  connect_and_send cmd_to_vec resp_from_slice no_connect_faults sk' serve cmd st =
    (fst (read_message resp_from_slice (fst (serve impostor bytes st))), snd (serve impostor bytes st)).
Proof.
  intros Himp Hrm Hfile Hs. unfold bind.
  change (str_is_empty ABSTRACT_NAME) with false. change (str_is_empty SOCKET_PATH) with false. cbv iota.
  unfold bind_abstract_unix. rewrite sun_path_name, Himp, Hrm, Hfile.
  destruct (bf_abstract f); unfold bind_file, remove_socket;
    change ((SUN_PATH_LEN <=? String.length SOCKET_PATH)%nat || str_contains_char NUL SOCKET_PATH) with false;
    cbn [sk_files]; rewrite lookup_delete_eq; cbn [app]; (split; [done|]);
    unfold connect_and_send, try_connect, connect_abstract_unix; cbn [cf_abstract no_connect_faults sk_abstract];
    rewrite sun_path_name, Himp, Hs; by destruct (serve impostor bytes st).
Qed.

Lemma impostor_answers_witness :
  let sk := mkSockets {[ABSTRACT_NAME := 66%nat]} ∅ in
  exists sk', bind no_bind_faults 1 SOCKET_PATH ABSTRACT_NAME sk = (Ok [FileListener], sk') /\
  fst (connect_and_send example.cmd_enc example.resp_dec no_connect_faults sk'
         (fun p bytes st => (if (p =? 66)%nat then [0; 0; 0; 1; 99] else [], st)) Ping tt)
  = Ok (Success (Pong "1.0.0" 99)).
Proof.
  intros sk.
  pose proof (impostor_answers example.cmd_enc example.resp_dec no_bind_faults 1 66 sk Ping [0; 0; 0; 1; 0] tt
    (fun p bytes st => (if (p =? 66)%nat then [0; 0; 0; 1; 99] else [], st))
    ltac:(vm_compute; reflexivity) eq_refl eq_refl ltac:(vm_compute; reflexivity)) as Hi.
  destruct (bind no_bind_faults 1 SOCKET_PATH ABSTRACT_NAME sk) as [started sk'].
  destruct Hi as [-> Hc]. exists sk'. split; [reflexivity|]. rewrite Hc. vm_compute. reflexivity.
Defined.

(** Names from the configuration are not the client's: a daemon that listens on
    others is not found. *)
Lemma configured_name_not_found :
  let '(started, sk) := bind no_bind_faults 1 "/data/local/cleaner.sock" "my_cleaner" (mkSockets ∅ ∅) in
  started = Ok [AbstractListener; FileListener] /\ is_ok (try_connect no_connect_faults sk) = false.
Proof. vm_compute. done. Qed.

(** Without any name a daemon has no control socket. *)
Lemma no_names_no_socket f me sk :
  bind f me EmptyString EmptyString sk = (Err (Domain.Ipc "Failed to bind any IPC socket"), sk).
Proof. done. Qed.
