(* ===== verification/Control.v ===== *)
(** Controlling the daemon from the command line, src/cli/daemon_ctrl.rs and
    src/cli/clean.rs.

    A command is a program over a [Desk]: the number of calls made, the clock in
    milliseconds and what was done so far.  What the calls answer and how long they
    take is an arbitrary [Env]; a sleep takes at least what was asked.  Loops that the
    code bounds by the clock have a number of rounds here, and it is proved to be
    enough; the loop that waits for a job has no bound in the code, so its rounds are
    a parameter.

    The theorems: stopping always ends, signals only the process the pid file names,
    escalates in order with the promised delays, and always cleans up; a clean runs
    either in the daemon or, under the lock, here, never both; but the pid file may be
    anyone's, a large number in it addresses every process, and a client whose job
    never finishes waits for good. *)
From Stdlib Require Import Ascii String.
From S2P Require Import Prelude Domain Text DaemonConfig ConfigFile Pidfile Pipeline Ipc Daemon.

Inductive Sig := SIGHUP | SIGTERM | SIGKILL.

(** What a user sees, up to the layout of a report. *)
Inductive Output :=
| Println (s : string)
| Eprintln (s : string)
| PrintReport (r : CleanReport)
| PrintJson (r : CleanReport).

Inductive Action :=
| Asked (answer : option N)                  (** [get_running_pid] *)
| Probed (pid : N) (alive : bool)
| Called (cmd : Command)
| Signalled (pid : Z) (s : Sig)
| Slept (ms : N)
| SetProp
| CleanedStale
| RanDaemon (cfg : DaemonConfig) (path : option string)
| SpawnedDaemon (exe : string) (args : list string)
| TookLock (ok : bool)
| Lowered                                    (** background control group and priorities *)
| Executed (cfg : DaemonConfig) (params : CleanParams)
| ReleasedLock                               (** the lock is dropped at the end *)
| Wrote (o : Output).

(** The answers, by the number of the call, and the time each call takes. *)
Record Env := mkEnv {
  e_paths : nat -> list PathState;
  e_signal : nat -> Z -> result Errno unit;
  e_call : nat -> Command -> result CleanerError Response;
  e_delay : nat -> N;
  e_bin_exists : bool;
  e_current_exe : result string string;
  e_spawn : result string N;
  e_lock : result CleanerError unit;
  e_engine : DaemonConfig -> CleanParams -> result CleanerError CleanReport;
  e_error_text : CleanerError -> string;
  e_disk : Disk;
}.

Record Desk := mkDesk { d_calls : nat; d_now : N; d_done : list (N * Action) }.

Definition Ctl (A : Type) : Type := Desk -> A * Desk.
#[global] Instance Ctl_ret : MRet Ctl := fun A a d => (a, d).
#[global] Instance Ctl_bind : MBind Ctl := fun A B k m d => let '(a, d') := m d in k a d'.

Section control.
Context (e : Env) `{TomlCodec}.

(** ** Calls *)

(** The [n]-th call, whose answer and record depend on [n]. *)
Definition call {A} (f : nat -> A * Action) (ms : N) : Ctl A := fun d =>
  let '(a, act) := f (d_calls d) in
  (a, mkDesk (S (d_calls d)) (d_now d + ms + e_delay e (d_calls d)) ((d_now d, act) :: d_done d)).

Definition running_pid : Ctl (option N) :=
  call (fun n => let r := get_running_pid (e_signal e n) (e_paths e n) in (r, Asked r)) 0.
Definition alive (pid : N) : Ctl bool :=
  call (fun n => let r := is_process_alive (e_signal e n) pid in (r, Probed pid r)) 0.
Definition send (cmd : Command) : Ctl (result CleanerError Response) :=
  call (fun n => (e_call e n cmd, Called cmd)) 0.
Definition kill (pid : N) (s : Sig) : Ctl (result Errno unit) :=
  call (fun n => (e_signal e n (as_pid_t pid), Signalled (as_pid_t pid) s)) 0.
Definition sleep (ms : N) : Ctl unit := call (fun _ => (tt, Slept ms)) ms.
Definition did (a : Action) : Ctl unit := call (fun _ => (tt, a)) 0.
Definition out (o : Output) : Ctl unit := did (Wrote o).
Definition now : Ctl N := fun d => (d_now d, d).

(** ** Stopping *)

(** [while is_process_alive(pid) && start.elapsed() < limit { sleep(100) }]; [false] if
    the rounds do not suffice. *)
Fixpoint wait_gone (rounds : nat) (pid start limit : N) : Ctl bool :=
  match rounds with
  | O => mret false
  | S rounds' =>
      a ← alive pid;
      t ← now;
      if (a : bool) && (t - start <? limit) then _ ← sleep 100; wait_gone rounds' pid start limit
      else mret true
  end.

Definition STOP_ROUNDS : nat := 16.

(** Tier 2: SIGTERM if still alive, and wait again. *)
Definition term_stop (pid : N) : Ctl bool :=
  a ← alive pid;
  if a : bool then
    _ ← kill pid SIGTERM;
    term ← now;
    wait_gone STOP_ROUNDS pid term 1500
  else mret true.

(** Tier 3: SIGKILL if still alive; then init, and the verdict. *)
Definition kill_stop (pid : N) : Ctl unit :=
  a ← alive pid;
  _ ← (if a : bool then _ ← kill pid SIGKILL; sleep 200 else mret tt);
  _ ← did SetProp;
  a ← alive pid;
  if a : bool then out (Eprintln ("[!] Warning: Could not terminate PID " +:+ pretty pid +:+ "."))
  else out (Println ("[+] Cleaner daemon (PID: " +:+ pretty pid +:+ ") stopped completely.")).

Definition stop_pid (pid : N) : Ctl bool :=
  start ← now;
  ok1 ← wait_gone STOP_ROUNDS pid start 1500;
  ok2 ← term_stop pid;
  _ ← kill_stop pid;
  mret ((ok1 : bool) && (ok2 : bool)).

(** The result is whether the rounds were enough. *)
Definition stop_daemon : Ctl bool :=
  pid_opt ← running_pid;
  let go_on : Ctl bool :=
    _ ← out (Println "[*] Stopping cleaner daemon...");
    _ ← send StopDaemon;
    ok ← match pid_opt with
         | Some pid => stop_pid pid
         | None => _ ← out (Println "[+] Stop signal sent to cleaner daemon."); mret true
         end;
    _ ← did CleanedStale;
    mret ok in
  match pid_opt with
  | None =>
      r ← send Ping;
      match r with
      | Err _ =>
          _ ← out (Println "[*] Cleaner daemon is not running.");
          _ ← did CleanedStale;
          mret true
      | Ok _ => go_on
      end
  | Some _ => go_on
  end.

(** ** Starting *)

Definition BIN_PATH : string := "/data/adb/cleaner/bin/cleaner".
Definition START_ROUNDS : nat := 18.

(** [while start.elapsed() < 2500ms { sleep(150); ping }]: whether it became ready, and
    whether the rounds were enough. *)
Fixpoint wait_ready (rounds : nat) (start : N) : Ctl (bool * bool) :=
  match rounds with
  | O => mret (false, false)
  | S rounds' =>
      t ← now;
      if t - start <? 2500 then
        _ ← sleep 150;
        r ← send Ping;
        match r with
        | Ok (Success (Pong _ _)) => mret (true, true)
        | _ => wait_ready rounds' start
        end
      else mret (false, true)
  end.

Definition start_daemon (config_path : option string) (foreground : bool) : Ctl bool :=
  running ← running_pid;
  match running with
  | Some pid =>
      _ ← out (Println ("[!] Cleaner daemon is already running (PID: " +:+ pretty pid +:+ ")."));
      mret true
  | None =>
      if foreground then
        let '(cfg, path) := load_or_default_with_path (e_disk e) config_path in
        _ ← did (RanDaemon cfg path); mret true
      else
        match (if e_bin_exists e then Ok BIN_PATH else e_current_exe e) with
        | Err err => _ ← out (Eprintln ("[!] Failed to locate binary executable: " +:+ err)); mret true
        | Ok exe =>
            _ ← did (SpawnedDaemon exe
                  ("daemon" :: match config_path with Some p => ["--config"; p] | None => [] end)%string);
            match e_spawn e with
            | Err err => _ ← out (Eprintln ("[!] Failed to start background daemon: " +:+ err)); mret true
            | Ok child_pid =>
                _ ← out (Println ("[*] Spawning background daemon (PID: " +:+ pretty child_pid +:+ ")..."));
                start ← now;
                w ← wait_ready START_ROUNDS start;
                let '(ready, ok) := w : bool * bool in
                _ ← (if ready : bool then
                       out (Println ("[+] Cleaner daemon started successfully (PID: " +:+ pretty child_pid +:+ ")."))
                     else
                       a ← alive child_pid;
                       if a : bool then
                         out (Println ("[+] Cleaner daemon is running (PID: " +:+ pretty child_pid +:+ ")."))
                       else out (Eprintln "[!] Daemon process exited prematurely. Check system logs for details."));
                mret ok
            end
        end
  end.

Definition restart_daemon (config_path : option string) (foreground : bool) : Ctl bool :=
  _ ← out (Println "[*] Restarting Android Cache Cleaner Daemon...");
  ok1 ← stop_daemon;
  _ ← sleep 300;
  ok2 ← start_daemon config_path foreground;
  mret ((ok1 : bool) && (ok2 : bool)).

(** ** Cancelling and reloading *)

Definition cancel_operation : Ctl unit :=
  r ← send Cancel;
  match r with
  | Ok (Success (Message msg)) => out (Println ("[+] " +:+ msg))
  | Err err => out (Eprintln ("Failed to cancel operation: " +:+ e_error_text e err))
  | _ => mret tt
  end.

Definition reload_config : Ctl unit :=
  r ← send ReloadConfig;
  match r with
  | Ok (Success (Message msg)) => out (Println ("[+] " +:+ msg))
  | Ok (ErrorResponse err) => out (Eprintln ("[!] Config reload rejected: " +:+ err))
  | _ =>
      let failed := out (Eprintln "[!] Failed to reload: Cleaner daemon is not running.") in
      running ← running_pid;
      match running with
      | Some pid =>
          res ← kill pid SIGHUP;
          if is_ok (res : result Errno unit)
          then out (Println ("[+] Sent SIGHUP reload signal to daemon (PID: " +:+ pretty pid +:+ ")"))
          else failed
      | None => failed
      end
  end.

(** ** Cleaning (clean.rs) *)

Definition DQUOTE : string := String (ascii_of_N 34) EmptyString.
(** [println!("{{\"key\": \"{}\"}}", value)]: nothing is escaped. *)
Definition json_field (key value : string) : string :=
  "{" +:+ DQUOTE +:+ key +:+ DQUOTE +:+ ": " +:+ DQUOTE +:+ value +:+ DQUOTE +:+ "}".

Definition clean_params (deep trim zram dry_run : bool) : CleanParams :=
  mkParams deep (trim || deep) (zram || deep) dry_run.

(** [if json { println!(json) } else { text }] *)
Definition told (json : bool) (j : string) (text : Output) : Ctl unit :=
  if json then out (Println j) else out text.

Definition print_report (json : bool) (headline : string) (r : CleanReport) : Ctl unit :=
  if json then out (PrintJson r) else _ ← out (Println headline); out (PrintReport r).

(** The loop that tracks a job; [false] if it is still waiting after the rounds. *)
Fixpoint track_job (rounds : nat) (job_id : N) (json : bool) : Ctl bool :=
  match rounds with
  | O => mret false
  | S rounds' =>
      _ ← sleep 150;
      r ← send (GetJobStatus job_id);
      match r with
      | Ok (Success (JobStatus _ state _ is_completed report)) =>
          if is_completed : bool then
            _ ← match report with
                | Some rep =>
                    print_report json ("[+] Clean job #" +:+ pretty job_id +:+ " completed via Daemon IPC:") rep
                | None =>
                    told json
                      ("{" +:+ DQUOTE +:+ "job_id" +:+ DQUOTE +:+ ": " +:+ pretty job_id +:+ ", " +:+ DQUOTE
                       +:+ "status" +:+ DQUOTE +:+ ": " +:+ DQUOTE +:+ state +:+ DQUOTE +:+ "}")
                      (Eprintln ("[!] Clean job #" +:+ pretty job_id +:+ " finished with state: " +:+ state))
                end;
            mret true
          else track_job rounds' job_id json
      | Ok (ErrorResponse err) =>
          _ ← told json (json_field "error" err)
                (Eprintln ("[!] Error polling job #" +:+ pretty job_id +:+ ": " +:+ err));
          mret true
      | Err err =>
          _ ← told json (json_field "error" (e_error_text e err))
                (Eprintln ("[!] Connection lost while polling job #" +:+ pretty job_id +:+ ": " +:+
                           e_error_text e err));
          mret true
      | _ => track_job rounds' job_id json
      end
  end.

Definition delegate_clean (rounds : nat) (pid : N) (params : CleanParams) (json : bool) : Ctl bool :=
  _ ← (if json then mret tt
       else out (Println ("[*] Active daemon detected (PID: " +:+ pretty pid +:+
                          "). Delegating clean job via IPC...")));
  r ← send (TriggerClean params);
  match r with
  | Ok (Success (JobAccepted job_id message)) =>
      _ ← (if json then mret tt
           else _ ← out (Println ("[+] " +:+ message));
                out (Println ("[*] Tracking progress for job #" +:+ pretty job_id +:+ "...")));
      track_job rounds job_id json
  | Ok (Success (Report report)) =>
      _ ← print_report json "[+] Clean job executed via Daemon IPC:" report; mret true
  | Ok (Success (Message msg)) =>
      _ ← told json (json_field "message" msg) (Println ("[+] Daemon message: " +:+ msg)); mret true
  | Ok (ErrorResponse msg) =>
      _ ← told json (json_field "error" msg) (Eprintln ("[!] Daemon returned error: " +:+ msg)); mret true
  | Err err =>
      _ ← told json (json_field "error" (e_error_text e err))
            (Eprintln ("[!] Failed to communicate with daemon (PID: " +:+ pretty pid +:+ "): " +:+
                       e_error_text e err));
      mret true
  | _ =>
      _ ← told json (json_field "error" "Unexpected response from daemon")
            (Eprintln "[!] Unexpected response from daemon");
      mret true
  end.

Definition standalone_clean (config : DaemonConfig) (params : CleanParams) (json : bool) : Ctl bool :=
  _ ← (if json then mret tt
       else out (Println "[*] Daemon is offline. Running standalone clean mode..."));
  _ ← did (TookLock (is_ok (e_lock e)));
  match e_lock e with
  | Err err =>
      _ ← told json (json_field "error" (e_error_text e err))
            (Eprintln ("[!] Cannot run standalone clean: " +:+ e_error_text e err));
      mret true
  | Ok _ =>
      _ ← did Lowered;
      _ ← did (Executed config params);
      _ ← match e_engine e config params with
          | Ok report => print_report json "[+] Standalone Clean Completed:" report
          | Err err => out (Eprintln ("[-] Clean execution failed: " +:+ e_error_text e err))
          end;
      _ ← did ReleasedLock;
      mret true
  end.

Definition execute_clean (rounds : nat) (config : DaemonConfig) (deep trim zram dry_run json : bool) : Ctl bool :=
  let params := clean_params deep trim zram dry_run in
  pid_opt ← running_pid;
  match pid_opt with
  | Some pid => delegate_clean rounds pid params json
  | None => standalone_clean config params json
  end.
End control.

(** ** Reasoning *)

Definition wp {A} (m : Ctl A) (Q : A -> Desk -> Prop) (d : Desk) : Prop := let '(a, d') := m d in Q a d'.

Lemma ctl_bind {A B} (m : Ctl A) (k : A -> Ctl B) Q d : wp m (fun a => wp (k a) Q) d -> wp (m ≫= k) Q d.
Proof. unfold wp, mbind, Ctl_bind. by destruct (m d). Qed.

Lemma ctl_ret {A} (a : A) (Q : A -> Desk -> Prop) d : Q a d -> wp (mret a) Q d.
Proof. done. Qed.

Lemma ctl_mono {A} (m : Ctl A) (Q Q' : A -> Desk -> Prop) d :
  wp m Q d -> (forall a d', Q a d' -> Q' a d') -> wp m Q' d.
Proof. unfold wp. destruct (m d). eauto. Qed.

Lemma wp_snd {A} (m : Ctl A) (Q : Desk -> Prop) d : wp m (fun _ d' => Q d') d -> Q (snd (m d)).
Proof. unfold wp. by destruct (m d). Qed.

Lemma wp_call {A} e (f : nat -> A * Action) ms (Q : A -> Desk -> Prop) d :
  Q (fst (f (d_calls d)))
    (mkDesk (S (d_calls d)) (d_now d + ms + e_delay e (d_calls d)) ((d_now d, snd (f (d_calls d))) :: d_done d)) ->
  wp (call e f ms) Q d.
Proof. unfold wp, call. by destruct (f (d_calls d)). Qed.

(** One call, or a few. *)
Ltac ctl_call := apply ctl_bind, wp_call; cbn [fst snd d_calls d_now d_done].

Definition signals (l : list (N * Action)) : list (N * Z * Sig) :=
  omap (fun '(t, a) => match a with Signalled p s => Some (t, p, s) | _ => None end) l.

(** Time and calls go on. *)
Definition goes_on (k : nat) (d d' : Desk) : Prop :=
  d_now d <= d_now d' /\ (d_calls d <= d_calls d' <= d_calls d + k)%nat.

Section stopping.
Context (e : Env) `{TomlCodec} (pid : N).

(** A loop ends within its rounds, signals nobody, and ends because the process was
    seen gone or the time was up. *)
Lemma wait_gone_spec rounds start limit d :
  start <= d_now d -> (1 <= rounds)%nat ->
  limit <= (d_now d - start) + 100 * N.of_nat (rounds - 1) ->
  wp (wait_gone e rounds pid start limit) (fun ok d' =>
    ok = true /\ goes_on (2 * rounds) d d' /\ signals (d_done d') = signals (d_done d) /\
    (limit <= d_now d' - start \/
     exists n, (n < d_calls d')%nat /\ is_process_alive (e_signal e n) pid = false)) d.
Proof.
  revert d. induction rounds as [|rounds IH]; [lia|]. intros d Hst _ Hlim. cbn [wait_gone].
  ctl_call. unfold now. apply ctl_bind. unfold wp at 1. cbn [fst snd d_now].
  destruct (is_process_alive (e_signal e (d_calls d)) pid) eqn:Ea; cbn [andb].
  2: { apply ctl_ret. cbn. split; [done|]. unfold goes_on. cbn. repeat split; try lia. right.
       exists (d_calls d). split; [lia|done]. }
  destruct (N.ltb_spec (d_now d + 0 + e_delay e (d_calls d) - start) limit) as [Hlt|Hge].
  - apply ctl_bind, wp_call. cbn [fst snd].
    eapply ctl_mono; [apply IH; cbn; lia|]. cbn. intros ok d' (-> & Hg & Hs & Hend).
    split; [done|]. unfold goes_on in *. cbn in *. repeat split; try lia; done.
  - apply ctl_ret. cbn. split; [done|]. unfold goes_on. cbn. repeat split; lia.
Qed.

(** A process that is gone stays gone: its number is not given to another. *)
Definition stays_gone : Prop :=
  forall n m, (n <= m)%nat -> is_process_alive (e_signal e n) pid = false ->
    is_process_alive (e_signal e m) pid = false.

(** What is sent to the process from time [t0] on: nothing, or SIGTERM after the
    patience of 1.5 s, or after as much again SIGKILL. *)
Definition escalation (t0 : N) (l : list (N * Z * Sig)) : Prop :=
  l = [] \/
  (exists t1, l = [(t1, as_pid_t pid, SIGTERM)] /\ t0 + 1500 <= t1) \/
  (exists t1 t2, l = [(t2, as_pid_t pid, SIGKILL); (t1, as_pid_t pid, SIGTERM)] /\
     t0 + 1500 <= t1 /\ t1 + 1500 <= t2).

(** The probe that a call at desk [d] makes. *)
Abbreviation probe d := (is_process_alive (e_signal e (d_calls d)) pid).

Lemma term_stop_spec d :
  wp (term_stop e pid) (fun ok d' =>
    ok = true /\ goes_on 40 d d' /\
    ((probe d = false /\ signals (d_done d') = signals (d_done d)) \/
     (probe d = true /\ exists t1, d_now d <= t1 /\
        signals (d_done d') = (t1, as_pid_t pid, SIGTERM) :: signals (d_done d) /\
        (t1 + 1500 <= d_now d' \/
         exists n, (n < d_calls d')%nat /\ is_process_alive (e_signal e n) pid = false)))) d.
Proof.
  unfold term_stop. ctl_call. destruct (probe d) eqn:Ea.
  - ctl_call. apply ctl_bind. unfold now, wp at 1. eapply ctl_mono; [apply wait_gone_spec; unfold STOP_ROUNDS; cbn; lia|].
    cbn. intros ok d' (-> & [Hn Hc] & Hs & Hend). split; [done|]. unfold goes_on in *. cbn in *.
    split; [unfold STOP_ROUNDS in Hc; lia|]. right. split; [done|]. eexists. rewrite Hs.
    split; [|split; [reflexivity|]]; [lia|]. destruct Hend as [|Hend]; [left; lia|by right].
  - apply ctl_ret. cbn. split; [done|]. unfold goes_on. cbn. split; [lia|]. by left.
Qed.

Lemma kill_stop_spec d :
  wp (kill_stop e pid) (fun _ d' =>
    goes_on 6 d d' /\
    ((probe d = false /\ signals (d_done d') = signals (d_done d)) \/
     (probe d = true /\ exists t2, d_now d <= t2 /\
        signals (d_done d') = (t2, as_pid_t pid, SIGKILL) :: signals (d_done d)))) d.
Proof.
  unfold kill_stop. ctl_call. destruct (probe d) eqn:Ea; cbn [negb]; apply ctl_bind.
  - ctl_call. apply wp_call. cbn [fst snd]. ctl_call. ctl_call.
    case_match; apply wp_call; cbn; unfold goes_on; cbn; (split; [lia|]); right;
      (split; [done|]); eexists; (split; [|reflexivity]); lia.
  - apply ctl_ret. ctl_call. ctl_call.
    case_match; apply wp_call; cbn; unfold goes_on; cbn; (split; [lia|]); by left.
Qed.

Lemma stop_pid_spec d :
  signals (d_done d) = [] ->
  wp (stop_pid e pid) (fun ok d' =>
    ok = true /\ goes_on 78 d d' /\
    (forall t p s, (t, p, s) ∈ signals (d_done d') -> p = as_pid_t pid) /\
    (stays_gone -> escalation (d_now d) (signals (d_done d')))) d.
Proof.
  intros Hnone. unfold stop_pid. apply ctl_bind. unfold now at 1, wp at 1. apply ctl_bind.
  eapply ctl_mono; [apply wait_gone_spec; unfold STOP_ROUNDS; lia|].
  intros ok1 d1 (-> & [Hn1 Hc1] & Hs1 & Hend1). cbn beta. rewrite Hnone in Hs1.
  apply ctl_bind. eapply ctl_mono; [apply term_stop_spec|].
  intros ok2 d2 (-> & [Hn2 Hc2] & Hterm). cbn beta. rewrite Hs1 in Hterm.
  apply ctl_bind. eapply ctl_mono; [apply kill_stop_spec|].
  intros [] d3 ([Hn3 Hc3] & Hkill). apply ctl_ret. unfold STOP_ROUNDS in Hc1.
  split; [done|]. split; [unfold goes_on; lia|]. split.
  { intros t p s. destruct Hterm as [[_ Ht]|(_ & t1 & _ & Ht & _)], Hkill as [[_ Hk]|(_ & t2 & _ & Hk)];
      rewrite Hk, Ht, ?elem_of_cons, elem_of_nil; naive_solver. }
  intros Hgone. unfold escalation.
  destruct Hterm as [[Hp Ht]|(Hp & t1 & Ht1 & Ht & Hend2)], Hkill as [[_ Hk]|(Hk' & t2 & Ht2 & Hk)];
    rewrite Hk, Ht.
  - by left.
  - rewrite (Hgone (d_calls d1) (d_calls d2)) in Hk' by (done || lia). done.
  - right. left. exists t1. split; [done|]. destruct Hend1 as [|(n & Hn & Hd)]; [lia|].
    rewrite (Hgone n (d_calls d1)) in Hp by (done || lia). done.
  - right. right. exists t1, t2. split; [done|].
    destruct Hend1 as [|(n & Hn & Hd)]; [|rewrite (Hgone n (d_calls d1)) in Hp by (done || lia); done].
    destruct Hend2 as [|(n & Hn & Hd)]; [lia|rewrite (Hgone n (d_calls d2)) in Hk' by (done || lia); done].
Qed.
End stopping.

(** ** Properties *)

Definition actions (d : Desk) : list Action := map snd (d_done d).

(** The number signalled for the process number [pid]: below 2^31 it is [pid], the one
    process; from 2^31 on it is negative, which [kill] takes as a group of processes or,
    as -1, as every process. *)
Definition addresses (pid : N) (p : Z) : Prop :=
  0 < pid < 2 ^ 32 /\
  (pid < 2 ^ 31 -> p = Z.of_N pid) /\
  (2 ^ 31 <= pid -> (p = Z.of_N pid - 2 ^ 32 /\ p < 0)%Z).

Lemma as_pid_t_addresses pid : 0 < pid < 2 ^ 32 -> addresses pid (as_pid_t pid).
Proof.
  intros Hp. unfold addresses, as_pid_t. split; [done|].
  destruct (Z.ltb_spec (Z.of_N pid) 2147483648); lia.
Qed.


(** An environment in which nothing takes time but the sleeps: the pid file reads
    [text], nobody answers the socket, and [gone_after] calls later the process is
    gone. *)
Definition example_env (text : string) (gone_after : nat) : Env :=
  mkEnv (fun _ => [mkPathState true true (Some text)])
    (fun n _ => if (n <? gone_after)%nat then Ok tt else Err (EOther 3))
    (fun _ _ => Err (Domain.Ipc "refused")) (fun _ => 0) true (Err "none"%string) (Ok 77)
    (Ok tt) (fun _ _ => Err Cancelled) (fun _ => "error"%string)
    (mkDisk (fun _ => Err NOENT) (fun _ => false)).


(** A number of 2^31 or more in the pid file is negative as a [pid_t]: 4294967295 is
    every process, which is always alive, so stopping sends SIGTERM and then SIGKILL to
    all of them. *)
Lemma stop_can_signal_all :
  signals (d_done (snd (stop_daemon (example_env "4294967295" 1000) (mkDesk 0 0 []))))
  = [(3000, (-1)%Z, SIGKILL); (1500, (-1)%Z, SIGTERM)].
Proof. vm_compute. reflexivity. Qed.

(** If the number is reused between the second and the third look, the new process is
    killed without a SIGTERM. *)
Lemma reuse_is_killed :
  let env := mkEnv (e_paths (example_env "42" 0))
    (fun n _ => if (n <? 5)%nat then Ok tt else if (n <? 7)%nat then Err (EOther 3) else Ok tt)
    (fun _ _ => Err (Domain.Ipc "refused")) (fun _ => 0) true (Err "none"%string) (Ok 77)
    (Ok tt) (fun _ _ => Err Cancelled) (fun _ => "error"%string)
    (mkDisk (fun _ => Err NOENT) (fun _ => false)) in
  omap (fun '(_, _, s) => Some s) (signals (d_done (snd (stop_daemon env (mkDesk 0 0 []))))) = [SIGKILL].
Proof. vm_compute. reflexivity. Qed.

(** ** Starting *)

Section starting.
Context (e : Env) `{TomlCodec}.

Lemma wait_ready_spec rounds start d :
  start <= d_now d -> (1 <= rounds)%nat -> 2500 <= (d_now d - start) + 150 * N.of_nat (rounds - 1) ->
  wp (wait_ready e rounds start) (fun '(ready, ok) d' =>
    ok = true /\ goes_on (2 * rounds) d d' /\
    (forall a, a ∈ actions d' -> a ∈ actions d \/ a = Called Ping \/ a = Slept 150) /\
    (ready = true -> exists n v up, e_call e n Ping = Ok (Success (Pong v up)))) d.
Proof.
  revert d. induction rounds as [|rounds IH]; [lia|]. intros d Hst _ Hlim. cbn [wait_ready].
  apply ctl_bind. unfold now, wp at 1. destruct (N.ltb_spec (d_now d - start) 2500) as [Hlt|Hge].
  2: { apply ctl_ret. split; [done|]. unfold goes_on. split; [lia|]. split; [by left|done]. }
  do 2 ctl_call.
  assert (wp (wait_ready e rounds start) (fun '(ready, ok) d' =>
    ok = true /\ goes_on (2 * S rounds) d d' /\
    (forall a, a ∈ actions d' -> a ∈ actions d \/ a = Called Ping \/ a = Slept 150) /\
    (ready = true -> exists n v up, e_call e n Ping = Ok (Success (Pong v up))))
    (mkDesk (S (S (d_calls d))) (d_now d + 150 + e_delay e (d_calls d) + 0 + e_delay e (S (d_calls d)))
       ((d_now d + 150 + e_delay e (d_calls d), Called Ping) :: (d_now d, Slept 150) :: d_done d))) as Hrec.
  { eapply ctl_mono; [apply IH; cbn; lia|]. intros [ready ok] d' (-> & [Hn Hc] & Ha & Hr). cbn in *.
    split; [done|]. split; [unfold goes_on; lia|]. split; [|done]. intros a Hin. specialize (Ha a Hin).
    unfold actions in Ha. cbn in Ha. rewrite !elem_of_cons in Ha. tauto. }
  destruct (e_call e (S (d_calls d)) Ping) as [[[]|]|] eqn:Ec; try exact Hrec.
  apply ctl_ret. split; [done|]. split; [unfold goes_on; cbn; lia|]. split; [|intros _; eauto].
  intros a. unfold actions. cbn. rewrite !elem_of_cons. tauto.
Qed.

(** Whether an action brings a daemon up, and with a valid configuration. *)
Definition brings_up (a : Action) : bool :=
  match a with RanDaemon _ _ | SpawnedDaemon _ _ => true | _ => false end.
Definition well_configured (a : Action) : Prop :=
  match a with RanDaemon cfg _ => validate cfg = Ok tt | _ => True end.

(** Starting always ends, never brings up a daemon when [get_running_pid] finds one, and
    what it runs in the foreground has a configuration that passed validation. *)
Lemma start_spec config_path foreground t :
  wp (start_daemon e config_path foreground) (fun ok d =>
    ok = true /\ Forall well_configured (actions d) /\
    (get_running_pid (e_signal e 0) (e_paths e 0) <> None ->
     Forall (fun a => brings_up a = false) (actions d))) (mkDesk 0 t []).
Proof.
  unfold start_daemon. ctl_call. destruct (get_running_pid _ _) as [pid|] eqn:Eg.
  { ctl_call. apply ctl_ret. split; [done|]. split; [|intros _]; repeat constructor. }
  destruct foreground.
  { destruct (load_or_default_with_path (e_disk e) config_path) as [cfg path] eqn:El.
    ctl_call. apply ctl_ret. split; [done|]. split; [|done]. repeat constructor. cbn.
    pose proof (proj1 (loaded_config_valid (e_disk e) config_path)) as Hv.
    unfold load_or_default in Hv. by rewrite El in Hv. }
  destruct (if e_bin_exists e then _ else _) as [exe|err];
    [|ctl_call; apply ctl_ret; split; [done|]; split; [repeat constructor|done]].
  ctl_call. destruct (e_spawn e) as [child|err];
    [|ctl_call; apply ctl_ret; split; [done|]; split; [repeat constructor|done]].
  ctl_call. apply ctl_bind. unfold now, wp at 1. apply ctl_bind.
  eapply ctl_mono; [apply wait_ready_spec; unfold START_ROUNDS; cbn; lia|].
  intros [ready ok] d (-> & _ & Ha & _).
  assert (Forall well_configured (actions d)) as Hd.
  { apply Forall_forall. intros a [Hin|[->| ->]]%Ha; [|done|done].
    unfold actions in Hin. cbn [map snd d_done] in Hin. rewrite !elem_of_cons, elem_of_nil in Hin.
    by destruct Hin as [->|[->|[->|[]]]]. }
  apply ctl_bind. destruct ready; [|ctl_call; destruct (is_process_alive (e_signal e (d_calls d)) child)]; apply wp_call, ctl_ret;
    (split; [done|]; split; [|done]); by repeat constructor.
Qed.
End starting.

(** ** Cleaning *)

(** Programs that only add actions of a kind. *)
Definition adds {A} (kind : Action -> Prop) (m : Ctl A) : Prop :=
  forall d, wp m (fun _ d' => exists new, d_done d' = new ++ d_done d /\ Forall (fun x => kind (snd x)) new) d.

Lemma adds_ret {A} kind (a : A) : adds kind (mret a).
Proof. intros d. apply ctl_ret. by exists []. Qed.

Lemma adds_bind {A B} kind (m : Ctl A) (k : A -> Ctl B) :
  adds kind m -> (forall a, adds kind (k a)) -> adds kind (m ≫= k).
Proof.
  intros Hm Hk d. apply ctl_bind. eapply ctl_mono; [apply Hm|]. intros a d1 (n1 & H1 & F1).
  eapply ctl_mono; [apply Hk|]. intros b d2 (n2 & H2 & F2). exists (n2 ++ n1).
  rewrite H2, H1, <- app_assoc. split; [done|]. by apply Forall_app.
Qed.

Lemma adds_call {A} e kind (f : nat -> A * Action) ms : (forall n, kind (snd (f n))) -> adds kind (call e f ms).
Proof. intros Hf d. apply wp_call. exists [(d_now d, snd (f (d_calls d)))]. split; [done|]. constructor; [apply Hf|constructor]. Qed.
#[local] Hint Resolve adds_ret adds_bind : core.

(** The actions that start a clean, in the daemon or here, and those on the lock. *)
Definition clean_of (a : Action) : option Action :=
  match a with
  | Called (TriggerClean _) | Executed _ _ | TookLock _ | ReleasedLock => Some a
  | _ => None
  end.
Definition cleans (d : Desk) : list Action := omap clean_of (actions d).

Definition starts_none (a : Action) : Prop := clean_of a = None.

Lemma cleans_adds {A} (m : Ctl A) d :
  adds starts_none m -> wp m (fun _ d' => cleans d' = cleans d) d.
Proof.
  intros Hm. eapply ctl_mono; [apply Hm|]. intros _ d' (new & Hd & Hn).
  unfold cleans, actions. rewrite Hd. clear Hd.
  induction Hn as [|x new Hx _ IH]; [done|]. cbn. unfold starts_none in Hx. by rewrite Hx.
Qed.

Section cleaning.
Context (e : Env).

Lemma out_none o : adds starts_none (out e o).
Proof. by apply adds_call. Qed.
#[local] Hint Resolve out_none : core.

Lemma told_none json j o : adds starts_none (told e json j o).
Proof. unfold told. destruct json; auto. Qed.
Lemma print_report_none json h r : adds starts_none (print_report e json h r).
Proof. unfold print_report. destruct json; auto. Qed.
#[local] Hint Resolve told_none print_report_none : core.

Lemma track_job_none rounds job_id json : adds starts_none (track_job e rounds job_id json).
Proof.
  induction rounds as [|rounds IH]; cbn [track_job]; [auto|].
  apply adds_bind; [by apply adds_call|]. intros _. apply adds_bind; [by apply adds_call|].
  intros [[[]|err]|err]; auto. destruct is_completed; [|done]. destruct report; auto.
Qed.

(** C17 A clean happens once and in one place: if a daemon is found, exactly one clean is
    asked of it, with the parameters of the command line (deep implies trim and
    compaction), and none runs here; if not, exactly one runs here, with the loaded
    configuration, between the taking and the release of the lock, or none if the lock
    was not to be had.  (The latest action is the first of the list.) *)
Theorem clean_happens_once rounds config deep trim zram dry_run json t :
  let d := snd (execute_clean e rounds config deep trim zram dry_run json (mkDesk 0 t [])) in
  let params := clean_params deep trim zram dry_run in
  cleans d =
  match get_running_pid (e_signal e 0) (e_paths e 0) with
  | Some _ => [Called (TriggerClean params)]
  | None => if is_ok (e_lock e) then [ReleasedLock; Executed config params; TookLock true]
            else [TookLock false]
  end.
Proof.
  cbv zeta. pattern (snd (execute_clean e rounds config deep trim zram dry_run json (mkDesk 0 t []))).
  apply wp_snd.
  unfold execute_clean. ctl_call. destruct (get_running_pid _ _) as [pid|].
  - unfold delegate_clean. apply ctl_bind. eapply ctl_mono; [apply cleans_adds; destruct json; auto|].
    intros u1 d1 E1. ctl_call. eapply ctl_mono; [apply cleans_adds|].
    + destruct (e_call e _ _) as [[[]|err]|err]; auto using track_job_none.
      apply adds_bind; [|auto using track_job_none]. destruct json; auto.
    + intros u2 d2 E2. rewrite E2. unfold cleans, actions in *. cbn in *. by rewrite E1.
  - unfold standalone_clean. apply ctl_bind. eapply ctl_mono; [apply cleans_adds; destruct json; auto|].
    intros u1 d1 E1. ctl_call. destruct (e_lock e) as [[]|err]; cbn [is_ok].
    + ctl_call. ctl_call. apply ctl_bind.
      eapply ctl_mono; [apply cleans_adds; destruct (e_engine e _ _); auto|].
      intros u2 d2 E2. ctl_call. apply ctl_ret. unfold cleans, actions in *. cbn in *.
      by rewrite E2, E1.
    + eapply ctl_mono; [apply cleans_adds; auto|].
      intros u2 d2 E2. rewrite E2. unfold cleans, actions in *. cbn in *. by rewrite E1.
Qed.
End cleaning.

(** ** Waiting for a job *)

Section waiting.
Context (e : Env) {E : Type} `{CleanEngine E}.

(** The [n]-th call is answered by the daemon from some state of its. *)
Definition answered_by (n : nat) (cmd : Command) (p : P E Response) (s : Shared E) : Prop :=
  exists resp, Threads.run_alone p s = Some (resp, s, []) /\ e_call e n cmd = Ok resp.

(** The client has no patience of its own: as long as the daemon's record of the job
    says RUNNING, which after a failed spawn is for good, it keeps polling, however many
    rounds it is given, and prints nothing more. *)
Theorem client_waits_for_running_job job_id json rounds d :
  (forall n, (d_calls d <= n)%nat -> exists s, sh_jobs s !! job_id = Some (running_record job_id) /\
     answered_by n (GetJobStatus job_id) (get_job_status job_id) s) ->
  let '(finished, d') := track_job e rounds job_id json d in
  finished = false /\ d_now d + 150 * N.of_nat rounds <= d_now d' /\
  forall o, Wrote o ∈ actions d' -> Wrote o ∈ actions d.
Proof.
  intros Hrun. change (wp (track_job e rounds job_id json) (fun finished d' =>
    finished = false /\ d_now d + 150 * N.of_nat rounds <= d_now d' /\
    forall o, Wrote o ∈ actions d' -> Wrote o ∈ actions d) d).
  revert d Hrun. induction rounds as [|rounds IH]; intros d Hrun; cbn [track_job].
  { apply ctl_ret. split; [done|]. split; [lia|done]. }
  do 2 ctl_call. destruct (Hrun (S (d_calls d)) ltac:(lia)) as (s & Hs & resp & Hr & ->).
  unfold get_job_status in Hr. cbn in Hr. rewrite Hs in Hr. injection Hr as <-. cbn [jr_is_completed running_record].
  eapply ctl_mono; [apply IH; intros n Hn; apply Hrun; cbn in Hn; lia|].
  intros finished d' (-> & Ht & Ho). cbn in *. split; [done|]. split; [lia|].
  intros o Hin%Ho. unfold actions in *. cbn in Hin. rewrite !elem_of_cons in Hin. by destruct Hin as [?|[?|?]].
Qed.

(** A final answer ends the wait. *)
Lemma final_answer_ends job_id json rounds d st bytes report :
  e_call e (S (d_calls d)) (GetJobStatus job_id) = Ok (Success (JobStatus job_id st bytes true report)) ->
  fst (track_job e (S rounds) job_id json d) = true.
Proof.
  intros Ha. assert (wp (track_job e (S rounds) job_id json) (fun ok _ => ok = true) d) as Hw.
  { cbn [track_job]. do 2 ctl_call. rewrite Ha. apply ctl_bind. unfold wp. by destruct (_ : Ctl unit). }
  unfold wp in Hw. by destruct (track_job e (S rounds) job_id json d).
Qed.
End waiting.

(** The daemon after it accepted a clean whose thread was not started. *)
#[local] Instance no_engine : CleanEngine unit := {
  engine_update_config _ e := e;
  engine_executes _ _ _ _ := False;
}.

Definition wedged : Shared unit :=
  match Threads.run_alone (trigger_clean (mkParams false false false false))
          (DaemonContext_new DaemonConfig_default None tt 0) with
  | Some (_, s, _) => s
  | None => DaemonContext_new DaemonConfig_default None tt 0
  end.

Definition wedged_env : Env :=
  mkEnv (fun _ => []) (fun _ _ => Ok tt)
    (fun _ cmd => match cmd with
                  | GetJobStatus id =>
                      match Threads.run_alone (get_job_status id) wedged with
                      | Some (resp, _, _) => Ok resp
                      | None => Err (Domain.Ipc "refused")
                      end
                  | _ => Err (Domain.Ipc "refused")
                  end)
    (fun _ => 0) true (Err "none"%string) (Ok 77) (Ok tt) (fun _ _ => Err Cancelled)
    (fun _ => "error"%string) (mkDisk (fun _ => Err NOENT) (fun _ => false)).

Lemma client_waits_for_running_job_witness :
  fst (track_job wedged_env 1000 1 false (mkDesk 0 0 [])) = false.
Proof.
  pose proof (client_waits_for_running_job wedged_env (E:=unit) 1 false 1000 (mkDesk 0 0 [])) as Hw.
  destruct (track_job wedged_env 1000 1 false (mkDesk 0 0 [])) as [finished d'].
  apply Hw. intros n _. exists wedged. split; [vm_compute; reflexivity|].
  eexists. split; vm_compute; reflexivity.
Defined.
