(* ===== verification/Startup.v ===== *)
(** From start to end of a daemon process: [DaemonRunner::run] of src/system/watcher.rs,
    [PidLock::acquire] of src/system/pidfile.rs, the set-up and tear-down of
    [run_epoll_loop] in src/system/event_loop.rs, and the opening of the signal and
    uevent descriptors (src/system/signals.rs, src/hardware/uevent.rs).

    A run is the list of what the process does, a function of which calls fail; the
    loops themselves are in Reactor and are single events here.  The [Drop]s are
    written out, in the order in which Rust runs them.

    The theorems: the lock is held around everything, and given back last; exactly one
    loop runs; every descriptor is closed; as root only the primary path is tried; but
    when the timer cannot be created the fallback loop runs with the signals blocked
    and nobody reading them. *)
From Stdlib Require Import Ascii String.
From S2P Require Import Prelude Domain.

(** ** The lock (pidfile.rs) *)

(** The paths of the lock and of the process id. *)
Definition CANDIDATE_PATHS : list (string * string) :=
  [("/data/adb/cleaner/run/cleaner_daemon.lock", "/data/adb/cleaner/run/cleaner.pid");
   ("/tmp/cleaner_daemon.lock", "/tmp/cleaner.pid")]%string.

Definition lock_candidates (is_root : bool) : list (string * string) :=
  if is_root then take 1 CANDIDATE_PATHS else CANDIDATE_PATHS.

(** The loop over the candidates: the one that was locked. *)
Fixpoint acquire_loop (try_lock : string * string -> result CleanerError unit) (last_err : option CleanerError)
    (candidates : list (string * string)) : result CleanerError (string * string) :=
  match candidates with
  | [] => Err (default (Other ("Failed to acquire PID lock on mandatory path " +:+
                               "/data/adb/cleaner/run/cleaner_daemon.lock")) last_err)
  | c :: rest =>
      match try_lock c with
      | Ok _ => Ok c
      | Err (DaemonAlreadyRunning pid) => Err (DaemonAlreadyRunning pid)
      | Err e => acquire_loop try_lock (Some e) rest
      end
  end.

Definition acquire (is_root : bool) (try_lock : string * string -> result CleanerError unit)
    : result CleanerError (string * string) :=
  acquire_loop try_lock None (lock_candidates is_root).

(** ** Events *)

Inductive Fd := EpollFd | SignalFd | UeventFd | IpcFd (n : nat) | PsiFd (n : nat) | TimerFd.

#[export] Instance Fd_eq_dec : EqDecision Fd.
Proof. solve_decision. Defined.

Inductive Event :=
| Umask
| LockTaken (paths : string * string)
| StartRefused (e : CleanerError)
| CgroupMigrated
| PrioritiesSet
| IpcBound (listeners : nat)
| IpcMissing
| HeapTrimmed
| SignalsBlocked
| Opened (fd : Fd)
| Watched (fd : Fd)
| Closed (fd : Fd)
| EpollLoop
| FallbackLoop
| Cleanup
| LockReleased (paths : string * string).

(** Which calls succeed. *)
Record StartEnv := mkStartEnv {
  se_root : bool;
  se_try_lock : string * string -> result CleanerError unit;
  se_bind : option nat;            (** the listeners, if there are any *)
  se_epoll : bool;
  se_sigmask : bool;
  se_signalfd : bool;
  se_uevent_socket : bool;
  se_uevent_bind : bool;
  se_psi : nat;                    (** the triggers that could be registered *)
  se_timer : bool;
}.

(** ** Descriptors *)

(** [SignalWatcher::create]: what happens, and whether there is a watcher. *)
Definition create_signal_watcher (e : StartEnv) : list Event * bool :=
  if se_sigmask e then
    if se_signalfd e then ([SignalsBlocked; Opened SignalFd], true) else ([SignalsBlocked], false)
  else ([], false).

(** [UeventSocket::open] *)
Definition open_uevent_socket (e : StartEnv) : list Event * bool :=
  if se_uevent_socket e then
    if se_uevent_bind e then ([Opened UeventFd], true) else ([Opened UeventFd; Closed UeventFd], false)
  else ([], false).

Definition watch (present : bool) (fd : Fd) : list Event := if present then [Watched fd] else [].
Definition drop_fd (present : bool) (fd : Fd) : list Event := if present then [Closed fd] else [].

Definition psi_fds (e : StartEnv) : list Fd := map PsiFd (seq 0 (se_psi e)).
Definition ipc_fds (listeners : nat) : list Fd := map IpcFd (seq 0 listeners).

(** ** The loop, with its set-up and tear-down (event_loop.rs) *)

(** The watchers are dropped when the function returns, the last one made first. *)
Definition run_epoll_loop (e : StartEnv) (listeners : nat) : list Event :=
  if se_epoll e then
    let '(sig, has_sig) := create_signal_watcher e in
    let '(uev, has_uev) := open_uevent_socket e in
    let drops := map Closed (psi_fds e) ++ drop_fd has_uev UeventFd ++ drop_fd has_sig SignalFd in
    [Opened EpollFd]
    ++ sig ++ watch has_sig SignalFd
    ++ uev ++ watch has_uev UeventFd
    ++ map Watched (ipc_fds listeners)
    ++ map Opened (psi_fds e) ++ map Watched (psi_fds e)
    ++ (if se_timer e then
          [Opened TimerFd; Watched TimerFd; EpollLoop; Closed TimerFd; Closed EpollFd]
        else [Closed EpollFd; FallbackLoop])
    ++ drops
  else [FallbackLoop].

(** ** The process (watcher.rs) *)

Definition run (e : StartEnv) : list Event :=
  Umask ::
  match acquire (se_root e) (se_try_lock e) with
  | Err err => [StartRefused err]
  | Ok paths =>
      [LockTaken paths; CgroupMigrated; PrioritiesSet]
      ++ (match se_bind e with
          | Some n => map Opened (ipc_fds n) ++ [IpcBound n]
          | None => [IpcMissing]
          end)
      ++ [HeapTrimmed]
      ++ run_epoll_loop e (default 0%nat (se_bind e))
      ++ [Cleanup]
      ++ (match se_bind e with Some n => map Closed (ipc_fds n) | None => [] end)
      ++ [LockReleased paths]
  end.

(** ** Lemmas *)

Lemma acquire_loop_ok try_lock err l c :
  acquire_loop try_lock err l = Ok c -> c ∈ l /\ try_lock c = Ok tt.
Proof.
  revert err. induction l as [|x l IH]; intros err; cbn; [done|].
  destruct (try_lock x) as [[]|e] eqn:E; [intros [= <-]; split; [by left|done]|].
  destruct e; try (intros Hl; apply IH in Hl as [? ?]; split; [by right|done]); done.
Qed.

(** As root nothing but the primary path is tried or locked; and a running instance is
    never stepped around. *)
Lemma acquire_spec is_root try_lock c :
  acquire is_root try_lock = Ok c ->
  try_lock c = Ok tt /\ (is_root = true -> head CANDIDATE_PATHS = Some c) /\
  forall p pid, head CANDIDATE_PATHS = Some p -> try_lock p <> Err (DaemonAlreadyRunning pid).
Proof.
  unfold acquire. intros Ha. destruct (acquire_loop_ok _ _ _ _ Ha) as [Hin Hok].
  split; [done|]. split.
  - intros ->. cbn in Hin. apply list_elem_of_singleton in Hin. by subst c.
  - intros p pid [= <-] He. destruct is_root; cbn in Ha; by rewrite He in Ha.
Qed.

Definition is_loop (ev : Event) : bool := match ev with EpollLoop | FallbackLoop => true | _ => false end.

Lemma quiet_map {A} (f : A -> Event) l :
  (forall x, is_loop (f x) = false) -> Forall (fun ev => is_loop ev = false) (map f l).
Proof. intros Hf. induction l as [|x l IH]; by constructor. Qed.

Lemma quiet_if (b : bool) (fd : Fd) (f : Fd -> Event) :
  is_loop (f fd) = false -> Forall (fun ev => is_loop ev = false) (if b then [f fd] else []).
Proof. destruct b; by repeat constructor. Qed.

(** A list of events without a loop. *)
Ltac quiet :=
  repeat first
    [ assumption | apply Forall_nil_2 | apply Forall_app_2 | apply quiet_map; done
    | apply quiet_if; done | apply Forall_cons_2; [done|] ].

(** One loop runs. *)
Lemma epoll_loop_shape e n :
  exists before loop after, run_epoll_loop e n = before ++ [loop] ++ after /\ is_loop loop = true /\
    Forall (fun ev => is_loop ev = false) (before ++ after) /\
    (loop = EpollLoop <-> se_epoll e = true /\ se_timer e = true).
Proof.
  unfold run_epoll_loop. destruct (se_epoll e).
  2: { exists [], FallbackLoop, []. split; [done|]. split; [done|]. split; [constructor|naive_solver]. }
  destruct (create_signal_watcher e) as [sig has_sig] eqn:Es.
  destruct (open_uevent_socket e) as [uev has_uev] eqn:Eu.
  assert (Forall (fun ev => is_loop ev = false) sig) as Hsig.
  { unfold create_signal_watcher in Es. destruct (se_sigmask e), (se_signalfd e); injection Es as <- _; by repeat constructor. }
  assert (Forall (fun ev => is_loop ev = false) uev) as Huev.
  { unfold open_uevent_socket in Eu. destruct (se_uevent_socket e), (se_uevent_bind e); injection Eu as <- _; by repeat constructor. }
  set (drops := map Closed (psi_fds e) ++ drop_fd has_uev UeventFd ++ drop_fd has_sig SignalFd).
  set (pre := [Opened EpollFd] ++ sig ++ watch has_sig SignalFd ++ uev ++ watch has_uev UeventFd
              ++ map Watched (ipc_fds n) ++ map Opened (psi_fds e) ++ map Watched (psi_fds e)).
  assert (Forall (fun ev => is_loop ev = false) pre) as Hpre.
  { unfold pre. quiet. }
  assert (Forall (fun ev => is_loop ev = false) drops) as Hdrops.
  { unfold drops. quiet. }
  destruct (se_timer e).
  - exists (pre ++ [Opened TimerFd; Watched TimerFd]), EpollLoop, ([Closed TimerFd; Closed EpollFd] ++ drops).
    split; [unfold pre; by rewrite <- !app_assoc|]. split; [done|]. split; [quiet|naive_solver].
  - exists (pre ++ [Closed EpollFd]), FallbackLoop, drops.
    split; [unfold pre; by rewrite <- !app_assoc|]. split; [done|]. split; [quiet|naive_solver].
Qed.

(** How often a descriptor was opened more than closed. *)
Definition weight (fd : Fd) (ev : Event) : Z :=
  match ev with
  | Opened x => if decide (x = fd) then 1 else 0
  | Closed x => if decide (x = fd) then -1 else 0
  | _ => 0
  end%Z.
Fixpoint left_open (fd : Fd) (l : list Event) : Z :=
  match l with [] => 0 | ev :: l' => weight fd ev + left_open fd l' end%Z.

Lemma left_open_app fd l1 l2 : left_open fd (l1 ++ l2) = (left_open fd l1 + left_open fd l2)%Z.
Proof. induction l1 as [|x l1 IH]; cbn; [lia|]. rewrite IH. lia. Qed.

Lemma left_open_closed fd l : (left_open fd (map Opened l) + left_open fd (map Closed l) = 0)%Z.
Proof. induction l as [|x l IH]; cbn; [done|]. case_decide; lia. Qed.

Lemma left_open_watched fd l : left_open fd (map Watched l) = 0%Z.
Proof. induction l as [|x l IH]; cbn; [done|]. by rewrite IH. Qed.

Lemma epoll_loop_closes e n fd : left_open fd (run_epoll_loop e n) = 0%Z.
Proof.
  unfold run_epoll_loop, create_signal_watcher, open_uevent_socket.
  destruct (se_epoll e); [|done]. pose proof (left_open_closed fd (psi_fds e)) as Hpsi.
  destruct (se_sigmask e), (se_signalfd e), (se_uevent_socket e), (se_uevent_bind e), (se_timer e);
    cbn [watch drop_fd]; rewrite !left_open_app, !left_open_watched; cbn [left_open weight];
    repeat case_decide; lia.
Qed.

(** ** Properties *)

(** C33 A daemon's life: it starts only if it gets a lock; then the lock is taken before
    everything else and given back after everything else, exactly one of the two loops
    runs in between, the shutdown's cleanup follows it, and whichever calls failed,
    every descriptor that was opened is closed. *)
Theorem daemon_life e :
  (forall fd, left_open fd (run e) = 0%Z) /\
  match acquire (se_root e) (se_try_lock e) with
  | Err err => run e = [Umask; StartRefused err]
  | Ok paths =>
      exists before loop after,
        run e = [Umask; LockTaken paths] ++ before ++ [loop] ++ after ++ [LockReleased paths] /\
        is_loop loop = true /\ Forall (fun ev => is_loop ev = false) (before ++ after) /\ Cleanup ∈ after /\
        (loop = EpollLoop <-> se_epoll e = true /\ se_timer e = true)
  end.
Proof.
  unfold run. split.
  - intros fd. destruct (acquire _ _) as [paths|err]; [|done]. cbn [left_open weight].
    rewrite !left_open_app, epoll_loop_closes. destruct (se_bind e) as [n|]; cbn [left_open weight default].
    + rewrite left_open_app. cbn [left_open weight]. pose proof (left_open_closed fd (ipc_fds n)). lia.
    + lia.
  - destruct (acquire _ _) as [paths|err]; [|done].
    destruct (epoll_loop_shape e (default 0%nat (se_bind e))) as (b & loop & a & -> & Hl & Hn & Hiff).
    exists ([CgroupMigrated; PrioritiesSet]
            ++ (match se_bind e with Some n => map Opened (ipc_fds n) ++ [IpcBound n] | None => [IpcMissing] end)
            ++ [HeapTrimmed] ++ b), loop,
           (a ++ [Cleanup] ++ match se_bind e with Some n => map Closed (ipc_fds n) | None => [] end).
    split; [by rewrite <- !app_assoc|]. split; [done|]. split; [|split; [set_solver|done]].
    apply Forall_app in Hn as [Hb Ha]. destruct (se_bind e); quiet.
Qed.

(** Without the timer the fallback loop runs, in which nobody reads the signal
    descriptor, while the signals are blocked: SIGTERM, SIGINT and SIGHUP are lost. *)
Lemma fallback_ignores_signals e paths :
  acquire (se_root e) (se_try_lock e) = Ok paths -> se_epoll e = true -> se_timer e = false ->
  se_sigmask e = true ->
  FallbackLoop ∈ run e /\ SignalsBlocked ∈ run e.
Proof.
  intros Ha He Ht Hs. destruct (epoll_loop_shape e (default 0%nat (se_bind e))) as (b & loop & a & Hr & Hl & Hn & Hiff).
  assert (loop = FallbackLoop) as ->.
  { destruct loop; try done. rewrite Ht in Hiff. by destruct (proj1 Hiff eq_refl). }
  unfold run. rewrite Ha. split; [rewrite Hr; set_solver|].
  unfold run_epoll_loop, create_signal_watcher. rewrite He, Hs.
  destruct (se_signalfd e), (open_uevent_socket e); set_solver.
Qed.
