(* ===== verification/Host.v ===== *)
(** The daemon's use of its host: the timer and the signals that wake its loop
    (src/system/event_loop.rs, src/system/signals.rs), the allocator
    (src/util/io_fast.rs) and the logger (src/util/logger.rs).

    A timerfd is any one-shot timer with the laws of [TimerKernel]; a signalfd is the queue
    of the pending signals.  The theorems: the loop is
    never woken before its deadline and, however the two readings of the clock lie, at
    the latest by their distance after it; a drained timer stays silent; every pending
    signal becomes one event; and the log holds records that pass the filter, in their order
    whatever calls fail, and the most recent ones when none does. *)
From Stdlib Require Import Ascii String.
From S2P Require Import Prelude Domain Text Psi Idle Hardware EventLoop Logs.

(** ** The timer *)

(** Nanoseconds of the monotonic clock. *)
Definition nanos_of (t : Timespec) : Z := (tv_sec t * 1000000000 + tv_nsec t)%Z.

(** The kernel's timers: setting an absolute one-shot time, time passing up to a value of
    the monotonic clock, reading, and whether epoll finds the descriptor readable.  The laws
    are those of timerfd_create(2) for a positive time and no interval: the timer becomes
    readable when the clock reaches the time it was set to, and a read of an expired one
    takes its one expiration. *)
Class TimerKernel (T : Type) := {
  timerfd_settime : Timespec -> T -> T;
  tick : Z -> T -> T;
  read_timer : T -> result Errno unit * T;
  readable : T -> bool;
  settime_expires value t mono :
    (0 < nanos_of value)%Z ->
    readable (tick mono (timerfd_settime value t)) = (nanos_of value <=? mono)%Z;
  read_takes_it value t mono mono' :
    (0 < nanos_of value <= mono)%Z ->
    readable (tick mono' (snd (read_timer (tick mono (timerfd_settime value t))))) = false;
}.

Section timer.
Context {T : Type} `{TimerKernel T}.

(** [now] is the reading of [Instant::now], [mono] the one of [clock_gettime] right after
    it; a failed call is logged and leaves the timer as it was. *)
Definition arm_timer (settime_fails : bool) (deadline now : N) (mono : Timespec) (t : T) : T :=
  let itimer := instant_to_itimerspec deadline now mono in
  if settime_fails then t else timerfd_settime itimer t.

Definition drain_timer (t : T) : T := snd (read_timer t).
End timer.

(** ** Signals *)

(** A read of the signalfd: a whole record with its signal, or any other size. *)
Inductive SignalRead := ReadInfo (signo : Z) | ReadOther (n : Z).

(** The loop, on the reads it makes; the rest is unread. *)
Fixpoint read_events (reads : list SignalRead) : list SignalEvent * list SignalRead :=
  match reads with
  | ReadInfo signo :: reads' =>
      let '(events, rest) := read_events reads' in (signal_event signo :: events, rest)
  | ReadOther _ :: rest => ([], rest)
  | [] => ([], [])
  end.

(** [drop]: the descriptors closed. *)
Definition SignalWatcher_drop (fd : Z) : list Z := if (0 <=? fd)%Z then [fd] else [].

(** ** The allocator *)

Inductive HeapCall := Mallopt (param value : Z) | MallocTrim (pad : N).

Definition M_PURGE_ALL : Z := -104.
Definition M_PURGE : Z := -101.

(** The calls, by which symbols the C library has. *)
Definition trim_heap_memory (has_mallopt has_malloc_trim : bool) : list HeapCall :=
  (if has_mallopt then [Mallopt M_PURGE_ALL 0; Mallopt M_PURGE 0] else [])
  ++ (if has_malloc_trim then [MallocTrim 0] else []).

(** ** The logger *)

Inductive Level := LError | LWarn | LInfo | LDebug | LTrace.

Definition Level_name (l : Level) : string :=
  match l with
  | LError => "ERROR" | LWarn => "WARN" | LInfo => "INFO" | LDebug => "DEBUG" | LTrace => "TRACE"
  end.
Definition Level_rank (l : Level) : N :=
  match l with LError => 1 | LWarn => 2 | LInfo => 3 | LDebug => 4 | LTrace => 5 end.

Record LogRecord := mkLogRecord { lr_level : Level; lr_target : string; lr_args : string }.

Definition log_line (ts : N) (r : LogRecord) : string :=
  "[" +:+ pretty ts +:+ "][" +:+ Level_name (lr_level r) +:+ "][" +:+ lr_target r +:+ "] " +:+ lr_args r.

(** The filter: what the variable RUST_LOG says ([env_filter], the library's), or INFO
    and above when it is not set. *)
Definition log_filter (env_filter : option (LogRecord -> bool)) (r : LogRecord) : bool :=
  match env_filter with
  | Some f => f r
  | None => Level_rank (lr_level r) <=? Level_rank LInfo
  end.

(** A record at a time: its line goes to the file and to the standard error. *)
Definition log_record (env_filter : option (LogRecord -> bool)) (f : LogFaults) (ts : N) (r : LogRecord)
    (x : option LogFileState * LogFs * list string) : option LogFileState * LogFs * list string :=
  let '(st, fs, err) := x in
  if log_filter env_filter r then
    let line := log_line ts r in
    (append_to_file f line st fs, err ++ [line])
  else x.

(** ** Properties *)

Lemma itimer_nanos deadline now mono :
  (0 <= tv_sec mono)%Z -> (0 <= tv_nsec mono < 1000000000)%Z ->
  deadline / NANOS <= I64_MAX -> (tv_sec mono + Z.of_N (deadline / NANOS) < i64_max)%Z ->
  nanos_of (instant_to_itimerspec deadline now mono)
  = (nanos_of mono + Z.of_N (if now <? deadline then deadline - now else 1)%N)%Z.
Proof. intros Hs Hn Hd Hm. apply (itimerspec_exact deadline now mono Hs Hn Hd Hm). Qed.

(** C37 The loop is woken in time: armed at [now] for [deadline], with the clock read again at
    [mono], the timer is readable at a later instant [t] exactly when the time that
    remained at [now] has passed since [mono].  So it is never readable before the
    deadline, and it is readable once the deadline lies as far back as [mono] is after
    [now]; and a timer that fired and was drained stays silent. *)
Theorem timer_wakes_in_time `{TimerKernel T} deadline now mono (timer : T) t :
  (0 <= tv_sec mono)%Z -> (0 <= tv_nsec mono < 1000000000)%Z ->
  deadline / NANOS <= I64_MAX -> (tv_sec mono + Z.of_N (deadline / NANOS) < i64_max)%Z ->
  (Z.of_N now <= nanos_of mono)%Z -> now < deadline ->
  let armed := tick t (arm_timer false deadline now mono timer) in
  (readable armed = true -> (Z.of_N deadline <= t)%Z) /\
  ((Z.of_N deadline + (nanos_of mono - Z.of_N now) <= t)%Z -> readable armed = true) /\
  (forall t', readable armed = true -> readable (tick t' (drain_timer armed)) = false).
Proof.
  intros Hs Hn Hd Hm Hnow Hlt. cbn zeta. unfold arm_timer, drain_timer.
  pose proof (itimer_nanos deadline now mono Hs Hn Hd Hm) as Hv.
  rewrite (proj2 (N.ltb_lt now deadline)) in Hv by done.
  assert (0 < nanos_of (instant_to_itimerspec deadline now mono))%Z as Hpos
    by (rewrite Hv; unfold nanos_of; lia).
  rewrite settime_expires, Hv by done. split; [intros Ht%Z.leb_le; lia|].
  split; [intros Ht; apply Z.leb_le; lia|]. intros t' Ht%Z.leb_le. apply read_takes_it. lia.
Qed.

(** A timer with these laws: when it will expire, if it is armed, and whether an expiration
    is unread. *)
Record OneShot := mkOneShot { tm_armed : option Z; tm_unread : bool }.

#[export] Instance one_shot_kernel : TimerKernel OneShot.
Proof.
  refine {|
    timerfd_settime value _ :=
      mkOneShot (if Z.eqb (nanos_of value) 0 then None else Some (nanos_of value)) false;
    tick mono t := match tm_armed t with
                   | Some v => if Z.leb v mono then mkOneShot None true else t
                   | None => t
                   end;
    read_timer t := if tm_unread t then (Ok tt, mkOneShot (tm_armed t) false) else (Err (EOther 11), t);
    readable := tm_unread;
  |}; intros value t mono; [intros Hv|intros mono' Hv]; rewrite (proj2 (Z.eqb_neq _ 0)) by lia; cbn [tm_armed].
  - by destruct (Z.leb _ mono).
  - by rewrite (proj2 (Z.leb_le _ _)) by lia.
Defined.

Lemma timer_wakes_in_time_witness :
  let armed := tick (Z.of_N (10 * NANOS + 800)) (arm_timer false (10 * NANOS + 700) (8 * NANOS)
                 (mkTimespec 8 100) (mkOneShot None true)) in
  readable armed = true /\ (Z.of_N (10 * NANOS + 700) <= Z.of_N (10 * NANOS + 800))%Z.
Proof.
  intros armed. assert (readable armed = true) as Hu by (vm_compute; reflexivity). split; [exact Hu|].
  apply (timer_wakes_in_time (10 * NANOS + 700) (8 * NANOS) (mkTimespec 8 100) (mkOneShot None true)
           (Z.of_N (10 * NANOS + 800))); [cbn; lia|cbn; lia|vm_compute; discriminate|reflexivity
    |vm_compute; discriminate|reflexivity|exact Hu].
Defined.

(** Every pending signal becomes one event, in order, and the queue is left empty. *)
Theorem read_events_all (pending : list Z) n rest :
  read_events (map ReadInfo pending ++ ReadOther n :: rest) = (map signal_event pending, rest).
Proof. induction pending as [|s pending IH]; [done|]. cbn. by rewrite IH. Qed.

(** The records of a run of the program, logged one after the other, each with the calls
    that fail. *)
Fixpoint log_records (env_filter : option (LogRecord -> bool)) (rs : list (LogFaults * N * LogRecord))
    (x : option LogFileState * LogFs * list string) : option LogFileState * LogFs * list string :=
  match rs with
  | [] => x
  | (f, ts, r) :: rs' => log_records env_filter rs' (log_record env_filter f ts r x)
  end.

(** The lines of the records that pass. *)
Definition passing (pass : LogRecord -> bool) (rs : list (LogFaults * N * LogRecord)) : list string :=
  map (fun x => log_line (snd (fst x)) (snd x)) (List.filter (fun x => pass (snd x)) rs).

Lemma log_records_err env_filter rs st fs err :
  snd (log_records env_filter rs (st, fs, err)) = err ++ passing (log_filter env_filter) rs.
Proof.
  revert st fs err. induction rs as [|[[f ts] r] rs IH]; intros st fs err; unfold passing;
    cbn [log_records log_record List.filter map snd fst]; [by rewrite app_nil_r|].
  destruct (log_filter env_filter r); cbn [map fst snd]; [|apply IH].
  destruct (append_to_file f (log_line ts r) st fs) as [st' fs']. rewrite IH. unfold passing.
  by rewrite <- app_assoc.
Qed.

Lemma log_records_sublist env_filter rs st fs err :
  log_follows st fs ->
  history (snd (fst (log_records env_filter rs (st, fs, err))))
    `sublist_of` history fs ++ passing (log_filter env_filter) rs.
Proof.
  revert st fs err. induction rs as [|[[f ts] r] rs IH]; intros st fs err Hf; unfold passing;
    cbn [log_records log_record List.filter map snd fst]; [by rewrite app_nil_r|].
  destruct (log_filter env_filter r); cbn [map fst snd]; [|by apply IH].
  pose proof (append_follows f (log_line ts r) st fs Hf) as Ha.
  destruct (append_to_file f (log_line ts r) st fs) as [st' fs']. destruct Ha as [Hf' Hh].
  etrans; [by apply IH|]. fold (passing (log_filter env_filter) rs). rewrite cons_middle, app_assoc.
  by apply sublist_app.
Qed.

Lemma log_records_append env_filter rs st fs err :
  Forall (fun x => fst (fst x) = no_log_faults) rs ->
  fst (log_records env_filter rs (st, fs, err)) = append_all (passing (log_filter env_filter) rs) st fs.
Proof.
  intros Hno. revert st fs err. induction Hno as [|[[f ts] r] rs Hf _ IH]; intros st fs err; unfold passing;
    cbn [log_records log_record List.filter map snd fst]; [done|]. cbn in Hf. subst f.
  destruct (log_filter env_filter r); cbn [map append_all fst snd]; [|apply IH].
  destruct (append_to_file no_log_faults (log_line ts r) st fs) as [st' fs']. by rewrite IH.
Qed.


(** A record of each kind, the second lost because the write failed. *)
Definition logged_example : list (LogFaults * N * LogRecord) :=
  [ (no_log_faults, 1, mkLogRecord LInfo "a" "x");
    (mkLogFaults false false false false false false true, 2, mkLogRecord LWarn "a" "y");
    (no_log_faults, 3, mkLogRecord LDebug "a" "z") ].

