(* ===== verification/Screens.v ===== *)
(** What the command line prints: [format_bytes] of src/util/io_fast.rs, the report of
    src/cli/output.rs and the screens of src/cli/diagnostics.rs.

    A line is kept as its label and its value; a float keeps its value and the digits
    it is printed with.  The sizes are formatted to the character. *)
From Stdlib Require Import Ascii String.
From S2P Require Import Prelude Domain Text Psi Idle Hardware Freezer Cgroup Tuning Cancellation.
From S2P Require Import Pipeline Daemon.
From S2P Require Metrics EventLoop.

(** ** Sizes (io_fast.rs) *)

(** [a / b] rounded to the nearest integer, ties to even. *)
Definition round_div (a b : N) : N :=
  let q := a / b in
  let r := a mod b in
  if 2 * r <? b then q else if b <? 2 * r then q + 1 else if N.even q then q else q + 1.

(** [u64 as f64]: 53 bits of precision. *)
Definition as_f64 (n : N) : N :=
  let k := N.size n - 53 in round_div n (2 ^ k) * 2 ^ k.

(** [{:.2}] of a number of hundredths. *)
Definition hundredths (h : N) : string :=
  pretty (h / 100) +:+ "." +:+ (if h mod 100 <? 10 then "0" else "") +:+ pretty (h mod 100).

(** The quotient by a power of two is exact. *)
Definition in_unit (bytes unit : N) : string := hundredths (round_div (as_f64 bytes * 100) unit).

Definition format_bytes (bytes : N) : string :=
  let KB := 1024 in
  let MB := KB * 1024 in
  let GB := MB * 1024 in
  if GB <=? bytes then in_unit bytes GB +:+ " GB"
  else if MB <=? bytes then in_unit bytes MB +:+ " MB"
  else if KB <=? bytes then in_unit bytes KB +:+ " KB"
  else pretty bytes +:+ " B".

(** [ByteCount::format_human], the display of sizes in messages. *)
Definition format_human (b : N) : string :=
  let KB := 1024 in
  let MB := KB * 1024 in
  let GB := MB * 1024 in
  if GB <=? b then in_unit b GB +:+ " GiB"
  else if MB <=? b then in_unit b MB +:+ " MiB"
  else if KB <=? b then in_unit b KB +:+ " KiB"
  else pretty b +:+ " B".

(** ** Lines *)

Inductive Value :=
| VText (s : string)
| VNum (n : N)
| VBytes (n : N)
| VBool (b : bool)
| VFixed (digits : N) (x : f32) (unit : string).

Inductive Line :=
| Rule                                  (** a line of [=] *)
| ThinRule                              (** a line of [-] *)
| Text (s : string)
| Field (label : string) (v : Value)
| Json {A : Type} (a : A)
| Complaint (s : string).               (** to standard error *)

Definition opt_num (n : option N) : Value :=
  match n with Some n => VNum n | None => VText "N/A" end.

Definition bool_text (b : bool) (yes no : string) : Value := VText (if b then yes else no).

(** A line that is printed only if a count is not zero. *)
Definition if_some (n : N) (l : list Line) : list Line := if 0 <? n then l else [].

(** ** The report of a clean (output.rs) *)

Definition print_clean_report (report : CleanReport) : list Line :=
  let s := rp_storage report in
  let m := rp_memory report in
  [Text "[Storage Deletion]";
   Field "Total Freed" (VBytes (sr_total_freed_bytes s));
   Field "Files Deleted" (VNum (N.of_nat (sr_deleted_files_count s)));
   Field "App Cache" (VBytes (sr_app_cache_bytes s))]
  ++ if_some (sr_oem_logs_bytes s) [Field "OEM Logs" (VBytes (sr_oem_logs_bytes s))]
  ++ if_some (sr_crash_dumps_bytes s) [Field "Crash Dumps" (VBytes (sr_crash_dumps_bytes s))]
  ++ if_some (sr_temp_apks_bytes s) [Field "Temp APKs" (VBytes (sr_temp_apks_bytes s))]
  ++ (if (0 <? sr_frozen_apps_cleaned s)%nat || (0 <? sr_active_apps_cleaned s)%nat then
        [Field "Frozen Apps" (VNum (N.of_nat (sr_frozen_apps_cleaned s)));
         Field "Active Apps" (VNum (N.of_nat (sr_active_apps_cleaned s)))]
      else [])
  ++ if_some (N.of_nat (sr_skipped_files_count s))
       [Field "Skipped Files" (VNum (N.of_nat (sr_skipped_files_count s)))]
  ++ if_some (N.of_nat (sr_errors_count s)) [Field "Errors/Denied" (VNum (N.of_nat (sr_errors_count s)))]
  ++ [Text "[Memory Optimization]";
      Field "ZRAM Compacted" (VBool (mr_zram_compacted m));
      Field "RAM Compacted" (VBool (mr_memory_compacted m));
      Field "Cgroup Reclaim" (VText ((if mr_cgroup_memory_reclaimed m then "true" else "false") +:+ " (" +:+
                                     pretty (mr_reclaimed_mb m) +:+ " MB)"));
      Text "[Storage Maintenance]";
      Field "FITRIM Status" (VBool (tr_fstrim_completed (rp_trim report)))]
  ++ match tr_trimmed_mounts (rp_trim report) with
     | [] => []
     | mounts => [Field "Mounts Trimmed" (VText (String.concat ", " mounts))]
     end
  ++ [Field "F2FS GC Urgent" (VBool (or_f2fs_gc_activated (rp_optimization report)))]
  ++ match rp_cancel_reason report with
     | Some reason => [Field "Cancelled By" (VText (Cancellation.as_str reason))]
     | None => []
     end
  ++ [Field "Job Duration" (VText (pretty (rp_duration_ms report) +:+ " ms"))].

(** ** Status (diagnostics.rs) *)

Section screens.
Context (error_text : CleanerError -> string).

Definition DAEMON_TITLE : list Line := [Rule; Text "ANDROID CACHE CLEANER DAEMON"; Rule].

(** [metrics] is [get_process_metrics_for_pid]. *)
Definition show_status (pid_opt : option N) (answer : result CleanerError Response)
    (metrics : N -> Metrics.ProcessMetrics) : list Line :=
  match answer with
  | Ok (Success (Status s)) =>
      DAEMON_TITLE ++
      [Field "PID" (opt_num pid_opt);
       Field "State" (VText (ds_state s));
       Field "Uptime" (VText (pretty (ds_uptime_secs s) +:+ " seconds"));
       Field "CPU Usage" (VFixed 2 (ds_cpu_usage_pct s) "%");
       Field "RAM (PSS)" (VBytes (ds_ram_pss_bytes s));
       Field "RAM (RSS)" (VBytes (ds_ram_rss_bytes s));
       Field "RAM (Total/VM)" (VBytes (ds_ram_vm_size_bytes s));
       Field "Total Freed" (VBytes (ds_total_freed_bytes s));
       Field "Last Freed" (VBytes (ds_last_freed_bytes s));
       Field "Charging" (VBool (ds_is_charging s));
       Field "Screen State" (VText (ds_screen_state s));
       Field "SoC Temp" (VFixed 1 (ds_soc_temp_c s) " °C");
       Field "Battery Temp" (VFixed 1 (ds_battery_temp_c s) " °C");
       Rule]
  | Ok (ErrorResponse err) => [Complaint ("Daemon returned error: " +:+ err)]
  | Err e =>
      match pid_opt with
      | Some pid =>
          let m := metrics pid in
          DAEMON_TITLE ++
          [Field "PID" (VNum pid);
           Field "State" (VText ("Active (IPC unreachable: " +:+ error_text e +:+ ")"));
           Field "CPU Usage" (VFixed 2 (Metrics.cpu_usage_pct m) "%");
           Field "RAM (PSS)" (VBytes (Metrics.pss_bytes m));
           Field "RAM (RSS)" (VBytes (Metrics.rss_bytes m));
           Field "RAM (Total/VM)" (VBytes (Metrics.vm_size_bytes m));
           Rule]
      | None =>
          [Text "[!] Daemon is currently OFFLINE.";
           Text "Run `cleaner start` to start the daemon in the background."]
      end
  | _ => []
  end.

Definition show_stats (json : bool) (answer : result CleanerError Response) : list Line :=
  match answer with
  | Ok (Success (Status s)) =>
      if json then [Json s]
      else
        [Text "Daemon Lifetime Stats:";
         Field "Uptime" (VText (pretty (ds_uptime_secs s) +:+ " seconds"));
         Field "CPU Usage" (VFixed 2 (ds_cpu_usage_pct s) "%");
         Field "RAM (PSS)" (VBytes (ds_ram_pss_bytes s));
         Field "RAM (RSS)" (VBytes (ds_ram_rss_bytes s));
         Field "RAM (Total/VM)" (VBytes (ds_ram_vm_size_bytes s));
         Field "Total Freed" (VBytes (ds_total_freed_bytes s))]
  | Err e => [Complaint ("Failed to retrieve stats: " +:+ error_text e)]
  | _ => []
  end.

(** ** Idleness (diagnostics.rs) *)

Definition thermal_debug (t : Thermal.t) : string :=
  match t with Thermal.Normal => "Normal" | Thermal.Warm => "Warm" | Thermal.Hot => "Hot"
             | Thermal.Critical => "Critical" end.

Definition show_idle_assessment (explain json : bool) (answer : result CleanerError Response) : list Line :=
  match answer with
  | Ok (Success (IdleData a)) =>
      if json then [Json a]
      else
        [Rule; Text "ADAPTIVE IDLE ASSESSMENT"; Rule;
         Field "Idle State" (VText (IdleState.as_str (state a)));
         Field "Idle Score" (VText (pretty (score a) +:+ " / 100"));
         Field "Thermal State" (VText (thermal_debug (thermal_state a)));
         Field "Standard Clean" (VText (Eligibility.as_str (standard_maintenance a)));
         Field "Heavy Clean" (VText (Eligibility.as_str (heavy_maintenance a)));
         Field "Work Rate" (VText (pretty (rate_limit_ops_per_sec a) +:+ " ops/sec"))]
        ++ match time_until_next_transition a with
           | Some next => [Field "Next Transition" (VText ("in " +:+ pretty (next / EventLoop.NANOS) +:+ "s"))]
           | None => []
           end
        ++ (if explain then
              [ThinRule; Text "Positive Factors:"] ++ map (fun p => Text (Positive.description p)) (positives a)
              ++ match blockers a with
                 | [] => []
                 | bs => Text "Active Blockers:" :: map (fun b => Text (Blocker.description b)) bs
                 end
            else [])
        ++ [Rule]
  | Ok (ErrorResponse err) => [Complaint ("Daemon returned error: " +:+ err)]
  | Err e => [Complaint ("Daemon is unreachable via IPC (" +:+ error_text e +:+ ")")]
  | _ => []
  end.

(** ** The platform (diagnostics.rs) *)

Definition selinux_debug (m : SelinuxMode) : string :=
  match m with Enforcing => "Enforcing" | Permissive => "Permissive"
             | SelinuxDisabled => "Disabled" | SelinuxUnknown => "Unknown" end.
Definition charger_debug (c : Charger.t) : string :=
  match c with Charger.Charging => "Charging" | Charger.Discharging => "Discharging"
             | Charger.Full => "Full" | Charger.Unknown => "Unknown" end.
Definition screen_debug (s : ScreenState.t) : string :=
  match s with ScreenState.On => "On" | ScreenState.Off => "Off" | ScreenState.Unknown => "Unknown" end.

Definition pressure_line (label : string) (m : option PsiMetrics) : list Line :=
  match m with
  | Some m =>
      [Field label (VFixed 2 (avg10 (some m)) "%");
       Field "full avg10" (match full m with Some f => VFixed 2 (avg10 f) "%" | None => VText "N/A" end)]
  | None => []
  end.

(** [users] is [enumerate_users] with the state of each: its id, the state's name and
    its path. *)
Definition show_platform_info `{UnicodeCase} (sys : Sys) (bionic : string -> option string)
    (users : list (N * string * string)) : list Line :=
  let info := detect sys bionic in
  let thermal := read_thermal sys in
  let cg := get_cgroup_diagnostics sys in
  let fz := get_freezer_diagnostics sys bionic in
  let psi := get_psi_diagnostics sys in
  [Rule; Text "ANDROID PLATFORM DIAGNOSTICS"; Rule;
   Field "API Level" (VText (pretty (api_level info) +:+ " (Android " +:+ release_version info +:+ ")"));
   Field "Manufacturer" (VText (manufacturer info));
   Field "Brand / Model" (VText (brand info +:+ " / " +:+ model info));
   Field "Encrypted" (VBool (is_encrypted info));
   Field "SELinux Mode" (VText (selinux_debug (get_selinux_mode sys)));
   Text "[+] Discovered Android User Profiles:"]
  ++ map (fun '(id, enc, path) =>
       Text ("- User ID: " +:+ pretty id +:+ " | State: " +:+ enc +:+ " | Path: " +:+ path)) users
  ++ [Text "[+] Hardware Diagnostics:";
      Field "SoC Temp" (VFixed 1 (max_soc_temp_c thermal) " °C");
      Field "Battery Temp" (VFixed 1 (battery_temp_c thermal) " °C");
      Field "Charger State" (VText (charger_debug (get_charger_state sys)));
      Field "Screen State" (VText (screen_debug (get_screen_state sys)));
      Field "F2FS GC Avail" (VBool (is_available (discover sys)));
      Text "[+] Cgroups & Kernel Resource Isolation:";
      Field "Hierarchy" (VText (cd_detected_version cg));
      Field "Mem Reclaim" (bool_text (cd_supports_memory_reclaim cg) "Supported (Cgroup v2)" "Not Available / v1")]
  ++ match cd_controllers_available cg with
     | [] => []
     | l => [Field "Controllers" (VText (String.concat ", " l))]
     end
  ++ match cd_current_process_cgroups cg with
     | [] => []
     | g :: _ => [Field "Current Group" (VText g)]
     end
  ++ [Text "[+] Android App Freezer (Cgroup Freezer):";
      Field "App Freezer" (bool_text (fz_is_cached_apps_freezer_enabled fz) "Enabled (Active)" "Disabled / Inactive");
      Field "Hierarchy" (VText (fz_freezer_cgroup_version fz));
      Field "Frozen UIDs" (VText (pretty (N.of_nat (fz_total_frozen_uids_count fz))
                                  +:+ " processes currently frozen in RAM"));
      Text "[+] Kernel Pressure Stall Information (PSI):";
      Field "PSI Supported" (bool_text (pd_is_supported psi) "Yes (/proc/pressure active)"
                               "No / Kernel PSI disabled");
      Field "Pressure Lvl" (VText (pd_current_level psi))]
  ++ pressure_line "Mem Pressure" (pd_memory_metrics psi)
  ++ pressure_line "I/O Pressure" (pd_io_metrics psi)
  ++ [Rule].
End screens.

(** ** Properties *)

Lemma round_div_near a b : 0 < b -> 2 * a <= 2 * round_div a b * b + b /\ 2 * round_div a b * b <= 2 * a + b.
Proof.
  intros Hb. pose proof (N.div_mod a b ltac:(lia)) as Hd. pose proof (N.mod_lt a b ltac:(lia)) as Hm.
  unfold round_div. set (q := a / b) in *. set (r := a mod b) in *.
  destruct (N.ltb_spec (2 * r) b); [nia|]. destruct (N.ltb_spec b (2 * r)); [nia|].
  destruct (N.even q); nia.
Qed.

Lemma as_f64_exact n : n < 2 ^ 53 -> as_f64 n = n.
Proof.
  intros Hn. unfold as_f64. assert (N.size n <= 53) as Hs.
  { destruct (decide (n = 0)) as [->|]; [done|]. rewrite N.size_log2 by done.
    pose proof (N.log2_lt_pow2 n 53 ltac:(lia)). lia. }
  replace (N.size n - 53) with 0 by lia. unfold round_div. rewrite N.pow_0_r, N.div_1_r, N.mod_1_r, N.mul_1_r. done.
Qed.

(** What is printed, as a number of hundredths of its unit. *)
Definition printed (bytes : N) : N * N :=
  let unit := if 1073741824 <=? bytes then 1073741824 else if 1048576 <=? bytes then 1048576 else 1024 in
  (round_div (as_f64 bytes * 100) unit, unit).

(** A size is printed to the nearest hundredth of the largest unit that fits, exactly
    below a KiB: for every size below 2^53 bytes the two decimals shown are off by at
    most half a hundredth of the unit, and the number shown is at least one. *)
Theorem format_bytes_accurate bytes :
  bytes < 2 ^ 53 ->
  (bytes < 1024 /\ format_bytes bytes = pretty bytes +:+ " B") \/
  (1024 <= bytes /\
   let '(h, unit) := printed bytes in
   (exists name, name ∈ [" GB"; " MB"; " KB"]%string /\ format_bytes bytes = hundredths h +:+ name) /\
   100 <= h /\ 200 * bytes <= 2 * h * unit + unit /\ 2 * h * unit <= 200 * bytes + unit).
Proof.
  intros Hb. unfold format_bytes, in_unit, printed. rewrite !as_f64_exact by done.
  change (1024 * 1024 * 1024) with 1073741824. change (1024 * 1024) with 1048576.
  destruct (N.leb_spec 1073741824 bytes); [|destruct (N.leb_spec 1048576 bytes); [|destruct (N.leb_spec 1024 bytes)]];
    [right..|by left].
  - pose proof (round_div_near (bytes * 100) 1073741824 ltac:(lia)). split; [lia|].
    split; [exists " GB"%string; split; [set_solver|done]|]. lia.
  - pose proof (round_div_near (bytes * 100) 1048576 ltac:(lia)). split; [lia|].
    split; [exists " MB"%string; split; [set_solver|done]|]. lia.
  - pose proof (round_div_near (bytes * 100) 1024 ltac:(lia)). split; [lia|].
    split; [exists " KB"%string; split; [set_solver|done]|]. lia.
Qed.

Lemma format_bytes_accurate_witness :
  format_bytes 1610612736 = "1.50 GB"%string /\ format_bytes 1048575 = "1024.00 KB"%string /\
  (1024 <= 1610612736 /\
   let '(h, unit) := printed 1610612736 in
   (exists name, name ∈ [" GB"; " MB"; " KB"]%string /\ format_bytes 1610612736 = hundredths h +:+ name) /\
   100 <= h /\ 200 * 1610612736 <= 2 * h * unit + unit /\ 2 * h * unit <= 200 * 1610612736 + unit).
Proof.
  split; [vm_compute; reflexivity|]. split; [vm_compute; reflexivity|].
  destruct (format_bytes_accurate 1610612736 ltac:(vm_compute; reflexivity)) as [[H _]|H]; [|exact H].
  vm_compute in H. discriminate H.
Defined.

(** The two displays of a size show the same digits, in the same unit. *)
Lemma human_same_digits b :
  exists digits unit, format_bytes b = digits +:+ unit +:+ "B" /\
    (format_human b = digits +:+ unit +:+ "B" \/ format_human b = digits +:+ unit +:+ "iB").
Proof.
  unfold format_bytes, format_human.
  repeat case_match; [exists (in_unit b 1073741824), " G"%string | exists (in_unit b 1048576), " M"%string
    | exists (in_unit b 1024), " K"%string | exists (pretty b), " "%string]; eauto.
Qed.

(** An error answer to a request for statistics is dropped without a word. *)
Lemma stats_error_silent error_text json err : show_stats error_text json (Ok (ErrorResponse err)) = [].
Proof. done. Qed.

(** The offline screen means that the call failed and no process was found. *)
Lemma offline_iff error_text pid_opt answer metrics :
  Text "[!] Daemon is currently OFFLINE." ∈ show_status error_text pid_opt answer metrics <->
  pid_opt = None /\ exists e, answer = Err e.
Proof.
  split.
  - unfold show_status. destruct answer as [[[]|err]|e]; cbn; rewrite ?elem_of_nil; try done.
    + rewrite !elem_of_cons, elem_of_nil. naive_solver.
    + rewrite !elem_of_cons, elem_of_nil. naive_solver.
    + destruct pid_opt; [|eauto]. cbn. rewrite !elem_of_cons, elem_of_nil. naive_solver.
  - intros [-> [e ->]]. left.
Qed.
