(* ===== verification/Cli.v ===== *)
(** The command line: src/cli/mod.rs with src/cli/args.rs, and [init_config] and
    [explain_path] of src/cli/diagnostics.rs.

    The theorems: a command runs on a configuration that passed validation; explaining
    a path never clears a protected one, but it gives every file the age of zero and no
    package, so it denies what the cleaner deletes and allows what the cleaner spares. *)
From Stdlib Require Import Ascii String.
From S2P Require Import Prelude Paths Domain Text Config Safety Policy DaemonConfig ConfigFile.
From S2P Require Import Screens.
From S2P Require Control Pidfile.

(** ** Paths *)

(** [Path::parent] *)
Definition parent (p : string) : option string :=
  if has_parent p then
    match str_split SLASH p with
    | [] => None
    | first :: rest =>
        match reverse (drop_skipped (reverse rest)) with
        | [] => Some EmptyString
        | rest' =>
            let s := String.concat "/" (first :: reverse (drop_skipped (reverse (removelast rest')))) in
            Some (if str_is_empty s && is_absolute p then "/"%string else s)
        end
    end
  else None.

(** ** Explaining a path (diagnostics.rs) *)

(** What [symlink_metadata] gives. *)
Record Meta := mkMeta {
  me_dev : N;
  me_ino : N;
  me_uid : N;
  me_gid : N;
  me_len : N;
  me_is_dir : bool;
  me_is_symlink : bool;
}.

(** The configuration is taken over field by field, without its own validation. *)
Definition explain_config (config : DaemonConfig) : EffectiveConfig :=
  mkEffective ConfigGeneration_INITIAL {|
    maintenance_interval_secs := dc_maintenance_interval_secs config;
    min_screen_off_secs := dc_min_screen_off_secs config;
    max_soc_temp_c := dc_max_soc_temp_c config;
    max_battery_temp_c := dc_max_battery_temp_c config;
    min_app_cache_age_secs := saturating_mul (cr_min_file_age_hours (dc_cleaning config)) 3600;
    app_cache_threshold_bytes := 50 * 1024 * 1024;
    dry_run := false;
    clean_app_cache := cr_clean_app_cache (dc_cleaning config);
    clean_code_cache := cr_clean_code_cache (dc_cleaning config);
    clean_tombstones := cr_clean_crash_dumps (dc_cleaning config);
    clean_oem_logs := cr_clean_oem_logs (dc_cleaning config);
    clean_temp_apks := cr_clean_temp_apks (dc_cleaning config);
    whitelist_packages := sc_whitelist_packages (dc_safety config);
    protected_paths := sc_protected_directory_names (dc_safety config);
    fstrim_interval_secs := 86400;
    vacuum_db_interval_secs := 72 * 3600 |}.

Definition explain_target (target_path : string) (meta : option Meta) : TargetDescriptor :=
  mkTarget "manual:audit:target" AppCache (default target_path (parent target_path))
    (match meta with Some m => me_dev m | None => 0 end)
    (match meta with Some m => me_ino m | None => 0 end)
    0 0 None StandardCache CatalogGeneration_INITIAL.

(** [None] when the size is refused, which is a panic; [mtime] is the current time. *)
Definition explain_candidate (target_path : string) (meta : option Meta) (mtime : N) : option Candidate :=
  match ByteCount.new (match meta with Some m => me_len m | None => 0 end) with
  | None => None
  | Some size =>
      let file_name := match file_name target_path with
                       | Some n => if is_utf8 n then n else "target"%string
                       | None => "target"%string
                       end in
      Some (mkCandidate 1 "manual:audit:target" (default RelativePath.empty (RelativePath.parse file_name))
              (mkFileIdentity (match meta with Some m => me_dev m | None => 0 end)
                              (match meta with Some m => me_ino m | None => 0 end))
              size mtime None
              (match meta with Some m => me_is_dir m | None => false end)
              (match meta with Some m => me_is_symlink m | None => false end))
  end.

Inductive Verdict :=
| Eligible (reason : DecisionReason)
| Protected (reason : DecisionReason)
| Skipped (reason : DecisionReason)
| RejectedBySafety (e : CleanerError)
| Panicked.

(** The clock is read for the candidate, the gate, the policy and its decision. *)
Definition explain_path (config : DaemonConfig) (target_path : string) (meta : option Meta)
    (t_mtime t_gate t_policy t_decided : N) : Verdict :=
  match explain_candidate target_path meta t_mtime with
  | None => Panicked
  | Some candidate =>
      let descriptor := explain_target target_path meta in
      match validate_candidate candidate descriptor t_gate with
      | Err e => RejectedBySafety e
      | Ok validated =>
          match evaluate_candidate validated descriptor (explain_config config) t_policy t_decided with
          | Allow permit => Eligible (pp_reason permit)
          | Deny deny => Protected (pd_reason deny)
          | Skip skip => Skipped (ps_reason skip)
          end
      end
  end.

(** The screen: what is known of the path, and the verdict. *)
Definition meta_lines (m : Meta) : list Line :=
  [Field "Device / Inode" (VText (pretty (me_dev m) +:+ " / " +:+ pretty (me_ino m)));
   Field "UID / GID" (VText (pretty (me_uid m) +:+ " / " +:+ pretty (me_gid m)));
   Field "Is Symlink" (VBool (me_is_symlink m));
   Field "File Size" (VBytes (me_len m))].

Definition explain_head (target_path : string) (exists_ : bool) (meta : option Meta) : list Line :=
  [Rule; Screens.Text "PATH DECISION AUDIT"; Rule; Field "Target Path" (VText target_path);
   Field "Exists on Disk" (VBool exists_)]
  ++ match meta with Some m => meta_lines m | None => [] end.

(** ** The default configuration (diagnostics.rs) *)

Definition init_config `{TomlCodec} (error_text : CleanerError -> string) (fault : SaveCall -> option Errno)
    (written : nat) (output : string) (v : Volume) : Line * list Volume :=
  let '(r, states) := save_to_file fault written DaemonConfig_default output v in
  (match r with
   | Ok _ => Screens.Text ("[+] Generated default configuration at: " +:+ output)
   | Err e => Complaint ("Failed to write configuration: " +:+ error_text e)
   end, states).

(** ** Commands (args.rs) and their dispatch (mod.rs) *)

Inductive Commands :=
| Start (foreground : bool)
| Daemon
| Stop
| Restart (foreground : bool)
| Clean (deep trim zram dry_run json : bool)
| Status
| Stats (json : bool)
| CancelCommand
| Reload
| Explain (path : string)
| Idle (explain json : bool)
| Info
| ConfigInit (output : string).

Record Cli := mkCli { cli_command : option Commands; cli_config : option string }.

(** The function that is called, with its arguments. *)
Inductive Invocation :=
| StartDaemon (config_path : option string) (foreground : bool)
| RunDaemon (config : DaemonConfig) (path : option string)
| StopDaemon
| RestartDaemon (config_path : option string) (foreground : bool)
| ExecuteClean (config : DaemonConfig) (deep trim zram dry_run json : bool)
| ShowStatus
| ShowStats (json : bool)
| CancelOperation
| ReloadConfig
| ExplainPath (config : DaemonConfig) (path : string)
| ShowIdleAssessment (explain json : bool)
| ShowPlatformInfo
| InitConfig (output : string).

Definition dispatch_command `{TomlCodec} (d : Disk) (cli : Cli) : Invocation :=
  let '(config, active_config_path) := load_or_default_with_path d (cli_config cli) in
  match default Status (cli_command cli) with
  | Start foreground => StartDaemon active_config_path foreground
  | Daemon => RunDaemon config active_config_path
  | Stop => StopDaemon
  | Restart foreground => RestartDaemon active_config_path foreground
  | Clean deep trim zram dry_run json => ExecuteClean config deep trim zram dry_run json
  | Status => ShowStatus
  | Stats json => ShowStats json
  | CancelCommand => CancelOperation
  | Reload => ReloadConfig
  | Explain path => ExplainPath config path
  | Idle explain json => ShowIdleAssessment explain json
  | Info => ShowPlatformInfo
  | ConfigInit output => InitConfig output
  end.

(** The commands that control a daemon, run. *)
Definition perform `{TomlCodec} (e : Control.Env) (rounds : nat) (i : Invocation) : option (Control.Ctl bool) :=
  match i with
  | StartDaemon path fg => Some (Control.start_daemon e path fg)
  | RunDaemon config path => Some (_ ← Control.did e (Control.RanDaemon config path); mret true)
  | StopDaemon => Some (Control.stop_daemon e)
  | RestartDaemon path fg => Some (Control.restart_daemon e path fg)
  | ExecuteClean config deep trim zram dry_run json =>
      Some (Control.execute_clean e rounds config deep trim zram dry_run json)
  | CancelOperation => Some (_ ← Control.cancel_operation e; mret true)
  | ReloadConfig => Some (_ ← Control.reload_config e; mret true)
  | _ => None
  end.

(** ** Properties *)

Definition invoked_config (i : Invocation) : option DaemonConfig :=
  match i with
  | RunDaemon c _ | ExecuteClean c _ _ _ _ _ | ExplainPath c _ => Some c
  | _ => None
  end.

(** Every command that is handed a configuration gets one that passed validation. *)
Lemma dispatched_config_valid `{TomlCodec} d cli c :
  invoked_config (dispatch_command d cli) = Some c -> validate c = Ok tt.
Proof.
  pose proof (proj1 (loaded_config_valid d (cli_config cli))) as Hv. unfold load_or_default in Hv.
  unfold dispatch_command. destruct (load_or_default_with_path d (cli_config cli)) as [config path].
  cbn in Hv. destruct (default Status (cli_command cli)); cbn; try done; by intros [= <-].
Qed.

Lemma parent_examples :
  map parent ["/data/app/x"; "/a"; "/"; "a"; "a//b/"; "./a"; "/a/./b"; ""]%string =
  [Some "/data/app"; Some "/"; None; Some ""; Some "a"; Some "."; Some "/a"; None]%string.
Proof. vm_compute. reflexivity. Qed.

(** The policy on a candidate that differs in its age only. *)
Lemma explain_gate target_path meta t1 t2 c1 c2 gate v1 :
  explain_candidate target_path meta t1 = Some c1 -> explain_candidate target_path meta t2 = Some c2 ->
  validate_candidate c1 (explain_target target_path meta) gate = Ok v1 ->
  exists v2, validate_candidate c2 (explain_target target_path meta) gate = Ok v2 /\ sv_candidate v2 = c2 /\
    c_rel_path c2 = c_rel_path (sv_candidate v1) /\ c_mtime c2 = t2 /\ c_is_dir c2 = c_is_dir (sv_candidate v1).
Proof.
  unfold explain_candidate. destruct (ByteCount.new _) as [size|]; [|done]. intros [= <-] [= <-].
  unfold validate_candidate. cbn [c_target_id c_identity c_rel_path].
  repeat (destruct (negb _); [done|]). destruct (str_is_empty _); [done|].
  destruct (verify_target_root_safety _); [|done]. cbn. intros [= <-]. eexists. split; [done|]. done.
Qed.

(** Explaining a path is blind to its age: for anything but a directory, with a
    minimal age configured and within an hour, the verdict is never that it is eligible;
    and when the verdict is that it is too young, the policy allows the deletion of that
    very entry as soon as its real age is taken. *)
Theorem explain_is_age_blind config target_path m t_mtime t_gate t_policy t_decided :
  me_is_dir m = false -> 0 < cr_min_file_age_hours (dc_cleaning config) -> t_policy < t_mtime + 3600 ->
  match explain_path config target_path (Some m) t_mtime t_gate t_policy t_decided with
  | Eligible _ => False
  | Protected WithinRetentionGracePeriod =>
      forall real c, explain_candidate target_path (Some m) real = Some c ->
        min_app_cache_age_secs (validated (explain_config config)) <= age_secs real t_policy ->
        exists v, validate_candidate c (explain_target target_path (Some m)) t_gate = Ok v /\
          is_allowed (evaluate_candidate v (explain_target target_path (Some m)) (explain_config config)
                        t_policy t_decided) = true
  | _ => True
  end.
Proof.
  intros Hdir Hage Ht. unfold explain_path.
  destruct (explain_candidate target_path (Some m) t_mtime) as [c1|] eqn:Ec1; [|done].
  destruct (validate_candidate c1 _ t_gate) as [v1|e] eqn:Ev1; [|done].
  assert (c_is_dir (sv_candidate v1) = false /\ c_mtime (sv_candidate v1) = t_mtime) as [Hd1 Hm1].
  { destruct (explain_gate _ _ _ _ _ _ _ _ Ec1 Ec1 Ev1) as (v2 & Hv2 & Hc & _ & Hmt & Hd).
    rewrite Ev1 in Hv2. injection Hv2 as <-. rewrite <- Hd, Hc. split; [|done].
    unfold explain_candidate in Ec1. destruct (ByteCount.new _); [|done]. by injection Ec1 as <-. }
  assert (3600 <= min_app_cache_age_secs (validated (explain_config config))) as Hmin.
  { cbn. unfold saturating_mul, U64_MAX. lia. }
  assert (td_package_name (explain_target target_path (Some m)) = None) as Hpkg by done.
  pose proof (fun real c => explain_gate target_path (Some m) t_mtime real c1 c t_gate v1 Ec1) as Hgate.
  revert Hpkg Hgate Ev1. generalize (explain_target target_path (Some m)). intros tg Hpkg Hgate Ev1.
  unfold evaluate_candidate, evaluate_candidate_with_freezer, age_secs, saturating_sub.
  rewrite Hd1, Hm1, Hpkg. cbn [negb andb].
  destruct (category_disabled _ _) eqn:E0; [done|].
  destruct (is_protected_bytecode _) eqn:E1; [done|].
  rewrite (proj2 (N.ltb_lt _ _)) by lia. unfold deny. cbn [pd_reason]. intros real c2 Ec2 Hreal.
  destruct (Hgate _ _ Ec2 Ev1) as (v2 & Hv2 & Hc & Hrel & Hmt & Hd).
  exists v2. split; [done|]. rewrite Hc, Hrel, Hmt, Hd, Hd1, E1. cbn [negb andb].
  by rewrite (proj2 (N.ltb_ge _ _)) by exact Hreal.
Qed.

Definition old_file : Meta := mkMeta 5 77 10001 10001 4096 false false.

Lemma explain_is_age_blind_witness :
  explain_path DaemonConfig_default "/data/data/com.app/cache/f.tmp" (Some old_file) 200000 200000 200000 200000
  = Protected WithinRetentionGracePeriod /\
  exists v, is_allowed (evaluate_candidate v (explain_target "/data/data/com.app/cache/f.tmp" (Some old_file))
              (explain_config DaemonConfig_default) 200000 200000) = true.
Proof.
  split; [vm_compute; reflexivity|].
  pose proof (explain_is_age_blind DaemonConfig_default "/data/data/com.app/cache/f.tmp" old_file
    200000 200000 200000 200000 eq_refl ltac:(vm_compute; reflexivity) ltac:(vm_compute; reflexivity)) as Hx.
  assert (explain_path DaemonConfig_default "/data/data/com.app/cache/f.tmp" (Some old_file)
            200000 200000 200000 200000 = Protected WithinRetentionGracePeriod) as E by (vm_compute; reflexivity).
  rewrite E in Hx. edestruct (Hx 0) as (v & _ & Hv); [vm_compute; reflexivity|vm_compute; discriminate|].
  by exists v.
Defined.

(** Nor does it know the package: a directory of a whitelisted one is called eligible,
    where the policy on a catalogued target denies it. *)
Lemma explain_ignores_whitelist :
  let config := mkDaemonConfig 3600 EmptyString EmptyString true true 60 (f32_of_Z 60) (f32_of_Z 45)
    (dc_cleaning DaemonConfig_default) (dc_optimization DaemonConfig_default)
    (mkSafetyConfig (sc_mode (dc_safety DaemonConfig_default)) ["com.app"%string] ["databases"%string]) in
  let path := "/data/data/com.app/cache/dir"%string in
  let meta := Some (mkMeta 5 77 10001 10001 4096 true false) in
  explain_path config path meta 0 0 0 0 = Eligible ExceedsRetentionAge /\
  forall c v, explain_candidate path meta 0 = Some c ->
    validate_candidate c (explain_target path meta) 0 = Ok v ->
    is_allowed (evaluate_candidate v
      (mkTarget "manual:audit:target" AppCache "/data/data/com.app/cache" 5 77 0 0 (Some "com.app"%string)
         StandardCache CatalogGeneration_INITIAL) (explain_config config) 0 0) = false.
Proof.
  intros config path meta. split; [vm_compute; reflexivity|]. intros c v _ _. vm_compute. reflexivity.
Qed.

(** What it does not clear stays so: below a protected root nothing is eligible. *)
Lemma explain_respects_roots config target_path meta t1 t2 t3 t4 reason :
  explain_path config target_path meta t1 t2 t3 t4 = Eligible reason ->
  ~ root_protected (td_base_path (explain_target target_path meta)).
Proof.
  unfold explain_path. destruct (explain_candidate _ _ _) as [c|]; [|done].
  destruct (validate_candidate _ _ _) as [v|e] eqn:Ev; [|done]. intros _.
  destruct (validate_candidate_inv _ _ _ _ Ev) as [Hsafe _]. apply Hsafe.
Qed.

(** A file of more than 10 GiB is not explained at all. *)
Lemma explain_panics config path m t1 t2 t3 t4 :
  ByteCount.MAX_SAFE < me_len m -> explain_path config path (Some m) t1 t2 t3 t4 = Panicked.
Proof.
  intros Hbig. unfold explain_path, explain_candidate, ByteCount.new.
  by rewrite (proj2 (N.leb_gt _ _)).
Qed.
